(* ===== verification/_CoqProject ===== *)
-Q . S2P
Prelude.v
GoStrings.v
StringOrder.v
Sha256.v
GoErrors.v
GoTime.v
Utf8.v
Json.v
JsonRoundtrip.v
Api.v
Replication.v
Names.v
Syncoid.v
Ssh.v
ReceiverCommand.v
ReceiverGrant.v
Effects.v
Kube.v
RunController.v
Cluster.v
DestinationLock.v
RunSafety.v
RunProperties.v
ScheduleController.v
ScheduleProperties.v
GrantJson.v
ReceiverSnapshot.v
ReceiverController.v
ReceiverSafety.v
FileSystem.v
ReceiverModule.v
MemoryFS.v
ReceiverAdmission.v
ReceiverPublication.v
ReceiverSystem.v
CommandExec.v
ReceiverDaemon.v
SyncoidRuntime.v
Manager.v
