(* ===== verification/Prelude.v ===== *)
(** * The ZFS replication controller, in Rocq

    The program replicates ZFS datasets between the nodes of a Kubernetes cluster. A
    [ZFSReplicationRun] asks for one replication; a [ZFSReplicationSchedule] creates
    runs from a cron expression. For a run the manager writes an SSH key, a
    [ZFSReceiveTask] that asks the receiver of the target node for an authorization
    with a lease, and a Job that sends. The receiver of a node publishes the tasks of
    that node as a snapshot of grants on its disk, which sshd reads; a session of the
    sender is a forced command, which admits the commands Syncoid asks for against
    the policy of one grant, and runs them.

    The library translates the Go code under src/ function by function, and proves
    what makes the parts correct, alone and together.

    ** How code is translated

    A pure function is a function. One that may fail returns [result], with the
    errors as values ([error] keeps a format and its arguments; GoErrors renders
    them where the program stores the text). Strings are byte strings and are decoded
    as Go decodes them; instants and durations are integers of nanoseconds, with the
    saturation of [Time.Sub].

    A function that talks to the API server, the file system, processes or sshd is a
    tree of calls (Effects): a node is an operation of a signature, with a
    continuation for every answer. The executions ([exec]) allow any answer at every
    call, so that a theorem about all executions covers stale caches, conflicts,
    crashes of other parts and interference between two calls. What precedes a call
    is proved by the program logic [safe]; [interp] replaces the operations of one
    component by the program of another.

    ** The files

    Go and its libraries:
    - Prelude: errors, the result monad, tactics and shared lemmas.
    - GoStrings, Utf8, StringOrder: strings, unicode/utf8, strconv, and their order.
    - GoErrors, GoTime, Json, JsonRoundtrip: fmt and errors, time, encoding/json.
    - Sha256: the digest, executable; nothing but its length is assumed or used.
    - Ssh: the key library, a parameter. FileSystem: os and path/filepath.
    - Effects: calls, executions, the logic of safety, composition.
    - Kube: the client of the API server. Cluster and MemoryFS: one concrete API
      server and one concrete file system, to execute the programs on.

    The data and the contract of the two sides:
    - Api: the resources of api/v1alpha1/zfsreplication_types.go.
    - Replication: internal/replication/replication.go, dataset and snapshot names.
    - Names: internal/runchildren/names.go and internal/controller/names.go.
    - Syncoid: internal/syncoid/contract.go and compression.go; one run translated to
      the arguments of the sender and to the policy of the receiver.

    The manager:
    - RunController: internal/controller/zfsreplication_run_controller.go,
      sender_job.go, ssh_key.go, names.go; [Reconcile] is the whole reconciliation.
    - RunSafety, RunProperties: what every write is preceded by, and consequences.
    - DestinationLock: the order in which runs wait for a destination, and what
      [Reconcile] does with a run that waits.
    - ScheduleController, ScheduleProperties:
      internal/controller/zfsreplication_schedule_controller.go and cron.go.
    - Manager: cmd/manager/main.go and internal/release/image.go.

    The receiver:
    - ReceiverCommand: internal/receiverauthorization/command_parse.go,
      command_authorize.go and the plans of authorization.go.
    - CommandExec: internal/receiverauthorization/command_exec.go.
    - ReceiverGrant, GrantJson: internal/receiverauthorization/grant.go, and
      cmd/zfsrep-receiver/receiver_policy.go.
    - ReceiverSnapshot: the pure part of internal/receiverauthorization/snapshot.go:
      identity, manifest, references and lapses.
    - ReceiverModule: the rest of snapshot.go and [Admit] of authorization.go, over
      file operations.
    - ReceiverAdmission, ReceiverPublication: what an admission rests on, and the
      order of a publication.
    - ReceiverController, ReceiverSafety:
      cmd/zfsrep-receiver/authorization_controller.go and the configuration of main.go.
    - ReceiverSystem: the controller with the module as its publisher.
    - ReceiverDaemon: the two entry points, cmd/zfsrep-receiver/main.go and
      forced_command.go.

    The sender:
    - SyncoidRuntime: internal/syncoidruntime and cmd/zfsrep-sender/main.go.

    ** What is shown

    Receiver authorization. The two translations of a run agree flag by flag
    ([contract_agreement]) and the receive a run needs is admitted
    ([contract_receive_admitted]). The authorizer accepts exactly what a declarative
    policy permits ([authorize_spec]), and an accepted command touches the target
    only, with fixed programs ([command_safety]). Compilation judges each candidate
    on its own but for shared identities, in any order of Go's maps
    ([compileCandidates_spec], [compile_grants_sound]). An admission changes nothing
    and rests on a grant of the active snapshot whatever the file system answers
    ([admit_sound]), and on an unchanging one admits exactly what that grant
    authorizes ([admit_decides]); a session starts processes of an admitted plan only
    ([forced_command_runs_admitted]), and all of them are waited for
    ([pipeline_result]).

    Publication. A generation is moved into place complete, then named in the
    manifest, then the others go ([publication_order]); a failure reports the active
    snapshot usable only after reading it whole ([failed_publication_usable]); a task
    is Ready only after its line is in the manifest ([task_reported_as_published],
    [ready_after_commit]); a lapsed lease never comes back
    ([lapsed_never_granted_again]), and as long as leases are granted the receiver
    comes back when the first of them lapses ([receiver_requeue_bounds]); sshd starts
    after the authority of an earlier process is gone ([daemon_starts_in_order]).
    Equal identities of snapshots mean the same grants as far as SHA-256 tells their
    two texts apart ([canonicalSnapshot_identity]). The text forms read back:
    [decodeGrant_roundtrip], [decodeGrant_strict], [forced_command_roundtrip],
    [openSSHExpiryTime_bounds]; a reader of authorized_keys, written down apart from
    the rendering, finds in each line of a manifest a restricted key that expires and
    is forced to its grant ([manifest_lines]).

    Runs. Every write of a reconciliation goes to the run's own objects
    ([writes_only_own_objects]); a sender is created only on a ready, unexpired task
    ([sender_created_on_ready_task]); leases, identities, success and cleanup have
    their guards ([lease_renewed_only_while_valid], [success_only_on_own_finished_job],
    [terminal_run_only_cleans_up]); a run is bound to a sender only directly after it
    was observed without one, by a fresh read ([sender_identity_bound_once]). The lock
    excludes and makes progress ([destinationLocked_spec], [destination_progress]),
    but the reconciliation of a run that is receiving can give it up
    ([in_progress_run_yields]). Cluster executes the life of a run from its creation
    to its success, and a reconciliation on a stale cache, which overwrites the start
    time on the server ([stale_cache_restarts]).

    Schedules. Runs are created for the latest due activation only
    ([scheduled_run_created_when_due]), the recorded time moves forward
    ([schedule_time_advances]), and pruning takes the finished runs beyond the limit
    of their outcome one by one from the oldest ([schedule_prunes_oldest_finished]).

    The sender leaves one usable message and its exit code ([sender_exit],
    [failure_message_bounds]).

    ** Bounds and fuel

    - [dueAndNext] has fuel for one turn a second since the last activation, and two
      more. An activation falls on a whole second and is later than the one before,
      so the fuel never runs out ([dueAndNext_spec]).
    - [authorizeReceiverCommand] has fuel two: a batch is split at its semicolons, so
      a part has none and is not a batch; more fuel gives the same answer.
    - The JSON reader has two turns of fuel for each byte, and two more; every turn
      takes a byte or leaves a level (JsonRoundtrip).
    - The chain of the parents of a path has as many steps as the path has bytes; the
      walk of a directory is at most 4096 levels deep, the limit of the system on the
      length of a path; trimming a message of 4096 bytes takes at most as many steps.

    ** Parameters

    Code that is not in the repository is a parameter, with what the program relies
    on of it: the key library ([SSHKeys], [SSHLaws]: the line of a key parses back to
    it), the tables of Unicode above ASCII ([UnicodeTables]), the cron library
    ([Cron], [CronLaws]: the next activation is later, on a whole second),
    [SetControllerReference] ([ControllerRuntime]), the flags that libraries register,
    the environment variables, and the order in which Go ranges over a map. Each has a small instance, with which the witnesses are evaluated.

    ** What is not modelled

    - api/v1alpha1/zz_generated.deepcopy.go and the registration of the API group:
      records are values here, so that a copy is the value.
    - Watches, predicates and field indexes registered with the manager: when a
      reconciliation is started, not what it does. A reconciliation is modelled for
      any object at any time.
    - Logging, contexts as such (a cancelled call is one that answers an error), and
      the test hooks of the receiver module, which are nil in the program.
    - The mutual exclusion of two output streams of a pipeline, the copying of
      streams and what the processes themselves do: zfs, Syncoid, sshd are calls. *)
From stdpp Require Export base tactics decidable option list list_numbers strings pretty sets gmap sorting.
From Stdlib Require Export ZArith Lia.
From Stdlib Require Export Ascii.
Open Scope char_scope.
Open Scope stdpp_scope.

(** Go prelude: error values, the result monad and the tactics shared by
    every file. *)

Declare Scope go_scope.
Delimit Scope go_scope with go.
Open Scope stdpp_scope.
Open Scope go_scope.

(** Boolean equality as Go writes it, over any type with decidable equality. *)
Notation "a ≟ b" := (bool_decide (a = b)) (at level 70) : go_scope.
Notation "a ≠? b" := (negb (bool_decide (a = b))) (at level 70) : go_scope.

(** ** Error values *)

(** The reason of a Kubernetes API status error
    (k8s.io/apimachinery StatusReason), as the program distinguishes them. *)
Inductive api_reason := NotFound | AlreadyExists | OtherReason.

(** The operating-system errors the program tells apart. *)
Inductive os_reason := ErrNotExist | OtherOS.

(** Go [error] values. [errorf] keeps the format string and the arguments of
    [fmt.Errorf] unrendered; [joined] is [errors.Join]. *)
Inductive error :=
  | errorf (format : string) (args : list fmt_arg)
  | apiError (reason : api_reason) (message : string)
  | osError (reason : os_reason) (message : string)
  | exitError (code : Z) (message : string)
  | joined (errs : list error)
with fmt_arg :=
  | FStr (s : string)
  | FInt (z : Z)
  | FErr (e : error).

(** [apierrors.IsNotFound] and [apierrors.IsAlreadyExists] on an error as the
    client returned it. *)
Definition IsNotFound (e : error) : bool :=
  match e with apiError NotFound _ => true | _ => false end.

Definition IsAlreadyExists (e : error) : bool :=
  match e with apiError AlreadyExists _ => true | _ => false end.

(** A Go function whose only result is an [error]: [None] is [nil]. *)
Abbreviation goerr := (option error).

(** [client.IgnoreNotFound]. *)
Definition IgnoreNotFound (e : goerr) : goerr :=
  match e with
  | Some e' => if IsNotFound e' then None else Some e'
  | None => None
  end.

(** [errors.Join]: [nil] when every argument is [nil]. *)
Definition errors_Join (es : list goerr) : goerr :=
  match omap id es with
  | [] => None
  | l => Some (joined l)
  end.

(** ** The result monad *)

(** A Go function returning [(A, error)]: the value is meaningful only when the
    error is [nil], which is how every caller of the modelled functions reads
    it. *)
Inductive result (A : Type) :=
  | Ok (a : A)
  | Err (e : error).
Arguments Ok {A} a.
Arguments Err {A} e.

#[export] Instance result_ret : MRet result := @Ok.
#[export] Instance result_bind : MBind result := λ A B f r,
  match r with Ok a => f a | Err e => Err e end.
#[export] Instance result_fmap : FMap result := λ A B f r,
  match r with Ok a => Ok (f a) | Err e => Err e end.

(** [if err := check; err != nil { return err }]. *)
Definition check (e : goerr) : result unit :=
  match e with Some e' => Err e' | None => Ok tt end.

(** [if cond { return err }]. *)
Definition fail_if (cond : bool) (e : error) : result unit :=
  if cond then Err e else Ok tt.

Definition is_ok {A} (r : result A) : bool :=
  match r with Ok _ => true | Err _ => false end.

Definition err_of {A} (r : result A) : goerr :=
  match r with Ok _ => None | Err e => Some e end.

(** [fmt.Errorf] with a wrapping of the error of a call. *)
Definition wrap_err {A} (r : result A) (f : error → error) : result A :=
  match r with Ok a => Ok a | Err e => Err (f e) end.

(** [for _, x := range l { if err := f(x); err != nil { return err } }]. *)
Fixpoint for_each {A} (f : A → result unit) (l : list A) : result unit :=
  match l with
  | [] => Ok tt
  | x :: l' => match f x with Ok _ => for_each f l' | Err e => Err e end
  end.

Lemma bind_Ok {A B} (r : result A) (f : A → result B) b :
  (r ≫= f) = Ok b ↔ ∃ a, r = Ok a ∧ f a = Ok b.
Proof. destruct r; unfold mbind; simpl; naive_solver. Qed.

Lemma ok_bind {A B} (a : A) (f : A → result B) : (Ok a ≫= f) = f a.
Proof. done. Qed.

Lemma bind_Ok_intro {A B} (r : result A) (f : A → result B) a b :
  r = Ok a → f a = Ok b → (r ≫= f) = Ok b.
Proof. by intros ->. Qed.

Lemma fail_if_Ok c e u : fail_if c e = Ok u ↔ c = false.
Proof. destruct u, c; simpl; naive_solver. Qed.

(** A guard or a call in front of a body. *)
Lemma seq_Ok {A} (r : result unit) (k : result A) a :
  (r;; k) = Ok a ↔ r = Ok tt ∧ k = Ok a.
Proof. destruct r as [[]|]; unfold mbind; simpl; naive_solver. Qed.

Lemma guard_Ok {A} c e (k : result A) a : (fail_if c e;; k) = Ok a ↔ c = false ∧ k = Ok a.
Proof. by rewrite seq_Ok, fail_if_Ok. Qed.

Lemma check_Ok e u : check e = Ok u ↔ e = None.
Proof. destruct u, e; simpl; naive_solver. Qed.

Lemma wrap_err_Ok {A} (r : result A) f a : wrap_err r f = Ok a ↔ r = Ok a.
Proof. destruct r; simpl; naive_solver. Qed.

Lemma is_ok_true {A} (r : result A) : is_ok r = true ↔ ∃ a, r = Ok a.
Proof. destruct r; simpl; naive_solver. Qed.

Lemma for_each_Ok {A} (f : A → result unit) l u :
  for_each f l = Ok u ↔ Forall (λ x, f x = Ok tt) l.
Proof.
  destruct u. induction l as [|x l IH]; simpl; [by split|].
  rewrite Forall_cons. destruct (f x) as [[]|]; naive_solver.
Qed.

(** ** Tactics *)

(** Turn boolean hypotheses and goals written with the Go connectives into
    propositions. *)
Create HintDb go.
#[export] Hint Rewrite andb_true_iff orb_false_iff negb_true_iff negb_false_iff
  bool_decide_eq_true bool_decide_eq_false : go.
#[export] Hint Rewrite @bind_Ok @wrap_err_Ok fail_if_Ok check_Ok @for_each_Ok : go.

(** Destruct conjunctions, existentials and units of the context. *)
Ltac go_destruct := repeat match goal with
  | H : _ ∧ _ |- _ => destruct H
  | H : ∃ _, _ |- _ => destruct H
  | u : unit |- _ => destruct u
  end.

Ltac go_bool := repeat (autorewrite with go in *; go_destruct; simplify_eq).

(** Case analysis on the tests of a Go function body, closing the branches
    that contradict the hypotheses. *)
Ltac go_cases := repeat (case_match; simplify_eq/=; try done).

(** Case analysis on one test of a Go condition. *)
Tactic Notation "test" constr(P) "as" simple_intropattern(ip) :=
  destruct (decide P) as ip;
  [rewrite (bool_decide_true P) by done|rewrite (bool_decide_false P) by done].

(** ** Boolean quantifiers over lists *)

Lemma forallb_elem {A} (f : A → bool) l x : forallb f l = true → x ∈ l → f x = true.
Proof. rewrite forallb_forall. intros H Hx. apply H. by apply list_elem_of_In. Qed.

Lemma forallb_intro {A} (f : A → bool) l : (∀ x, x ∈ l → f x = true) → forallb f l = true.
Proof. intros H. apply forallb_forall. intros x Hx. apply H. by apply list_elem_of_In. Qed.

Lemma existsb_elem {A} (f : A → bool) l : existsb f l = true ↔ ∃ x, x ∈ l ∧ f x = true.
Proof. rewrite existsb_exists. by setoid_rewrite list_elem_of_In. Qed.

(** ** Lists *)

Lemma Forall2_impl_In {A B} (P Q : A → B → Prop) l k :
  (∀ x y, x ∈ l → P x y → Q x y) → Forall2 P l k → Forall2 Q l k.
Proof.
  intros H. induction 1 as [|x y l k Hp _ IH]; constructor; [apply H; [by left|done]|].
  apply IH. intros x' y' Hx. apply H. by right.
Qed.

(** Conjuncts may be compared under the first one. *)
Lemma and_iff_compat_l_strong (P Q R : Prop) : (P → (Q ↔ R)) → (P ∧ Q ↔ P ∧ R).
Proof. tauto. Qed.

(** Writing a list cell, as a function of the cell read back. *)
Lemma list_lookup_set {A} (l : list A) i j x :
  <[i := x]> l !! j = if decide (i = j) then (λ _, x) <$> l !! j else l !! j.
Proof.
  rewrite list_lookup_insert. repeat case_decide; try done; try naive_solver.
  - destruct (lookup_lt_is_Some_2 l j) as [y ->]; [naive_solver|done].
  - subst. rewrite (lookup_ge_None_2 l j); [done|lia].
Qed.

Lemma omap_id_fmap {A B} (f : A → option B) (l : list A) : omap id (f <$> l) = omap f l.
Proof.
  induction l as [|x l IH]; [done|]. cbn. destruct (f x); [f_equal|]; exact IH.
Qed.
