(* ===== verification/GoStrings.v ===== *)
(** * Go strings

    Byte strings with UTF-8 decoding as the [range] statement of Go performs
    it, and the functions of the packages strings, unicode, unicode/utf8 and
    strconv the program calls, with the lemmas its components share. *)
From S2P Require Import Prelude.
From Stdlib Require Import NArith.

(** ** Bytes and sub-strings *)

Abbreviation byte_val := Ascii.N_of_ascii.

Definition str1 (c : Ascii.ascii) : string := String c EmptyString.

(** The newline, carriage return, tab, double-quote and NUL bytes. *)
Definition nl : string := str1 (Ascii.ascii_of_nat 10).
Definition dquote : string := str1 (Ascii.ascii_of_nat 34).
Definition nul : string := str1 (Ascii.ascii_of_nat 0).

(** [s[n:]] and [s[:n]] for [n <= len(s)]. *)
Fixpoint str_drop (n : nat) (s : string) : string :=
  match n, s with
  | S n', String _ s' => str_drop n' s'
  | _, _ => s
  end.

Fixpoint str_take (n : nat) (s : string) : string :=
  match n, s with
  | S n', String c s' => String c (str_take n' s')
  | _, _ => EmptyString
  end.

(** [strings.HasPrefix], [strings.HasSuffix], [strings.Contains]. *)
Definition HasPrefix (s pre : string) : bool := String.prefix pre s.

Definition HasSuffix (s suf : string) : bool :=
  bool_decide (String.length suf ≤ String.length s) &&
  (str_drop (String.length s - String.length suf) s ≟ suf).

Fixpoint Contains (s sub : string) : bool :=
  HasPrefix s sub ||
  match s with EmptyString => false | String _ s' => Contains s' sub end.

(** Membership of one byte; [strings.ContainsAny] with a set of ASCII
    characters is membership of one of their bytes. *)
Fixpoint has_byte (c : Ascii.ascii) (s : string) : bool :=
  match s with EmptyString => false | String d s' => (d ≟ c) || has_byte c s' end.

Fixpoint ContainsAny (s chars : string) : bool :=
  match s with
  | EmptyString => false
  | String c s' => has_byte c chars || ContainsAny s' chars
  end.

(** [strings.TrimPrefix], [strings.TrimSuffix]. *)
Definition TrimPrefix (s pre : string) : string :=
  if HasPrefix s pre then str_drop (String.length pre) s else s.

Definition TrimSuffix (s suf : string) : string :=
  if HasSuffix s suf then str_take (String.length s - String.length suf) s else s.

(** [strings.Split] with a one-byte separator, [strings.Join], and
    [strings.Cut] with a one-byte separator. *)
Fixpoint Split (s : string) (sep : Ascii.ascii) : list string :=
  match s with
  | EmptyString => [EmptyString]
  | String c s' =>
      if decide (c = sep) then EmptyString :: Split s' sep
      else match Split s' sep with
           | p :: ps => String c p :: ps
           | [] => [str1 c]
           end
  end.

Fixpoint Join (parts : list string) (sep : string) : string :=
  match parts with
  | [] => EmptyString
  | [p] => p
  | p :: ps => p +:+ sep +:+ Join ps sep
  end.

Fixpoint Cut (s : string) (sep : Ascii.ascii) : string * string * bool :=
  match s with
  | EmptyString => (EmptyString, EmptyString, false)
  | String c s' =>
      if decide (c = sep) then (EmptyString, s', true)
      else let '(before, after, found) := Cut s' sep in (String c before, after, found)
  end.

(** [strings.IndexByte] as an option. *)
Fixpoint IndexByte (s : string) (c : Ascii.ascii) : option nat :=
  match s with
  | EmptyString => None
  | String d s' => if decide (d = c) then Some 0%nat else S <$> IndexByte s' c
  end.

(** [strings.LastIndex] of a one-byte string, [-1] when absent. *)
Fixpoint LastIndexByte (s : string) (c : Ascii.ascii) : Z :=
  match s with
  | EmptyString => -1
  | String d s' =>
      let r := LastIndexByte s' c in
      if decide (0 ≤ r)%Z then (r + 1)%Z else if decide (d = c) then 0%Z else (-1)%Z
  end.

(** [strings.Trim] with a one-byte cut set. *)
Fixpoint TrimLeftByte (s : string) (c : Ascii.ascii) : string :=
  match s with
  | String d s' => if decide (d = c) then TrimLeftByte s' c else s
  | EmptyString => s
  end.

Fixpoint TrimRightByte (s : string) (c : Ascii.ascii) : string :=
  match s with
  | EmptyString => EmptyString
  | String d s' =>
      match TrimRightByte s' c with
      | EmptyString => if decide (d = c) then EmptyString else str1 d
      | t => String d t
      end
  end.

Definition TrimByte (s : string) (c : Ascii.ascii) : string :=
  TrimRightByte (TrimLeftByte s c) c.

(** ** UTF-8 *)

(** The rune an invalid byte decodes to, U+FFFD. *)
Definition RuneError : N := 65533.

Definition in_range (lo hi x : N) : bool := (lo <=? x)%N && (x <=? hi)%N.

Definition cont (b : Ascii.ascii) : bool := in_range 128 191 (byte_val b).

(** The admissible second bytes after a lead byte
    (utf8.first and utf8.acceptRanges). *)
Definition second_ok (b0 b1 : Ascii.ascii) : bool :=
  let x0 := byte_val b0 in
  let x1 := byte_val b1 in
  if (x0 =? 224)%N then in_range 160 191 x1
  else if (x0 =? 237)%N then in_range 128 159 x1
  else if (x0 =? 240)%N then in_range 144 191 x1
  else if (x0 =? 244)%N then in_range 128 143 x1
  else in_range 128 191 x1.

Definition low6 (b : Ascii.ascii) : N := N.land (byte_val b) 63.

(** A decoded piece of a string: the rune and the bytes it was read from. *)
Abbreviation seg := (N * string)%type.

(** The width-one piece of an invalid byte. *)
Definition bad_seg (b : Ascii.ascii) : seg := (RuneError, str1 b).

(** Decoding of a string into runes, one per iteration of
    [for _, r := range s]. *)
Fixpoint segs (s : string) : list seg :=
  match s with
  | EmptyString => []
  | String b0 s1 =>
      let x0 := byte_val b0 in
      if (x0 <? 128)%N then (x0, str1 b0) :: segs s1
      else match s1 with
      | EmptyString => [bad_seg b0]
      | String b1 s2 =>
          if in_range 194 223 x0 then
            if cont b1
            then ((N.land x0 31 * 64 + low6 b1)%N, String b0 (str1 b1)) :: segs s2
            else bad_seg b0 :: segs s1
          else if in_range 224 244 x0 && second_ok b0 b1 then
            match s2 with
            | EmptyString => bad_seg b0 :: segs s1
            | String b2 s3 =>
                if negb (cont b2) then bad_seg b0 :: segs s1
                else if (x0 <? 240)%N then
                  (((N.land x0 15 * 64 + low6 b1) * 64 + low6 b2)%N,
                   String b0 (String b1 (str1 b2))) :: segs s3
                else match s3 with
                | EmptyString => bad_seg b0 :: segs s1
                | String b3 s4 =>
                    if cont b3 then
                      ((((N.land x0 7 * 64 + low6 b1) * 64 + low6 b2) * 64 + low6 b3)%N,
                       String b0 (String b1 (String b2 (str1 b3)))) :: segs s4
                    else bad_seg b0 :: segs s1
                end
            end
          else bad_seg b0 :: segs s1
      end
  end.

Definition runes (s : string) : list N := (segs s).*1.

Definition flat (l : list seg) : string := foldr (λ p acc, p.2 +:+ acc) EmptyString l.

(** An invalid byte decodes to [RuneError] with one raw byte; the replacement
    character itself has three. *)
Definition seg_bad (p : seg) : bool :=
  (p.1 =? RuneError)%N && (String.length p.2 =? 1)%nat.

(** [utf8.ValidString]. *)
Definition ValidString (s : string) : bool := negb (existsb seg_bad (segs s)).

Definition byte_of (n : N) : Ascii.ascii := Ascii.ascii_of_N n.

(** [utf8.AppendRune]: surrogates and values past U+10FFFF encode as
    [RuneError]. *)
Definition EncodeRune (r : N) : string :=
  let enc3 r := String (byte_of (224 + r / 4096))
                  (String (byte_of (128 + (r / 64) mod 64)) (str1 (byte_of (128 + r mod 64)))) in
  if (r <? 128)%N then str1 (byte_of r)
  else if (r <? 2048)%N then String (byte_of (192 + r / 64)) (str1 (byte_of (128 + r mod 64)))
  else if in_range 55296 57343 r then enc3 RuneError
  else if (r <? 65536)%N then enc3 r
  else if (r <? 1114112)%N then
    String (byte_of (240 + r / 262144))
      (String (byte_of (128 + (r / 4096) mod 64))
        (String (byte_of (128 + (r / 64) mod 64)) (str1 (byte_of (128 + r mod 64)))))
  else enc3 RuneError.

Definition EncodeRunes (rs : list N) : string :=
  foldr (λ r acc, EncodeRune r +:+ acc) EmptyString rs.

(** ** Character classes *)

(** [unicode.IsSpace] (the White_Space property). *)
Definition IsSpace (r : N) : bool :=
  in_range 9 13 r || (r =? 32)%N || (r =? 133)%N || (r =? 160)%N || (r =? 5760)%N ||
  in_range 8192 8202 r || (r =? 8232)%N || (r =? 8233)%N || (r =? 8239)%N ||
  (r =? 8287)%N || (r =? 12288)%N.

(** [unicode.IsControl] (category Cc). *)
Definition IsControl (r : N) : bool := (r <? 32)%N || in_range 127 159 r.

(** A rune comparison with an ASCII literal. *)
Definition rune (c : Ascii.ascii) : N := byte_val c.

Definition rune_between (lo hi : Ascii.ascii) (r : N) : bool :=
  in_range (rune lo) (rune hi) r.

Definition rune_is (c : Ascii.ascii) (r : N) : bool := (r =? rune c)%N.

(** [strings.ContainsFunc]. *)
Definition ContainsFunc (s : string) (f : N → bool) : bool := existsb f (runes s).

(** A loop [for _, r := range s { if ok(r) { continue }; return false }]. *)
Definition all_runes (f : N → bool) (s : string) : bool := forallb f (runes s).

(** ** White space *)

Fixpoint drop_space (l : list seg) : list seg :=
  match l with
  | p :: l' => if IsSpace p.1 then drop_space l' else l
  | [] => []
  end.

(** [strings.TrimSpace]: a white-space rune at the end of a string is a piece
    of the forward decoding, since no encoding of one rune is a proper suffix of
    another's. *)
Definition TrimSpace (s : string) : string :=
  flat (reverse (drop_space (reverse (drop_space (segs s))))).

(** [strings.Fields]. *)
Fixpoint fields_aux (l : list seg) (cur : string) : list string :=
  match l with
  | [] => if decide (cur = EmptyString) then [] else [cur]
  | p :: l' =>
      if IsSpace p.1
      then if decide (cur = EmptyString) then fields_aux l' EmptyString
           else cur :: fields_aux l' EmptyString
      else fields_aux l' (cur +:+ p.2)
  end.

Definition Fields (s : string) : list string := fields_aux (segs s) EmptyString.

(** [strings.ToValidUTF8]: every maximal run of invalid bytes becomes one
    replacement. *)
Fixpoint to_valid_aux (l : list seg) (replacement : string) (prev_bad : bool) : string :=
  match l with
  | [] => EmptyString
  | p :: l' =>
      if seg_bad p
      then (if prev_bad then EmptyString else replacement) +:+ to_valid_aux l' replacement true
      else p.2 +:+ to_valid_aux l' replacement false
  end.

Definition ToValidUTF8 (s replacement : string) : string :=
  to_valid_aux (segs s) replacement false.

(** [strings.ReplaceAll] with a non-empty old string; [skip] bytes of the last
    match are still to be passed over. *)
Fixpoint replace_aux (s old new : string) (skip : nat) : string :=
  match s with
  | EmptyString => EmptyString
  | String c s' =>
      match skip with
      | S k => replace_aux s' old new k
      | O => if HasPrefix s old
             then new +:+ replace_aux s' old new (String.length old - 1)
             else String c (replace_aux s' old new 0)
      end
  end.

Definition ReplaceAll (s old new : string) : string := replace_aux s old new 0.

(** Unicode data of the Go standard library above ASCII: the simple lower-case
    mapping (unicode.ToLower) and printability (unicode.IsPrint). Nothing the
    library proves depends on their values. *)
Class UnicodeTables := {
  lower_high : N → N;
  print_high : N → bool }.

(** [unicode.ToLower] and [strings.ToLower]. *)
Definition ToLowerRune `{UnicodeTables} (r : N) : N :=
  if (r <? 128)%N then (if rune_between "A" "Z" r then (r + 32)%N else r) else lower_high r.

Definition ToLower `{UnicodeTables} (s : string) : string :=
  EncodeRunes (ToLowerRune <$> runes s).

(** ** Numbers *)

(** [strconv.FormatInt(z, 10)] and the [%d] verb. *)
Definition FormatInt (z : Z) : string := pretty z.

(** The hexadecimal digits of [encoding/hex]. *)
Definition hex_digit (n : N) : Ascii.ascii :=
  if (n <? 10)%N then byte_of (48 + n) else byte_of (87 + n).

Fixpoint hex_encode (s : string) : string :=
  match s with
  | EmptyString => EmptyString
  | String b s' =>
      String (hex_digit (byte_val b / 16)) (String (hex_digit (byte_val b mod 16)) (hex_encode s'))
  end.

(** * Lemmas *)

(** ** Append and length *)

Lemma app_cons c s t : String c s +:+ t = String c (s +:+ t).
Proof. reflexivity. Qed.

Lemma app_nil_str s : EmptyString +:+ s = s.
Proof. reflexivity. Qed.

Lemma app_str1 c s : str1 c +:+ s = String c s.
Proof. reflexivity. Qed.

(** Normalise appends of explicit bytes, then use injectivity. *)
Ltac str_simp :=
  repeat first [rewrite app_nil_str in * | rewrite app_cons in * | rewrite app_str1 in *];
  unfold str1 in *; simplify_eq.

Lemma str_app_nil_r s : s +:+ EmptyString = s.
Proof. induction s as [|c s IH]; [done|]. by rewrite app_cons, IH. Qed.

Lemma str_app_assoc s t u : s +:+ (t +:+ u) = (s +:+ t) +:+ u.
Proof. induction s as [|c s IH]; [done|]. by rewrite !app_cons, IH. Qed.

Lemma length_app_str s t : String.length (s +:+ t) = String.length s + String.length t.
Proof. induction s as [|c s IH]; [done|]. rewrite app_cons. simpl. by rewrite IH. Qed.

Lemma str_app_inv_head s t u : s +:+ t = s +:+ u → t = u.
Proof.
  induction s as [|c s IH]; [done|]. rewrite !app_cons. intros [= H]. auto.
Qed.

Lemma str_app_inj s1 s2 t1 t2 :
  String.length s1 = String.length s2 → s1 +:+ t1 = s2 +:+ t2 → s1 = s2 ∧ t1 = t2.
Proof.
  revert s2. induction s1 as [|c s1 IH]; intros [|d s2] Hl; simplify_eq/=; [done|].
  rewrite !app_cons. intros [= -> H]. destruct (IH s2 Hl H). by subst.
Qed.

Lemma str_app_inv_tail s1 s2 t : s1 +:+ t = s2 +:+ t → s1 = s2.
Proof.
  intros H. apply (str_app_inj s1 s2 t t); [|done].
  apply (f_equal String.length) in H. rewrite !length_app_str in H. lia.
Qed.

Lemma str_drop_app s t : str_drop (String.length s) (s +:+ t) = t.
Proof. by induction s. Qed.

Lemma str_take_app s t : str_take (String.length s) (s +:+ t) = s.
Proof. induction s as [|c s IH]; [by destruct t|]. rewrite app_cons. simpl. by rewrite IH. Qed.

Lemma str_take_drop n s : str_take n s +:+ str_drop n s = s.
Proof.
  revert s. induction n as [|n IH]; intros [|c s]; try done.
  simpl. by rewrite app_cons, IH.
Qed.

Lemma length_str_take n s : String.length (str_take n s) = Nat.min n (String.length s).
Proof. revert s. induction n as [|n IH]; intros [|c s]; simpl; auto. Qed.

Lemma str_take_all n s : (String.length s ≤ n)%nat → str_take n s = s.
Proof.
  revert s. induction n as [|n IH]; intros [|c s]; simpl; try done; [lia|]. intros Hl. f_equal.
  apply IH. lia.
Qed.

Lemma length_str_drop n s : String.length (str_drop n s) = String.length s - n.
Proof. revert s. induction n as [|n IH]; intros [|c s]; simpl; auto. Qed.

(** ** Prefixes and suffixes *)

Lemma HasPrefix_spec s pre : HasPrefix s pre = true ↔ ∃ t, s = pre +:+ t.
Proof.
  unfold HasPrefix. revert s. induction pre as [|c pre IH]; intros s.
  { split; [by exists s|]. by destruct s. }
  destruct s as [|d s]; simpl.
  { split; [done|]. by intros [t H]. }
  destruct (Ascii.ascii_dec c d) as [->|Hne].
  - rewrite IH. split; intros [t H]; exists t; [by rewrite app_cons, H|].
    rewrite app_cons in H. by simplify_eq.
  - split; [done|]. intros [t H]. rewrite app_cons in H. by simplify_eq.
Qed.

Lemma HasPrefix_app pre t : HasPrefix (pre +:+ t) pre = true.
Proof. apply HasPrefix_spec. by exists t. Qed.

Lemma HasSuffix_spec s suf : HasSuffix s suf = true ↔ ∃ t, s = t +:+ suf.
Proof.
  unfold HasSuffix. rewrite andb_true_iff, !bool_decide_eq_true. split.
  - intros [Hl Hd]. exists (str_take (String.length s - String.length suf) s).
    transitivity (str_take (String.length s - String.length suf) s
      +:+ str_drop (String.length s - String.length suf) s);
      [by rewrite str_take_drop|by rewrite Hd].
  - intros [t ->]. rewrite length_app_str. split; [lia|].
    replace (String.length t + String.length suf - String.length suf)
      with (String.length t) by lia. apply str_drop_app.
Qed.

Lemma HasSuffix_app t suf : HasSuffix (t +:+ suf) suf = true.
Proof. apply HasSuffix_spec. by exists t. Qed.

Lemma Contains_spec s sub : Contains s sub = true ↔ ∃ a b, s = a +:+ sub +:+ b.
Proof.
  induction s as [|c s IH]; cbn [Contains]; rewrite orb_true_iff, HasPrefix_spec.
  - split.
    + intros [[t H]|]; [by exists "", t|done].
    + intros (a & b & H). left. destruct a; [by exists b|done].
  - rewrite IH. split.
    + intros [[t H]|(a & b & ->)]; [by exists "", t|by exists (String c a), b].
    + intros ([|d a] & b & H); [left; by exists b|]. str_simp. right. by exists a, b.
Qed.

Lemma TrimPrefix_app pre t : TrimPrefix (pre +:+ t) pre = t.
Proof. unfold TrimPrefix. by rewrite HasPrefix_app, str_drop_app. Qed.

Lemma TrimSuffix_app t suf : TrimSuffix (t +:+ suf) suf = t.
Proof.
  unfold TrimSuffix. rewrite HasSuffix_app, length_app_str.
  replace (String.length t + String.length suf - String.length suf)
    with (String.length t) by lia. apply str_take_app.
Qed.

(** ** Membership of bytes *)

Lemma has_byte_app c s t : has_byte c (s +:+ t) = has_byte c s || has_byte c t.
Proof. induction s as [|d s IH]; [done|]. rewrite app_cons. simpl. by rewrite IH, orb_assoc. Qed.

Lemma ContainsAny_app s t chars :
  ContainsAny (s +:+ t) chars = ContainsAny s chars || ContainsAny t chars.
Proof. induction s as [|d s IH]; [done|]. rewrite app_cons. simpl. by rewrite IH, orb_assoc. Qed.

Lemma ContainsAny_false s chars c :
  ContainsAny s chars = false → has_byte c chars = true → has_byte c s = false.
Proof.
  induction s as [|d s IH]; simpl; [done|]. rewrite !orb_false_iff.
  intros [Hd Hs] Hc. split; [|by auto].
  apply bool_decide_eq_false. intros ->. congruence.
Qed.

Lemma has_byte_split c s : has_byte c s = true ↔ ∃ a b, s = a +:+ String c b.
Proof.
  induction s as [|d s IH]; simpl.
  { split; [done|]. by intros ([] & b & ?). }
  rewrite orb_true_iff, bool_decide_eq_true, IH. split.
  - intros [->|(a & b & ->)]; [by exists "", s|by exists (String d a), b].
  - intros ([|e a] & b & H); str_simp; [by left|]. right. by exists a, b.
Qed.

(** ** Split, Join and Cut *)

Lemma Split_nonempty s c : Split s c ≠ [].
Proof. induction s as [|d s IH]; simpl; [done|]. case_decide; [done|]. by destruct (Split s c). Qed.

Lemma Split_no_sep s c : has_byte c s = false → Split s c = [s].
Proof.
  induction s as [|d s IH]; [done|]. simpl. intros [Hd Hs]%orb_false_iff.
  apply bool_decide_eq_false in Hd. rewrite decide_False by done. by rewrite IH.
Qed.

Lemma Split_app s t c : Split (s +:+ String c t) c = Split s c ++ Split t c.
Proof.
  induction s as [|d s IH]; [simpl; by rewrite decide_True|].
  rewrite app_cons. simpl. rewrite IH. case_decide; [done|].
  pose proof (Split_nonempty s c). by destruct (Split s c).
Qed.

Lemma Join_cons p ps sep : ps ≠ [] → Join (p :: ps) sep = p +:+ sep +:+ Join ps sep.
Proof. by destruct ps. Qed.

Lemma Join_Split s c : Join (Split s c) (str1 c) = s.
Proof.
  induction s as [|d s IH]; [done|]. simpl. pose proof (Split_nonempty s c) as Hne.
  case_decide as Hd.
  - subst. by rewrite Join_cons, IH by done.
  - destruct (Split s c) as [|p [|q ps]]; simpl in *; [done| |];
      rewrite ?app_cons; by f_equal.
Qed.

Lemma Split_Join ps c :
  ps ≠ [] → Forall (λ p, has_byte c p = false) ps → Split (Join ps (str1 c)) c = ps.
Proof.
  intros Hne Hall. induction Hall as [|p ps Hp Hall IH]; [done|].
  destruct (decide (ps = [])) as [->|Hps]; [by apply Split_no_sep|].
  rewrite Join_cons, app_str1, Split_app, (Split_no_sep p) by done. simpl. by rewrite IH.
Qed.

Lemma Split_parts s c : Forall (λ p, has_byte c p = false) (Split s c).
Proof.
  induction s as [|d s IH]; simpl; [by repeat constructor|].
  case_decide as Hd; [by constructor|].
  pose proof (Split_nonempty s c). destruct IH as [|p ps Hp Hps]; [done|].
  constructor; [|done]. simpl. rewrite Hp, orb_false_r. by apply bool_decide_eq_false.
Qed.

Lemma Cut_found s c a b : Cut s c = (a, b, true) ↔ s = a +:+ String c b ∧ has_byte c a = false.
Proof.
  revert a b. induction s as [|d s IH]; intros a b; simpl.
  { split; [done|]. by intros [? _]; destruct a. }
  case_decide as Hd.
  - subst. split; [by intros [= <- <-]|]. intros [H Hb]. destruct a as [|e a]; str_simp; [done|].
    simpl in Hb. by rewrite bool_decide_true in Hb.
  - destruct (Cut s c) as [[a' b'] f] eqn:E. split.
    + intros [= <- <- ->]. destruct (proj1 (IH a' b') eq_refl) as [-> Hb].
      split; [done|]. simpl. rewrite Hb, orb_false_r. by apply bool_decide_eq_false.
    + intros [H Hb]. destruct a as [|e a]; str_simp. simpl in Hb. apply orb_false_iff in Hb as [_ Hb].
      pose proof (proj2 (IH a b) (conj eq_refl Hb)). by simplify_eq.
Qed.

Lemma Cut_not_found s c a b : Cut s c = (a, b, false) → has_byte c s = false ∧ a = s ∧ b = "".
Proof.
  revert a b. induction s as [|d s IH]; intros a b; simpl; [by intros [= <- <-]|].
  case_decide as Hd; [done|]. destruct (Cut s c) as [[a' b'] f]. intros [= <- <- ->].
  destruct (IH a' b' eq_refl) as (-> & -> & ->). split; [|done].
  by rewrite orb_false_r; apply bool_decide_eq_false.
Qed.

(** ** Decoding *)

Lemma string_len_ind (P : string → Prop) :
  (∀ s, (∀ t, String.length t < String.length s → P t) → P s) → ∀ s, P s.
Proof.
  intros H s. remember (String.length s) as n eqn:Hn. revert s Hn.
  induction (lt_wf n) as [n _ IH]. intros s ->. apply H. intros t Ht. by eapply IH.
Qed.

Lemma flat_cons p l : flat (p :: l) = p.2 +:+ flat l.
Proof. done. Qed.

Lemma flat_app l k : flat (l ++ k) = flat l +:+ flat k.
Proof. induction l as [|p l IH]; [done|]. simpl. by rewrite IH, str_app_assoc. Qed.

(** One iteration of the decoder: the first piece of the string [String b0 s1]
    and the rest (utf8.DecodeRuneInString). *)
Definition decode1 (b0 : Ascii.ascii) (s1 : string) : seg * string :=
  let x0 := byte_val b0 in
  if (x0 <? 128)%N then ((x0, str1 b0), s1)
  else match s1 with
  | String b1 s2 =>
      if in_range 194 223 x0 && cont b1
      then (((N.land x0 31 * 64 + low6 b1)%N, String b0 (str1 b1)), s2)
      else if in_range 224 244 x0 && second_ok b0 b1 then
        match s2 with
        | String b2 s3 =>
            if negb (cont b2) then (bad_seg b0, s1)
            else if (x0 <? 240)%N then
              (((N.land x0 15 * 64 + low6 b1) * 64 + low6 b2)%N,
                String b0 (String b1 (str1 b2)), s3)
            else match s3 with
            | String b3 s4 =>
                if cont b3 then
                  ((((N.land x0 7 * 64 + low6 b1) * 64 + low6 b2) * 64 + low6 b3)%N,
                    String b0 (String b1 (String b2 (str1 b3))), s4)
                else (bad_seg b0, s1)
            | EmptyString => (bad_seg b0, s1)
            end
        | EmptyString => (bad_seg b0, s1)
        end
      else (bad_seg b0, s1)
  | EmptyString => (bad_seg b0, s1)
  end.

Lemma in_range_disjoint x : in_range 194 223 x = true → in_range 224 244 x = false.
Proof. unfold in_range. rewrite andb_true_iff, andb_false_iff, !N.leb_le, !N.leb_gt. lia. Qed.

Lemma segs_cons b0 s1 :
  segs (String b0 s1) = (decode1 b0 s1).1 :: segs (decode1 b0 s1).2.
Proof.
  unfold decode1. destruct (byte_val b0 <? 128)%N eqn:E0; [simpl; by rewrite E0|].
  destruct s1 as [|b1 s2]; [simpl; by rewrite E0|].
  destruct (in_range 194 223 (byte_val b0)) eqn:E1.
  { rewrite (in_range_disjoint _ E1). simpl andb.
    remember (String b1 s2) as u eqn:Eu. cbn [segs]. rewrite E0, Eu, E1.
    by destruct (cont b1). }
  simpl andb. destruct (in_range 224 244 (byte_val b0) && second_ok b0 b1) eqn:E2;
    [|remember (String b1 s2) as u eqn:Eu; cbn [segs]; by rewrite E0, Eu, E1, E2].
  destruct s2 as [|b2 s3];
    [remember (String b1 EmptyString) as u eqn:Eu; cbn [segs]; by rewrite E0, Eu, E1, E2|].
  remember (String b1 (String b2 s3)) as u eqn:Eu. cbn [segs]. rewrite E0, Eu, E1, E2.
  repeat case_match; done.
Qed.

Lemma decode1_flat b0 s1 : (decode1 b0 s1).1.2 +:+ (decode1 b0 s1).2 = String b0 s1.
Proof. unfold decode1. repeat case_match; done. Qed.

Lemma decode1_ne b0 s1 : (decode1 b0 s1).1.2 ≠ EmptyString.
Proof. unfold decode1. repeat case_match; done. Qed.

(** The decoder consumes a non-empty piece at a time. *)
Lemma segs_uncons s :
  s ≠ EmptyString →
  ∃ p rest, segs s = p :: segs rest ∧ s = p.2 +:+ rest ∧ p.2 ≠ EmptyString.
Proof.
  destruct s as [|b0 s1]; [done|]. intros _.
  exists (decode1 b0 s1).1, (decode1 b0 s1).2.
  by rewrite segs_cons, decode1_flat; auto using decode1_ne.
Qed.

(** Induction along the decoder. *)
Lemma segs_ind (P : string → Prop) :
  P EmptyString →
  (∀ p rest, p.2 ≠ EmptyString → segs (p.2 +:+ rest) = p :: segs rest →
             P rest → P (p.2 +:+ rest)) →
  ∀ s, P s.
Proof.
  intros H0 Hstep s. induction s as [s IH] using string_len_ind.
  destruct (decide (s = EmptyString)) as [->|Hs]; [done|].
  destruct (segs_uncons s Hs) as (p & rest & E & -> & Hne). apply Hstep; try done.
  apply IH. rewrite length_app_str. destruct p.2; [done|]. simpl. lia.
Qed.

Lemma flat_segs s : flat (segs s) = s.
Proof.
  induction s as [|p rest Hne E IH] using segs_ind; [done|]. by rewrite E, flat_cons, IH.
Qed.

Lemma segs_inj s t : segs s = segs t → s = t.
Proof. intros H. by rewrite <- (flat_segs s), <- (flat_segs t), H. Qed.

(** A string that does not start with a continuation byte. *)
Definition head_boundary (t : string) : bool :=
  match t with EmptyString => true | String c _ => negb (cont c) end.

Lemma second_ok_cont b0 b1 : cont b1 = false → second_ok b0 b1 = false.
Proof.
  unfold second_ok, cont, in_range. rewrite !andb_false_iff, !N.leb_gt.
  repeat case_match; rewrite !andb_false_iff, !N.leb_gt; lia.
Qed.

Lemma decode1_app b0 s1 t :
  head_boundary t = true →
  decode1 b0 (s1 +:+ t) = ((decode1 b0 s1).1, (decode1 b0 s1).2 +:+ t).
Proof.
  intros Ht.
  assert (∀ c t', t = String c t' → cont c = false) as Hc
    by (intros c t' ->; by apply negb_true_iff in Ht).
  assert (∀ c t', t = String c t' → second_ok b0 c = false) as Hsec
    by (intros c t' E; apply second_ok_cont; by eapply Hc).
  unfold decode1. destruct (byte_val b0 <? 128)%N; [done|].
  destruct s1 as [|b1 [|b2 [|b3 s4]]]; rewrite ?app_cons, ?app_nil_str.
  - destruct t as [|c t']; [done|].
    by rewrite (Hc _ _ eq_refl), (Hsec _ _ eq_refl), !andb_false_r.
  - repeat case_match; try done; simplify_eq/=; by rewrite (Hc _ _ eq_refl) in *.
  - repeat case_match; try done; simplify_eq/=; by rewrite (Hc _ _ eq_refl) in *.
  - repeat case_match; done.
Qed.

Lemma segs_app s t : head_boundary t = true → segs (s +:+ t) = segs s ++ segs t.
Proof.
  intros Ht. induction s as [s IH] using string_len_ind. destruct s as [|b0 s1]; [done|].
  rewrite app_cons, !segs_cons, decode1_app by done. simpl. f_equal. apply IH.
  rewrite <- (decode1_flat b0 s1), length_app_str.
  pose proof (decode1_ne b0 s1). destruct ((decode1 b0 s1).1.2); [done|]. simpl. lia.
Qed.

Lemma segs_suffix l1 : ∀ s l2, segs s = l1 ++ l2 → segs (flat l2) = l2.
Proof.
  induction l1 as [|p l1 IH]; intros s l2 H; simpl in H.
  { rewrite <- H. by rewrite flat_segs. }
  destruct (decide (s = EmptyString)) as [->|Hs]; [done|].
  destruct (segs_uncons s Hs) as (p' & rest & E & _ & _). rewrite E in H. simplify_eq.
  by eapply IH.
Qed.

(** Cutting the string after a piece does not change how the piece reads. *)
Lemma decode1_cut b0 q u v :
  (decode1 b0 (q +:+ u +:+ v)).1.2 = String b0 q →
  decode1 b0 (q +:+ u) = ((decode1 b0 (q +:+ u +:+ v)).1, u).
Proof.
  unfold decode1. destruct (byte_val b0 <? 128)%N; [by intros [= <-]|].
  destruct q as [|b1 [|b2 [|b3 [|b4 q]]]]; rewrite ?app_cons, ?app_nil_str.
  - destruct u as [|b1 [|b2 [|b3 u]]]; rewrite ?app_cons, ?app_nil_str;
      repeat case_match; intros; simplify_eq/=; done.
  - destruct u as [|b2 [|b3 u]]; rewrite ?app_cons, ?app_nil_str;
      repeat case_match; intros; simplify_eq/=; done.
  - destruct u as [|b3 u]; rewrite ?app_cons, ?app_nil_str;
      repeat case_match; intros; simplify_eq/=; done.
  - repeat case_match; intros; simplify_eq/=; done.
  - repeat case_match; intros; simplify_eq/=; done.
Qed.

Lemma segs_prefix l1 : ∀ s l2, segs s = l1 ++ l2 → segs (flat l1) = l1.
Proof.
  induction l1 as [|p l1 IH]; intros s l2 H; [done|]. simpl in H.
  destruct s as [|b0 s1]; [done|]. rewrite segs_cons in H. injection H as Hp H.
  pose proof (IH _ _ H) as IH1. rewrite flat_cons.
  pose proof (decode1_flat b0 s1) as Hf. pose proof (decode1_ne b0 s1) as Hne.
  rewrite Hp in Hf, Hne. destruct (p.2) as [|b q] eqn:Eq; [done|].
  rewrite app_cons in Hf |- *. injection Hf as -> Hs1.
  rewrite <- (flat_segs (decode1 b0 s1).2), H, flat_app in Hs1. subst s1.
  rewrite segs_cons, (decode1_cut b0 q _ (flat l2)); [|by rewrite Hp].
  cbn [fst snd]. by rewrite Hp, IH1.
Qed.

(** ** Trimming *)

Definition trim_segs (l : list seg) : list seg := reverse (drop_space (reverse (drop_space l))).

Definition seg_space (p : seg) : bool := IsSpace p.1.

Lemma drop_space_spec l :
  ∃ pre, l = pre ++ drop_space l ∧ Forall (λ p, seg_space p = true) pre ∧
         ∀ p, head (drop_space l) = Some p → seg_space p = false.
Proof.
  induction l as [|p l (pre & E & Hpre & Hhd)]; [by exists []|]. simpl.
  unfold seg_space in *. destruct (IsSpace p.1) eqn:Hp.
  - exists (p :: pre). simpl. split; [by f_equal|]. split; [by constructor|done].
  - exists []. split; [done|]. split; [constructor|]. intros q [= <-]. done.
Qed.

Lemma drop_space_id l :
  (∀ p, head l = Some p → seg_space p = false) → drop_space l = l.
Proof. destruct l as [|p l]; [done|]. intros H. simpl. specialize (H p eq_refl).
  unfold seg_space in H. by rewrite H. Qed.

Lemma trim_segs_spec l :
  ∃ pre post, l = pre ++ trim_segs l ++ post ∧
    Forall (λ p, seg_space p = true) pre ∧ Forall (λ p, seg_space p = true) post ∧
    (∀ p, head (trim_segs l) = Some p → seg_space p = false) ∧
    (∀ p, last (trim_segs l) = Some p → seg_space p = false).
Proof.
  unfold trim_segs. destruct (drop_space_spec l) as (pre & E & Hpre & Hhd).
  destruct (drop_space_spec (reverse (drop_space l))) as (post & E' & Hpost & Hhd').
  exists pre, (reverse post). split_and!.
  - rewrite E at 1. f_equal. apply (f_equal reverse) in E'. rewrite reverse_involutive, reverse_app in E'.
    done.
  - done.
  - by apply Forall_reverse.
  - intros p Hp. apply (f_equal reverse) in E'. rewrite reverse_involutive, reverse_app in E'.
    apply Hhd. rewrite E'. by destruct (reverse (drop_space (reverse (drop_space l)))).
  - intros p Hp. apply Hhd'. by rewrite last_reverse in Hp.
Qed.

Lemma trim_segs_idemp l : trim_segs (trim_segs l) = trim_segs l.
Proof.
  destruct (trim_segs_spec l) as (pre & post & _ & _ & _ & Hh & Hl).
  set (k := trim_segs l) in *. unfold trim_segs.
  rewrite (drop_space_id k) by done. rewrite drop_space_id; [by rewrite reverse_involutive|].
  intros p Hp. apply Hl. by rewrite head_reverse in Hp.
Qed.

Lemma segs_TrimSpace s : segs (TrimSpace s) = trim_segs (segs s).
Proof.
  unfold TrimSpace. destruct (trim_segs_spec (segs s)) as (pre & post & E & _).
  eapply segs_prefix with (s := flat (trim_segs (segs s) ++ post)).
  by eapply segs_suffix.
Qed.

Lemma TrimSpace_idemp s : TrimSpace (TrimSpace s) = TrimSpace s.
Proof. apply segs_inj. by rewrite !segs_TrimSpace, trim_segs_idemp. Qed.

Lemma TrimSpace_id s :
  (∀ p, head (segs s) = Some p → seg_space p = false) →
  (∀ p, last (segs s) = Some p → seg_space p = false) → TrimSpace s = s.
Proof.
  intros Hh Hl. apply segs_inj. rewrite segs_TrimSpace. unfold trim_segs.
  rewrite (drop_space_id (segs s)) by done. rewrite drop_space_id; [by rewrite reverse_involutive|].
  intros p Hp. apply Hl. by rewrite head_reverse in Hp.
Qed.

(** ** ASCII strings *)

(** Every byte of the string is below 128. *)
Fixpoint is_ascii (s : string) : bool :=
  match s with EmptyString => true | String c s' => (byte_val c <? 128)%N && is_ascii s' end.

Lemma segs_ascii_cons c s : (byte_val c <? 128)%N = true →
  segs (String c s) = (byte_val c, str1 c) :: segs s.
Proof. intros H. rewrite segs_cons. unfold decode1. by rewrite H. Qed.

Lemma ascii_boundary c s : (byte_val c <? 128)%N = true → head_boundary (String c s) = true.
Proof.
  intros H%N.ltb_lt. simpl. unfold cont, in_range. apply negb_true_iff, andb_false_iff.
  left. apply N.leb_gt. lia.
Qed.

Lemma segs_app_ascii s c t : (byte_val c <? 128)%N = true →
  segs (s +:+ String c t) = segs s ++ (byte_val c, str1 c) :: segs t.
Proof. intros H. rewrite segs_app by auto using ascii_boundary. by rewrite segs_ascii_cons. Qed.

Lemma runes_app_ascii s c t : (byte_val c <? 128)%N = true →
  runes (s +:+ String c t) = runes s ++ byte_val c :: runes t.
Proof. intros H. unfold runes. by rewrite segs_app_ascii, fmap_app. Qed.

Lemma is_ascii_app s t : is_ascii (s +:+ t) = is_ascii s && is_ascii t.
Proof. induction s as [|c s IH]; [done|]. rewrite app_cons. simpl. by rewrite IH, andb_assoc. Qed.

Lemma is_ascii_boundary s : is_ascii s = true → head_boundary s = true.
Proof. destruct s; [done|]. intros [H _]%andb_prop. by apply ascii_boundary. Qed.

(** ** Byte predicates *)

(** Every byte of the string satisfies the predicate. *)
Fixpoint all_bytes (f : N → bool) (s : string) : bool :=
  match s with EmptyString => true | String c s' => f (byte_val c) && all_bytes f s' end.

Lemma all_bytes_app f s t : all_bytes f (s +:+ t) = all_bytes f s && all_bytes f t.
Proof. induction s as [|c s IH]; [done|]. rewrite app_cons. simpl. by rewrite IH, andb_assoc. Qed.

Lemma all_bytes_impl (f g : N → bool) s :
  (∀ r, f r = true → g r = true) → all_bytes f s = true → all_bytes g s = true.
Proof. intros Hfg. induction s; simpl; [done|]. rewrite !andb_true_iff. naive_solver. Qed.

Lemma all_bytes_take f n s : all_bytes f s = true → all_bytes f (str_take n s) = true.
Proof.
  revert s. induction n as [|n IH]; intros [|c s]; try done. simpl. rewrite !andb_true_iff.
  naive_solver.
Qed.

(** A byte predicate implying ASCII can be read rune by rune. *)
Lemma all_runes_bytes f s :
  (∀ r, f r = true → (r < 128)%N) → all_bytes f s = true → all_runes f s = true.
Proof.
  intros Hf. induction s as [|c s IH]; [done|]. cbn [all_bytes]. rewrite andb_true_iff.
  intros [Hc Hs]. specialize (IH Hs). unfold all_runes, runes in *.
  rewrite segs_ascii_cons by (apply N.ltb_lt; by apply Hf).
  rewrite fmap_cons. cbn [forallb fst]. by rewrite Hc, IH.
Qed.


Lemma all_bytes_str1 f c : all_bytes f (str1 c) = f (byte_val c).
Proof. simpl. apply andb_true_r. Qed.

Lemma all_bytes_no_byte f s c :
  all_bytes f s = true → f (byte_val c) = false → has_byte c s = false.
Proof.
  induction s as [|d s IH]; [done|]. simpl. rewrite andb_true_iff. intros [Hd Hs] Hc.
  rewrite IH by done. rewrite orb_false_r. apply bool_decide_eq_false. intros ->. congruence.
Qed.

(** The last byte of a string. *)
Fixpoint last_byte (s : string) : option ascii :=
  match s with
  | EmptyString => None
  | String c s' => match last_byte s' with Some d => Some d | None => Some c end
  end.

Lemma last_byte_None s : last_byte s = None ↔ s = EmptyString.
Proof. destruct s as [|c s]; [done|]. simpl. by destruct (last_byte s). Qed.

Lemma last_byte_spec s c : last_byte s = Some c ↔ ∃ t, s = t +:+ str1 c.
Proof.
  induction s as [|d s IH]; [split; [done|by intros [[] ?]]|]. cbn [last_byte]. split.
  - destruct (last_byte s) as [e|] eqn:E.
    + intros [= ->]. destruct (proj1 IH eq_refl) as [t ->]. by exists (String d t).
    + intros [= ->]. apply last_byte_None in E as ->. by exists "".
  - intros [[|e t] Ht]; str_simp; [done|]. rewrite (proj2 IH); [done|by exists t].
Qed.

Lemma HasSuffix_last s c : HasSuffix s (str1 c) = (last_byte s ≟ Some c).
Proof. apply eq_true_iff_eq. by rewrite HasSuffix_spec, bool_decide_eq_true, last_byte_spec. Qed.

Lemma HasPrefix_first s c : HasPrefix s (str1 c) = (String.get 0 s ≟ Some c).
Proof.
  apply eq_true_iff_eq. rewrite HasPrefix_spec, bool_decide_eq_true. destruct s as [|d s].
  - split; [by intros [t ?]|done].
  - split; [intros [t E]; str_simp; done|]. intros [= ->]. by exists s.
Qed.

Lemma last_byte_app s t : t ≠ EmptyString → last_byte (s +:+ t) = last_byte t.
Proof.
  intros Ht. induction s as [|c s IH]; [done|]. rewrite app_cons. cbn [last_byte]. rewrite IH.
  destruct (last_byte t) eqn:E; [done|]. by apply last_byte_None in E.
Qed.

(** *** Trimming one byte *)

Lemma TrimLeftByte_first s c : String.get 0 (TrimLeftByte s c) ≠ Some c.
Proof. induction s as [|d s IH]; [done|]. simpl. case_decide; [done|]. simpl. congruence. Qed.

Lemma TrimRightByte_last s c : last_byte (TrimRightByte s c) ≠ Some c.
Proof.
  induction s as [|d s IH]; [done|]. simpl. destruct (TrimRightByte s c) as [|e t].
  - case_decide; simpl; congruence.
  - cbn [last_byte] in *. by destruct (last_byte t).
Qed.

Lemma TrimRightByte_first s c d :
  String.get 0 (TrimRightByte s c) = Some d → String.get 0 s = Some d.
Proof. destruct s as [|e s]; [done|]. simpl. destruct (TrimRightByte s c); [by case_decide|done]. Qed.

Lemma TrimByte_first s c : String.get 0 (TrimByte s c) ≠ Some c.
Proof. intros H%TrimRightByte_first. by apply TrimLeftByte_first in H. Qed.

Lemma TrimByte_last s c : last_byte (TrimByte s c) ≠ Some c.
Proof. apply TrimRightByte_last. Qed.

Lemma all_bytes_TrimByte f s c : all_bytes f s = true → all_bytes f (TrimByte s c) = true.
Proof.
  intros H. unfold TrimByte. assert (all_bytes f (TrimLeftByte s c) = true) as HL.
  { induction s as [|d s IH]; [done|]. simpl in *. apply andb_prop in H as [Hd Hs].
    case_decide; [by apply IH|]. simpl. by rewrite Hd. }
  clear H. induction (TrimLeftByte s c) as [|d t IH]; [done|]. simpl in *.
  apply andb_prop in HL as [Hd Ht]. specialize (IH Ht). destruct (TrimRightByte t c).
  - case_decide; [done|]. simpl. by rewrite Hd.
  - simpl in *. by rewrite Hd.
Qed.

Lemma length_TrimByte s c : String.length (TrimByte s c) ≤ String.length s.
Proof.
  unfold TrimByte. assert (String.length (TrimLeftByte s c) ≤ String.length s) as HL.
  { induction s; simpl; [lia|]. case_decide; simpl; lia. }
  etrans; [|exact HL]. clear HL. induction (TrimLeftByte s c) as [|d t IH]; [done|]. simpl.
  destruct (TrimRightByte t c); [case_decide|]; simpl in *; lia.
Qed.

Lemma TrimByte_id s c :
  String.get 0 s ≠ Some c → last_byte s ≠ Some c → TrimByte s c = s.
Proof.
  intros Hf Hl. unfold TrimByte.
  assert (TrimLeftByte s c = s) as ->.
  { destruct s; [done|]. simpl in *. rewrite decide_False; congruence. }
  clear Hf. induction s as [|d s IH]; [done|]. cbn [TrimRightByte last_byte] in *.
  destruct (last_byte s) as [e|] eqn:E.
  - rewrite IH by done. destruct s; done.
  - apply last_byte_None in E as ->. simpl. rewrite decide_False; [done|congruence].
Qed.
