(* ===== verification/StringOrder.v ===== *)
(** * The order of Go strings

    The lexicographic order of bytes that [<] compares strings by. *)
From S2P Require Import Prelude GoStrings.

Lemma ltb_antisym a b : a ≠ b → String.ltb a b = negb (String.ltb b a).
Proof.
  intros Hn. unfold String.ltb. rewrite (String.compare_antisym b a).
  destruct (String.compare a b) eqn:E; simpl; try done. by apply String.compare_eq_iff in E.
Qed.

Lemma compare_refl a : String.compare a a = Eq.
Proof.
  pose proof (String.compare_antisym a a). by destruct (String.compare a a).
Qed.

Lemma ltb_irrefl a : String.ltb a a = false.
Proof. unfold String.ltb. by rewrite compare_refl. Qed.

Lemma ltb_trans a b c : String.ltb a b = true → String.ltb b c = true → String.ltb a c = true.
Proof.
  unfold String.ltb. revert b c. induction a as [|x a IH]; intros [|y b] [|z c]; simpl; try done.
  unfold Ascii.compare. set (nx := N_of_ascii x). set (ny := N_of_ascii y). set (nz := N_of_ascii z).
  destruct (N.compare_spec nx ny) as [Hxy|Hxy|Hxy]; [| |done];
  destruct (N.compare_spec ny nz) as [Hyz|Hyz|Hyz]; try done; intros Hab Hbc.
  - rewrite Hxy, Hyz, N.compare_refl. by eapply IH.
  - rewrite Hxy. by apply N.compare_lt_iff in Hyz as ->.
  - rewrite <- Hyz. by apply N.compare_lt_iff in Hxy as ->.
  - assert (nx < nz)%N as Hxz by lia. by apply N.compare_lt_iff in Hxz as ->.
Qed.

Lemma ltb_asym a b : String.ltb a b = true → String.ltb b a = false.
Proof.
  intros Hab. destruct (decide (a = b)) as [->|Hne]; [by rewrite ltb_irrefl in Hab|].
  rewrite ltb_antisym in Hab by done. by apply negb_true_iff.
Qed.

(** At most, in that order. *)
Definition str_le (a b : string) : Prop := String.ltb b a = false.

#[export] Instance str_le_dec : RelDecision str_le.
Proof. intros a b. unfold str_le. apply _. Defined.

#[export] Instance str_le_total : Total str_le.
Proof.
  intros a b. unfold str_le. destruct (String.ltb b a) eqn:E; [|by left].
  right. by apply ltb_asym.
Qed.

#[export] Instance str_le_antisymm : AntiSymm (=) str_le.
Proof.
  intros a b Hab Hba. unfold str_le in *. destruct (decide (a = b)) as [|Hne]; [done|].
  rewrite ltb_antisym in Hab by done. by rewrite Hba in Hab.
Qed.

#[export] Instance str_le_trans : Transitive str_le.
Proof.
  intros a b c Hab Hbc. unfold str_le in *. destruct (String.ltb c a) eqn:E; [|done].
  destruct (decide (a = b)) as [->|Hne]; [congruence|].
  rewrite ltb_antisym in Hab by done. apply negb_false_iff in Hab.
  by rewrite (ltb_trans c a b) in Hbc.
Qed.

(** Sorting by a key with that order. *)
Definition by_key {A} (key : A → string) (a b : A) : Prop := str_le (key a) (key b).

#[export] Instance by_key_dec {A} (key : A → string) : RelDecision (by_key key).
Proof. intros a b. unfold by_key. apply _. Defined.

#[export] Instance by_key_total {A} (key : A → string) : Total (by_key key).
Proof. intros a b. apply str_le_total. Qed.

#[export] Instance by_key_trans {A} (key : A → string) : Transitive (by_key key).
Proof. intros a b c. apply str_le_trans. Qed.

(** A list without two elements of the same key has one sorted order. *)
Lemma sort_by_key_perm {A} (key : A → string) l k :
  NoDup (key <$> l) → l ≡ₚ k → merge_sort (by_key key) l = merge_sort (by_key key) k.
Proof.
  intros Hnd Hp. apply (Sorted_unique_strong (by_key key)).
  - intros x y Hx Hy Hxy Hyx. rewrite merge_sort_Permutation in Hx, Hy.
    rewrite <- Hp in Hy. assert (key x = key y) as Hk by (by apply (anti_symm str_le)).
    apply list_elem_of_lookup in Hx as [i Hi], Hy as [j Hj].
    assert (i = j) as ->; [|congruence].
    eapply NoDup_lookup; [done|by rewrite list_lookup_fmap, Hi|by rewrite list_lookup_fmap, Hj, Hk].
  - apply Sorted_merge_sort; apply _.
  - apply Sorted_merge_sort; apply _.
  - by rewrite !merge_sort_Permutation.
Qed.
