(* ===== verification/Sha256.v ===== *)
(** * SHA-256 (crypto/sha256)

    The hash of FIPS 180-4 on byte strings, executable, so that the names and
    identities the program derives can be evaluated; only its output length is
    proved. *)
From S2P Require Import Prelude GoStrings.
From Stdlib Require Import NArith.
Local Open Scope N_scope.

Module SHA.

Definition w32 (x : N) : N := N.land x 4294967295.
Definition add32 (x y : N) : N := w32 (x + y).
Definition rotr (n x : N) : N := N.lor (N.shiftr x n) (w32 (N.shiftl x (32 - n))).
Definition shr (n x : N) : N := N.shiftr x n.
Definition not32 (x : N) : N := N.lxor x 4294967295.

Definition Ch x y z := N.lxor (N.land x y) (N.land (not32 x) z).
Definition Maj x y z := N.lxor (N.lxor (N.land x y) (N.land x z)) (N.land y z).
Definition Sigma0 x := N.lxor (N.lxor (rotr 2 x) (rotr 13 x)) (rotr 22 x).
Definition Sigma1 x := N.lxor (N.lxor (rotr 6 x) (rotr 11 x)) (rotr 25 x).
Definition sigma0 x := N.lxor (N.lxor (rotr 7 x) (rotr 18 x)) (shr 3 x).
Definition sigma1 x := N.lxor (N.lxor (rotr 17 x) (rotr 19 x)) (shr 10 x).

(** The largest [r < 2 ^ n] extending [r0] with [r * r * r <= x]. *)
Fixpoint cbrt (n : nat) (x r0 : N) : N :=
  match n with
  | O => r0
  | S n' => let c := r0 + 2 ^ N.of_nat n' in cbrt n' x (if c * c * c <=? x then c else r0)
  end.

Definition primes64 : list N :=
  [2; 3; 5; 7; 11; 13; 17; 19; 23; 29; 31; 37; 41; 43; 47; 53; 59; 61; 67; 71; 73; 79; 83; 89; 97;
   101; 103; 107; 109; 113; 127; 131; 137; 139; 149; 151; 157; 163; 167; 173; 179; 181; 191; 193;
   197; 199; 211; 223; 227; 229; 233; 239; 241; 251; 257; 263; 269; 271; 277; 281; 283; 293; 307;
   311].

(** The round constants: the first 32 bits of the fractional parts of the cube
    roots of the first 64 primes. *)
Definition K256 : list N :=
  Eval vm_compute in ((λ p, w32 (cbrt 36 (N.shiftl p 96) 0)) <$> primes64).

(** The eight working words. *)
Record regs := Regs { ra : N; rb : N; rc : N; rd : N; re : N; rf : N; rg : N; rh : N }.

(** The initial words: the same for the square roots of the first 8 primes. *)
Definition H256 : regs := Eval vm_compute in
  let h p := w32 (N.sqrt (N.shiftl p 64)) in
  Regs (h 2) (h 3) (h 5) (h 7) (h 11) (h 13) (h 17) (h 19).

Definition round (s : regs) (kw : N * N) : regs :=
  let t1 := add32 (add32 (add32 (rh s) (Sigma1 (re s))) (add32 (Ch (re s) (rf s) (rg s)) kw.1)) kw.2 in
  let t2 := add32 (Sigma0 (ra s)) (Maj (ra s) (rb s) (rc s)) in
  Regs (add32 t1 t2) (ra s) (rb s) (rc s) (add32 (rd s) t1) (re s) (rf s) (rg s).

(** The message schedule, newest word first, extended [n] times. *)
Fixpoint schedule (n : nat) (ws : list N) : list N :=
  match n with
  | O => ws
  | S n' =>
      let w i := nth i ws 0 in
      schedule n' (add32 (add32 (sigma1 (w 1%nat)) (w 6%nat)) (add32 (sigma0 (w 14%nat)) (w 15%nat)) :: ws)
  end.

Definition compress (s : regs) (block : list N) : regs :=
  let ws := reverse (schedule 48 (reverse block)) in
  let t := fold_left round (zip K256 ws) s in
  Regs (add32 (ra s) (ra t)) (add32 (rb s) (rb t)) (add32 (rc s) (rc t)) (add32 (rd s) (rd t))
       (add32 (re s) (re t)) (add32 (rf s) (rf t)) (add32 (rg s) (rg t)) (add32 (rh s) (rh t)).

(** Big-endian words of a byte list. *)
Fixpoint words (bs : list N) : list N :=
  match bs with
  | a :: b :: c :: d :: bs' => (((a * 256 + b) * 256 + c) * 256 + d) :: words bs'
  | _ => []
  end.

Fixpoint str_bytes (s : string) : list N :=
  match s with EmptyString => [] | String c s' => byte_val c :: str_bytes s' end.

Definition be64 (n : N) : list N :=
  (λ i, N.land (N.shiftr n (8 * i)) 255) <$> [7; 6; 5; 4; 3; 2; 1; 0].

Definition padded (s : string) : list N :=
  let n := String.length s in
  let k := ((119 - n mod 64) mod 64)%nat in
  str_bytes s ++ [128] ++ replicate k 0 ++ be64 (8 * N.of_nat n).

Fixpoint blocks (n : nat) (s : regs) (ws : list N) : regs :=
  match n with
  | O => s
  | S n' => blocks n' (compress s (take 16 ws)) (drop 16 ws)
  end.

Definition be32 (x : N) : string :=
  String (byte_of (N.land (N.shiftr x 24) 255))
    (String (byte_of (N.land (N.shiftr x 16) 255))
      (String (byte_of (N.land (N.shiftr x 8) 255)) (str1 (byte_of (N.land x 255))))).

(** [sha256.Sum256]: the 32 bytes of the digest. *)
Definition Sum256 (s : string) : string :=
  let ws := words (padded s) in
  let r := blocks (List.length ws / 16)%nat H256 ws in
  be32 (ra r) +:+ be32 (rb r) +:+ be32 (rc r) +:+ be32 (rd r) +:+
  be32 (re r) +:+ be32 (rf r) +:+ be32 (rg r) +:+ be32 (rh r).

(** The FIPS 180-4 test vector, and a message of two blocks. *)
Example Sum256_abc :
  hex_encode (Sum256 "abc") = "ba7816bf8f01cfea414140de5dae2223b00361a396177a9cb410ff61f20015ad".
Proof. vm_compute. reflexivity. Qed.

Example Sum256_two_blocks :
  hex_encode (Sum256 "abcdbcdecdefdefgefghfghighijhijkijkljklmklmnlmnomnopnopq")
  = "248d6a61d20638b8e5c026930c3e6039a33ce45964ff2167f6ecedd419db06c1".
Proof. vm_compute. reflexivity. Qed.

Lemma Sum256_length s : String.length (Sum256 s) = 32%nat.
Proof. unfold Sum256. by rewrite !length_app_str. Qed.

End SHA.

Arguments SHA.Sum256 : simpl never.

(** ** Hexadecimal digits *)

Lemma length_hex_encode s : String.length (hex_encode s) = (2 * String.length s)%nat.
Proof. induction s as [|c s IH]; [done|]. cbn [hex_encode String.length]. rewrite IH. lia. Qed.

(** A lower-case hexadecimal digit. *)
Definition is_hex (r : N) : bool := rune_between "0" "9" r || rune_between "a" "f" r.

Lemma hex_digit_is_hex n : n < 16 → is_hex (byte_val (hex_digit n)) = true.
Proof.
  intros H. unfold hex_digit. destruct n as [|p]; [done|].
  do 4 (destruct p as [p|p|]; try done); lia.
Qed.

Lemma hex_encode_is_hex s : all_bytes is_hex (hex_encode s) = true.
Proof.
  induction s as [|c s IH]; [done|]. cbn [hex_encode all_bytes].
  assert (byte_val c < 256) by apply N_ascii_bounded.
  rewrite !hex_digit_is_hex, IH; [done|apply N.mod_lt; lia|apply N.Div0.div_lt_upper_bound; lia].
Qed.

Lemma is_hex_ascii r : is_hex r = true → r < 128.
Proof.
  unfold is_hex, rune_between, in_range, rune.
  rewrite orb_true_iff, !andb_true_iff, !N.leb_le. simpl. lia.
Qed.

Lemma hex_digit_inj a b : a < 16 → b < 16 → hex_digit a = hex_digit b → a = b.
Proof.
  intros Ha Hb. assert (∃ n, a = N.of_nat n ∧ (n < 16)%nat) as (n & -> & Hn)
    by (exists (N.to_nat a); lia).
  assert (∃ m, b = N.of_nat m ∧ (m < 16)%nat) as (m & -> & Hm) by (exists (N.to_nat b); lia).
  do 16 (destruct n as [|n]; [do 16 (destruct m as [|m]; [try done; by intros [=]|]); lia|]). lia.
Qed.

Lemma hex_encode_inj s t : hex_encode s = hex_encode t → s = t.
Proof.
  revert t. induction s as [|c s IH]; intros [|d t]; try done. cbn [hex_encode].
  intros [= H1 H2 H3]. f_equal; [|by apply IH].
  assert (byte_val c < 256 ∧ byte_val d < 256) as [? ?] by (split; apply N_ascii_bounded).
  apply hex_digit_inj in H1; [|apply N.Div0.div_lt_upper_bound; lia..].
  apply hex_digit_inj in H2; [|apply N.mod_lt; lia..].
  rewrite <- (ascii_N_embedding c), <- (ascii_N_embedding d). f_equal.
  rewrite (N.div_mod (byte_val c) 16), (N.div_mod (byte_val d) 16) by lia. congruence.
Qed.
