(* ===== verification/GoErrors.v ===== *)
(** * Error messages (fmt, errors)

    The text of an error, as the program stores it in statuses and outcomes:
    [fmt.Errorf] formats, the quoting of [%q], and [errors.Join]. *)
From S2P Require Import Prelude GoStrings.
From Stdlib Require Import NArith.

Section errors.
Context `{UnicodeTables}.

(** [unicode.IsPrint]. *)
Definition IsPrint (r : N) : bool :=
  if (r <? 128)%N then in_range 32 126 r else print_high r.

(** The lower-case hexadecimal digits of [r], [n] of them. *)
Fixpoint hex_rune (n : nat) (r : N) : string :=
  match n with
  | O => ""
  | S n' => hex_rune n' (r / 16) +:+ str1 (hex_digit (r mod 16))
  end.

Definition backslash : string := str1 (Ascii.ascii_of_nat 92).

(** strconv.appendEscapedRune for a rune of a valid encoding. *)
Definition escape_rune (quote : N) (r : N) : string :=
  if (r =? quote)%N || (r =? 92)%N then backslash +:+ EncodeRune r
  else if IsPrint r then EncodeRune r
  else if (r =? 7)%N then backslash +:+ "a"
  else if (r =? 8)%N then backslash +:+ "b"
  else if (r =? 12)%N then backslash +:+ "f"
  else if (r =? 10)%N then backslash +:+ "n"
  else if (r =? 13)%N then backslash +:+ "r"
  else if (r =? 9)%N then backslash +:+ "t"
  else if (r =? 11)%N then backslash +:+ "v"
  else if (r <? 32)%N || (r =? 127)%N then backslash +:+ "x" +:+ hex_rune 2 r
  else if (r <? 65536)%N then backslash +:+ "u" +:+ hex_rune 4 r
  else backslash +:+ "U" +:+ hex_rune 8 r.

(** [strconv.Quote]: an invalid byte is written in hexadecimal. *)
Definition Quote (s : string) : string :=
  dquote +:+
  foldr (λ p acc,
    (if seg_bad p
     then backslash +:+ "x" +:+ hex_encode p.2
     else escape_rune 34 p.1) +:+ acc) "" (segs s) +:+
  dquote.

(** [strconv.QuoteRune]. *)
Definition QuoteRune (r : N) : string := "'" +:+ escape_rune 39 r +:+ "'".

(** An argument of a format: its text for [%s], [%d], [%v] and [%w], and for
    [%q]. *)
Definition arg := (string * string)%type.

(** [fmt.Sprintf] over the verbs the program uses. *)
Fixpoint Sprintf (format : string) (args : list arg) : string :=
  match format with
  | EmptyString => ""
  | String c rest =>
      if bool_decide (c = "%"%char) then
        match rest, args with
        | String v rest', a :: args' =>
            (if bool_decide (v = "q"%char) then a.2 else a.1) +:+ Sprintf rest' args'
        | _, _ => format
        end
      else String c (Sprintf rest args)
  end.

(** The [Error] method of an error value. *)
Fixpoint Error (e : error) : string :=
  match e with
  | errorf format args => Sprintf format (List.map arg_text args)
  | apiError _ message | osError _ message | exitError _ message => message
  | joined errs => Join (List.map Error errs) nl
  end
with arg_text (a : fmt_arg) : arg :=
  match a with
  | FStr s => (s, Quote s)
  | FInt z => (FormatInt z, QuoteRune (Z.to_N z))
  | FErr e => (Error e, Quote (Error e))
  end.

(** An error whose format starts with text has text. *)
Definition worded (e : error) : Prop :=
  ∃ c f args, e = errorf (String c f) args ∧ c ≠ "%"%char.

Lemma worded_text e : worded e → Error e ≠ "".
Proof. intros (c & f & args & -> & Hc). cbn [Error Sprintf]. by rewrite bool_decide_false. Qed.

End errors.

(** The text of a wrapped error. *)
Example Error_wrapped : ∀ `{UnicodeTables},
  Error (errorf "sender failed: %w" [FErr (errorf "invalid dataset %q (%d)" [FStr "a b"; FInt (-3)])])
  = "sender failed: invalid dataset " +:+ dquote +:+ "a b" +:+ dquote +:+ " (-3)".
Proof. intros. vm_compute. reflexivity. Qed.
