(* ===== verification/GoTime.v ===== *)
(** * Go times and durations

    Instants as [time.Time] compares them, durations with the saturation of
    [Time.Sub], the UTC calendar and the layouts the program formats. *)
From S2P Require Import Prelude GoStrings.
Local Open Scope Z_scope.

(** An instant: nanoseconds since January 1, year 1, 00:00:00 UTC, so that the
    zero [time.Time] is [0]. The monotonic reading and the location of a Go
    time do not take part in [After], [Before], [Equal], [Sub]. *)
Abbreviation time := Z (only parsing).
Abbreviation duration := Z (only parsing).

(** The location of a time, as far as its text depends on it: UTC, or a zone with
    an offset in seconds. *)
Definition location : Set := option Z.

Definition Second : duration := 1000000000.
Definition Minute : duration := 60 * Second.
Definition Hour : duration := 60 * Minute.

Definition IsZero (t : time) : bool := t =? 0.
Definition After (t u : time) : bool := u <? t.
Definition Before (t u : time) : bool := t <? u.
Definition TEqual (t u : time) : bool := t =? u.
Definition Add (t : time) (d : duration) : time := t + d.

Definition maxDuration : duration := 2 ^ 63 - 1.
Definition minDuration : duration := - 2 ^ 63.

(** [Time.Sub] saturates at the range of a 64-bit duration. *)
Definition Sub (t u : time) : duration := Z.max minDuration (Z.min maxDuration (t - u)).

(** [Time.Truncate]: down to a multiple of [d] since the zero time. *)
Definition Truncate (t : time) (d : duration) : time := t - t mod d.

(** An optional [*metav1.Time]; [IsZero] of a nil pointer is true. *)
Definition opt_IsZero (t : option time) : bool :=
  match t with Some t' => IsZero t' | None => true end.

(** ** Calendar *)

Record date := { year : Z; month : Z; day : Z }.

(** Days since January 1, year 1 of the proleptic Gregorian calendar. *)
Definition date_of_days (days : Z) : date :=
  let z := days + 306 in
  let era := z / 146097 in
  let doe := z mod 146097 in
  let yoe := (doe - doe / 1460 + doe / 36524 - doe / 146096) / 365 in
  let doy := doe - (365 * yoe + yoe / 4 - yoe / 100) in
  let mp := (5 * doy + 2) / 153 in
  let m := if mp <? 10 then mp + 3 else mp - 9 in
  {| year := yoe + era * 400 + (if m <=? 2 then 1 else 0);
     month := m; day := doy - (153 * mp + 2) / 5 + 1 |}.

Definition days_of_date (x : date) : Z :=
  let y := if month x <=? 2 then year x - 1 else year x in
  let era := y / 400 in
  let yoe := y mod 400 in
  let mp := if 2 <? month x then month x - 3 else month x + 9 in
  let doy := (153 * mp + 2) / 5 + day x - 1 in
  let doe := yoe * 365 + yoe / 4 - yoe / 100 + doy in
  era * 146097 + doe - 306.

Definition Day : duration := 24 * Hour.

Definition date_of (t : time) : date := date_of_days (t / Day).
Definition hour_of (t : time) : Z := (t mod Day) / Hour.
Definition minute_of (t : time) : Z := (t mod Hour) / Minute.
Definition second_of (t : time) : Z := (t mod Minute) / Second.

Fixpoint zeros (n : nat) : string :=
  match n with O => EmptyString | S n' => String "0" (zeros n') end.

(** time.appendInt: decimal, padded with zeros to a width. *)
Definition pad (width : nat) (z : Z) : string :=
  let digits := FormatInt (Z.abs z) in
  (if z <? 0 then "-" else "") +:+ zeros (width - String.length digits) +:+ digits.

(** [t.UTC().Format("20060102150405Z")]. *)
Definition format_compact (t : time) : string :=
  let x := date_of t in
  pad 4 (year x) +:+ pad 2 (month x) +:+ pad 2 (day x) +:+
  pad 2 (hour_of t) +:+ pad 2 (minute_of t) +:+ pad 2 (second_of t) +:+ "Z".

(** [t.UTC().Format("20060102-1504")]. *)
Definition format_minutes (t : time) : string :=
  let x := date_of t in
  pad 4 (year x) +:+ pad 2 (month x) +:+ pad 2 (day x) +:+ "-" +:+
  pad 2 (hour_of t) +:+ pad 2 (minute_of t).

(** [t.UTC().Format(time.RFC3339)]. *)
Definition format_RFC3339 (t : time) : string :=
  let x := date_of t in
  pad 4 (year x) +:+ "-" +:+ pad 2 (month x) +:+ "-" +:+ pad 2 (day x) +:+ "T" +:+
  pad 2 (hour_of t) +:+ ":" +:+ pad 2 (minute_of t) +:+ ":" +:+ pad 2 (second_of t) +:+ "Z".

(** The calendar on known instants: the Unix epoch and a leap day. *)
Example date_epoch : date_of_days 719162 = {| year := 1970; month := 1; day := 1 |}.
Proof. reflexivity. Qed.

Example date_leap :
  format_RFC3339 ((days_of_date {| year := 2024; month := 2; day := 29 |} * 86400 + 3661) * Second)
  = "2024-02-29T01:01:01Z".
Proof. vm_compute. reflexivity. Qed.

(** ** Lemmas *)

Lemma After_spec t u : After t u = true ↔ u < t.
Proof. apply Z.ltb_lt. Qed.

Lemma After_false t u : After t u = false ↔ t ≤ u.
Proof. apply Z.ltb_ge. Qed.

Lemma Sub_in_range t u : minDuration ≤ Sub t u ≤ maxDuration.
Proof. unfold Sub, minDuration, maxDuration. lia. Qed.

Lemma Sub_exact t u : minDuration ≤ t - u ≤ maxDuration → Sub t u = t - u.
Proof. unfold Sub. lia. Qed.

Lemma Sub_pos t u : 0 < Sub t u ↔ u < t.
Proof. unfold Sub, minDuration, maxDuration. lia. Qed.

Lemma Truncate_bounds t d : 0 < d → Truncate t d ≤ t < Truncate t d + d.
Proof. intros Hd. unfold Truncate. pose proof (Z.mod_pos_bound t d Hd). lia. Qed.

Lemma Truncate_mod t d : 0 < d → Truncate t d mod d = 0.
Proof.
  intros Hd. unfold Truncate. rewrite Zminus_mod, Zmod_mod, Z.sub_diag. by apply Zmod_0_l.
Qed.

Lemma Truncate_mono t u d : 0 < d → t ≤ u → Truncate t d ≤ Truncate u d.
Proof.
  intros Hd H. unfold Truncate. pose proof (Z.div_mod t d). pose proof (Z.div_mod u d).
  pose proof (Z.div_le_mono t u d Hd H). nia.
Qed.

#[export] Hint Rewrite After_spec After_false : go.
