(* ===== verification/Utf8.v ===== *)
(** * The encoding of runes

    A valid string is the concatenation of the encodings of its runes, and every
    piece the decoder takes off a string is a single ASCII byte or consists of
    bytes above ASCII only. *)
From S2P Require Import Prelude GoStrings.
From Stdlib Require Import NArith.
Local Open Scope N_scope.

#[local] Ltac Zify.zify_post_hook ::= Z.to_euclidean_division_equations.

Lemma byte_val_lt c : byte_val c < 256.
Proof. apply N_ascii_bounded. Qed.

Lemma byte_of_val c : byte_of (byte_val c) = c.
Proof. apply ascii_N_embedding. Qed.

Lemma in_range_spec lo hi x : in_range lo hi x = true ↔ lo ≤ x ≤ hi.
Proof. unfold in_range. by rewrite andb_true_iff, !N.leb_le. Qed.

Lemma low6_spec b : low6 b = byte_val b mod 64.
Proof. unfold low6. change 63 with (N.ones 6). by rewrite N.land_ones. Qed.

Lemma second_ok_spec b0 b1 :
  second_ok b0 b1 = true →
  128 ≤ byte_val b1 ≤ 191 ∧ (byte_val b0 = 224 → 160 ≤ byte_val b1) ∧
  (byte_val b0 = 237 → byte_val b1 ≤ 159) ∧ (byte_val b0 = 240 → 144 ≤ byte_val b1) ∧
  (byte_val b0 = 244 → byte_val b1 ≤ 143).
Proof.
  unfold second_ok. repeat case_match; rewrite ?in_range_spec; rewrite ?N.eqb_eq, ?N.eqb_neq in *; lia.
Qed.

(** What a piece of a decoding looks like: an ASCII byte, an invalid byte, or the
    encoding of a rune above ASCII. *)
Definition seg_wf (p : seg) : Prop :=
  (p.1 < 128 ∧ p.2 = str1 (byte_of p.1)) ∨
  (seg_bad p = true ∧ all_bytes (λ r, 128 <=? r) p.2 = true) ∨
  (128 ≤ p.1 ∧ p.2 = EncodeRune p.1 ∧ all_bytes (λ r, 128 <=? r) p.2 = true).

Lemma bad_seg_wf b : 128 ≤ byte_val b → seg_wf (bad_seg b).
Proof.
  intros Hb. right. left. split; [done|]. unfold bad_seg. cbn [snd].
  rewrite all_bytes_str1. by apply N.leb_le.
Qed.

(** The four lengths of an encoding. *)
Lemma encode2 x b1 :
  194 ≤ byte_val x ≤ 223 → 128 ≤ byte_val b1 ≤ 191 →
  let r := N.land (byte_val x) 31 * 64 + low6 b1 in
  128 ≤ r ∧ String x (str1 b1) = EncodeRune r.
Proof.
  intros Hx Hb r. unfold r. rewrite low6_spec. change 31 with (N.ones 5). rewrite N.land_ones.
  change (2 ^ 5) with 32. set (v := byte_val x mod 32 * 64 + byte_val b1 mod 64).
  assert (128 ≤ v < 2048) as [Hlo Hhi] by (unfold v; lia). split; [done|].
  unfold EncodeRune. rewrite (proj2 (N.ltb_ge v 128)), (proj2 (N.ltb_lt v 2048)) by done.
  assert (192 + v / 64 = byte_val x) as -> by (unfold v; lia).
  assert (128 + v mod 64 = byte_val b1) as -> by (unfold v; lia). by rewrite !byte_of_val.
Qed.

Lemma encode3 x b1 b2 :
  224 ≤ byte_val x < 240 → second_ok x b1 = true → 128 ≤ byte_val b2 ≤ 191 →
  let r := (N.land (byte_val x) 15 * 64 + low6 b1) * 64 + low6 b2 in
  128 ≤ r ∧ String x (String b1 (str1 b2)) = EncodeRune r.
Proof.
  intros Hx Hs Hb r. apply second_ok_spec in Hs. destruct Hs as (Hb1 & H1 & H2 & _ & _).
  unfold r. rewrite !low6_spec. change 15 with (N.ones 4). rewrite N.land_ones.
  change (2 ^ 4) with 16. set (v := (byte_val x mod 16 * 64 + byte_val b1 mod 64) * 64 + byte_val b2 mod 64).
  assert (2048 ≤ v < 65536) as [Hlo Hhi] by (unfold v; lia). split; [lia|].
  assert (in_range 55296 57343 v = false) as Hsur.
  { apply not_true_iff_false. rewrite in_range_spec. unfold v. lia. }
  unfold EncodeRune. rewrite (proj2 (N.ltb_ge v 128)), (proj2 (N.ltb_ge v 2048)) by lia.
  rewrite Hsur, (proj2 (N.ltb_lt v 65536)) by done.
  assert (224 + v / 4096 = byte_val x) as -> by (unfold v; lia).
  assert (128 + (v / 64) mod 64 = byte_val b1) as -> by (unfold v; lia).
  assert (128 + v mod 64 = byte_val b2) as -> by (unfold v; lia). by rewrite !byte_of_val.
Qed.

Lemma encode4 x b1 b2 b3 :
  240 ≤ byte_val x ≤ 244 → second_ok x b1 = true → 128 ≤ byte_val b2 ≤ 191 → 128 ≤ byte_val b3 ≤ 191 →
  let r := ((N.land (byte_val x) 7 * 64 + low6 b1) * 64 + low6 b2) * 64 + low6 b3 in
  128 ≤ r ∧ String x (String b1 (String b2 (str1 b3))) = EncodeRune r.
Proof.
  intros Hx Hs Hb Hb3 r. apply second_ok_spec in Hs. destruct Hs as (Hb1 & _ & _ & H1 & H2).
  unfold r. rewrite !low6_spec. change 7 with (N.ones 3). rewrite N.land_ones. change (2 ^ 3) with 8.
  set (v := ((byte_val x mod 8 * 64 + byte_val b1 mod 64) * 64 + byte_val b2 mod 64) * 64 + byte_val b3 mod 64).
  assert (65536 ≤ v < 1114112) as [Hlo Hhi] by (unfold v; lia). split; [lia|].
  assert (in_range 55296 57343 v = false) as Hsur.
  { apply not_true_iff_false. rewrite in_range_spec. lia. }
  unfold EncodeRune. rewrite (proj2 (N.ltb_ge v 128)), (proj2 (N.ltb_ge v 2048)) by lia.
  rewrite Hsur, (proj2 (N.ltb_ge v 65536)), (proj2 (N.ltb_lt v 1114112)) by lia.
  assert (240 + v / 262144 = byte_val x) as -> by (unfold v; lia).
  assert (128 + (v / 4096) mod 64 = byte_val b1) as -> by (unfold v; lia).
  assert (128 + (v / 64) mod 64 = byte_val b2) as -> by (unfold v; lia).
  assert (128 + v mod 64 = byte_val b3) as -> by (unfold v; lia). by rewrite !byte_of_val.
Qed.

Lemma high_bytes c : 128 ≤ byte_val c → (128 <=? byte_val c) = true.
Proof. by rewrite N.leb_le. Qed.

Lemma decode1_wf b0 s1 : seg_wf (decode1 b0 s1).1.
Proof.
  unfold decode1. destruct (byte_val b0 <? 128) eqn:E0.
  { left. apply N.ltb_lt in E0. simpl. by rewrite byte_of_val. }
  apply N.ltb_ge in E0. pose proof (bad_seg_wf b0 E0) as Hbad.
  destruct s1 as [|b1 s2]; [done|].
  destruct (in_range 194 223 (byte_val b0) && cont b1) eqn:E1.
  { apply andb_true_iff in E1 as [Hx%in_range_spec Hc]. unfold cont in Hc. apply in_range_spec in Hc.
    destruct (encode2 b0 b1 Hx Hc) as [Hr He]. right. right. cbn [fst snd]. split; [done|].
    split; [done|]. cbn [all_bytes str1]. by rewrite !high_bytes by lia. }
  destruct (in_range 224 244 (byte_val b0) && second_ok b0 b1) eqn:E2; [|done].
  apply andb_true_iff in E2 as [Hx%in_range_spec Hs]. pose proof (second_ok_spec _ _ Hs) as (Hb1 & _).
  destruct s2 as [|b2 s3]; [done|]. destruct (cont b2) eqn:Hb2; [|done]. apply in_range_spec in Hb2.
  cbn [negb]. destruct (N.ltb_spec (byte_val b0) 240) as [Hlt|Hge].
  { destruct (encode3 b0 b1 b2 ltac:(lia) Hs Hb2) as [Hr He]. right. right. cbn [fst snd].
    split; [done|]. split; [done|]. cbn [all_bytes str1]. by rewrite !high_bytes by lia. }
  destruct s3 as [|b3 s4]; [done|]. destruct (cont b3) eqn:Hb3; [|done]. apply in_range_spec in Hb3.
  destruct (encode4 b0 b1 b2 b3 ltac:(lia) Hs Hb2 Hb3) as [Hr He]. right. right. cbn [fst snd].
  split; [done|]. split; [done|]. cbn [all_bytes str1]. by rewrite !high_bytes by lia.
Qed.

Lemma segs_wf s : Forall seg_wf (segs s).
Proof.
  induction s as [s IH] using string_len_ind. destruct s as [|b0 s1]; [constructor|].
  rewrite segs_cons. constructor; [apply decode1_wf|]. apply IH.
  rewrite <- (decode1_flat b0 s1), length_app_str.
  pose proof (decode1_ne b0 s1). destruct ((decode1 b0 s1).1.2); [done|]. simpl. lia.
Qed.

Lemma seg_wf_encode p : seg_wf p → seg_bad p = false → EncodeRune p.1 = p.2.
Proof.
  intros [[Hlt Hp]|[[Hb _]|(_ & Hp & _)]] Hbad; [|congruence|done].
  unfold EncodeRune. by rewrite (proj2 (N.ltb_lt _ _) Hlt).
Qed.

Lemma ValidString_segs s : ValidString s = true ↔ Forall (λ p, seg_bad p = false) (segs s).
Proof.
  unfold ValidString. rewrite negb_true_iff. induction (segs s) as [|p l IH]; [by split|].
  simpl. rewrite orb_false_iff, Forall_cons. by rewrite IH.
Qed.

(** Encoding the runes of a valid string gives it back. *)
Lemma encode_runes s : ValidString s = true → EncodeRunes (runes s) = s.
Proof.
  rewrite ValidString_segs. intros Hv. rewrite <- (flat_segs s) at 2. unfold runes, flat, EncodeRunes.
  pose proof (segs_wf s) as Hw. induction Hv as [|p l Hp _ IH]; [done|].
  inversion Hw as [|? ? Hwp Hwl]; subst. rewrite fmap_cons. cbn [foldr].
  by rewrite (seg_wf_encode p), IH.
Qed.

(** ** Valid strings *)

Lemma seg_alone s p : p ∈ segs s → segs p.2 = [p].
Proof.
  intros (l1 & l2 & E)%list_elem_of_split. apply segs_suffix in E as E2.
  change (p :: l2) with ([p] ++ l2) in E2. apply segs_prefix in E2.
  unfold flat in E2. cbn in E2. by rewrite str_app_nil_r in E2.
Qed.

Lemma valid_seg s p : p ∈ segs s → seg_bad p = false → ValidString p.2 = true.
Proof. intros Hp Hb. rewrite ValidString_segs, (seg_alone s p Hp). by repeat constructor. Qed.

Lemma valid_boundary t : ValidString t = true → head_boundary t = true.
Proof.
  destruct t as [|c t]; [done|]. rewrite ValidString_segs, segs_cons. intros [Hp _]%Forall_cons.
  cbn [head_boundary]. apply negb_true_iff, not_true_iff_false. intros Hc.
  unfold cont in Hc. apply in_range_spec in Hc. revert Hp. unfold decode1.
  rewrite (proj2 (N.ltb_ge _ _)) by lia.
  assert (in_range 194 223 (byte_val c) = false) as -> by (apply not_true_iff_false; rewrite in_range_spec; lia).
  assert (in_range 224 244 (byte_val c) = false) as -> by (apply not_true_iff_false; rewrite in_range_spec; lia).
  by destruct t.
Qed.

Lemma valid_app s t : ValidString s = true → ValidString t = true → ValidString (s +:+ t) = true.
Proof.
  intros Hs Ht. rewrite ValidString_segs, segs_app, Forall_app by (by apply valid_boundary).
  by rewrite <- !ValidString_segs.
Qed.

Lemma valid_Join parts sep :
  Forall (λ p, ValidString p = true) parts → ValidString sep = true → ValidString (Join parts sep) = true.
Proof.
  intros Hp Hs. induction Hp as [|p parts Hp Hparts IH]; [done|].
  destruct parts as [|q parts]; [done|]. rewrite Join_cons by done. by repeat apply valid_app.
Qed.

(** [strings.ToValidUTF8] with a valid replacement. *)
Lemma valid_ToValidUTF8 s r : ValidString r = true → ValidString (ToValidUTF8 s r) = true.
Proof.
  intros Hr. unfold ToValidUTF8.
  assert (Forall (λ p, seg_bad p = false → ValidString p.2 = true) (segs s)) as Hall.
  { apply Forall_forall. intros p Hp. by apply (valid_seg s). }
  generalize false. induction Hall as [|p l Hp _ IH]; intros prev; [done|]. cbn [to_valid_aux].
  destruct (seg_bad p).
  - apply valid_app; [by destruct prev|apply IH].
  - apply valid_app; [by apply Hp|apply IH].
Qed.

(** The fields of a valid string are valid, and without white space. *)
Lemma fields_aux_all (P : string → Prop) l cur :
  P cur → (∀ a b, P a → P b → P (a +:+ b)) → P EmptyString →
  Forall (λ p, IsSpace p.1 = false → P p.2) l → Forall P (fields_aux l cur).
Proof.
  intros Hc Happ H0 Hall. revert cur Hc. induction Hall as [|p l Hp _ IH]; intros cur Hc; cbn [fields_aux].
  - case_decide; by repeat constructor.
  - destruct (IsSpace p.1); [case_decide; [by apply IH|constructor; [done|by apply IH]]|].
    apply IH, Happ; [done|by apply Hp].
Qed.

Lemma valid_Fields s : ValidString s = true → Forall (λ p, ValidString p = true) (Fields s).
Proof.
  intros Hs. apply fields_aux_all; [done|apply valid_app|done|]. apply Forall_forall. intros p Hp _.
  apply (valid_seg s p Hp). rewrite ValidString_segs, Forall_forall in Hs. by apply Hs.
Qed.

Lemma Fields_no_byte c s :
  byte_val c < 128 → IsSpace (byte_val c) = true → Forall (λ p, has_byte c p = false) (Fields s).
Proof.
  intros Hc Hsp. apply fields_aux_all; [done|intros a b Ha Hb; by rewrite has_byte_app, Ha|done|].
  eapply Forall_impl; [apply segs_wf|]. intros [r q] Hw Hns. cbn [fst snd] in *.
  assert (∀ q, all_bytes (λ r, 128 <=? r) q = true → has_byte c q = false) as Hhigh.
  { clear -Hc. induction q as [|d q IH]; [done|]. cbn [all_bytes has_byte]. intros [Hd Hq]%andb_true_iff.
    apply N.leb_le in Hd. rewrite IH by done. rewrite bool_decide_false; [done|]. intros ->. lia. }
  destruct Hw as [[Hlt Hq]|[[_ Hq]|(_ & _ & Hq)]]; cbn [fst snd] in *; [|by apply Hhigh..].
  subst q. cbn [has_byte str1]. rewrite orb_false_r. apply bool_decide_eq_false. intros E.
  assert (byte_val c = r); [|congruence]. first [rewrite <- E | rewrite E].
  unfold byte_of, byte_val. apply N_ascii_embedding. lia.
Qed.

(** A piece has one to four bytes, so a valid string has a valid prefix at most three
    bytes shorter than any length. *)
Lemma seg_length s p : p ∈ segs s → (1 ≤ String.length p.2 ≤ 4)%nat.
Proof.
  intros Hp%seg_alone. destruct (p.2) as [|c q]; [done|]. rewrite segs_cons in Hp. injection Hp as Hp Hq.
  assert (String c q = (decode1 c q).1.2) as ->.
  { rewrite <- (decode1_flat c q) at 1. rewrite <- (flat_segs (decode1 c q).2), Hq. cbn. by rewrite str_app_nil_r. }
  unfold decode1. repeat case_match; cbn; lia.
Qed.

Lemma segs_cut l n :
  Forall (λ p : seg, (1 ≤ String.length p.2 ≤ 4)%nat) l → (n ≤ String.length (flat l))%nat →
  ∃ l1 l2, l = l1 ++ l2 ∧ (String.length (flat l1) ≤ n ≤ String.length (flat l1) + 3)%nat.
Proof.
  intros Hall. revert n. induction Hall as [|p l Hp _ IH]; intros n Hn.
  { exists [], []. cbn in *. split; [done|lia]. }
  rewrite flat_cons, length_app_str in Hn.
  destruct (decide (n < String.length p.2)%nat) as [Hlt|Hge].
  { exists [], (p :: l). cbn. split; [done|lia]. }
  destruct (IH (n - String.length p.2)%nat) as (l1 & l2 & -> & Hl); [lia|].
  exists (p :: l1), l2. rewrite flat_cons, length_app_str. split; [done|lia].
Qed.

Lemma valid_prefix s n :
  ValidString s = true → (n ≤ String.length s)%nat →
  ∃ k, (k ≤ n ≤ k + 3)%nat ∧ ValidString (str_take k s) = true.
Proof.
  intros Hs Hn. destruct (segs_cut (segs s) n) as (l1 & l2 & E & Hl).
  { apply Forall_forall. apply seg_length. }
  { by rewrite flat_segs. }
  exists (String.length (flat l1)). split; [done|].
  assert (s = flat l1 +:+ flat l2) as -> by (by rewrite <- flat_app, <- E, flat_segs).
  rewrite str_take_app, ValidString_segs, (segs_prefix _ _ _ E).
  rewrite ValidString_segs, E, Forall_app in Hs. apply Hs.
Qed.
