(* ===== verification/Json.v ===== *)
(** * JSON (encoding/json, and the text form of time.Time)

    The writer and the reader of the JSON the receiver stores: strings with their
    escapes, times in RFC 3339, and the syntax of values. *)
From S2P Require Import Prelude GoStrings GoErrors GoTime.
From Stdlib Require Import NArith.
Local Open Scope Z_scope.

(** ** Writing *)

(** The escaped form of one rune inside a string, with HTML escaping. *)
Definition json_rune (p : seg) : string :=
  let r := p.1 in
  if seg_bad p then backslash +:+ "ufffd"
  else if (r =? 34)%N || (r =? 92)%N then backslash +:+ p.2
  else if (r =? 8)%N then backslash +:+ "b"
  else if (r =? 12)%N then backslash +:+ "f"
  else if (r =? 10)%N then backslash +:+ "n"
  else if (r =? 13)%N then backslash +:+ "r"
  else if (r =? 9)%N then backslash +:+ "t"
  else if (r <? 32)%N || (r =? 60)%N || (r =? 62)%N || (r =? 38)%N then backslash +:+ "u" +:+ hex_rune 4 r
  else if (r =? 8232)%N || (r =? 8233)%N then backslash +:+ "u" +:+ hex_rune 4 r
  else p.2.

Definition json_escape (s : string) : string := foldr (λ p acc, json_rune p +:+ acc) "" (segs s).

Definition json_string (s : string) : string := dquote +:+ json_escape s +:+ dquote.

Definition json_bool (b : bool) : string := if b then "true" else "false".

(** Decimal digits without the zeros at the end. *)
Fixpoint trim_zeros (s : string) : string :=
  match s with
  | EmptyString => ""
  | String c s' =>
      let rest := trim_zeros s' in
      if bool_decide (c = "0"%char) && (rest ≟ "") then "" else String c rest
  end.

(** The zone of a time: [Z], or the offset in hours and minutes. *)
Definition zone_text (offset : Z) : string :=
  if offset =? 0 then "Z"
  else
    let zone := Z.abs (Z.quot offset 60) in
    (if offset <? 0 then "-" else "+") +:+ pad 2 (zone / 60) +:+ ":" +:+ pad 2 (zone mod 60).

(** The date and the time of day of an instant read in UTC. *)
Definition datetime_text (t : time) : string :=
  let x := date_of t in
  pad 4 (year x) +:+ "-" +:+ pad 2 (month x) +:+ "-" +:+ pad 2 (day x) +:+ "T" +:+
  pad 2 (hour_of t) +:+ ":" +:+ pad 2 (minute_of t) +:+ ":" +:+ pad 2 (second_of t).

(** A fraction of a second, when there is one. *)
Definition fraction_text (ns : Z) : string :=
  let fraction := trim_zeros (pad 9 ns) in
  if fraction ≟ "" then "" else "." +:+ fraction.

(** [Time.MarshalJSON]: RFC 3339 with a fraction when there is one, an error for
    the years and zones it cannot write. *)
Definition json_time (t : time) (zone : location) : result string :=
  let offset := default 0 zone in
  let local := t + offset * Second in
  let y := year (date_of local) in
  fail_if ((y <? 0) || (9999 <? y))
    (errorf "json: error calling MarshalJSON for type time.Time: Time.MarshalJSON: year outside of range [0,9999]" []);;
  fail_if (24 * 3600 <=? Z.abs offset)
    (errorf "json: error calling MarshalJSON for type time.Time: Time.MarshalJSON: timezone hour outside of range [0,23]" []);;
  Ok (dquote +:+ datetime_text local +:+ fraction_text (t mod Second) +:+ zone_text offset +:+ dquote).

Definition json_field (name value : string) : string := dquote +:+ name +:+ dquote +:+ ":" +:+ value.

Fixpoint mapM_result {A B} (f : A → result B) (l : list A) : result (list B) :=
  match l with
  | [] => Ok []
  | x :: l' => y ← f x; ys ← mapM_result f l'; Ok (y :: ys)
  end.

(** ** The syntax of values *)

(** A value, with strings and numbers as they are written. *)
Inductive json :=
  | JNull
  | JBool (b : bool)
  | JNumber (text : string)
  | JString (raw : string)
  | JArray (items : list json)
  | JObject (members : list (string * json)).

Definition byte_in (chars : string) (c : ascii) : bool := has_byte c chars.

Definition is_digit (c : ascii) : bool := in_range 48 57 (byte_val c).
Definition is_hex_byte (c : ascii) : bool :=
  is_digit c || in_range 97 102 (byte_val c) || in_range 65 70 (byte_val c).

Fixpoint skip_space (s : string) : string :=
  match s with
  | String c s' => if byte_in (" " +:+ nl +:+ str1 (ascii_of_nat 13) +:+ str1 (ascii_of_nat 9)) c
                   then skip_space s' else s
  | EmptyString => ""
  end.

(** Prefix the first component of a scan. *)
Definition scan_cons (c : ascii) (x : option (string * string)) : option (string * string) :=
  match x with Some (a, b) => Some (String c a, b) | None => None end.

(** The letters of the escapes of one letter. *)
Definition short_escapes : string := dquote +:+ backslash +:+ "/bfnrt".

(** A string after its opening quote: its text as written, and what follows the
    closing quote. *)
Fixpoint scan_string (s : string) : option (string * string) :=
  match s with
  | EmptyString => None
  | String c s1 =>
      if bool_decide (c = ascii_of_nat 34) then Some ("", s1)
      else if bool_decide (c = ascii_of_nat 92) then
        match s1 with
        | String e s2 =>
            if byte_in short_escapes e
            then scan_cons c (scan_cons e (scan_string s2))
            else if bool_decide (e = "u"%char) then
              match s2 with
              | String h1 (String h2 (String h3 (String h4 s3))) =>
                  if is_hex_byte h1 && is_hex_byte h2 && is_hex_byte h3 && is_hex_byte h4
                  then scan_cons c (scan_cons e (scan_cons h1 (scan_cons h2
                         (scan_cons h3 (scan_cons h4 (scan_string s3))))))
                  else None
              | _ => None
              end
            else None
        | EmptyString => None
        end
      else if (byte_val c <? 32)%N then None
      else scan_cons c (scan_string s1)
  end.

(** A run of digits, and the rest. *)
Fixpoint scan_digits (s : string) : string * string :=
  match s with
  | String c s' => if is_digit c then let '(a, b) := scan_digits s' in (String c a, b) else ("", s)
  | EmptyString => ("", "")
  end.

(** A non-empty run of digits. *)
Definition scan_digits1 (s : string) : option (string * string) :=
  let '(a, b) := scan_digits s in if a ≟ "" then None else Some (a, b).

(** The integer part of a number: no zero before another digit. *)
Definition scan_int (s : string) : option (string * string) :=
  match s with
  | String c s' => if bool_decide (c = "0"%char) then Some ("0", s') else scan_digits1 s
  | EmptyString => None
  end.

Definition scan_fraction (s : string) : option (string * string) :=
  match s with
  | String c s' =>
      if bool_decide (c = "."%char) then '(a, b) ← scan_digits1 s'; Some (String c a, b)
      else Some ("", s)
  | EmptyString => Some ("", "")
  end.

Definition scan_exponent (s : string) : option (string * string) :=
  match s with
  | String c s1 =>
      if byte_in "eE" c then
        match s1 with
        | String d s2 =>
            if byte_in "+-" d then '(a, b) ← scan_digits1 s2; Some (String c (String d a), b)
            else '(a, b) ← scan_digits1 s1; Some (String c a, b)
        | EmptyString => None
        end
      else Some ("", s)
  | EmptyString => Some ("", "")
  end.

Definition scan_number (s : string) : option (string * string) :=
  let '(sign, s) := match s with
    | String c s' => if bool_decide (c = "-"%char) then ("-", s') else ("", s)
    | EmptyString => ("", "") end in
  '(a, s) ← scan_int s; '(b, s) ← scan_fraction s; '(c, s) ← scan_exponent s;
  Some (sign +:+ a +:+ b +:+ c, s).

(** The greatest nesting the decoder accepts. *)
Definition maxNestingDepth : nat := 10 * 10 * 10 * 10.

(** A keyword. *)
Definition scan_word (word : string) (v : json) (s : string) : option (json * string) :=
  if HasPrefix s word then Some (v, str_drop (String.length word) s) else None.

(** What comes next: a value, the members of an object after its brace or a comma,
    or the elements of an array after its bracket or a comma. *)
Inductive parsed := PValue | PMembers | PElements.

Definition parsed_type (p : parsed) : Type :=
  match p with PValue => json | PMembers => list (string * json) | PElements => list json end.

(** The rest after white space and one given character. *)
Definition accept (c : ascii) (s : string) : option string :=
  match skip_space s with
  | String d s' => if bool_decide (d = c) then Some s' else None
  | EmptyString => None
  end.

Definition quote : ascii := ascii_of_nat 34.

Fixpoint parse (fuel : nat) (p : parsed) (depth : nat) (s : string) : option (parsed_type p * string) :=
  match fuel with
  | O => None
  | S n =>
      match p return option (parsed_type p * string) with
      | PValue =>
          match skip_space s with
          | EmptyString => None
          | String c s1 =>
              if bool_decide (c = "{"%char) then
                match depth, accept "}" s1 with
                | O, _ => None
                | S d, Some s2 => Some (JObject [], s2)
                | S d, None => '(ms, r) ← parse n PMembers d s1; Some (JObject ms, r)
                end
              else if bool_decide (c = "["%char) then
                match depth, accept "]" s1 with
                | O, _ => None
                | S d, Some s2 => Some (JArray [], s2)
                | S d, None => '(items, r) ← parse n PElements d s1; Some (JArray items, r)
                end
              else if bool_decide (c = quote) then '(raw, r) ← scan_string s1; Some (JString raw, r)
              else if bool_decide (c = "t"%char) then scan_word "true" (JBool true) (String c s1)
              else if bool_decide (c = "f"%char) then scan_word "false" (JBool false) (String c s1)
              else if bool_decide (c = "n"%char) then scan_word "null" JNull (String c s1)
              else '(text, r) ← scan_number (String c s1); Some (JNumber text, r)
          end
      | PMembers =>
          s1 ← accept quote s; '(key, s2) ← scan_string s1;
          s3 ← accept ":" s2; '(v, s4) ← parse n PValue depth s3;
          match accept "," s4 with
          | Some s5 => '(ms, r) ← parse n PMembers depth s5; Some ((key, v) :: ms, r)
          | None => r ← accept "}" s4; Some ([(key, v)], r)
          end
      | PElements =>
          '(v, s1) ← parse n PValue depth s;
          match accept "," s1 with
          | Some s2 => '(items, r) ← parse n PElements depth s2; Some (v :: items, r)
          | None => r ← accept "]" s1; Some ([v], r)
          end
      end
  end.

(** A document: one value with white space around it and nothing after. *)
Definition parse_document (s : string) : option json :=
  '(v, rest) ← parse (S (S (2 * String.length s))) PValue maxNestingDepth s;
  if skip_space rest ≟ "" then Some v else None.

(** ** The text of a string *)

Definition hex_val (r : N) : option N :=
  if in_range 48 57 r then Some (r - 48)%N
  else if in_range 97 102 r then Some (r - 87)%N
  else if in_range 65 70 r then Some (r - 55)%N
  else None.

(** The four hexadecimal digits after [\u] (getu4). *)
Definition hex4 (l : list N) : option N :=
  match l with
  | a :: b :: c :: d :: _ =>
      a ← hex_val a; b ← hex_val b; c ← hex_val c; d ← hex_val d;
      Some (((a * 16 + b) * 16 + c) * 16 + d)%N
  | _ => None
  end.

(** The rune of an escape [\uXXXX] whose digits start the list, and how many
    runes of the list it takes: a pair of surrogates is one rune. *)
Definition decode_u (l : list N) : N * nat :=
  match hex4 l with
  | None => (RuneError, 0%nat)
  | Some r =>
      if in_range 55296 57343 r then
        match drop 4 l with
        | 92%N :: 117%N :: l' =>
            match hex4 l' with
            | Some r1 =>
                if in_range 55296 56319 r && in_range 56320 57343 r1
                then (((r - 55296) * 1024 + (r1 - 56320) + 65536)%N, 10%nat)
                else (RuneError, 4%nat)
            | None => (RuneError, 4%nat)
            end
        | _ => (RuneError, 4%nat)
        end
      else (r, 4%nat)
  end.

(** The rune of a one-letter escape. *)
Definition simple_escape (r : N) : N :=
  if (r =? 98)%N then 8 else if (r =? 102)%N then 12 else if (r =? 110)%N then 10
  else if (r =? 114)%N then 13 else if (r =? 116)%N then 9 else r.

(** [unquote] on the runes of the text between the quotes; [skip] runes belong to
    the last escape. *)
Fixpoint unquote (l : list N) (skip : nat) : string :=
  match l with
  | [] => ""
  | r :: t =>
      match skip with
      | S k => unquote t k
      | O =>
          if (r =? 92)%N then
            match t with
            | e :: u =>
                if (e =? 117)%N then let '(x, n) := decode_u u in EncodeRune x +:+ unquote t (S n)
                else EncodeRune (simple_escape e) +:+ unquote t 1
            | [] => ""
            end
          else EncodeRune r +:+ unquote t 0
      end
  end.

(** The string a literal stands for. *)
Definition string_value (raw : string) : string := unquote (runes raw) 0.

(** ** Times *)

(** The rest after a literal prefix. *)
Definition expect (pre s : string) : option string :=
  if HasPrefix s pre then Some (str_drop (String.length pre) s) else None.

Definition digit_val (c : ascii) : Z := Z.of_N (byte_val c) - 48.

(** The value of a digit string. *)
Fixpoint decimal (acc : Z) (s : string) : Z :=
  match s with EmptyString => acc | String c s' => decimal (10 * acc + digit_val c) s' end.

(** [n] digits. *)
Fixpoint digits (n : nat) (acc : Z) (s : string) : option (Z * string) :=
  match n with
  | O => Some (acc, s)
  | S n' => match s with
            | String c s' => if is_digit c then digits n' (10 * acc + digit_val c) s' else None
            | EmptyString => None
            end
  end.

(** One or two digits. *)
Definition hour_digits (s : string) : option (Z * string) :=
  match digits 2 0 s with Some x => Some x | None => digits 1 0 s end.

(** The nanoseconds of a fraction of at least one digit after a point or a comma;
    digits after the ninth are dropped. *)
Definition parse_fraction (s : string) : Z * string :=
  match s with
  | String p s1 =>
      if byte_in ".," p then
        let '(ds, rest) := scan_digits s1 in
        if ds ≟ "" then (0, s)
        else let ds := str_take 9 ds in (decimal 0 ds * 10 ^ (9 - Z.of_nat (String.length ds)), rest)
      else (0, s)
  | EmptyString => (0, "")
  end.

(** [Z], or an offset of hours and minutes. *)
Definition parse_zone (s : string) : option location :=
  match s with
  | String c s' =>
      if s ≟ "Z" then Some None
      else if byte_in "+-" c then
        '(h, s1) ← digits 2 0 s';
        s2 ← expect ":" s1;
        '(m, s3) ← digits 2 0 s2;
        if (s3 ≟ "") && (h <=? 24) && (m <=? 60)
        then Some (Some ((if bool_decide (c = "-"%char) then -1 else 1) * (h * 60 + m) * 60))
        else None
      else None
  | EmptyString => None
  end.

Definition leap (y : Z) : bool := (y mod 4 =? 0) && (negb (y mod 100 =? 0) || (y mod 400 =? 0)).

Definition daysIn (m y : Z) : Z :=
  if m =? 2 then (if leap y then 29 else 28)
  else if (m =? 4) || (m =? 6) || (m =? 9) || (m =? 11) then 30 else 31.

(** [time.Parse(time.RFC3339, s)], which also takes a fraction, an hour of one
    digit and offsets of twenty-four hours or sixty minutes. *)
Definition parse_RFC3339 (s : string) : option (time * location) :=
  '(y, s) ← digits 4 0 s; s ← expect "-" s;
  '(mo, s) ← digits 2 0 s; s ← expect "-" s;
  '(d, s) ← digits 2 0 s; s ← expect "T" s;
  '(h, s) ← hour_digits s; s ← expect ":" s;
  '(mi, s) ← digits 2 0 s; s ← expect ":" s;
  '(sec, s) ← digits 2 0 s;
  let '(ns, s) := parse_fraction s in
  zone ← parse_zone s;
  if (1 <=? mo) && (mo <=? 12) && (1 <=? d) && (d <=? daysIn mo y) &&
     (h <? 24) && (mi <? 60) && (sec <? 60)
  then Some ((days_of_date {| year := y; month := mo; day := d |} * 86400 +
              h * 3600 + mi * 60 + sec - default 0 zone) * Second + ns, zone)
  else None.
