(* ===== verification/JsonRoundtrip.v ===== *)
(** * What is written is read back

    The strings and the times the program writes as JSON are read back by the
    scanner, the unquoting and the time parser, and the fuel of the syntax is
    enough. *)
From S2P Require Import Prelude GoStrings Utf8 Sha256 GoErrors GoTime Json.
From Stdlib Require Import NArith.
Local Open Scope Z_scope.

#[local] Ltac Zify.zify_post_hook ::= Z.to_euclidean_division_equations.

(** ** Strings *)

(** A scan with text put in front. *)
Definition scan_app (u : string) (x : option (string * string)) : option (string * string) :=
  match x with Some (a, b) => Some (u +:+ a, b) | None => None end.

Lemma scan_app_cons c u x : scan_cons c (scan_app u x) = scan_app (String c u) x.
Proof. by destruct x as [[]|]. Qed.

Lemma scan_app_app u v x : scan_app u (scan_app v x) = scan_app (u +:+ v) x.
Proof. destruct x as [[a b]|]; [|done]. cbn [scan_app]. by rewrite str_app_assoc. Qed.

(** A byte that needs no escape. *)
Definition plain_byte (r : N) : bool := (32 <=? r)%N && negb (r =? 34)%N && negb (r =? 92)%N.

Lemma scan_plain u t : all_bytes plain_byte u = true → scan_string (u +:+ t) = scan_app u (scan_string t).
Proof.
  induction u as [|c u IH]; [rewrite app_nil_str; by destruct (scan_string t) as [[]|]|].
  cbn [all_bytes]. rewrite app_cons, andb_true_iff. intros [Hc Hu]. cbn [scan_string].
  unfold plain_byte in Hc. rewrite !andb_true_iff, !negb_true_iff, !N.eqb_neq, N.leb_le in Hc.
  rewrite bool_decide_false by (intros ->; simpl in Hc; lia).
  rewrite bool_decide_false by (intros ->; simpl in Hc; lia).
  rewrite (proj2 (N.ltb_ge _ _)) by lia. by rewrite IH, scan_app_cons.
Qed.

Lemma high_plain u : all_bytes (λ r, 128 <=? r)%N u = true → all_bytes plain_byte u = true.
Proof.
  apply all_bytes_impl. intros r Hr%N.leb_le. unfold plain_byte.
  rewrite !andb_true_iff, !negb_true_iff, !N.eqb_neq, N.leb_le. lia.
Qed.

(** The runes that are written as [\u] escapes. *)
Definition u_escaped (r : N) : bool :=
  (r <? 32)%N || (r =? 60)%N || (r =? 62)%N || (r =? 38)%N || (r =? 8232)%N || (r =? 8233)%N.

Lemma u_escaped_cases r :
  u_escaped r = true → In r (List.map N.of_nat (List.seq 0 32) ++ [60; 62; 38; 8232; 8233]%N).
Proof.
  unfold u_escaped. rewrite !orb_true_iff, !N.eqb_eq, N.ltb_lt. intros Hr.
  apply in_or_app. destruct Hr as [[[[[Hr| ->]| ->]| ->]| ->]| ->]; [left|right; simpl; tauto..].
  apply in_map_iff. exists (N.to_nat r). split; [lia|]. apply in_seq. lia.
Qed.

(** The ways a rune is written. *)
Inductive rune_form (p : seg) : Prop :=
  | form_bad : seg_bad p = true → json_rune p = backslash +:+ "ufffd" → rune_form p
  | form_u : u_escaped p.1 = true → seg_bad p = false →
      json_rune p = backslash +:+ "u" +:+ hex_rune 4 p.1 → rune_form p
  | form_short (e : ascii) : seg_bad p = false → byte_in short_escapes e = true →
      simple_escape (byte_val e) = p.1 → (byte_val e <? 128)%N = true →
      json_rune p = backslash +:+ str1 e → rune_form p
  | form_plain : seg_bad p = false → all_bytes plain_byte p.2 = true → p.1 ≠ 92%N →
      json_rune p = p.2 → rune_form p.

Lemma short_escape_ascii e : byte_in short_escapes e = true → (byte_val e <? 128)%N = true.
Proof.
  intros He. assert (is_ascii short_escapes = true) as Ha by done.
  unfold byte_in in He. revert Ha He. generalize short_escapes. intros u.
  induction u as [|c u IH]; [done|]. simpl. intros [Hc Hu]%andb_prop [H|H]%orb_prop; [|auto].
  apply bool_decide_eq_true in H as ->. done.
Qed.

Lemma json_rune_form p : seg_wf p → rune_form p.
Proof.
  intros Hw. destruct (seg_bad p) eqn:Hb; [by apply form_bad; [|unfold json_rune; rewrite Hb]|].
  assert (∀ e : ascii, byte_in short_escapes e = true →
    simple_escape (byte_val e) = p.1 → json_rune p = backslash +:+ str1 e → rune_form p) as Hshort.
  { intros e He Hs Hj. eapply (form_short p e); try done.
    by apply short_escape_ascii. }
  assert (∀ c : ascii, p.1 = byte_val c → (byte_val c <? 128)%N = true → p.2 = str1 c) as Hascii.
  { intros c Hp Hc. destruct Hw as [[_ ->]|[[? _]|(Hge & _)]]; [by rewrite Hp, byte_of_val|congruence|].
    apply N.ltb_lt in Hc. lia. }
  destruct (N.eq_dec p.1 34) as [E|N34].
  { apply (Hshort (ascii_of_nat 34)); [done|done|]. unfold json_rune. rewrite Hb, E. cbn.
    by rewrite (Hascii (ascii_of_nat 34)). }
  destruct (N.eq_dec p.1 92) as [E|N92].
  { apply (Hshort (ascii_of_nat 92)); [done|done|]. unfold json_rune. rewrite Hb, E. cbn.
    by rewrite (Hascii (ascii_of_nat 92)). }
  destruct (N.eq_dec p.1 8) as [E|N8]; [apply (Hshort "b"%char); try done; unfold json_rune; by rewrite Hb, E|].
  destruct (N.eq_dec p.1 12) as [E|N12]; [apply (Hshort "f"%char); try done; unfold json_rune; by rewrite Hb, E|].
  destruct (N.eq_dec p.1 10) as [E|N10]; [apply (Hshort "n"%char); try done; unfold json_rune; by rewrite Hb, E|].
  destruct (N.eq_dec p.1 13) as [E|N13]; [apply (Hshort "r"%char); try done; unfold json_rune; by rewrite Hb, E|].
  destruct (N.eq_dec p.1 9) as [E|N9]; [apply (Hshort "t"%char); try done; unfold json_rune; by rewrite Hb, E|].
  assert (json_rune p = if u_escaped p.1 then backslash +:+ "u" +:+ hex_rune 4 p.1 else p.2) as Hj.
  { unfold json_rune, u_escaped. rewrite Hb, !(proj2 (N.eqb_neq p.1 _)) by done.
    rewrite !orb_false_l, <- !orb_assoc. by destruct (p.1 <? 32)%N, (p.1 =? 60)%N, (p.1 =? 62)%N, (p.1 =? 38)%N. }
  destruct (u_escaped p.1) eqn:Hu; [by apply form_u|]. apply form_plain; try done.
  destruct Hw as [[Hlt ->]|[[? _]|(_ & _ & Hge)]]; [|congruence|by apply high_plain].
  rewrite all_bytes_str1. unfold plain_byte, byte_of. rewrite N_ascii_embedding by lia.
  unfold u_escaped in Hu. rewrite !orb_false_iff, N.ltb_ge in Hu.
  rewrite !andb_true_iff, !negb_true_iff, !N.eqb_neq, N.leb_le. tauto.
Qed.

Lemma scan_app_nil x : scan_app "" x = x.
Proof. by destruct x as [[]|]. Qed.

(** A concrete escape in front of any text. *)
Ltac scan_concrete :=
  match goal with |- scan_string (?u +:+ ?t) = _ =>
    let v := eval vm_compute in u in change u with v;
    rewrite <- !scan_app_cons, scan_app_nil; reflexivity
  end.

Lemma scan_rune p t : seg_wf p → scan_string (json_rune p +:+ t) = scan_app (json_rune p) (scan_string t).
Proof.
  intros Hw. destruct (json_rune_form p Hw) as [_ ->|Hu _ ->|e _ He _ _ ->|_ Hp _ ->].
  - scan_concrete.
  - apply u_escaped_cases in Hu. simpl in Hu. repeat (destruct Hu as [<-|Hu]; [scan_concrete|]). done.
  - change ((backslash +:+ str1 e) +:+ t) with (String (ascii_of_nat 92) (String e t)).
    change (backslash +:+ str1 e) with (String (ascii_of_nat 92) (String e "")).
    rewrite <- !scan_app_cons, scan_app_nil. cbn [scan_string].
    rewrite bool_decide_false, bool_decide_true by done. by rewrite He.
  - by apply scan_plain.
Qed.

(** An escaped string ends at the quote that was put after it. *)
Lemma scan_escape s rest : scan_string (json_escape s +:+ dquote +:+ rest) = Some (json_escape s, rest).
Proof.
  unfold json_escape. pose proof (segs_wf s) as Hw. induction Hw as [|p l Hp _ IH]; [done|].
  cbn [foldr]. rewrite <- str_app_assoc, scan_rune, IH by done. done.
Qed.

Lemma encode_boundary r t : head_boundary (EncodeRune r +:+ t) = true.
Proof.
  assert (∀ n, (192 ≤ n < 256)%N → cont (byte_of n) = false) as Hc.
  { intros n Hn. unfold cont. apply not_true_iff_false. rewrite in_range_spec. unfold byte_of.
    rewrite N_ascii_embedding; lia. }
  unfold EncodeRune.
  destruct (N.ltb_spec r 128).
  { apply ascii_boundary. unfold byte_of. rewrite N_ascii_embedding by lia. by apply N.ltb_lt. }
  destruct (N.ltb_spec r 2048); [|destruct (in_range 55296 57343 r); [|destruct (N.ltb_spec r 65536);
    [|destruct (N.ltb_spec r 1114112)]]]; cbn [String.append head_boundary str1]; rewrite ?app_cons; cbn [head_boundary];
    rewrite Hc; try done.
  all: lia.
Qed.

(** The text of a valid string is the text it was escaped from. *)
Lemma rune_boundary p t : seg_wf p → seg_bad p = false → head_boundary (json_rune p +:+ t) = true.
Proof.
  intros Hw Hb. destruct (json_rune_form p Hw) as [? _|_ _ ->|e _ _ _ _ ->|_ _ _ ->]; [congruence|done|done|].
  rewrite <- (seg_wf_encode p Hw Hb). apply encode_boundary.
Qed.

Lemma unquote_rune p k :
  seg_wf p → seg_bad p = false → segs p.2 = [p] →
  unquote (runes (json_rune p) ++ k) 0 = p.2 +:+ unquote k 0.
Proof.
  intros Hw Hb Hseg. rewrite <- (seg_wf_encode p Hw Hb).
  destruct (json_rune_form p Hw) as [? _|Hu _ ->|e _ He Hs Hlt ->|_ _ Hp ->]; [congruence|..].
  - apply u_escaped_cases in Hu. simpl in Hu.
    repeat (destruct Hu as [<-|Hu]; [reflexivity|]). done.
  - rewrite <- Hs. unfold runes.
    change (backslash +:+ str1 e) with (String (ascii_of_nat 92) (String e "")).
    rewrite !segs_ascii_cons by done. cbn [segs fmap list_fmap fst app unquote].
    assert (byte_val e ≠ 117%N) as Hne by (intros E; rewrite E in Hs; simpl in Hs; unfold byte_in in He;
      assert (e = "u"%char) as -> by (rewrite <- (byte_of_val e), E; done); done).
    rewrite (proj2 (N.eqb_neq _ _) Hne). done.
  - unfold runes. rewrite Hseg. cbn [fmap list_fmap app unquote].
    by rewrite (proj2 (N.eqb_neq _ _) Hp).
Qed.

Lemma unquote_escape s : ValidString s = true → string_value (json_escape s) = s.
Proof.
  unfold json_escape, string_value.
  induction s as [|p rest Hne E IH] using segs_ind; [done|]. intros Hv.
  pose proof Hv as Hall. rewrite ValidString_segs, E in Hall. apply Forall_cons in Hall as [Hb Hrest].
  pose proof (segs_wf (p.2 +:+ rest)) as Hw. rewrite E in Hw. apply Forall_cons in Hw as [Hwp Hwr].
  assert (segs p.2 = [p]) as Hseg.
  { pose proof (segs_prefix [p] (p.2 +:+ rest) (segs rest) E) as Hs. unfold flat in Hs. simpl in Hs.
    by rewrite str_app_nil_r in Hs. }
  rewrite E. cbn [foldr].
  assert (head_boundary (foldr (λ p acc, json_rune p +:+ acc) "" (segs rest)) = true) as Hbd.
  { destruct (segs rest) as [|q l]; [done|]. cbn [foldr].
    apply rune_boundary; [by inversion Hwr|by inversion Hrest]. }
  set (t := foldr _ _ _) in *.
  assert (runes (json_rune p +:+ t) = runes (json_rune p) ++ runes t) as ->
    by (unfold runes; by rewrite segs_app, fmap_app).
  rewrite unquote_rune by done. f_equal. apply IH. by rewrite ValidString_segs.
Qed.

(** ** Digits *)

(** A check over an interval. *)
Fixpoint check_from (f : Z → bool) (n : nat) (z : Z) : bool :=
  match n with O => true | S n' => if f z then check_from f n' (z + 1) else false end.

Lemma check_from_spec f n z x : check_from f n z = true → z ≤ x < z + Z.of_nat n → f x = true.
Proof.
  revert z. induction n as [|n IH]; intros z Hc Hx; [lia|]. cbn [check_from] in Hc.
  destruct (f z) eqn:Ef; [|done]. destruct (decide (x = z)) as [->|Hne]; [done|].
  apply (IH (z + 1)); [done|lia].
Qed.

(** The digits of a padded number are read back. *)
Definition reads_back (n : nat) (z : Z) : bool :=
  (String.length (pad n z) =? n)%nat &&
  match digits n 0 (pad n z) with Some (x, "") => x =? z | _ => false end.

Lemma digits_app n acc u x r t : digits n acc u = Some (x, r) → digits n acc (u +:+ t) = Some (x, r +:+ t).
Proof.
  revert acc u. induction n as [|n IH]; intros acc u; cbn [digits]; [by intros [= <- <-]|].
  destruct u as [|c u]; [done|]. rewrite app_cons. destruct (is_digit c); [apply IH|done].
Qed.

Lemma reads_back_spec n z t : reads_back n z = true → digits n 0 (pad n z +:+ t) = Some (z, t).
Proof.
  unfold reads_back. intros [_ Hr]%andb_prop.
  destruct (digits n 0 (pad n z)) as [[x [|]]|] eqn:E; try done. apply Z.eqb_eq in Hr as ->.
  by apply digits_app with (t := t) in E.
Qed.

Lemma digits_pad2 z t : 0 ≤ z < 100 → digits 2 0 (pad 2 z +:+ t) = Some (z, t).
Proof.
  intros Hz. apply reads_back_spec. apply (check_from_spec (reads_back 2) 100 0); [|lia].
  vm_compute. reflexivity.
Qed.

Lemma digits_pad4 z t : 0 ≤ z < 10000 → digits 4 0 (pad 4 z +:+ t) = Some (z, t).
Proof.
  intros Hz. apply reads_back_spec. apply (check_from_spec (reads_back 4) (Z.to_nat 10000) 0); [|lia].
  vm_compute. reflexivity.
Qed.

Definition digit_byte (r : N) : bool := in_range 48 57 r.

Lemma decimal_app acc u v : decimal acc (u +:+ v) = decimal (decimal acc u) v.
Proof. revert acc. induction u as [|c u IH]; intros acc; [done|]. apply IH. Qed.

Lemma digit_char n : (n < 10)%N → digit_val (pretty_N_char n) = Z.of_N n ∧ digit_byte (byte_val (pretty_N_char n)) = true.
Proof.
  intros Hn. assert (In n [0;1;2;3;4;5;6;7;8;9]%N) as Hin.
  { simpl. lia. }
  simpl in Hin. repeat (destruct Hin as [<-|Hin]; [by split|]). done.
Qed.

(** The decimal digits of a number are its digits. *)
Lemma decimal_pretty x s :
  decimal 0 (pretty_N_go x s) = decimal (Z.of_N x) s ∧
  (all_bytes digit_byte s = true → all_bytes digit_byte (pretty_N_go x s) = true) ∧
  (∀ k : nat, Z.of_N x < 10 ^ Z.of_nat k → (String.length (pretty_N_go x s) ≤ k + String.length s)%nat).
Proof.
  revert s. induction (N.lt_wf_0 x) as [x _ IH]; intros s.
  assert (x = 0 ∨ 0 < x)%N as [->|Hx] by lia.
  { rewrite pretty_N_go_0. split_and!; [done|done|]. lia. }
  rewrite pretty_N_go_step by done.
  destruct (IH (x / 10)%N ltac:(lia) (String (pretty_N_char (x mod 10)) s)) as (Hd & Ha & Hl).
  destruct (digit_char (x mod 10)) as [Hv Hb]; [lia|]. split_and!.
  - rewrite Hd. cbn [decimal]. rewrite Hv. f_equal. lia.
  - intros Hs. apply Ha. cbn [all_bytes]. by rewrite Hb.
  - intros [|k] Hk; [simpl in Hk; lia|].
    specialize (Hl k). cbn [String.length] in Hl.
    rewrite Nat2Z.inj_succ, Z.pow_succ_r in Hk by lia. specialize (Hl ltac:(lia)). lia.
Qed.

Lemma FormatInt_digits z : 0 ≤ z →
  decimal 0 (FormatInt z) = z ∧ all_bytes digit_byte (FormatInt z) = true ∧ FormatInt z ≠ "" ∧
  (∀ k : nat, (0 < k)%nat → z < 10 ^ Z.of_nat k → (String.length (FormatInt z) ≤ k)%nat).
Proof.
  intros Hz. destruct (decide (z = 0)) as [->|Hne].
  { split_and!; [done..|]. intros k Hk _. simpl. lia. }
  destruct (decimal_pretty (Z.to_N z) "") as (Hd & Ha & Hl).
  assert (FormatInt z = pretty_N_go (Z.to_N z) "") as ->.
  { destruct z as [|p|p]; [done| |lia]. change (pretty (Npos p) = pretty_N_go (Npos p) "").
    unfold pretty, pretty_N. by rewrite decide_False. }
  rewrite Z2N.id in Hd, Hl by done. split_and!; [done|by apply Ha| |].
  - intros E. rewrite E in Hd. simpl in Hd. lia.
  - intros k _ Hk. specialize (Hl k Hk). simpl in Hl. lia.
Qed.

(** ** Fractions of a second *)

Lemma decimal_zeros n s : decimal 0 (zeros n +:+ s) = decimal 0 s.
Proof. induction n as [|n IH]; [done|]. apply IH. Qed.

Lemma decimal_trailing acc n : decimal acc (zeros n) = acc * 10 ^ Z.of_nat n.
Proof.
  revert acc. induction n as [|n IH]; intros acc; [simpl; lia|].
  change (decimal (10 * acc + 0) (zeros n) = acc * 10 ^ Z.of_nat (S n)).
  rewrite IH, Nat2Z.inj_succ, Z.pow_succ_r by lia. lia.
Qed.

Lemma length_zeros n : String.length (zeros n) = n.
Proof. by induction n; simpl; [|f_equal]. Qed.

Lemma zeros_digits n : all_bytes digit_byte (zeros n) = true.
Proof. by induction n. Qed.

Lemma trim_zeros_spec s : ∃ n, s = trim_zeros s +:+ zeros n.
Proof.
  induction s as [|c s [n IH]]; [by exists 0%nat|]. cbn [trim_zeros].
  destruct (bool_decide (c = "0"%char) && (trim_zeros s ≟ "")) eqn:E.
  - apply andb_true_iff in E as [->%bool_decide_eq_true E%bool_decide_eq_true].
    exists (S n). rewrite IH at 1. by rewrite E.
  - exists n. rewrite app_cons. by f_equal.
Qed.

(** The nine digits of a number of nanoseconds. *)
Lemma pad9 ns : 0 ≤ ns < Second →
  decimal 0 (pad 9 ns) = ns ∧ all_bytes digit_byte (pad 9 ns) = true ∧ String.length (pad 9 ns) = 9%nat.
Proof.
  intros Hns. unfold pad. rewrite (proj2 (Z.ltb_ge ns 0)) by lia. rewrite Z.abs_eq, app_nil_str by lia.
  destruct (FormatInt_digits ns) as (Hd & Ha & _ & Hl); [lia|].
  specialize (Hl 9%nat ltac:(lia)). unfold Second in Hns. specialize (Hl ltac:(lia)).
  split_and!; [by rewrite decimal_zeros| |].
  - by rewrite all_bytes_app, zeros_digits.
  - rewrite length_app_str, length_zeros. lia.
Qed.

Lemma is_digit_byte c : is_digit c = digit_byte (byte_val c).
Proof. done. Qed.

Lemma scan_digits_app u c t :
  all_bytes digit_byte u = true → is_digit c = false → scan_digits (u +:+ String c t) = (u, String c t).
Proof.
  intros Hu Hc. induction u as [|d u IH]; [rewrite app_nil_str; cbn [scan_digits]; by rewrite Hc|].
  cbn [all_bytes] in Hu. apply andb_true_iff in Hu as [Hd Hu]. rewrite app_cons. cbn [scan_digits].
  by rewrite is_digit_byte, Hd, IH.
Qed.

(** A fraction is read back before a zone. *)
Lemma parse_fraction_text ns c t :
  0 ≤ ns < Second → is_digit c = false → byte_in ".," c = false →
  parse_fraction (fraction_text ns +:+ String c t) = (ns, String c t).
Proof.
  intros Hns Hc Hp. destruct (pad9 ns Hns) as (Hd & Ha & Hl). unfold fraction_text.
  destruct (trim_zeros_spec (pad 9 ns)) as [k Hk]. set (tr := trim_zeros (pad 9 ns)) in *.
  rewrite Hk in Hd, Ha, Hl. rewrite decimal_app, decimal_trailing in Hd.
  rewrite all_bytes_app in Ha. apply andb_true_iff in Ha as [Ha _].
  rewrite length_app_str, length_zeros in Hl.
  test (tr = "") as [E|E].
  - rewrite E in Hd. simpl in Hd. rewrite app_nil_str. unfold parse_fraction. rewrite Hp. f_equal. lia.
  - rewrite <- str_app_assoc. change ("." +:+ ?u) with (String "." u).
    unfold parse_fraction. cbn [byte_in has_byte].
    rewrite scan_digits_app by done. rewrite (bool_decide_false _ E). rewrite str_take_all by lia.
    replace (9 - Z.of_nat (String.length tr)) with (Z.of_nat k) by lia. by rewrite Hd.
Qed.

(** ** The calendar *)

(** The year of a day of an era of 400 years (which start in March), as the
    calendar computes it. *)
Definition scaled (doe : Z) : Z := doe - doe / 1460 + doe / 36524 - doe / 146096.
Definition year_start (y : Z) : Z := 365 * y + y / 4 - y / 100.
Definition year_end (y : Z) : Z := if y =? 399 then 146096 else year_start (y + 1) - 1.

Lemma scaled_mono a b : 0 ≤ a → a ≤ b → b < 146097 → scaled a ≤ scaled b.
Proof. unfold scaled. lia. Qed.

Definition year_ok (y : Z) : bool :=
  (scaled (year_start y) / 365 =? y) && (scaled (year_end y) / 365 =? y) &&
  (0 <=? year_start y) && (year_end y <=? 146096) &&
  (year_end y - year_start y <=? (if leap (y + 1) then 365 else 364)).

Lemma years_ok y : 0 ≤ y < 400 → year_ok y = true.
Proof. intros Hy. apply (check_from_spec year_ok 400 0); [|lia]. vm_compute. reflexivity. Qed.

(** Every day of the era is in a year. *)
Lemma year_exists doe (n : nat) :
  0 ≤ doe ≤ year_end (Z.of_nat n) → (n < 400)%nat →
  ∃ y, 0 ≤ y < 400 ∧ year_start y ≤ doe ≤ year_end y.
Proof.
  induction n as [|n IH]; intros Hd Hn; [exists 0; split; [lia|]; exact Hd|].
  destruct (Z.le_gt_cases doe (year_end (Z.of_nat n))); [apply IH; lia|].
  exists (Z.of_nat (S n)). split; [lia|]. split; [|lia].
  unfold year_end in H at 1. rewrite (proj2 (Z.eqb_neq _ _)) in H by lia.
  replace (Z.of_nat n + 1) with (Z.of_nat (S n)) in H by lia. lia.
Qed.

Lemma year_of_day doe :
  0 ≤ doe < 146097 →
  ∃ y, scaled doe / 365 = y ∧ 0 ≤ y < 400 ∧ 0 ≤ doe - year_start y ≤ (if leap (y + 1) then 365 else 364).
Proof.
  intros Hd. destruct (year_exists doe 399) as (y & Hy & Hdy); [change (year_end (Z.of_nat 399)) with 146096; lia|lia|].
  pose proof (years_ok y Hy) as Hok. unfold year_ok in Hok.
  rewrite !andb_true_iff, !Z.eqb_eq, !Z.leb_le in Hok. destruct Hok as [[[[H1 H2] H3] H4] H5].
  exists y. pose proof (scaled_mono (year_start y) doe ltac:(lia) ltac:(lia) ltac:(lia)) as Hl.
  pose proof (scaled_mono doe (year_end y) ltac:(lia) ltac:(lia) ltac:(lia)) as Hr.
  split_and!; lia.
Qed.

(** The month and the day of a day of the year. *)
Definition day_ok (doy : Z) : bool :=
  let mp := (5 * doy + 2) / 153 in
  let m := if mp <? 10 then mp + 3 else mp - 9 in
  let d := doy - (153 * mp + 2) / 5 + 1 in
  (0 <=? mp) && (mp <? 12) && (1 <=? m) && (m <=? 12) && (1 <=? d) && (d <=? 31) &&
  (d <=? (if (m =? 2) && (doy =? 365) then 29 else daysIn m 1)).

Lemma days_ok doy : 0 ≤ doy ≤ 365 → day_ok doy = true.
Proof. intros Hy. apply (check_from_spec day_ok 366 0); [|lia]. vm_compute. reflexivity. Qed.

Lemma daysIn_not_leap m y : daysIn m 1 ≤ daysIn m y ∧ (leap y = true → m = 2 → daysIn m y = 29).
Proof.
  unfold daysIn. destruct (Z.eqb_spec m 2); [|split; [lia|done]].
  change (leap 1) with false. destruct (leap y); split; done || lia.
Qed.

Lemma daysIn_era m y era : daysIn m (y + era * 400) = daysIn m y.
Proof.
  unfold daysIn, leap.
  assert ((y + era * 400) mod 4 = y mod 4) as -> by lia.
  assert ((y + era * 400) mod 100 = y mod 100) as -> by lia.
  assert ((y + era * 400) mod 400 = y mod 400) as -> by lia. done.
Qed.

(** A day has a valid date, and its date is that day. *)
Lemma date_roundtrip days :
  let x := date_of_days days in
  days_of_date x = days ∧ 1 ≤ month x ≤ 12 ∧ 1 ≤ day x ≤ daysIn (month x) (year x) ∧ day x ≤ 31.
Proof.
  unfold date_of_days. set (z := days + 306). set (doe := z mod 146097). set (era := z / 146097).
  fold (scaled doe). destruct (year_of_day doe) as (yoe & -> & Hy & Hdoy); [unfold doe; lia|].
  fold (year_start yoe). set (doy := doe - year_start yoe) in *.
  assert (0 ≤ doy ≤ 365) as Hdr by (destruct (leap (yoe + 1)); lia).
  pose proof (days_ok doy Hdr) as Hok. unfold day_ok in Hok.
  set (mp := (5 * doy + 2) / 153) in *.
  set (m := if mp <? 10 then mp + 3 else mp - 9) in *.
  set (d := doy - (153 * mp + 2) / 5 + 1) in *.
  rewrite !andb_true_iff, !Z.leb_le, !Z.ltb_lt in Hok.
  destruct Hok as [[[[[[Hp0 Hp1] Hm0] Hm1] Hd0] Hd1] Hd2].
  cbn [month day year]. split_and!; try done.
  - unfold days_of_date. cbn [month day year].
    assert ((if m <=? 2 then yoe + era * 400 + (if m <=? 2 then 1 else 0) - 1
             else yoe + era * 400 + (if m <=? 2 then 1 else 0)) = yoe + era * 400) as ->
      by (destruct (m <=? 2); lia).
    assert ((yoe + era * 400) / 400 = era) as -> by (clearbody era; clear - Hy; lia).
    assert ((yoe + era * 400) mod 400 = yoe) as -> by (clearbody era; clear - Hy; lia).
    assert ((if 2 <? m then m - 3 else m + 9) = mp) as ->.
    { unfold m. clearbody mp. clear - Hp0 Hp1.
      destruct (Z.ltb_spec mp 10); destruct (Z.ltb_spec 2 (mp + 3)), (Z.ltb_spec 2 (mp - 9)); lia. }
    unfold d, doy, year_start.
    assert (z = era * 146097 + doe) as Hz by (unfold era, doe; clear; lia).
    unfold z in Hz. clear - Hz. clearbody doe era mp. lia.
  - replace (yoe + era * 400 + (if m <=? 2 then 1 else 0))
      with (yoe + (if m <=? 2 then 1 else 0) + era * 400) by lia.
    rewrite daysIn_era. destruct (daysIn_not_leap m (yoe + (if m <=? 2 then 1 else 0))) as [Hnl Hl].
    destruct ((m =? 2) && (doy =? 365)) eqn:E; [|lia].
    apply andb_true_iff in E as [E1%Z.eqb_eq E2%Z.eqb_eq]. rewrite Hl; [done| |done].
    rewrite E1. change (2 <=? 2) with true. cbv iota. destruct (leap (yoe + 1)); [done|lia].
Qed.

(** ** Times *)

Lemma expect_app pre t : expect pre (pre +:+ t) = Some t.
Proof. unfold expect. by rewrite HasPrefix_app, str_drop_app. Qed.

Lemma time_parts t :
  (t / Day * 86400 + hour_of t * 3600 + minute_of t * 60 + second_of t) * Second + t mod Second = t ∧
  0 ≤ hour_of t < 24 ∧ 0 ≤ minute_of t < 60 ∧ 0 ≤ second_of t < 60.
Proof. unfold hour_of, minute_of, second_of, Day, Hour, Minute, Second. lia. Qed.

#[local] Ltac Zify.zify_post_hook ::= idtac.

Lemma hour_digits_pad z t : 0 ≤ z < 100 → hour_digits (pad 2 z +:+ t) = Some (z, t).
Proof. intros Hz. unfold hour_digits. by rewrite digits_pad2. Qed.

(** The text of a date and a time of day is read back. *)
Lemma parse_parts y m d h mi sec ns :
  0 ≤ y ≤ 9999 → 1 ≤ m ≤ 12 → 1 ≤ d ≤ daysIn m y → d ≤ 31 → 0 ≤ h < 24 → 0 ≤ mi < 60 → 0 ≤ sec < 60 →
  0 ≤ ns < Second →
  parse_RFC3339 ((pad 4 y +:+ "-" +:+ pad 2 m +:+ "-" +:+ pad 2 d +:+ "T" +:+ pad 2 h +:+ ":" +:+
    pad 2 mi +:+ ":" +:+ pad 2 sec) +:+ fraction_text ns +:+ "Z") =
  Some ((days_of_date {| year := y; month := m; day := d |} * 86400 + h * 3600 + mi * 60 + sec) * Second + ns, None).
Proof.
  intros Hy Hm Hd Hd31 Hh Hmi Hs Hns. unfold parse_RFC3339. rewrite <- !str_app_assoc.
  rewrite digits_pad4 by lia. cbn [mbind option_bind]. rewrite expect_app. cbn [mbind option_bind].
  rewrite digits_pad2 by lia. cbn [mbind option_bind]. rewrite expect_app. cbn [mbind option_bind].
  rewrite digits_pad2 by lia. cbn [mbind option_bind]. rewrite expect_app. cbn [mbind option_bind].
  rewrite hour_digits_pad by lia. cbn [mbind option_bind]. rewrite expect_app. cbn [mbind option_bind].
  rewrite digits_pad2 by lia. cbn [mbind option_bind]. rewrite expect_app. cbn [mbind option_bind].
  rewrite digits_pad2 by lia. cbn [mbind option_bind].
  rewrite parse_fraction_text by done. cbn [parse_zone]. rewrite bool_decide_true by done.
  cbn [mbind option_bind].
  rewrite !(proj2 (Z.leb_le _ _)), !(proj2 (Z.ltb_lt _ _)) by lia. cbn [andb default].
  cbn [from_option]. by rewrite Z.sub_0_r.
Qed.

(** The text of a time of the years 0 to 9999 is read back as that time. *)
Lemma parse_time_text t :
  0 ≤ year (date_of t) ≤ 9999 →
  parse_RFC3339 (datetime_text t +:+ fraction_text (t mod Second) +:+ "Z") = Some (t, None).
Proof.
  intros Hy. destruct (date_roundtrip (t / Day)) as (Hdays & Hm & Hd & Hd31).
  destruct (time_parts t) as (Ht & Hh & Hmi & Hs). fold (date_of t) in *.
  unfold datetime_text. cbv zeta. rewrite parse_parts by (try done; by apply Z.mod_pos_bound).
  destruct (date_of t) as [y m d]. cbn [year month day] in *. by rewrite Hdays, Ht.
Qed.

(** The bytes a time is written with. *)
Definition time_byte (r : N) : bool := digit_byte r || existsb (N.eqb r) (byte_val <$> ["-"; "T"; ":"; "."; "Z"; "+"]%char).

Lemma digits_time u : all_bytes digit_byte u = true → all_bytes time_byte u = true.
Proof. apply all_bytes_impl. intros r Hr. unfold time_byte. by rewrite Hr. Qed.

Lemma pad_time n z : all_bytes time_byte (pad n z) = true.
Proof.
  unfold pad. rewrite !all_bytes_app. rewrite (digits_time (zeros _)) by apply zeros_digits.
  rewrite (digits_time (FormatInt _)) by (apply FormatInt_digits; lia). by destruct (z <? 0).
Qed.

Lemma datetime_bytes t : all_bytes time_byte (datetime_text t) = true.
Proof. unfold datetime_text. by rewrite !all_bytes_app, !pad_time. Qed.

Lemma fraction_bytes ns : all_bytes time_byte (fraction_text ns) = true.
Proof.
  unfold fraction_text. destruct (trim_zeros_spec (pad 9 ns)) as [k Hk].
  pose proof (pad_time 9 ns) as Ha. rewrite Hk, all_bytes_app in Ha. apply andb_true_iff in Ha as [Ha _].
  destruct (trim_zeros _ ≟ ""); [done|]. by rewrite all_bytes_app, Ha.
Qed.

Lemma time_plain u : all_bytes time_byte u = true → all_bytes plain_byte u = true.
Proof.
  apply all_bytes_impl. intros r. unfold time_byte, digit_byte, plain_byte. rewrite orb_true_iff.
  intros [Hr%in_range_spec|Hr].
  - rewrite !andb_true_iff, !negb_true_iff, !N.eqb_neq, N.leb_le. lia.
  - apply existsb_elem in Hr as (x & Hx & ->%N.eqb_eq). revert x Hx. apply Forall_forall.
    repeat constructor.
Qed.

(** A time in UTC is written as one string, which is read back. *)
Lemma json_time_Ok t text :
  json_time t None = Ok text →
  ∃ raw, text = dquote +:+ raw +:+ dquote ∧ parse_RFC3339 raw = Some (t, None) ∧
         all_bytes plain_byte raw = true.
Proof.
  unfold json_time. cbv zeta. rewrite !guard_Ok. intros (Hy & _ & [= <-]).
  change (from_option id 0 None) with 0 in *. rewrite Z.mul_0_l, Z.add_0_r in *.
  apply orb_false_iff in Hy as [Hy1%Z.ltb_ge Hy2%Z.ltb_ge]. change (zone_text 0) with "Z".
  exists (datetime_text t +:+ fraction_text (t mod Second) +:+ "Z"). split_and!.
  - by rewrite !str_app_assoc.
  - by apply parse_time_text.
  - apply time_plain. by rewrite !all_bytes_app, datetime_bytes, fraction_bytes.
Qed.

(** ** The fuel of the syntax *)

Abbreviation len := String.length.

Lemma skip_space_length s : (len (skip_space s) ≤ len s)%nat.
Proof. induction s as [|c s IH]; [done|]. cbn [skip_space]. case_match; simpl; lia. Qed.

Lemma scan_cons_Some c x a r : scan_cons c x = Some (a, r) → ∃ b, x = Some (b, r).
Proof. destruct x as [[b r']|]; [|done]. intros [= <- <-]. by exists b. Qed.

Lemma scan_string_length s a r : scan_string s = Some (a, r) → (len r < len s)%nat.
Proof.
  revert a r. induction s as [s IH] using string_len_ind; intros a r Hs.
  destruct s as [|c s1]; [done|]. cbn [scan_string] in Hs.
  case_match; [by injection Hs as <- <-; simpl; lia|].
  case_match.
  - destruct s1 as [|e s2]; [done|]. case_match.
    + repeat apply scan_cons_Some in Hs as [? Hs]. apply IH in Hs; simpl in *; lia.
    + case_match; [|done]. destruct s2 as [|? [|? [|? [|? s3]]]]; try done. case_match; [|done].
      repeat apply scan_cons_Some in Hs as [? Hs]. apply IH in Hs; simpl in *; lia.
  - case_match; [done|]. apply scan_cons_Some in Hs as [? Hs]. apply IH in Hs; simpl in *; lia.
Qed.

Lemma scan_digits_length s : len s = (len (scan_digits s).1 + len (scan_digits s).2)%nat.
Proof.
  induction s as [|c s IH]; [done|]. cbn [scan_digits]. destruct (is_digit c); [|done].
  destruct (scan_digits s) as [a b]. simpl in *. lia.
Qed.

Lemma scan_digits1_length s a r : scan_digits1 s = Some (a, r) → (len r < len s)%nat.
Proof.
  unfold scan_digits1. pose proof (scan_digits_length s) as Hl. destruct (scan_digits s) as [u v].
  simpl in Hl. test (u = "") as [E|E]; [done|]. intros [= <- <-]. destruct u; [done|]. simpl in Hl. lia.
Qed.

Lemma scan_int_length s a r : scan_int s = Some (a, r) → (len r < len s)%nat.
Proof.
  unfold scan_int. destruct s as [|c s]; [done|]. case_match; [intros [= <- <-]; simpl; lia|].
  apply scan_digits1_length.
Qed.

Lemma scan_fraction_length s a r : scan_fraction s = Some (a, r) → (len r ≤ len s)%nat.
Proof.
  unfold scan_fraction. destruct s as [|c s]; [by intros [= <- <-]|]. case_match; [|by intros [= <- <-]].
  destruct (scan_digits1 s) as [[u v]|] eqn:E; [|done]. intros [= <- <-].
  apply scan_digits1_length in E. simpl. lia.
Qed.

Lemma scan_exponent_length s a r : scan_exponent s = Some (a, r) → (len r ≤ len s)%nat.
Proof.
  unfold scan_exponent. destruct s as [|c s]; [by intros [= <- <-]|]. case_match; [|by intros [= <- <-]].
  destruct s as [|d s]; [done|].
  case_match; destruct (scan_digits1 _) as [[u v]|] eqn:E; try done; intros [= <- <-];
    apply scan_digits1_length in E; simpl in *; lia.
Qed.

Lemma scan_number_length s a r : scan_number s = Some (a, r) → (len r < len s)%nat.
Proof.
  unfold scan_number. set (p := match s with EmptyString => _ | String _ _ => _ end).
  assert (len p.2 ≤ len s)%nat as Hp by (unfold p; destruct s as [|c s]; [done|]; case_match; simpl; lia).
  destruct p as [sign t]. simpl in Hp.
  destruct (scan_int t) as [[u1 v1]|] eqn:E1; [|done]. cbn [mbind option_bind].
  destruct (scan_fraction v1) as [[u2 v2]|] eqn:E2; [|done]. cbn [mbind option_bind].
  destruct (scan_exponent v2) as [[u3 v3]|] eqn:E3; [|done]. intros [= <- <-].
  apply scan_int_length in E1. apply scan_fraction_length in E2. apply scan_exponent_length in E3. lia.
Qed.

Lemma scan_word_length w v s x r : w ≠ "" → scan_word w v s = Some (x, r) → (len r < len s)%nat.
Proof.
  unfold scan_word. intros Hw. destruct (HasPrefix s w) eqn:E; [|done]. intros [= <- <-].
  apply HasPrefix_spec in E as [t ->]. rewrite str_drop_app, length_app_str.
  destruct w; [done|]. simpl. lia.
Qed.

Lemma accept_length c s r : accept c s = Some r → (len r < len s)%nat.
Proof.
  unfold accept. pose proof (skip_space_length s) as Hs. destruct (skip_space s) as [|d s']; [done|].
  case_match; [|done]. intros [= <-]. simpl in Hs. lia.
Qed.

(** The lengths after the scans of the context. *)
Ltac scan_lengths := repeat match goal with
  | H : scan_string _ = Some _ |- _ => apply scan_string_length in H
  | H : scan_number _ = Some _ |- _ => apply scan_number_length in H
  | H : scan_word _ _ _ = Some _ |- _ => apply scan_word_length in H; [|done]
  | H : accept _ _ = Some _ |- _ => apply accept_length in H
  end; cbn [String.length] in *.

(** Every parse consumes something. *)
Lemma parse_length n p d s x r : parse n p d s = Some (x, r) → (len r < len s)%nat.
Proof.
  revert p d s x r. induction n as [|n IH]; intros p d s x r Hp; [done|].
  pose proof (skip_space_length s) as Hs.
  destruct p; cbn [parse] in Hp; repeat (case_match; cbn [mbind option_bind] in Hp; simplify_eq; try done);
    repeat match goal with H : context [mbind _ ?o] |- _ =>
      let E := fresh in destruct o as [|] eqn:E; cbn [mbind option_bind] in H; [|done]
    | H : context [match ?o with _ => _ end] |- _ =>
      let E := fresh in destruct o eqn:E; cbn [mbind option_bind] in H; try done end; simplify_eq;
    repeat match goal with H : parse n _ _ _ = Some _ |- _ => apply IH in H end;
    scan_lengths; try lia.
Qed.

(** The fuel that a parse can use. *)
Definition need (p : parsed) (s : string) : nat :=
  (2 * len s + match p with PElements => 2 | _ => 1 end)%nat.

(** Fuel beyond the need of a text changes nothing: the text decides the parse. *)
Lemma parse_fuel n m p d s : (need p s ≤ n)%nat → (need p s ≤ m)%nat → parse n p d s = parse m p d s.
Proof.
  revert m p d s. induction n as [|n IH]; intros m p d s Hn Hm; [unfold need in Hn; destruct p; lia|].
  destruct m as [|m]; [unfold need in Hm; destruct p; lia|].
  assert (∀ q d' t, (need q t ≤ n)%nat → (need q t ≤ m)%nat → parse n q d' t = parse m q d' t) as Hrec
    by (intros; by apply IH).
  clear IH. unfold need in Hn, Hm. pose proof (skip_space_length s) as Hs. destruct p; cbn [parse].
  - destruct (skip_space s) as [|c s1]; [done|]. cbn [String.length] in Hs.
    destruct d as [|d]; [done|].
    by rewrite (Hrec PMembers d s1), (Hrec PElements d s1) by (unfold need; lia).
  - destruct (accept quote s) as [s1|] eqn:E1; [|done]. cbn [mbind option_bind].
    destruct (scan_string s1) as [[key s2]|] eqn:E2; [|done]. cbn [mbind option_bind].
    destruct (accept ":" s2) as [s3|] eqn:E3; [|done]. cbn [mbind option_bind]. scan_lengths.
    rewrite (Hrec _ _ s3) by (unfold need; lia).
    destruct (parse m PValue d s3) as [[v s4]|] eqn:E4; [|done]. cbn [mbind option_bind].
    apply parse_length in E4. destruct (accept "," s4) as [s5|] eqn:E5; [|done]. scan_lengths.
    by rewrite (Hrec _ _ s5) by (unfold need; lia).
  - rewrite (Hrec _ _ s) by (unfold need; lia).
    destruct (parse m PValue d s) as [[v s4]|] eqn:E4; [|done]. cbn [mbind option_bind].
    apply parse_length in E4. destruct (accept "," s4) as [s5|] eqn:E5; [|done]. scan_lengths.
    by rewrite (Hrec _ _ s5) by (unfold need; lia).
Qed.

Lemma parse_document_fuel n s :
  (2 * len s + 2 ≤ n)%nat →
  parse_document s =
    match parse n PValue maxNestingDepth s with
    | Some (v, rest) => if skip_space rest ≟ "" then Some v else None
    | None => None
    end.
Proof.
  intros Hn. unfold parse_document. rewrite (parse_fuel _ n) by (unfold need; lia).
  by destruct (parse n PValue maxNestingDepth s) as [[]|].
Qed.
