(* ===== verification/Api.v ===== *)
(** * API types (api/v1alpha1) and the Kubernetes objects of the program

    The custom resources as records with the source's fields, the phases with
    their predicates, and the parts of the Kubernetes object types
    (k8s.io/api, k8s.io/apimachinery) the program reads or writes. *)
From S2P Require Import Prelude GoStrings GoTime.
Local Open Scope Z_scope.

(** ** Metadata *)

Record OwnerReference := {
  or_kind : string;
  or_uid : string;
  or_controller : option bool }.

Record ObjectMeta := {
  om_name : string;
  om_namespace : string;
  om_uid : string;
  om_labels : gmap string string;
  om_annotations : gmap string string;
  om_creation : time;
  om_deletion : option time;
  om_owners : list OwnerReference }.

(** [metav1.ObjectMeta{Name: ..., Namespace: ..., Labels: ...}]. *)
Definition new_meta (name namespace : string) (labels : gmap string string) : ObjectMeta :=
  {| om_name := name; om_namespace := namespace; om_uid := ""; om_labels := labels;
     om_annotations := ∅; om_creation := 0; om_deletion := None; om_owners := [] |}.

(** ** Phases *)

(** [src/api/v1alpha1/zfsreplication_types.go:5-14 Phase] A [Phase] is a string;
    the constants are the values the controllers write. *)
Definition Phase : Set := string.
Definition PhasePending : Phase := "Pending".
Definition PhaseStartingReceiver : Phase := "StartingReceiver".
Definition PhaseReceiverReady : Phase := "ReceiverReady".
Definition PhaseRunning : Phase := "Running".
Definition PhaseSucceeded : Phase := "Succeeded".
Definition PhaseFailed : Phase := "Failed".

#[export] Instance Phase_eq_dec : EqDecision Phase := String.eq_dec.

(** [src/api/v1alpha1/zfsreplication_types.go:16-18 Phase.Terminal] *)
Definition Phase_Terminal (p : Phase) : bool := (p ≟ PhaseSucceeded) || (p ≟ PhaseFailed).

(** [src/api/v1alpha1/zfsreplication_types.go:20-22 Phase.Active] *)
Definition Phase_Active (p : Phase) : bool := negb (Phase_Terminal p).

(** [src/api/v1alpha1/zfsreplication_types.go:35-42 ReceiveTaskPhase] *)
Definition ReceiveTaskPhase : Set := string.
Definition ReceiveTaskPhasePending : ReceiveTaskPhase := "Pending".
Definition ReceiveTaskPhaseReady : ReceiveTaskPhase := "Ready".
Definition ReceiveTaskPhaseCompleted : ReceiveTaskPhase := "Completed".
Definition ReceiveTaskPhaseFailed : ReceiveTaskPhase := "Failed".

#[export] Instance ReceiveTaskPhase_eq_dec : EqDecision ReceiveTaskPhase := String.eq_dec.

(** [src/api/v1alpha1/zfsreplication_types.go:24-33 Phase.ReceiveTaskTerminalPhase] *)
Definition ReceiveTaskTerminalPhase (p : Phase) : ReceiveTaskPhase :=
  if p ≟ PhaseSucceeded then ReceiveTaskPhaseCompleted
  else if p ≟ PhaseFailed then ReceiveTaskPhaseFailed
  else "".

(** [src/api/v1alpha1/zfsreplication_types.go:44-46 ReceiveTaskPhase.Terminal] *)
Definition ReceiveTaskPhase_Terminal (p : ReceiveTaskPhase) : bool :=
  (p ≟ ReceiveTaskPhaseCompleted) || (p ≟ ReceiveTaskPhaseFailed).

(** ** Replication runs *)

(** [src/api/v1alpha1/zfsreplication_types.go:48-51 DatasetRef] *)
Record DatasetRef := { NodeName : string; Dataset : string }.

(** [src/api/v1alpha1/zfsreplication_types.go:53-63 SyncoidSpec] A pointer to a
    bool is an option. *)
Record SyncoidSpec := {
  NoSyncSnap : option bool;
  NoRollback : option bool;
  ForceDelete : option bool;
  DeleteTargetSnapshots : option bool;
  Compress : string;
  ReceiveUnmounted : option bool;
  ReceiveResumable : option bool;
  IncludeSnaps : list string;
  ExcludeSnaps : list string }.

(** [src/api/v1alpha1/zfsreplication_types.go:65-69 ZFSReplicationRunSpec] *)
Record ZFSReplicationRunSpec := {
  Source : DatasetRef;
  Target : DatasetRef;
  Syncoid : SyncoidSpec }.

(** [src/api/v1alpha1/zfsreplication_types.go:71-80 ZFSReplicationRunStatus] *)
Record ZFSReplicationRunStatus := {
  rs_Phase : Phase;
  SenderJobName : string;
  SenderJobUID : string;
  ReceiverPodName : string;
  ReceiverPodIP : string;
  StartedAt : option time;
  CompletedAt : option time;
  LastError : string }.

(** [src/api/v1alpha1/zfsreplication_types.go:82-90 ZFSReplicationRun] *)
Record ZFSReplicationRun := {
  run_meta : ObjectMeta;
  run_spec : ZFSReplicationRunSpec;
  run_status : ZFSReplicationRunStatus }.

(** The zero status of a new object. *)
Definition empty_run_status : ZFSReplicationRunStatus :=
  {| rs_Phase := ""; SenderJobName := ""; SenderJobUID := ""; ReceiverPodName := "";
     ReceiverPodIP := ""; StartedAt := None; CompletedAt := None; LastError := "" |}.

(** ** Receive tasks *)

(** [src/api/v1alpha1/zfsreplication_types.go:108-118 ReceiveTaskPolicy] *)
Record ReceiveTaskPolicy := {
  p_ReceiveUnmounted : bool;
  p_ReceiveResumable : bool;
  p_AllowRollback : bool;
  p_AllowDestroy : bool;
  p_AllowMount : bool;
  p_AllowSyncSnapshotDestroy : bool;
  p_AllowTargetSnapshotDestroy : bool;
  p_SyncSnapshotIdentifier : string;
  p_Compression : string }.

(** [src/api/v1alpha1/zfsreplication_types.go:103-106 ReceiveTaskSSHSpec] *)
Record ReceiveTaskSSHSpec := {
  AuthorizedPublicKey : string;
  ExpiresAt : time }.

(** [src/api/v1alpha1/zfsreplication_types.go:120-125 ZFSReceiveTaskSpec] The
    destination is its only field, the dataset
    (zfsreplication_types.go:99-101). *)
Record ZFSReceiveTaskSpec := {
  ts_NodeName : string;
  ts_Dataset : string;
  ts_SSH : ReceiveTaskSSHSpec;
  ts_Policy : ReceiveTaskPolicy }.

(** [src/api/v1alpha1/zfsreplication_types.go:127-130 ReceiveTaskEndpoint] *)
Record ReceiveTaskEndpoint := { Host : string; Port : Z }.

(** [src/api/v1alpha1/zfsreplication_types.go:136-139 ReceiveTaskPodStatus] *)
Record ReceiveTaskPodStatus := { rp_Name : string; rp_UID : string }.

(** [src/api/v1alpha1/zfsreplication_types.go:132-147 ZFSReceiveTaskStatus] The
    SSH status is its only field, the host key. *)
Record ZFSReceiveTaskStatus := {
  tst_Phase : ReceiveTaskPhase;
  Endpoint : ReceiveTaskEndpoint;
  HostKey : string;
  ReceiverPod : ReceiveTaskPodStatus;
  tst_Error : string }.

(** [src/api/v1alpha1/zfsreplication_types.go:149-157 ZFSReceiveTask] *)
Record ZFSReceiveTask := {
  task_meta : ObjectMeta;
  task_spec : ZFSReceiveTaskSpec;
  task_status : ZFSReceiveTaskStatus }.

Definition empty_task_status : ZFSReceiveTaskStatus :=
  {| tst_Phase := ""; Endpoint := {| Host := ""; Port := 0 |}; HostKey := "";
     ReceiverPod := {| rp_Name := ""; rp_UID := "" |}; tst_Error := "" |}.

(** ** Schedules *)

(** [src/api/v1alpha1/zfsreplication_types.go:166-171 ConcurrencyPolicy] *)
Definition ConcurrencyPolicy : Set := string.
Definition ConcurrencyPolicyAllow : ConcurrencyPolicy := "Allow".
Definition ConcurrencyPolicyForbid : ConcurrencyPolicy := "Forbid".

#[export] Instance ConcurrencyPolicy_eq_dec : EqDecision ConcurrencyPolicy := String.eq_dec.

(** [src/api/v1alpha1/zfsreplication_types.go:173-180 ZFSReplicationScheduleSpec] *)
Record ZFSReplicationScheduleSpec := {
  Schedule : string;
  Suspend : option bool;
  ss_ConcurrencyPolicy : ConcurrencyPolicy;
  SuccessfulRunsHistoryLimit : option Z;
  FailedRunsHistoryLimit : option Z;
  RunTemplate : ZFSReplicationRunSpec }.

(** [src/api/v1alpha1/zfsreplication_types.go:182-186 ZFSReplicationScheduleStatus] *)
Record ZFSReplicationScheduleStatus := {
  LastScheduleTime : option time;
  LastRunName : string;
  sst_LastError : string }.

(** [src/api/v1alpha1/zfsreplication_types.go:188-196 ZFSReplicationSchedule] *)
Record ZFSReplicationSchedule := {
  sched_meta : ObjectMeta;
  sched_spec : ZFSReplicationScheduleSpec;
  sched_status : ZFSReplicationScheduleStatus }.

(** ** Core and batch objects *)

(** A Secret of type Opaque; [Data] may be the nil map. *)
Record Secret := {
  secret_meta : ObjectMeta;
  secret_data : gmap string string }.

Record Condition := { c_type : string; c_status : string; c_message : string }.

(** A terminated container state, and the status of one container. *)
Record Terminated := {
  tm_message : string;
  tm_reason : string;
  tm_exitCode : Z;
  tm_finishedAt : time }.

Record ContainerStatus := { cs_name : string; cs_terminated : option Terminated }.

Record Pod := {
  pod_meta : ObjectMeta;
  pod_conditions : list Condition;
  pod_containers : list ContainerStatus }.

(** The fields of a Job pod template the program sets. *)
Record SenderPodSpec := {
  ps_hostname : string;
  ps_restartPolicy : string;
  ps_automountToken : bool;
  ps_nodeName : string;
  ps_containerName : string;
  ps_image : string;
  ps_imagePullPolicy : string;
  ps_command : list string;
  ps_args : list string;
  ps_privileged : bool;
  ps_terminationPath : string;
  ps_terminationPolicy : string;
  ps_mounts : list (string * string * bool);
  ps_hostPathVolumes : list (string * string);
  ps_secretVolumes : list (string * string * Z) }.

Record JobSpec := {
  js_backoffLimit : Z;
  js_ttlSeconds : Z;
  js_podLabels : gmap string string;
  js_pod : SenderPodSpec }.

Record JobStatus := {
  jst_succeeded : Z;
  jst_failed : Z;
  jst_conditions : list Condition }.

Record Job := {
  job_meta : ObjectMeta;
  job_spec : JobSpec;
  job_status : JobStatus }.

(** ** Lemmas on phases *)

Lemma Phase_Terminal_spec p : Phase_Terminal p = true ↔ p = PhaseSucceeded ∨ p = PhaseFailed.
Proof. unfold Phase_Terminal. by rewrite orb_true_iff, !bool_decide_eq_true. Qed.

Lemma ReceiveTaskTerminalPhase_spec p :
  (Phase_Terminal p = true → ReceiveTaskPhase_Terminal (ReceiveTaskTerminalPhase p) = true) ∧
  (Phase_Terminal p = false → ReceiveTaskTerminalPhase p = "").
Proof.
  unfold Phase_Terminal, ReceiveTaskTerminalPhase. 
  split; repeat case_bool_decide; subst; done.
Qed.
