(* ===== verification/Replication.v ===== *)
(** * Dataset and snapshot names (internal/replication)

    The validation and decomposition of ZFS dataset and snapshot names every
    other component relies on. *)
From S2P Require Import Prelude GoStrings.
From Stdlib Require Import NArith.

(** The characters [strings.ContainsAny] refuses in a dataset name. *)
Definition dataset_forbidden : string :=
  "@# " +:+ str1 (Ascii.ascii_of_nat 9) +:+ str1 (Ascii.ascii_of_nat 13) +:+ nl +:+
  ";|&`$()<>\" +:+ dquote +:+ "'*?[".

(** [src/internal/replication/replication.go:16-20 ValidDatasetName] The test of
    one path component in the loop of [ValidDatasetName]. *)
Definition valid_component (part : string) : bool :=
  negb ((part ≟ "") || (part ≟ ".") || (part ≟ "..") || ContainsFunc part IsControl).

(** [src/internal/replication/replication.go:8-22 ValidDatasetName] *)
Definition ValidDatasetName (dataset : string) : bool :=
  if (dataset ≟ "") || HasPrefix dataset "/" || HasSuffix dataset "/" ||
     Contains dataset "//" || ContainsAny dataset dataset_forbidden
  then false
  else forallb valid_component (Split dataset "/"%char).

(** [src/internal/replication/replication.go:24-28 DatasetOrChild] *)
Definition DatasetOrChild (value target : string) : bool :=
  ValidDatasetName value && ValidDatasetName target &&
  ((value ≟ target) || HasPrefix value (target +:+ "/")).

(** [src/internal/replication/replication.go:51-54 validSnapshotRune] *)
Definition validSnapshotRune (r : N) : bool :=
  rune_between "a" "z" r || rune_between "A" "Z" r || rune_between "0" "9" r ||
  rune_is "_" r || rune_is "-" r || rune_is "." r || rune_is ":" r.

(** [src/internal/replication/replication.go:38-49 ValidSnapshotName] *)
Definition ValidSnapshotName (snapshot : string) : bool :=
  if (snapshot ≟ "") || (snapshot ≟ ".") || (snapshot ≟ "..") then false
  else all_runes validSnapshotRune snapshot.

(** [src/internal/replication/replication.go:30-36 SplitSnapshotTarget] *)
Definition SplitSnapshotTarget (value : string) : string * string * bool :=
  let '(dataset, snapshot, ok) := Cut value "@"%char in
  if negb ok || Contains snapshot "@" || negb (ValidDatasetName dataset) ||
     negb (ValidSnapshotName snapshot)
  then ("", "", false)
  else (dataset, snapshot, true).

(** [src/internal/replication/replication.go:56-61 TargetPool] *)
Definition TargetPool (dataset : string) : string :=
  match IndexByte dataset "/"%char with
  | Some i => str_take i dataset
  | None => dataset
  end.

(** ** Specification: a dataset name is a non-empty path of components *)

(** The path of a dataset name. *)
Definition components (dataset : string) : list string := Split dataset "/"%char.

(** What a component may be, stated on the component alone. *)
Definition component_ok (part : string) : Prop :=
  part ≠ "" ∧ part ≠ "." ∧ part ≠ ".." ∧
  Forall (λ r, IsControl r = false) (runes part) ∧
  ContainsAny part dataset_forbidden = false ∧ has_byte "/" part = false.

Lemma valid_component_spec part :
  valid_component part = true ↔
  part ≠ "" ∧ part ≠ "." ∧ part ≠ ".." ∧ Forall (λ r, IsControl r = false) (runes part).
Proof.
  unfold valid_component, ContainsFunc.
  rewrite negb_true_iff, !orb_false_iff, !bool_decide_eq_false, Forall_forall.
  rewrite <- not_true_iff_false, existsb_exists.
  setoid_rewrite list_elem_of_In. setoid_rewrite <- not_true_iff_false. naive_solver.
Qed.

Lemma ContainsAny_Join ps sep chars :
  ContainsAny (Join ps sep) chars = true →
  Exists (λ p, ContainsAny p chars = true) ps ∨ ContainsAny sep chars = true.
Proof.
  induction ps as [|p ps IH]; [done|]. destruct (decide (ps = [])) as [->|Hne].
  { simpl. intros. left. by constructor. }
  rewrite Join_cons, !ContainsAny_app, !orb_true_iff by done.
  intros [H|[H|H]]; [left; by constructor|by right|].
  destruct (IH H); [left; by constructor|by right].
Qed.

Lemma ContainsAny_Split s c chars :
  ContainsAny s chars = false → Forall (λ p, ContainsAny p chars = false) (Split s c).
Proof.
  induction s as [|d s IH]; simpl; [by repeat constructor|]. intros [Hd Hs]%orb_false_iff.
  specialize (IH Hs). case_decide; [by constructor|].
  destruct IH as [|p ps Hp Hps]; (constructor; [|done]); cbn [ContainsAny str1]; by rewrite Hd.
Qed.

Lemma no_empty_component ps :
  ps ≠ [] → Forall (λ p, p ≠ "" ∧ has_byte "/" p = false) ps →
  Join ps "/" ≠ "" ∧ HasPrefix (Join ps "/") "/" = false ∧
  HasSuffix (Join ps "/") "/" = false ∧ Contains (Join ps "/") "//" = false.
Proof.
  intros Hne Hall.
  assert (∀ q, q ∈ Split (Join ps "/") "/"%char → q ≠ "") as Hparts.
  { intros q Hq. change "/" with (str1 "/"%char) in Hq. rewrite Split_Join in Hq; [|done|].
    - rewrite Forall_forall in Hall. by apply Hall.
    - eapply Forall_impl; [done|]. by intros ? []. }
  set (s := Join ps "/") in *. split_and!.
  - intros E. apply (Hparts ""); [|done]. rewrite E. by left.
  - apply not_true_iff_false. intros [t E]%HasPrefix_spec. apply (Hparts ""); [|done].
    rewrite E. by left.
  - apply not_true_iff_false. intros [t E]%HasSuffix_spec. apply (Hparts ""); [|done].
    rewrite E. change "/" with (String "/" ""). rewrite Split_app. apply elem_of_app. right. by left.
  - apply not_true_iff_false. intros (a & b & E)%Contains_spec. apply (Hparts ""); [|done].
    rewrite E. change "//" with (String "/" (String "/" "")). rewrite !app_cons, !app_nil_str.
    rewrite Split_app. apply elem_of_app. right. by left.
Qed.

Lemma forbidden_no_slash ps :
  Forall component_ok ps → Forall (λ p, p ≠ "" ∧ has_byte "/" p = false) ps.
Proof. intros H. eapply Forall_impl; [done|]. unfold component_ok. naive_solver. Qed.


(** Components of a valid name satisfy the per-component specification. *)
Lemma valid_components d : ValidDatasetName d = true → Forall component_ok (components d).
Proof.
  unfold ValidDatasetName, components. case_match eqn:E; [done|].
  rewrite forallb_forall. setoid_rewrite <- list_elem_of_In. setoid_rewrite valid_component_spec.
  intros H. rewrite !orb_false_iff in E. destruct E as [_ Hany].
  pose proof (ContainsAny_Split _ "/"%char _ Hany) as Hs. pose proof (Split_parts d "/"%char) as Hp.
  rewrite Forall_forall in *. intros q Hq. specialize (H q Hq). specialize (Hs q Hq).
  specialize (Hp q Hq). by unfold component_ok; naive_solver.
Qed.

Lemma ValidDatasetName_Join ps :
  ps ≠ [] → Forall component_ok ps → ValidDatasetName (Join ps "/") = true.
Proof.
  intros Hne Hall. pose proof (forbidden_no_slash _ Hall) as Hns.
  destruct (no_empty_component ps Hne Hns) as (H1 & H2 & H3 & H4).
  unfold ValidDatasetName. rewrite bool_decide_false, H2, H3, H4 by done. simpl.
  destruct (ContainsAny (Join ps "/") dataset_forbidden) eqn:E.
  - exfalso. apply ContainsAny_Join in E as [E|E]; [|done].
    rewrite Exists_exists in E. destruct E as (p & Hp & E). rewrite Forall_forall in Hall.
    destruct (Hall p Hp) as (_ & _ & _ & _ & Hc & _). congruence.
  - change "/" with (str1 "/"%char). rewrite Split_Join; [|done|].
    + rewrite forallb_forall. intros p Hp%list_elem_of_In. apply valid_component_spec.
      rewrite Forall_forall in Hall. destruct (Hall p Hp). unfold component_ok in *. naive_solver.
    + eapply Forall_impl; [done|]. by intros ? [].
Qed.

(** [ValidDatasetName] accepts exactly the names that are a non-empty
    sequence of components joined by "/", each non-empty, different from "." and
    "..", free of control characters and of the characters ZFS and the shell give
    a meaning to; the components are recovered by splitting. *)
Theorem ValidDatasetName_spec d :
  ValidDatasetName d = true ↔
  ∃ ps, ps ≠ [] ∧ Forall component_ok ps ∧ d = Join ps "/" ∧ components d = ps.
Proof.
  split.
  - intros H. exists (components d). split_and!.
    + apply Split_nonempty.
    + by apply valid_components.
    + symmetry. apply (Join_Split d "/"%char).
    + done.
  - intros (ps & Hne & Hall & -> & _). by apply ValidDatasetName_Join.
Qed.

Lemma components_child t r : components (t +:+ "/" +:+ r) = components t ++ components r.
Proof. unfold components. change ("/" +:+ r) with (String "/" r). apply Split_app. Qed.

Lemma components_inj s t : components s = components t → s = t.
Proof.
  unfold components. intros H. rewrite <- (Join_Split s "/"%char), <- (Join_Split t "/"%char).
  by rewrite H.
Qed.

Lemma Join_app ps qs sep :
  ps ≠ [] → qs ≠ [] → Join (ps ++ qs) sep = Join ps sep +:+ sep +:+ Join qs sep.
Proof.
  intros Hps Hqs. induction ps as [|p ps IH]; [done|]. destruct (decide (ps = [])) as [->|Hne].
  - change ([p] ++ qs) with (p :: qs). by rewrite Join_cons.
  - rewrite <- app_comm_cons, !Join_cons, IH by (try done; by destruct ps).
    by rewrite !str_app_assoc.
Qed.

(** The containment of datasets, component by component. *)
Lemma DatasetOrChild_components v t :
  DatasetOrChild v t = true ↔
  ValidDatasetName v = true ∧ ValidDatasetName t = true ∧ components t `prefix_of` components v.
Proof.
  unfold DatasetOrChild. rewrite !andb_true_iff, orb_true_iff, bool_decide_eq_true, HasPrefix_spec.
  split.
  - intros [[Hv Ht] [->|[r ->]]]; (split; [done|]; split; [done|]); [done|].
    rewrite <- str_app_assoc, components_child. by exists (components r).
  - intros (Hv & Ht & [k Hk]). split; [done|].
    destruct (decide (k = [])) as [->|Hne].
    { left. apply components_inj. by rewrite Hk, app_nil_r. }
    right. exists (Join k "/"). apply components_inj. rewrite <- str_app_assoc, components_child, Hk.
    f_equal. pose proof (Split_parts v "/"%char) as Hp. fold (components v) in Hp.
    rewrite Hk in Hp. apply Forall_app in Hp as [_ Hp].
    symmetry. by apply (Split_Join k "/"%char).
Qed.

Lemma DatasetOrChild_refl d : ValidDatasetName d = true → DatasetOrChild d d = true.
Proof. intros H. by apply DatasetOrChild_components. Qed.

Lemma DatasetOrChild_trans a b c :
  DatasetOrChild a b = true → DatasetOrChild b c = true → DatasetOrChild a c = true.
Proof. rewrite !DatasetOrChild_components. intros (?&?&?) (?&?&?). split_and!; [done|done|by etrans]. Qed.

Lemma DatasetOrChild_antisym a b :
  DatasetOrChild a b = true → DatasetOrChild b a = true → a = b.
Proof.
  rewrite !DatasetOrChild_components. intros (?&?&Hab) (?&?&Hba). apply components_inj.
  by apply (anti_symm prefix).
Qed.

Lemma TargetPool_head d : head (components d) = Some (TargetPool d).
Proof.
  unfold components, TargetPool. induction d as [|c d IH]; [done|]. simpl.
  case_decide; [done|]. pose proof (Split_nonempty d "/"%char).
  destruct (Split d "/"%char) as [|p ps]; [done|]. simpl in *. simplify_eq.
  destruct (IndexByte d "/"%char); simpl; done.
Qed.

Lemma DatasetOrChild_pool v t : DatasetOrChild v t = true → TargetPool v = TargetPool t.
Proof.
  rewrite DatasetOrChild_components. intros (_ & Ht & [k Hk]).
  pose proof (TargetPool_head v) as Hv. rewrite Hk in Hv.
  pose proof (TargetPool_head t). destruct (components t); [done|]. by simplify_eq/=.
Qed.

(** [DatasetOrChild] is the containment of datasets: for valid names the path
    of the target is a prefix of the path of the value, component by component
    (so "tank/app2" is not below "tank/app"); it orders the valid names, and
    contained datasets are in one pool. *)
Theorem DatasetOrChild_spec v t :
  (DatasetOrChild v t = true ↔
   ValidDatasetName v = true ∧ ValidDatasetName t = true ∧ components t `prefix_of` components v) ∧
  (DatasetOrChild v t = true → DatasetOrChild t v = true → v = t) ∧
  (∀ u, DatasetOrChild v t = true → DatasetOrChild t u = true → DatasetOrChild v u = true) ∧
  (DatasetOrChild v t = true → TargetPool v = TargetPool t).
Proof.
  split_and!; [apply DatasetOrChild_components|apply DatasetOrChild_antisym| |apply DatasetOrChild_pool].
  intros u. apply DatasetOrChild_trans.
Qed.

(** ** Snapshot names *)

Lemma validSnapshotRune_ascii r : validSnapshotRune r = true → (r < 128)%N.
Proof.
  unfold validSnapshotRune, rune_between, rune_is, in_range, rune.
  rewrite !orb_true_iff, !andb_true_iff, !N.leb_le, !N.eqb_eq. simpl. lia.
Qed.

(** A byte outside the snapshot alphabet does not occur in a valid name. *)
Lemma ValidSnapshotName_no_byte s c :
  (byte_val c <? 128)%N = true → validSnapshotRune (byte_val c) = false →
  ValidSnapshotName s = true → has_byte c s = false.
Proof.
  intros Hc Hv H. apply not_true_iff_false. intros (a & b & ->)%has_byte_split.
  unfold ValidSnapshotName in H. case_match; [done|].
  unfold all_runes in H. rewrite runes_app_ascii, forallb_app in H by done. simpl in H.
  rewrite Hv, andb_false_r in H. done.
Qed.

Lemma Contains_byte s c : Contains s (str1 c) = has_byte c s.
Proof.
  apply eq_true_iff_eq. rewrite Contains_spec, has_byte_split.
  setoid_rewrite app_str1. done.
Qed.

Lemma valid_dataset_no_forbidden d c :
  ValidDatasetName d = true → has_byte c dataset_forbidden = true → has_byte c d = false.
Proof.
  unfold ValidDatasetName. case_match eqn:E; [done|]. intros _ Hc.
  repeat apply orb_false_iff in E as [E ?]. by eapply ContainsAny_false.
Qed.

(** [SplitSnapshotTarget] inverts the composition of a snapshot name from a
    valid dataset and a valid snapshot, and accepts nothing else. *)
Theorem SplitSnapshotTarget_spec value d s :
  SplitSnapshotTarget value = (d, s, true) ↔
  value = d +:+ "@" +:+ s ∧ ValidDatasetName d = true ∧ ValidSnapshotName s = true.
Proof.
  unfold SplitSnapshotTarget. destruct (Cut value "@"%char) as [[a b] ok] eqn:E. split.
  - case_match eqn:Hc; [done|]. intros [= -> ->].
    rewrite !orb_false_iff, !negb_false_iff in Hc. destruct Hc as [[[-> _] ?] ?].
    apply Cut_found in E as [-> _]. done.
  - intros (-> & Hd & Hs).
    assert (Cut (d +:+ "@" +:+ s) "@"%char = (d, s, true)) as E'.
    { apply Cut_found. split; [done|]. by apply valid_dataset_no_forbidden. }
    rewrite E in E'. simplify_eq. rewrite Hd, Hs. change "@" with (str1 "@"%char).
    rewrite Contains_byte, ValidSnapshotName_no_byte by done. done.
Qed.
