(* ===== verification/Names.v ===== *)
(** * Object names (internal/runchildren, internal/controller/names.go)

    The names of the children of a replication run and of scheduled runs, with
    the bounds and the injectivity the ownership rules rely on. *)
From S2P Require Import Prelude GoStrings Sha256.
From Stdlib Require Import NArith.

(** ** DNS labels *)

(** The runes the regular expression [[a-z0-9-]] accepts. *)
Definition label_rune (r : N) : bool :=
  rune_between "a" "z" r || rune_between "0" "9" r || rune_is "-" r.

(** [invalidDNSLabel.ReplaceAllString(name, "-")]: each maximal run of other
    runes becomes one hyphen. *)
Fixpoint replace_invalid (l : list N) (in_run : bool) : string :=
  match l with
  | [] => EmptyString
  | r :: l' =>
      if label_rune r then String (byte_of r) (replace_invalid l' false)
      else (if in_run then EmptyString else "-") +:+ replace_invalid l' true
  end.

(** [for strings.Contains(name, "--") { name = ReplaceAll(name, "--", "-") }]
    with fuel; every iteration shortens the name. *)
Fixpoint collapse (fuel : nat) (name : string) : string :=
  match fuel with
  | O => name
  | S fuel' =>
      if Contains name "--" then collapse fuel' (ReplaceAll name "--" "-") else name
  end.

Section Names.
Context `{UnicodeTables}.

(** [src/internal/runchildren/names.go:50-58 normalizeDNSLabel] *)
Definition normalizeDNSLabel (name : string) : string :=
  let name := ToLower name in
  let name := replace_invalid (runes name) false in
  let name := TrimByte name "-" in
  collapse (String.length name) name.

(** [src/internal/runchildren/names.go:10-13 maxNameLength] *)
Definition maxNameLength : nat := 63.
Definition readablePrefixMaxSize : nat := 30.

(** [src/internal/runchildren/names.go:38-44 childName] The readable prefix of a
    hashed name. *)
Definition readable_prefix (runName : string) : string :=
  let n := normalizeDNSLabel runName in
  let n := if bool_decide (readablePrefixMaxSize < String.length n)
           then str_take readablePrefixMaxSize n else n in
  let n := TrimByte n "-" in
  if n ≟ "" then "run" else n.

(** [src/internal/runchildren/names.go:31-48 childName] *)
Definition childName (runName role : string) : string :=
  let readable := "zfsrep-" +:+ runName +:+ "-" +:+ role in
  if (normalizeDNSLabel runName ≟ runName) &&
     bool_decide (String.length readable ≤ maxNameLength)
  then readable
  else
    let hash := str_take 16 (hex_encode (SHA.Sum256 runName)) in
    "zfsrep-" +:+ readable_prefix runName +:+ "-" +:+ hash +:+ "-" +:+ role.

(** [src/internal/runchildren/names.go:17-21 Names] *)
Record Names := { SSHSecret : string; ReceiveTask : string; SenderJob : string }.

(** [src/internal/runchildren/names.go:23-29 ForRun] *)
Definition ForRun (runName : string) : Names :=
  {| SSHSecret := childName runName "ssh";
     ReceiveTask := childName runName "receiver";
     SenderJob := childName runName "sender" |}.

(** [src/internal/controller/names.go:38-49 normalizeDNSLabel] *)
Definition controller_normalizeDNSLabel (name : string) : string :=
  let name := normalizeDNSLabel name in
  if name ≟ "" then "zfsrep" else name.

(** [src/internal/controller/names.go:12-12 dnsLabelMaxLength] *)
Definition dnsLabelMaxLength : nat := 63.

(** [src/internal/controller/names.go:22-36 sanitizeName] *)
Definition sanitizeName (parts : list string) : string :=
  let raw := ToLower (Join parts "-") in
  let name := controller_normalizeDNSLabel raw in
  if bool_decide (dnsLabelMaxLength < String.length name) then
    let suffix := str_take 10 (hex_encode (SHA.Sum256 raw)) in
    let prefixLength := dnsLabelMaxLength - String.length suffix - 1 in
    let prefix := TrimByte (str_take prefixLength name) "-" in
    let prefix := if prefix ≟ "" then "zfsrep" else prefix in
    prefix +:+ "-" +:+ suffix
  else name.

End Names.

(** [src/internal/controller/names.go:51-56 boolDefault] *)
Definition boolDefault (value : option bool) (def : bool) : bool :=
  match value with None => def | Some b => b end.

(** ASCII-only tables, to evaluate names. *)
Definition ascii_tables : UnicodeTables := {| lower_high := id; print_high := λ _, true |}.

(** The names the repository's own tests expect. *)
Example childName_readable : @childName ascii_tables "manual-1" "ssh" = "zfsrep-manual-1-ssh".
Proof. vm_compute. reflexivity. Qed.

Example childName_hashed :
  @childName ascii_tables "manual.run" "receiver" = "zfsrep-manual-run-e3756db6c28755b8-receiver".
Proof. vm_compute. reflexivity. Qed.

(** * Properties *)

(** ** Collapsing hyphens *)

Lemma label_rune_ascii r : label_rune r = true → (r < 128)%N.
Proof.
  unfold label_rune, rune_between, rune_is, in_range, rune.
  rewrite !orb_true_iff, !andb_true_iff, !N.leb_le, N.eqb_eq. simpl. lia.
Qed.

Lemma label_rune_byte r : label_rune r = true → byte_val (byte_of r) = r.
Proof. intros H%label_rune_ascii. apply N_ascii_embedding. lia. Qed.

Lemma is_hex_label r : is_hex r = true → label_rune r = true.
Proof.
  unfold is_hex, label_rune, rune_between, rune_is, in_range, rune.
  rewrite !orb_true_iff, !andb_true_iff, !N.leb_le, N.eqb_eq. simpl. lia.
Qed.

(** Replacement of a pair of hyphens, one pair at a time. *)
Lemma ReplaceAll_hyphens_step s :
  ReplaceAll (String "-" (String "-" s)) "--" "-" = String "-" (ReplaceAll s "--" "-").
Proof. unfold ReplaceAll. cbn [replace_aux]. by destruct s. Qed.

Lemma ReplaceAll_hyphens_skip c s :
  HasPrefix (String c s) "--" = false →
  ReplaceAll (String c s) "--" "-" = String c (ReplaceAll s "--" "-").
Proof. intros H. unfold ReplaceAll. cbn [replace_aux]. by rewrite H. Qed.

(** Induction along the scan for pairs of hyphens. *)
Lemma hyphens_ind (P : string → Prop) :
  P EmptyString →
  (∀ s, P s → P (String "-" (String "-" s))) →
  (∀ c s, HasPrefix (String c s) "--" = false → P s → P (String c s)) →
  ∀ s, P s.
Proof.
  intros H0 H2 H1 s. induction s as [s IH] using string_len_ind. destruct s as [|c s]; [done|].
  destruct (HasPrefix (String c s) "--") eqn:E.
  - apply HasPrefix_spec in E as [t E]. str_simp. change "--" with (String "-" (String "-" "")) in *.
    str_simp. apply H2. apply IH. simpl. lia.
  - apply H1; [done|]. apply IH. simpl. lia.
Qed.

Lemma ReplaceAll_hyphens_all f s :
  all_bytes f s = true → all_bytes f (ReplaceAll s "--" "-") = true.
Proof.
  induction s as [|s IH|c s Hc IH] using hyphens_ind; [done| |].
  - rewrite ReplaceAll_hyphens_step. simpl. rewrite !andb_true_iff. naive_solver.
  - rewrite ReplaceAll_hyphens_skip by done. simpl. rewrite !andb_true_iff. naive_solver.
Qed.

Lemma ReplaceAll_hyphens_first s : String.get 0 (ReplaceAll s "--" "-") = String.get 0 s.
Proof.
  induction s as [|s IH|c s Hc IH] using hyphens_ind; [done| |].
  - by rewrite ReplaceAll_hyphens_step.
  - by rewrite ReplaceAll_hyphens_skip.
Qed.

Lemma ReplaceAll_hyphens_last s : last_byte (ReplaceAll s "--" "-") = last_byte s.
Proof.
  induction s as [|s IH|c s Hc IH] using hyphens_ind; [done| |].
  - rewrite ReplaceAll_hyphens_step. cbn [last_byte]. rewrite IH. by destruct (last_byte s).
  - rewrite ReplaceAll_hyphens_skip by done. cbn [last_byte]. by rewrite IH.
Qed.

Lemma ReplaceAll_hyphens_length s :
  String.length (ReplaceAll s "--" "-") ≤ String.length s ∧
  (Contains s "--" = true → String.length (ReplaceAll s "--" "-") < String.length s).
Proof.
  induction s as [|s [IH1 IH2]|c s Hc [IH1 IH2]] using hyphens_ind; [by split| |].
  - rewrite ReplaceAll_hyphens_step. simpl. lia.
  - rewrite ReplaceAll_hyphens_skip by done. cbn [Contains String.length]. rewrite Hc.
    split; [lia|]. simpl. intros H%IH2. lia.
Qed.

(** The loop ends without a pair of hyphens, within the fuel given. *)
Lemma collapse_no_pair fuel s :
  String.length s ≤ fuel → Contains (collapse fuel s) "--" = false.
Proof.
  revert s. induction fuel as [|fuel IH]; intros s Hl.
  { destruct s; [done|]. simpl in Hl. lia. }
  simpl. destruct (Contains s "--") eqn:E; [|done]. apply IH.
  pose proof (proj2 (ReplaceAll_hyphens_length s) E). lia.
Qed.

Lemma collapse_ind (P : string → Prop) :
  (∀ s, P s → P (ReplaceAll s "--" "-")) → ∀ fuel s, P s → P (collapse fuel s).
Proof.
  intros Hstep fuel. induction fuel as [|fuel IH]; intros s Hs; [done|]. simpl.
  case_match; auto.
Qed.

Lemma collapse_id fuel s : Contains s "--" = false → collapse fuel s = s.
Proof. intros H. destruct fuel; [done|]. simpl. by rewrite H. Qed.

Lemma replace_invalid_label l b : all_bytes label_rune (replace_invalid l b) = true.
Proof.
  revert b. induction l as [|r l IH]; intros b; [done|]. simpl. destruct (label_rune r) eqn:E.
  - simpl. by rewrite label_rune_byte, E, IH.
  - rewrite all_bytes_app, IH. by destruct b.
Qed.

(** ** Normalised names *)

(** What [normalizeDNSLabel] produces: hyphen-separated words, possibly none. *)
Definition normal_label (s : string) : Prop :=
  all_bytes label_rune s = true ∧ HasPrefix s "-" = false ∧ HasSuffix s "-" = false ∧
  Contains s "--" = false.

(** A DNS-1123 label of at most [n] bytes. *)
Definition dns_label (n : nat) (s : string) : Prop :=
  s ≠ "" ∧ String.length s ≤ n ∧ all_bytes label_rune s = true ∧
  HasPrefix s "-" = false ∧ HasSuffix s "-" = false.

Lemma edges_spec s :
  HasPrefix s "-" = false ∧ HasSuffix s "-" = false ↔
  String.get 0 s ≠ Some "-"%char ∧ last_byte s ≠ Some "-"%char.
Proof.
  change "-" with (str1 "-"%char). rewrite HasPrefix_first, HasSuffix_last.
  by rewrite !bool_decide_eq_false.
Qed.

Section Properties.
Context `{UnicodeTables}.

Lemma ToLower_label s : all_bytes label_rune s = true → ToLower s = s.
Proof.
  induction s as [|c s IH]; [done|]. simpl. rewrite andb_true_iff. intros [Hc Hs].
  unfold ToLower, runes in *. rewrite segs_ascii_cons by (apply N.ltb_lt; by apply label_rune_ascii).
  rewrite !fmap_cons. cbn [fst EncodeRunes foldr]. fold (EncodeRunes (ToLowerRune <$> (segs s).*1)).
  rewrite IH by done. unfold ToLowerRune, EncodeRune.
  pose proof (label_rune_ascii _ Hc) as Ha. rewrite (proj2 (N.ltb_lt _ _) Ha).
  assert (rune_between "A" "Z" (byte_val c) = false) as ->.
  { revert Hc. unfold label_rune, rune_between, rune_is, in_range, rune.
    rewrite !orb_true_iff, !andb_true_iff, andb_false_iff, !N.leb_le, !N.leb_gt, N.eqb_eq. simpl. lia. }
  rewrite (proj2 (N.ltb_lt _ _) Ha). unfold byte_of. by rewrite ascii_N_embedding.
Qed.

Lemma replace_invalid_id s : all_bytes label_rune s = true → replace_invalid (runes s) false = s.
Proof.
  induction s as [|c s IH]; [done|]. simpl. rewrite andb_true_iff. intros [Hc Hs].
  unfold runes in *. rewrite segs_ascii_cons by (apply N.ltb_lt; by apply label_rune_ascii).
  rewrite fmap_cons. cbn [fst replace_invalid]. rewrite Hc, IH by done.
  unfold byte_of. by rewrite ascii_N_embedding.
Qed.

Lemma normalizeDNSLabel_normal name : normal_label (normalizeDNSLabel name).
Proof.
  unfold normalizeDNSLabel. set (t := TrimByte _ _).
  assert (all_bytes label_rune t = true) as Ht by apply all_bytes_TrimByte, replace_invalid_label.
  assert (String.get 0 t ≠ Some "-"%char ∧ last_byte t ≠ Some "-"%char) as He
    by (split; [apply TrimByte_first|apply TrimByte_last]).
  unfold normal_label. rewrite collapse_no_pair by done.
  split; [|split_and!; [apply edges_spec..|done]].
  - apply (collapse_ind (λ s, all_bytes label_rune s = true)); [|done].
    intros s. apply ReplaceAll_hyphens_all.
  - apply (collapse_ind (λ s, String.get 0 s ≠ Some "-"%char ∧ last_byte s ≠ Some "-"%char));
      [|done]. intros s. by rewrite ReplaceAll_hyphens_first, ReplaceAll_hyphens_last.
  - apply (collapse_ind (λ s, String.get 0 s ≠ Some "-"%char ∧ last_byte s ≠ Some "-"%char));
      [|done]. intros s. by rewrite ReplaceAll_hyphens_first, ReplaceAll_hyphens_last.
Qed.

Lemma normalizeDNSLabel_id s : normal_label s → normalizeDNSLabel s = s.
Proof.
  intros (Hl & Hf & He & Hc). unfold normalizeDNSLabel.
  rewrite ToLower_label, replace_invalid_id by done.
  destruct (proj1 (edges_spec s) (conj Hf He)). by rewrite TrimByte_id, collapse_id.
Qed.

(** [normalizeDNSLabel] maps every run name to hyphen-separated words of
    lower-case letters and digits, and leaves exactly those names unchanged, so
    a run name is used verbatim only when no information was lost. *)
Theorem normalizeDNSLabel_fixpoint name :
  normal_label (normalizeDNSLabel name) ∧
  (normalizeDNSLabel name = name ↔ normal_label name).
Proof.
  split; [apply normalizeDNSLabel_normal|]. split; [|apply normalizeDNSLabel_id].
  intros <-. apply normalizeDNSLabel_normal.
Qed.

(** ** Child names *)

(** The roles of the children of a run. *)
Definition child_roles : list string := ["ssh"; "receiver"; "sender"].

Lemma readable_prefix_ok runName :
  readable_prefix runName ≠ "" ∧ String.length (readable_prefix runName) ≤ 30 ∧
  all_bytes label_rune (readable_prefix runName) = true.
Proof.
  unfold readable_prefix. destruct (normalizeDNSLabel_normal runName) as (Hl & _).
  set (n := if bool_decide (readablePrefixMaxSize < _) then _ else _).
  assert (all_bytes label_rune n = true ∧ String.length n ≤ 30) as [Hn Hlen].
  { unfold n, readablePrefixMaxSize. case_bool_decide.
    - split; [by apply all_bytes_take|]. rewrite length_str_take. lia.
    - split; [done|lia]. }
  case_bool_decide as E; [split_and!; [done|simpl; lia|done]|]. split; [done|]. split.
  - etrans; [apply length_TrimByte|done].
  - by apply all_bytes_TrimByte.
Qed.

Lemma hash_prefix_ok n s :
  all_bytes label_rune (str_take n (hex_encode s)) = true.
Proof. apply all_bytes_take. eapply all_bytes_impl; [apply is_hex_label|apply hex_encode_is_hex]. Qed.

Lemma hash_prefix_length n s :
  n ≤ 64 → String.length (str_take n (hex_encode (SHA.Sum256 s))) = n.
Proof. intros. rewrite length_str_take, length_hex_encode, SHA.Sum256_length. lia. Qed.

Lemma dns_label_app n p s :
  String.get 0 p ≠ Some "-"%char → p ≠ "" → s ≠ "" → last_byte s ≠ Some "-"%char →
  all_bytes label_rune (p +:+ s) = true → String.length (p +:+ s) ≤ n → dns_label n (p +:+ s).
Proof.
  intros Hp Hpne Hs Hl Hall Hlen. unfold dns_label.
  split_and!; try done; [by destruct p|apply edges_spec..]; rewrite ?last_byte_app by done;
    destruct p; done.
Qed.

Lemma child_role_ok role : role ∈ child_roles →
  role ≠ "" ∧ String.length role ≤ 8 ∧ all_bytes label_rune role = true ∧
  last_byte role ≠ Some "-"%char.
Proof.
  unfold child_roles. rewrite !elem_of_cons, elem_of_nil.
  intros [->|[->|[->|[]]]]; (split_and!; [done|simpl; lia|done|done]).
Qed.

(** C38. Every child name is a DNS-1123 label of at most 63 bytes, whatever the
    name of the run. *)
Theorem childName_dns_label runName role :
  role ∈ child_roles → dns_label 63 (childName runName role).
Proof.
  intros Hrole. destruct (child_role_ok role Hrole) as (Hne & Hlen & Hall & Hlast).
  assert (∀ t, t +:+ "-" +:+ role ≠ "" ∧ last_byte (t +:+ "-" +:+ role) ≠ Some "-"%char) as Hsuf.
  { intros t. split; [by destruct t|]. by rewrite str_app_assoc, last_byte_app. }
  unfold childName, maxNameLength. case_match eqn:E.
  - rewrite andb_true_iff, !bool_decide_eq_true in E. destruct E as [E Hl].
    pose proof (normalizeDNSLabel_normal runName) as [Hr _]. rewrite E in Hr.
    apply dns_label_app; [done..|by apply Hsuf|by apply Hsuf| |done].
    by rewrite !all_bytes_app, Hr, Hall.
  - destruct (readable_prefix_ok runName) as (Hpn & Hpl & Hpa).
    apply dns_label_app; [done|done| | | |].
    + by destruct (readable_prefix runName).
    + rewrite !str_app_assoc, last_byte_app by done. done.
    + rewrite !all_bytes_app, Hpa, hash_prefix_ok, Hall. done.
    + rewrite !length_app_str, hash_prefix_length by lia. simpl. lia.
Qed.

(** The middle part of a hashed child name. *)
Definition hashed_middle (runName : string) : string :=
  readable_prefix runName +:+ "-" +:+ str_take 16 (hex_encode (SHA.Sum256 runName)).

Lemma childName_shape runName role :
  (childName runName role = "zfsrep-" +:+ runName +:+ "-" +:+ role ∧
   normalizeDNSLabel runName = runName) ∨
  childName runName role = "zfsrep-" +:+ hashed_middle runName +:+ "-" +:+ role.
Proof.
  unfold childName, hashed_middle. case_match eqn:E.
  - left. split; [done|]. rewrite andb_true_iff, !bool_decide_eq_true in E. naive_solver.
  - right. by rewrite !str_app_assoc.
Qed.

Lemma app_inj_r s1 s2 t1 t2 :
  String.length t1 = String.length t2 → s1 +:+ t1 = s2 +:+ t2 → s1 = s2 ∧ t1 = t2.
Proof.
  intros Hl E. apply str_app_inj; [|done]. apply (f_equal String.length) in E.
  rewrite !length_app_str in E. lia.
Qed.

Lemma last_word_inj x y a b :
  has_byte "-" a = false → has_byte "-" b = false →
  x +:+ "-" +:+ a = y +:+ "-" +:+ b → x = y ∧ a = b.
Proof.
  intros Ha Hb E. assert (a = b) as ->.
  { apply (f_equal (λ s, last (Split s "-"%char))) in E. revert E.
    change ("-" +:+ a) with (String "-" a). change ("-" +:+ b) with (String "-" b).
    rewrite !Split_app, (Split_no_sep a), (Split_no_sep b), !last_snoc by done. by intros [= ->]. }
  split; [|done]. rewrite !str_app_assoc in E. apply str_app_inv_tail in E.
  by apply str_app_inv_tail in E.
Qed.

Lemma child_role_no_hyphen role : role ∈ child_roles → has_byte "-" role = false.
Proof. unfold child_roles. rewrite !elem_of_cons, elem_of_nil. by intros [->|[->|[->|[]]]]. Qed.

(** Two children have the same name only when they play the same role for
    the same run, or when the truncated digests of the two run names collide, or
    when one run is itself named like the hashed form of the other (the names
    cannot separate that case; the owner UID does). *)
Theorem childName_injective r1 role1 r2 role2 :
  role1 ∈ child_roles → role2 ∈ child_roles →
  childName r1 role1 = childName r2 role2 →
  role1 = role2 ∧
  (r1 = r2 ∨ r1 = hashed_middle r2 ∨ r2 = hashed_middle r1 ∨
   str_take 16 (hex_encode (SHA.Sum256 r1)) = str_take 16 (hex_encode (SHA.Sum256 r2))).
Proof.
  intros H1 H2 E.
  assert (∃ m1 m2, childName r1 role1 = "zfsrep-" +:+ m1 +:+ "-" +:+ role1 ∧
    childName r2 role2 = "zfsrep-" +:+ m2 +:+ "-" +:+ role2 ∧
    (m1 = r1 ∨ m1 = hashed_middle r1) ∧ (m2 = r2 ∨ m2 = hashed_middle r2))
    as (m1 & m2 & E1 & E2 & Hm1 & Hm2).
  { destruct (childName_shape r1 role1) as [[-> _]| ->], (childName_shape r2 role2) as [[-> _]| ->];
      eexists _, _; (split_and!; [reflexivity|reflexivity|by auto|by auto]). }
  rewrite E1, E2 in E. apply str_app_inv_head in E.
  apply last_word_inj in E as [-> ->]; [|by apply child_role_no_hyphen..]. split; [done|].
  destruct Hm1 as [->| ->]; [by destruct Hm2; auto|].
  destruct Hm2 as [<-|Hm]; [by auto|]. do 3 right.
  unfold hashed_middle in Hm. rewrite !str_app_assoc in Hm.
  apply app_inj_r in Hm as [_ Hm]; [done|]. by rewrite !hash_prefix_length by lia.
Qed.

(** Every generated name of the schedule controller is a DNS-1123 label of
    at most 63 bytes. *)
Theorem sanitizeName_dns_label parts : dns_label 63 (sanitizeName parts).
Proof.
  unfold sanitizeName, dnsLabelMaxLength. set (raw := ToLower _).
  assert (controller_normalizeDNSLabel raw ≠ "" ∧ normal_label (controller_normalizeDNSLabel raw))
    as [Hne (Hl & Hf & He & _)].
  { unfold controller_normalizeDNSLabel. case_bool_decide; [done|].
    split; [done|apply normalizeDNSLabel_normal]. }
  case_bool_decide as Hlong; [|unfold dns_label; split_and!; try done; lia].
  rewrite hash_prefix_length by lia. set (p := TrimByte _ _).
  assert (String.get 0 p ≠ Some "-"%char) as Hp by apply TrimByte_first.
  assert (all_bytes label_rune p = true) as Hpa by (by apply all_bytes_TrimByte, all_bytes_take).
  assert (String.length p ≤ 52) as Hpl.
  { etrans; [apply length_TrimByte|]. rewrite length_str_take. lia. }
  set (q := if p ≟ "" then "zfsrep" else p).
  assert (q ≠ "" ∧ String.get 0 q ≠ Some "-"%char ∧ all_bytes label_rune q = true ∧
    String.length q ≤ 52) as (Hqne & Hq & Hqa & Hql).
  { unfold q. case_bool_decide; [split_and!; [done..|simpl; lia]|done]. }
  set (h := str_take 10 _).
  assert (String.length h = 10) as Hh by (by apply hash_prefix_length; lia).
  assert (all_bytes is_hex h = true) as Hhex by apply all_bytes_take, hex_encode_is_hex.
  apply dns_label_app; try done.
  - rewrite last_byte_app by (by destruct h). intros (t & Ht)%last_byte_spec.
    rewrite Ht, all_bytes_app in Hhex. apply andb_prop in Hhex as [_ Hx]. done.
  - rewrite !all_bytes_app, Hqa. unfold h. by rewrite hash_prefix_ok.
  - rewrite !length_app_str, Hh. change (String.length "-") with 1. lia.
Qed.

End Properties.

(** The collision [childName_injective] leaves open is real: a run named like a hashed
    name. *)
Example childName_named_like_hash :
  @childName ascii_tables "a.b" "ssh" = @childName ascii_tables "a-b-2e7336dc8eba87ef" "ssh".
Proof. vm_compute. reflexivity. Qed.

(** [childName_injective] at such a pair of runs. *)
Lemma childName_injective_witness :
  "ssh" ∈ child_roles ∧
  (("ssh":string) = "ssh" ∧
   ("a.b" = "a-b-2e7336dc8eba87ef" ∨ "a.b" = @hashed_middle ascii_tables "a-b-2e7336dc8eba87ef" ∨
    "a-b-2e7336dc8eba87ef" = @hashed_middle ascii_tables "a.b" ∨
    str_take 16 (hex_encode (SHA.Sum256 "a.b")) =
    str_take 16 (hex_encode (SHA.Sum256 "a-b-2e7336dc8eba87ef")))).
Proof.
  assert ("ssh" ∈ child_roles) as Hr by (left).
  split; [exact Hr|].
  apply (@childName_injective ascii_tables "a.b" "ssh" "a-b-2e7336dc8eba87ef" "ssh" Hr Hr).
  vm_compute. reflexivity.
Defined.

(** [childName_dns_label] at a run name with a dot. *)
Lemma childName_dns_label_witness :
  dns_label 63 (@childName ascii_tables "manual.run" "receiver").
Proof. apply (@childName_dns_label ascii_tables). right. left. Defined.
