(* ===== verification/Syncoid.v ===== *)
(** * The Syncoid replication contract (internal/syncoid)

    Translation of one run into the sender's argument vector and the receiver's
    policy, the compression table both sides share, and the identifier that
    names the snapshots a relationship owns. *)
From S2P Require Import Prelude GoStrings Sha256 Api Replication.
From Stdlib Require Import NArith.

(** ** Compression *)

(** [src/internal/syncoid/compression.go:5-5 CompressionNone] *)
Definition CompressionNone : string := "none".

(** [src/internal/syncoid/compression.go:14-17 decompressorAlias] *)
Record decompressorAlias := { alias_name : string; alias_args : list string }.

(** [src/internal/syncoid/compression.go:7-12 compressionSpec] *)
Record compressionSpec := {
  sender : string;
  decompressor : string;
  allowedArgs : list (list string);
  aliases : list decompressorAlias }.

(** [src/internal/syncoid/compression.go:19-62 compressionSpecs] *)
Definition compressionSpecs : gmap string compressionSpec :=
  let mk s d a al := {| sender := s; decompressor := d; allowedArgs := a; aliases := al |} in
  list_to_map [
    ("", mk CompressionNone "" [] []);
    (CompressionNone, mk CompressionNone "" [] []);
    ("gzip", mk "gzip" "gzip" [["-dc"]] [{| alias_name := "zcat"; alias_args := [] |}]);
    ("pigz", mk "pigz-fast" "pigz" [["-dc"]] []);
    ("zstd", mk "zstd-fast" "zstd" [["-dc"]] []);
    ("zstdmt", mk "zstdmt-fast" "zstdmt" [["-dc"]] []);
    ("xz", mk "xz" "xz" [["-d"]; ["-dc"]; ["-d"; "-c"]] []);
    ("lzop", mk "lzo" "lzop" [["-dfc"]; ["-dc"]] []);
    ("lz4", mk "lz4" "lz4" [["-dc"]] [])].

(** [src/internal/syncoid/compression.go:64-69 CompressionDefault] *)
Definition CompressionDefault (compression : string) : string :=
  if compression ≟ "" then CompressionNone else compression.

(** [src/internal/syncoid/compression.go:71-74 CompressionSupported] *)
Definition CompressionSupported (compression : string) : bool :=
  match compressionSpecs !! compression with Some _ => true | None => false end.

(** [src/internal/syncoid/compression.go:76-79 senderCompression] *)
Definition senderCompression (compression : string) : string * bool :=
  match compressionSpecs !! compression with
  | Some spec => (sender spec, true)
  | None => ("", false)
  end.

(** [src/internal/syncoid/compression.go:81-91 CompressorAllowed] *)
Definition CompressorAllowed (name : string) : bool :=
  existsb (λ '(compression, spec),
    negb ((compression ≟ "") || (compression ≟ CompressionNone)) && (decompressor spec ≟ name))
    (map_to_list compressionSpecs).

(** [src/internal/syncoid/compression.go:93-112 DecompressorAllowed] *)
Definition DecompressorAllowed (name : string) (args : list string) (compression : string) : bool :=
  match compressionSpecs !! compression with
  | None => false
  | Some spec =>
      if (compression ≟ "") || (compression ≟ CompressionNone) then false
      else if existsb (λ a, (name ≟ alias_name a) && (args ≟ alias_args a)) (aliases spec) then true
      else if name ≠? decompressor spec then false
      else existsb (λ allowed, args ≟ allowed) (allowedArgs spec)
  end.

(** ** Options *)

(** [src/internal/syncoid/contract.go:38-49 options] *)
Record options := {
  noSyncSnap : bool;
  noRollback : bool;
  forceDelete : bool;
  deleteTargetSnapshots : bool;
  compression : string;
  identifier : string;
  receiveUnmounted : bool;
  receiveResumable : bool;
  includeSnapshots : list string;
  excludeSnapshots : list string }.

(** [src/internal/syncoid/contract.go:223-228 boolDefault] *)
Definition boolDefault (value : option bool) (fallback : bool) : bool :=
  match value with None => fallback | Some b => b end.

(** [src/internal/syncoid/contract.go:230-235 stringDefault] *)
Definition stringDefault (value fallback : string) : string :=
  if value ≟ "" then fallback else value.

(** [src/internal/syncoid/contract.go:210-221 normalizeSnapshotPatterns] *)
Definition normalizeSnapshotPatterns (patterns : list string) : list string :=
  pattern ← patterns;
  line ← Split pattern (ascii_of_nat 10);
  let line := TrimSpace line in
  if line ≠? "" then [line] else [].

(** [src/internal/syncoid/contract.go:122-134 normalize] *)
Definition normalize (spec : SyncoidSpec) : options :=
  {| noSyncSnap := boolDefault (NoSyncSnap spec) false;
     noRollback := boolDefault (NoRollback spec) true;
     forceDelete := boolDefault (ForceDelete spec) false;
     deleteTargetSnapshots := boolDefault (DeleteTargetSnapshots spec) false;
     compression := stringDefault (Compress spec) CompressionNone;
     identifier := "";
     receiveUnmounted := boolDefault (ReceiveUnmounted spec) true;
     receiveResumable := boolDefault (ReceiveResumable spec) true;
     includeSnapshots := normalizeSnapshotPatterns (IncludeSnaps spec);
     excludeSnapshots := normalizeSnapshotPatterns (ExcludeSnaps spec) |}.

(** The assignment [normalized.identifier = id]. *)
Definition with_identifier (o : options) (id : string) : options :=
  {| noSyncSnap := noSyncSnap o; noRollback := noRollback o; forceDelete := forceDelete o;
     deleteTargetSnapshots := deleteTargetSnapshots o; compression := compression o;
     identifier := id; receiveUnmounted := receiveUnmounted o;
     receiveResumable := receiveResumable o; includeSnapshots := includeSnapshots o;
     excludeSnapshots := excludeSnapshots o |}.

(** ** Identifiers *)

(** [src/internal/syncoid/contract.go:178-184 relationshipIdentifier] The string
    that is hashed. *)
Definition relationship_key (run : ZFSReplicationRun) : string :=
  Join [om_namespace (run_meta run);
        NodeName (Source (run_spec run)); Dataset (Source (run_spec run));
        NodeName (Target (run_spec run)); Dataset (Target (run_spec run))] nul.

(** [src/internal/syncoid/contract.go:177-186 relationshipIdentifier] *)
Definition relationshipIdentifier (run : ZFSReplicationRun) : string :=
  "zrc-" +:+ hex_encode (str_take 12 (SHA.Sum256 (relationship_key run))).

(** [src/internal/syncoid/contract.go:188-202 ValidIdentifier] *)
Definition ValidIdentifier (id : string) : bool :=
  if id ≟ "" then false
  else all_runes (λ c,
    rune_between "a" "z" c || rune_between "A" "Z" c || rune_between "0" "9" c ||
    rune_is "_" c || rune_is "-" c || rune_is "." c || rune_is ":" c) id.

(** [src/internal/syncoid/contract.go:204-208 SnapshotOwnedByIdentifier] *)
Definition SnapshotOwnedByIdentifier (snapshot id : string) : bool :=
  ValidIdentifier id && ValidSnapshotName snapshot &&
  HasPrefix snapshot ("syncoid_" +:+ id +:+ "_").

(** ** The contract *)

(** [src/internal/syncoid/contract.go:22-27 Contract] *)
Record Contract := {
  sourceDataset : string;
  targetDataset : string;
  contract_options : options;
  receiverPolicy : ReceiveTaskPolicy }.

(** [src/internal/syncoid/contract.go:31-36 Connection] *)
Record Connection := {
  TargetHost : string;
  SSHKeyFile : string;
  KnownHostsFile : string;
  SSHPort : Z }.

(** [src/internal/syncoid/contract.go:72-82 Translate] The policy literal for
    normalized options. *)
Definition policy_of (normalized : options) : ReceiveTaskPolicy :=
  {| p_ReceiveUnmounted := receiveUnmounted normalized;
     p_ReceiveResumable := receiveResumable normalized;
     p_AllowRollback := negb (noRollback normalized);
     p_AllowDestroy := forceDelete normalized;
     p_AllowMount := negb (receiveUnmounted normalized);
     p_AllowSyncSnapshotDestroy := negb (noSyncSnap normalized);
     p_AllowTargetSnapshotDestroy := deleteTargetSnapshots normalized;
     p_SyncSnapshotIdentifier := identifier normalized;
     p_Compression := compression normalized |}.

(** [src/internal/syncoid/contract.go:51-85 Translate] [None] is the nil run. *)
Definition Translate (run : option ZFSReplicationRun) : result Contract :=
  match run with
  | None => Err (errorf "replication run is required" [])
  | Some run =>
      let src := Dataset (Source (run_spec run)) in
      let tgt := Dataset (Target (run_spec run)) in
      fail_if (negb (ValidDatasetName src)) (errorf "invalid source dataset %q" [FStr src]);;
      fail_if (negb (ValidDatasetName tgt)) (errorf "invalid target dataset %q" [FStr tgt]);;
      let normalized := normalize (Api.Syncoid (run_spec run)) in
      fail_if (negb (CompressionSupported (compression normalized)))
        (errorf "unsupported compression %q" [FStr (compression normalized)]);;
      let normalized := with_identifier normalized (relationshipIdentifier run) in
      Ok {| sourceDataset := src; targetDataset := tgt; contract_options := normalized;
            receiverPolicy := policy_of normalized |}
  end.

(** [src/internal/syncoid/contract.go:89-91 Contract.ReceiverPolicy] *)
Definition ReceiverPolicy (c : Contract) : ReceiveTaskPolicy := receiverPolicy c.

(** [src/internal/syncoid/contract.go:106-120 validateConnection] *)
Definition validateConnection (c : Connection) : goerr :=
  if TargetHost c ≟ "" then Some (errorf "target host is required" [])
  else if SSHKeyFile c ≟ "" then Some (errorf "SSH key file is required" [])
  else if KnownHostsFile c ≟ "" then Some (errorf "known hosts file is required" [])
  else if ((SSHPort c <? 1) || (65535 <? SSHPort c))%Z
  then Some (errorf "invalid SSH port %d" [FInt (SSHPort c)])
  else None.

(** [src/internal/syncoid/contract.go:137-173 arguments] The arguments before
    the two positional ones. *)
Definition flag_arguments (c : Connection) (o : options) (sender_compression : string)
  : list string :=
  (if noSyncSnap o then ["--no-sync-snap"] else []) ++
  (if noRollback o then ["--no-rollback"] else []) ++
  ["--no-privilege-elevation"; "--compress=" +:+ sender_compression;
   "--identifier=" +:+ identifier o] ++
  (if deleteTargetSnapshots o then ["--delete-target-snapshots"] else []) ++
  ["--sshoption=UserKnownHostsFile=" +:+ KnownHostsFile c;
   "--sshoption=StrictHostKeyChecking=yes"; "--sshoption=IdentitiesOnly=yes";
   "--sshkey=" +:+ SSHKeyFile c; "--sshport=" +:+ FormatInt (SSHPort c)] ++
  (if receiveUnmounted o then ["--recvoptions=u"] else []) ++
  (if negb (receiveResumable o) then ["--no-resume"] else []) ++
  ((λ include, "--include-snaps=" +:+ include) <$> includeSnapshots o) ++
  ((λ exclude, "--exclude-snaps=" +:+ exclude) <$> excludeSnapshots o) ++
  (if forceDelete o then ["--force-delete"] else []).

(** [src/internal/syncoid/contract.go:136-175 arguments] *)
Definition arguments (source target : string) (c : Connection) (o : options)
  (sender_compression : string) : list string :=
  flag_arguments c o sender_compression ++ [source; TargetHost c +:+ ":" +:+ target].

(** [src/internal/syncoid/contract.go:95-104 Contract.SenderArguments] *)
Definition SenderArguments (c : Contract) (connection : Connection) : result (list string) :=
  check (validateConnection connection);;
  let '(sender_compression, ok) := senderCompression (compression (contract_options c)) in
  fail_if (negb ok)
    (errorf "unsupported compression %q" [FStr (compression (contract_options c))]);;
  Ok (arguments (sourceDataset c) (targetDataset c) connection (contract_options c)
        sender_compression).

(** * Properties *)

(** ** Membership in the flag list *)

Lemma elem_of_if (b : bool) (x y : string) : x ∈ (if b then [y] else []) ↔ b = true ∧ x = y.
Proof. destruct b; rewrite ?elem_of_cons, ?elem_of_nil; naive_solver. Qed.

(** Reduce the membership of a literal flag to the conditions under which it is
    appended; the other flags differ from it in a fixed prefix. *)
Ltac solve_flag :=
  unfold flag_arguments;
  rewrite !elem_of_app, ?elem_of_if, ?list_elem_of_fmap, ?elem_of_cons, ?elem_of_nil;
  split;
  [ intros H;
    repeat match goal with
    | H : _ ∨ _ |- _ => destruct H as [H|H]
    | H : ∃ _, _ |- _ => destruct H as [? H]
    | H : _ ∧ _ |- _ => destruct H
    | H : False |- _ => destruct H
    end; try discriminate; by rewrite ?negb_true_iff in *
  | intros H; rewrite <- ?negb_true_iff in H;
    repeat first [ solve [left; split; [exact H|reflexivity]]
                 | solve [split; [exact H|reflexivity]] | right ] ].

Lemma flag_no_sync_snap c o sc : "--no-sync-snap" ∈ flag_arguments c o sc ↔ noSyncSnap o = true.
Proof. solve_flag. Qed.

Lemma flag_no_rollback c o sc : "--no-rollback" ∈ flag_arguments c o sc ↔ noRollback o = true.
Proof. solve_flag. Qed.

Lemma flag_delete_target c o sc :
  "--delete-target-snapshots" ∈ flag_arguments c o sc ↔ deleteTargetSnapshots o = true.
Proof. solve_flag. Qed.

Lemma flag_unmounted c o sc : "--recvoptions=u" ∈ flag_arguments c o sc ↔ receiveUnmounted o = true.
Proof. solve_flag. Qed.

Lemma flag_no_resume c o sc : "--no-resume" ∈ flag_arguments c o sc ↔ receiveResumable o = false.
Proof. solve_flag. Qed.

Lemma flag_force_delete c o sc : "--force-delete" ∈ flag_arguments c o sc ↔ forceDelete o = true.
Proof. solve_flag. Qed.

(** ** Translation *)

Lemma Translate_Ok run c :
  Translate (Some run) = Ok c ↔
  let src := Dataset (Source (run_spec run)) in
  let tgt := Dataset (Target (run_spec run)) in
  let o := normalize (Api.Syncoid (run_spec run)) in
  ValidDatasetName src = true ∧ ValidDatasetName tgt = true ∧
  CompressionSupported (compression o) = true ∧
  c = {| sourceDataset := src; targetDataset := tgt;
         contract_options := with_identifier o (relationshipIdentifier run);
         receiverPolicy := policy_of (with_identifier o (relationshipIdentifier run)) |}.
Proof.
  cbn [Translate]. rewrite bind_Ok. setoid_rewrite bind_Ok. setoid_rewrite bind_Ok.
  setoid_rewrite fail_if_Ok. setoid_rewrite negb_false_iff. cbv zeta. split.
  - intros (_ & ? & _ & ? & _ & ? & [= <-]). done.
  - intros (? & ? & ? & ->). by exists tt; split; [done|]; exists tt; split; [done|]; exists tt.
Qed.

Lemma senderCompression_supported s :
  CompressionSupported s = true → ∃ sc, senderCompression s = (sc, true).
Proof. unfold CompressionSupported, senderCompression. case_match; [by eauto|done]. Qed.

Lemma SenderArguments_Ok c conn args :
  SenderArguments c conn = Ok args ↔
  validateConnection conn = None ∧ ∃ sc,
    senderCompression (compression (contract_options c)) = (sc, true) ∧
    args = arguments (sourceDataset c) (targetDataset c) conn (contract_options c) sc.
Proof.
  unfold SenderArguments. destruct (senderCompression _) as [sc ok]. rewrite bind_Ok.
  setoid_rewrite bind_Ok. setoid_rewrite check_Ok. setoid_rewrite fail_if_Ok.
  setoid_rewrite negb_false_iff. split.
  - intros (_ & ? & _ & -> & [= <-]). split; [done|]. by exists sc.
  - intros (? & sc' & [= -> ->] & ->). by exists tt; split; [done|]; exists tt.
Qed.

(** C1. The two sides of a contract agree: whatever valid connection the sender
    is given, the flags in front of its two positional arguments request exactly
    what the receiver policy of the same contract permits. *)
Theorem contract_agreement run c conn args :
  Translate (Some run) = Ok c → SenderArguments c conn = Ok args →
  let p := ReceiverPolicy c in
  ∃ flags,
    args = flags ++ [Dataset (Source (run_spec run));
                     TargetHost conn +:+ ":" +:+ Dataset (Target (run_spec run))] ∧
    ("--no-rollback" ∈ flags ↔ p_AllowRollback p = false) ∧
    ("--force-delete" ∈ flags ↔ p_AllowDestroy p = true) ∧
    ("--delete-target-snapshots" ∈ flags ↔ p_AllowTargetSnapshotDestroy p = true) ∧
    ("--no-sync-snap" ∈ flags ↔ p_AllowSyncSnapshotDestroy p = false) ∧
    ("--recvoptions=u" ∈ flags ↔ p_ReceiveUnmounted p = true) ∧
    p_AllowMount p = negb (p_ReceiveUnmounted p) ∧
    ("--no-resume" ∈ flags ↔ p_ReceiveResumable p = false) ∧
    "--identifier=" +:+ p_SyncSnapshotIdentifier p ∈ flags ∧
    ∃ sc, senderCompression (p_Compression p) = (sc, true) ∧ "--compress=" +:+ sc ∈ flags.
Proof.
  intros HT HS. apply Translate_Ok in HT as (_ & _ & _ & ->).
  apply SenderArguments_Ok in HS as (_ & sc & Hsc & ->).
  revert Hsc. cbn [contract_options receiverPolicy ReceiverPolicy sourceDataset targetDataset].
  generalize (with_identifier (normalize (Api.Syncoid (run_spec run))) (relationshipIdentifier run)).
  intros o Hsc. exists (flag_arguments conn o sc). split; [done|].
  rewrite flag_no_rollback, flag_force_delete, flag_delete_target, flag_no_sync_snap,
    flag_unmounted, flag_no_resume. cbn. rewrite !negb_false_iff. split_and!; try done.
  - unfold flag_arguments. rewrite !elem_of_app, !elem_of_cons. tauto.
  - exists sc. split; [done|]. unfold flag_arguments. rewrite !elem_of_app, !elem_of_cons. tauto.
Qed.

(** ** Identifiers *)

Definition id_rune (c : N) : bool :=
  rune_between "a" "z" c || rune_between "A" "Z" c || rune_between "0" "9" c ||
  rune_is "_" c || rune_is "-" c || rune_is "." c || rune_is ":" c.

Lemma id_rune_ascii r : id_rune r = true → (r < 128)%N.
Proof.
  unfold id_rune, rune_between, rune_is, in_range, rune.
  rewrite !orb_true_iff, !andb_true_iff, !N.leb_le, !N.eqb_eq. simpl. lia.
Qed.

Lemma is_hex_id r : is_hex r = true → id_rune r = true.
Proof.
  unfold is_hex, id_rune, rune_between, rune_is, in_range, rune.
  rewrite !orb_true_iff, !andb_true_iff, !N.leb_le, !N.eqb_eq. simpl. lia.
Qed.

Lemma relationshipIdentifier_length run : String.length (relationshipIdentifier run) = 28.
Proof.
  unfold relationshipIdentifier.
  by rewrite length_app_str, length_hex_encode, length_str_take, SHA.Sum256_length.
Qed.

Lemma relationshipIdentifier_valid_id run : ValidIdentifier (relationshipIdentifier run) = true.
Proof.
  unfold ValidIdentifier. case_bool_decide as E.
  { apply (f_equal String.length) in E. by rewrite relationshipIdentifier_length in E. }
  apply (all_runes_bytes id_rune); [apply id_rune_ascii|]. unfold relationshipIdentifier.
  rewrite all_bytes_app. eapply all_bytes_impl; [apply is_hex_id|apply hex_encode_is_hex].
Qed.

(** The relationship identifier of any run is accepted by [ValidIdentifier],
    the test the receiver applies to it. *)
Theorem relationshipIdentifier_valid run : ValidIdentifier (relationshipIdentifier run) = true.
Proof. apply relationshipIdentifier_valid_id. Qed.

(** The fields the identifier separates runs by. *)
Definition relationship (run : ZFSReplicationRun) : list string :=
  [om_namespace (run_meta run);
   NodeName (Source (run_spec run)); Dataset (Source (run_spec run));
   NodeName (Target (run_spec run)); Dataset (Target (run_spec run))].

(** Two runs with the same identifier replicate between the same datasets of
    the same nodes in the same namespace, unless the truncated SHA-256 digests of
    two different keys collide; no field may contain the NUL separator. *)
Theorem relationshipIdentifier_injective r1 r2 :
  Forall (λ s, has_byte (ascii_of_nat 0) s = false) (relationship r1 ++ relationship r2) →
  relationshipIdentifier r1 = relationshipIdentifier r2 →
  relationship r1 = relationship r2 ∨
  (relationship_key r1 ≠ relationship_key r2 ∧
   str_take 12 (SHA.Sum256 (relationship_key r1)) = str_take 12 (SHA.Sum256 (relationship_key r2))).
Proof.
  intros [H1 H2]%Forall_app E. unfold relationshipIdentifier in E.
  apply str_app_inv_head, hex_encode_inj in E.
  destruct (decide (relationship_key r1 = relationship_key r2)) as [Hk|Hk]; [left|by right].
  unfold relationship_key in Hk. change nul with (str1 (ascii_of_nat 0)) in Hk.
  fold (relationship r1) (relationship r2) in Hk.
  apply (f_equal (λ s, Split s (ascii_of_nat 0))) in Hk. by rewrite !Split_Join in Hk.
Qed.

(** ** Snapshot patterns *)

Lemma has_byte_TrimSpace c s : has_byte c s = false → has_byte c (TrimSpace s) = false.
Proof.
  destruct (trim_segs_spec (segs s)) as (pre & post & E & _).
  assert (s = flat pre +:+ TrimSpace s +:+ flat post) as Hs.
  { transitivity (flat (segs s)); [by rewrite flat_segs|]. by rewrite E, !flat_app. }
  rewrite Hs at 1. rewrite !has_byte_app, !orb_false_iff. naive_solver.
Qed.

(** The normalized include and exclude patterns are single, trimmed,
    non-empty lines, and normalizing them again changes nothing. *)
Theorem normalizeSnapshotPatterns_normal patterns :
  Forall (λ l, l ≠ "" ∧ TrimSpace l = l ∧ has_byte (ascii_of_nat 10) l = false)
    (normalizeSnapshotPatterns patterns) ∧
  normalizeSnapshotPatterns (normalizeSnapshotPatterns patterns) =
    normalizeSnapshotPatterns patterns.
Proof.
  set (ok l := l ≠ "" ∧ TrimSpace l = l ∧ has_byte (ascii_of_nat 10) l = false).
  assert (Forall ok (normalizeSnapshotPatterns patterns)) as Hall.
  { apply Forall_forall. intros l. unfold normalizeSnapshotPatterns.
    rewrite list_elem_of_bind. intros (p & Hp & _). revert Hp.
    rewrite list_elem_of_bind. intros (line & Hl & Hline).
    case_bool_decide as E; [by apply elem_of_nil in Hl|]. simpl in Hl.
    apply list_elem_of_singleton in Hl as ->. unfold ok. rewrite TrimSpace_idemp. split_and!; try done.
    apply has_byte_TrimSpace. pose proof (Split_parts p (ascii_of_nat 10)) as Hs.
    rewrite Forall_forall in Hs. by apply Hs. }
  split; [done|]. revert Hall.
  generalize (normalizeSnapshotPatterns patterns). intros ls Hall.
  induction Hall as [|l ls (Hne & Ht & Hb) Hall IH]; [done|].
  unfold normalizeSnapshotPatterns in *. cbn [mbind list_bind].
  rewrite Split_no_sep by done. cbn [mbind list_bind]. rewrite Ht, bool_decide_false by done.
  simpl. by rewrite IH.
Qed.

(** ** Decompressors *)

(** The decompressors per compression, as a flat table. *)
Definition decompressor_table : list (string * string * list string) :=
  [("gzip", "gzip", ["-dc"]); ("gzip", "zcat", []); ("pigz", "pigz", ["-dc"]);
   ("zstd", "zstd", ["-dc"]); ("zstdmt", "zstdmt", ["-dc"]);
   ("xz", "xz", ["-d"]); ("xz", "xz", ["-dc"]); ("xz", "xz", ["-d"; "-c"]);
   ("lzop", "lzop", ["-dfc"]); ("lzop", "lzop", ["-dc"]); ("lz4", "lz4", ["-dc"])].

(** The rows one entry of [compressionSpecs] admits. *)
Definition spec_rows (c : string) (s : compressionSpec) : list (string * string * list string) :=
  if (c ≟ "") || (c ≟ CompressionNone) then []
  else ((λ a, (c, decompressor s, a)) <$> allowedArgs s) ++
       ((λ a, (c, alias_name a, alias_args a)) <$> aliases s).

Lemma DecompressorAllowed_rows name args c :
  DecompressorAllowed name args c = true ↔
  ∃ s, compressionSpecs !! c = Some s ∧ (c, name, args) ∈ spec_rows c s.
Proof.
  unfold DecompressorAllowed, spec_rows. destruct (compressionSpecs !! c) as [s|].
  2: { split; [done|]. by intros (? & ? & _). }
  transitivity ((c, name, args) ∈ (if (c ≟ "") || (c ≟ CompressionNone) then []
    else ((λ a, (c, decompressor s, a)) <$> allowedArgs s) ++
       ((λ a, (c, alias_name a, alias_args a)) <$> aliases s))); [|naive_solver].
  destruct ((c ≟ "") || (c ≟ CompressionNone)); [by rewrite elem_of_nil|].
  rewrite elem_of_app, !list_elem_of_fmap.
  destruct (existsb _ (aliases s)) eqn:Ea.
  - split; [|done]. intros _. right. apply existsb_exists in Ea as (a & Ha & E).
    rewrite andb_true_iff, !bool_decide_eq_true in E. destruct E as [-> ->].
    exists a. by rewrite list_elem_of_In.
  - destruct (name ≠? decompressor s) eqn:En.
    + apply negb_true_iff, bool_decide_eq_false in En. split; [done|].
      intros [(a & [= -> ->] & _)|(a & [= -> ->] & Ha)]; [done|].
      apply not_true_iff_false in Ea. destruct Ea. apply existsb_exists. exists a.
      rewrite <- list_elem_of_In, !bool_decide_true by done. done.
    + apply negb_false_iff, bool_decide_eq_true in En as ->. rewrite existsb_exists.
      setoid_rewrite bool_decide_eq_true. setoid_rewrite <- list_elem_of_In. split.
      * intros (a & Ha & ->). left. by exists a.
      * intros [(a & [= ->] & Ha)|(a & [= Hn ->] & Ha)]; [by exists a|].
        apply not_true_iff_false in Ea. destruct Ea. apply existsb_exists. exists a.
        rewrite <- list_elem_of_In, !bool_decide_true by done. done.
Qed.

(** Membership in the table is decided entry by entry. *)
Lemma rows_included (l : list (string * compressionSpec))
  (tbl : list (string * string * list string)) :
  forallb (λ '(c, s), forallb (λ row, bool_decide (row ∈ tbl)) (spec_rows c s)) l = true →
  ∀ c s row, (c, s) ∈ l → row ∈ spec_rows c s → row ∈ tbl.
Proof.
  intros Hl c s row Hc Hr. apply (forallb_elem _ _ _ Hl) in Hc.
  apply (forallb_elem _ _ _ Hc) in Hr. by apply bool_decide_eq_true in Hr.
Qed.

Lemma rows_complete (l : list (string * compressionSpec))
  (tbl : list (string * string * list string)) :
  forallb (λ row, existsb (λ '(c, s), bool_decide (row ∈ spec_rows c s)) l) tbl = true →
  ∀ row, row ∈ tbl → ∃ c s, (c, s) ∈ l ∧ row ∈ spec_rows c s.
Proof.
  intros Hl row Hr. apply (forallb_elem _ _ _ Hl) in Hr.
  apply existsb_elem in Hr as ([c s] & Hc & Hrow). exists c, s.
  by apply bool_decide_eq_true in Hrow.
Qed.

Lemma spec_rows_compression c s row : row ∈ spec_rows c s → row.1.1 = c.
Proof.
  unfold spec_rows. case_match; [by rewrite elem_of_nil|].
  rewrite elem_of_app, !list_elem_of_fmap. naive_solver.
Qed.

(** Every row of every entry is in the table, and back; the entries are kept
    abstract in what follows. *)
Lemma spec_rows_table : ∃ l : list (string * compressionSpec),
  (∀ c s, (c, s) ∈ l ↔ compressionSpecs !! c = Some s) ∧
  forallb (λ '(c, s), forallb (λ row, bool_decide (row ∈ decompressor_table)) (spec_rows c s)) l
    = true ∧
  forallb (λ row, existsb (λ '(c, s), bool_decide (row ∈ spec_rows c s)) l) decompressor_table
    = true.
Proof.
  exists (map_to_list compressionSpecs).
  split; [intros c s; apply elem_of_map_to_list|split; vm_compute; reflexivity].
Qed.

(** [DecompressorAllowed] accepts exactly the eleven rows of the table: the
    decompressor must belong to the compression of the policy, with one of its
    argument lists. *)
Theorem DecompressorAllowed_spec name args c :
  DecompressorAllowed name args c = true ↔ (c, name, args) ∈ decompressor_table.
Proof.
  rewrite DecompressorAllowed_rows. destruct spec_rows_table as (l & Hl & H1 & H2). split.
  - intros (s & Hs & Hr). apply Hl in Hs. exact (rows_included _ _ H1 _ _ _ Hs Hr).
  - intros Hr. apply (rows_complete _ _ H2) in Hr as (c' & s & Hs & Hrow).
    apply Hl in Hs. pose proof (spec_rows_compression _ _ _ Hrow) as E.
    simpl in E. subst c'. by exists s.
Qed.

(** ** Concrete inputs *)

(** A run with default replication settings, and the same run under another
    name. *)
Definition sample_spec : ZFSReplicationRunSpec :=
  {| Source := {| NodeName := "node-a"; Dataset := "tank/data" |};
     Target := {| NodeName := "node-b"; Dataset := "backup/data" |};
     Syncoid := {| NoSyncSnap := None; NoRollback := None; ForceDelete := None;
                   DeleteTargetSnapshots := None; Compress := "lz4"; ReceiveUnmounted := None;
                   ReceiveResumable := None; IncludeSnaps := []; ExcludeSnaps := [] |} |}.

Definition sample_run (name uid : string) : ZFSReplicationRun :=
  {| run_meta := {| om_name := name; om_namespace := "default"; om_uid := uid; om_labels := ∅;
                    om_annotations := ∅; om_creation := 0; om_deletion := None;
                    om_owners := [] |};
     run_spec := sample_spec; run_status := empty_run_status |}.

Definition sample_connection : Connection :=
  {| TargetHost := "root@10.0.0.2"; SSHKeyFile := "/ssh/id_ed25519";
     KnownHostsFile := "/ssh/known_hosts"; SSHPort := 2222 |}.

Lemma contract_agreement_witness : ∃ c args flags,
  Translate (Some (sample_run "nightly" "u1")) = Ok c ∧
  SenderArguments c sample_connection = Ok args ∧
  args = flags ++ ["tank/data"; "root@10.0.0.2:backup/data"].
Proof.
  destruct (Translate (Some (sample_run "nightly" "u1"))) as [c|] eqn:HT.
  2: { exfalso. vm_compute in HT. discriminate. }
  assert (∃ args, SenderArguments c sample_connection = Ok args) as [args HS].
  { vm_compute in HT. injection HT as <-. eexists. vm_compute. reflexivity. }
  destruct (contract_agreement _ _ _ _ HT HS) as (flags & Hargs & _).
  exists c, args, flags. split; [reflexivity|]. split; [exact HS|exact Hargs].
Defined.

Lemma relationshipIdentifier_injective_witness :
  relationship (sample_run "nightly" "u1") = relationship (sample_run "hourly" "u2") ∨
  (relationship_key (sample_run "nightly" "u1") ≠ relationship_key (sample_run "hourly" "u2") ∧
   str_take 12 (SHA.Sum256 (relationship_key (sample_run "nightly" "u1"))) =
   str_take 12 (SHA.Sum256 (relationship_key (sample_run "hourly" "u2")))).
Proof.
  apply relationshipIdentifier_injective; [repeat constructor|reflexivity].
Defined.
