(* ===== verification/Ssh.v ===== *)
(** * SSH keys (golang.org/x/crypto/ssh)

    The library's functions the program calls, as parameters, with what the
    program relies on of them; and a small implementation to evaluate with. *)
From S2P Require Import Prelude GoStrings.

(** [ParseAuthorizedKey] returns the key, the comment, the options and the rest of
    its input; [MarshalAuthorizedKey] is the authorized_keys line of a key;
    [KnownHostsLine] is [knownhosts.Line]. *)
Class SSHKeys := {
  PublicKey : Type;
  ParseAuthorizedKey : string → result (PublicKey * string * list string * string);
  MarshalAuthorizedKey : PublicKey → string;
  KnownHostsLine : list string → PublicKey → string }.

(** The line of a key is one line and parses back to that key, without comment,
    options or trailing data, and an empty line is no key. *)
Class SSHLaws `{SSHKeys} := {
  parse_marshal k : ParseAuthorizedKey (TrimSpace (MarshalAuthorizedKey k)) = Ok (k, "", [], "");
  marshal_one_line k : has_byte (ascii_of_nat 10) (TrimSpace (MarshalAuthorizedKey k)) = false;
  parse_empty : is_ok (ParseAuthorizedKey "") = false }.

(** A key library with two keys. *)
Definition key_line (k : bool) : string := if k then "ssh-ed25519 AAAA" else "ssh-ed25519 BBBB".

Definition two_keys : SSHKeys :=
  {| PublicKey := bool;
     ParseAuthorizedKey s :=
       if s ≟ key_line true then Ok (true, "", [], "")
       else if s ≟ key_line false then Ok (false, "", [], "")
       else Err (errorf "ssh: no key found" []);
     MarshalAuthorizedKey k := key_line k +:+ nl;
     KnownHostsLine hosts k := Join hosts "," +:+ " " +:+ key_line k |}.

Lemma two_keys_laws : @SSHLaws two_keys.
Proof. split; [intros []; vm_compute; reflexivity..|reflexivity]. Defined.
