(* ===== verification/ReceiverCommand.v ===== *)
(** * Receiver command authorization (internal/receiverauthorization)

    The tokenizer and parser of the command a sender asks for over SSH, the
    authorization of the parsed pipeline against the policy of a grant, and an
    independent statement of what a policy permits. *)
From S2P Require Import Prelude GoStrings Replication Syncoid.
From Stdlib Require Import NArith.

(** ** Commands, plans and policies *)

(** [src/internal/receiverauthorization/authorization.go:16-19 maxReceiverCommandLength] *)
Definition maxReceiverCommandLength : nat := Eval vm_compute in N.to_nat 8192.
Definition maxReceiverDestroyBatchCommand : nat := 32.

(** [src/internal/receiverauthorization/authorization.go:159-170 commandPolicy] *)
Record commandPolicy := {
  TargetDataset : string;
  ReceiveUnmounted : bool;
  ReceiveResumable : bool;
  AllowRollback : bool;
  AllowDestroy : bool;
  AllowMount : bool;
  AllowSyncSnapshotDestroy : bool;
  AllowTargetSnapshotDestroy : bool;
  SyncSnapshotIdentifier : string;
  Compression : string }.

(** The assignment [policy.Compression = c]. *)
Definition with_Compression (p : commandPolicy) (c : string) : commandPolicy :=
  {| TargetDataset := TargetDataset p; ReceiveUnmounted := ReceiveUnmounted p;
     ReceiveResumable := ReceiveResumable p; AllowRollback := AllowRollback p;
     AllowDestroy := AllowDestroy p; AllowMount := AllowMount p;
     AllowSyncSnapshotDestroy := AllowSyncSnapshotDestroy p;
     AllowTargetSnapshotDestroy := AllowTargetSnapshotDestroy p;
     SyncSnapshotIdentifier := SyncSnapshotIdentifier p; Compression := c |}.

(** [src/internal/receiverauthorization/authorization.go:191-197 receiverCommandStep] *)
Record receiverCommandStep := {
  Name : string;
  Args : list string;
  StdoutNull : bool;
  StderrNull : bool;
  StderrToStdout : bool }.

#[export] Instance receiverCommandStep_eq_dec : EqDecision receiverCommandStep.
Proof. solve_decision. Defined.

(** [src/internal/receiverauthorization/authorization.go:172-189 receiverCommandPlan]
    The tagged struct as an inductive type: a constructor per kind, carrying the
    field that kind uses. *)
Inductive receiverCommandPlan :=
  | PlanExit
  | PlanEcho (echoArgs : list string)
  | PlanLookup (lookupCommand : string)
  | PlanPS
  | PlanPipeline (pipeline : list receiverCommandStep)
  | PlanBatch (batch : list receiverCommandPlan).

(** ** Tokenizer *)

(** The closure [flush] of [tokenizeReceiverCommand]. *)
Definition flush (tokens : list string) (current : string) : list string :=
  if current ≟ "" then tokens else tokens ++ [current].

Definition bquote : ascii := ascii_of_nat 96.
Definition dollar : ascii := ascii_of_nat 36.

(** The characters refused inside quotes. *)
Definition quoted_forbidden (r : N) : bool :=
  rune_is (ascii_of_nat 10) r || rune_is (ascii_of_nat 13) r || rune_is bquote r || rune_is dollar r.

Definition is_quote (r : N) : bool := rune_is "'" r || rune_is (ascii_of_nat 34) r.

(** The characters refused outside quotes. *)
Definition shell_forbidden (r : N) : bool :=
  rune_is (ascii_of_nat 10) r || rune_is (ascii_of_nat 13) r || rune_is ";" r || rune_is bquote r ||
  rune_is dollar r || rune_is "(" r || rune_is ")" r || rune_is "<" r.

(** [src/internal/receiverauthorization/command_parse.go:24-49 tokenizeReceiverCommand]
    The loop over the runes: the tokens so far, the token being built and the
    open quote. *)
Fixpoint tokenize_loop (rs : list N) (tokens : list string) (current : string) (quote : option N)
  : result (list string * string * option N) :=
  match rs with
  | [] => Ok (tokens, current, quote)
  | r :: rs' =>
      match quote with
      | Some q =>
          if (r =? q)%N then tokenize_loop rs' tokens current None
          else if quoted_forbidden r
          then Err (errorf "unsupported quoted character %q" [FInt (Z.of_N r)])
          else tokenize_loop rs' tokens (current +:+ EncodeRune r) quote
      | None =>
          if IsSpace r then tokenize_loop rs' (flush tokens current) "" None
          else if is_quote r then tokenize_loop rs' tokens current (Some r)
          else if rune_is "|" r then tokenize_loop rs' (flush tokens current ++ ["|"]) "" None
          else if shell_forbidden r
          then Err (errorf "unsupported shell character %q" [FInt (Z.of_N r)])
          else tokenize_loop rs' tokens (current +:+ EncodeRune r) None
      end
  end.

(** [src/internal/receiverauthorization/command_parse.go:54-64 tokenizeReceiverCommand]
    The test of one token in the second loop. *)
Definition check_token (token : string) : result unit :=
  fail_if ((token ≟ "||") || (token ≟ "&&")) (errorf "unsupported shell operator %q" [FStr token]);;
  fail_if (Contains token "&" && (token ≠? "2>&1"))
    (errorf "unsupported shell operator in %q" [FStr token]);;
  fail_if (Contains token ">" && (token ≠? ">/dev/null") && (token ≠? "2>/dev/null") &&
           (token ≠? "2>&1"))
    (errorf "unsupported redirection %q" [FStr token]).

(** [src/internal/receiverauthorization/command_parse.go:9-66 tokenizeReceiverCommand] *)
Definition tokenizeReceiverCommand (raw : string) : result (list string) :=
  let raw := TrimSpace raw in
  fail_if (raw ≟ "") (errorf "command is empty" []);;
  '(tokens, current, quote) ← tokenize_loop (runes raw) [] "" None;
  fail_if (match quote with Some _ => true | None => false end) (errorf "unterminated quote" []);;
  let tokens := flush tokens current in
  for_each check_token tokens;;
  Ok tokens.

(** ** Parser *)

(** [src/internal/receiverauthorization/command_parse.go:97-115 parseReceiverCommandStep]
    The loop over the tokens of one step. *)
Fixpoint step_loop (tokens args : list string) (step : receiverCommandStep) (seenRedirect : bool)
  : result (list string * receiverCommandStep) :=
  match tokens with
  | [] => Ok (args, step)
  | token :: rest =>
      let redirect o e m :=
        {| Name := Name step; Args := Args step; StdoutNull := StdoutNull step || o;
           StderrNull := StderrNull step || e; StderrToStdout := StderrToStdout step || m |} in
      if token ≟ ">/dev/null" then step_loop rest args (redirect true false false) true
      else if token ≟ "2>/dev/null" then step_loop rest args (redirect false true false) true
      else if token ≟ "2>&1" then step_loop rest args (redirect false false true) true
      else if seenRedirect
      then Err (errorf "command arguments after redirection are not supported" [])
      else step_loop rest (args ++ [token]) step seenRedirect
  end.

(** [var step receiverCommandStep]. *)
Definition zero_step : receiverCommandStep :=
  {| Name := ""; Args := []; StdoutNull := false; StderrNull := false; StderrToStdout := false |}.

(** [src/internal/receiverauthorization/command_parse.go:91-122 parseReceiverCommandStep] *)
Definition parseReceiverCommandStep (tokens : list string) : result receiverCommandStep :=
  fail_if (bool_decide (tokens = [])) (errorf "empty command in pipeline" []);;
  '(args, step) ← step_loop tokens [] zero_step false;
  match args with
  | [] => Err (errorf "empty command" [])
  | name :: rest =>
      Ok {| Name := name; Args := rest; StdoutNull := StdoutNull step;
            StderrNull := StderrNull step; StderrToStdout := StderrToStdout step |}
  end.

(** [src/internal/receiverauthorization/command_parse.go:71-82 parseReceiverCommandSteps]
    The loop, returning the finished steps and the part being collected. *)
Fixpoint steps_loop (tokens : list string) (steps : list receiverCommandStep) (part : list string)
  : result (list receiverCommandStep * list string) :=
  match tokens with
  | [] => Ok (steps, part)
  | token :: rest =>
      if token ≠? "|" then steps_loop rest steps (part ++ [token])
      else step ← parseReceiverCommandStep part; steps_loop rest (steps ++ [step]) []
  end.

(** [src/internal/receiverauthorization/command_parse.go:68-89 parseReceiverCommandSteps] *)
Definition parseReceiverCommandSteps (tokens : list string) : result (list receiverCommandStep) :=
  '(steps, part) ← steps_loop tokens [] [];
  step ← parseReceiverCommandStep part;
  Ok (steps ++ [step]).

(** ** Validation of one step *)

(** [src/internal/receiverauthorization/command_authorize.go:372-374 receiverStepHasNoRedirects] *)
Definition receiverStepHasNoRedirects (step : receiverCommandStep) : bool :=
  negb (StdoutNull step) && negb (StderrNull step) && negb (StderrToStdout step).

(** [src/internal/receiverauthorization/command_authorize.go:376-378 receiverStepHasNoStdoutRedirects] *)
Definition receiverStepHasNoStdoutRedirects (step : receiverCommandStep) : bool :=
  negb (StdoutNull step) && negb (StderrToStdout step).

(** [src/internal/receiverauthorization/command_authorize.go:269-280 safeMbufferValue] *)
Definition safeMbufferValue (value : string) : bool :=
  if value ≟ "" then false
  else all_runes (λ r,
    rune_between "0" "9" r || rune_is "k" r || rune_is "K" r || rune_is "m" r || rune_is "M" r ||
    rune_is "g" r || rune_is "G" r || rune_is "%" r) value.

(** [src/internal/receiverauthorization/command_authorize.go:247-265 validateMbufferStep]
    The loop over the arguments; a flag with a separate value skips it. *)
Fixpoint mbuffer_args (args : list string) : result unit :=
  match args with
  | [] => Ok tt
  | arg :: rest =>
      if (arg ≟ "-q") || (arg ≟ "-Q") then mbuffer_args rest
      else if (arg ≟ "-s") || (arg ≟ "-m") || (arg ≟ "-P") then
        match rest with
        | value :: rest' =>
            if negb (safeMbufferValue value) then Err (errorf "unsupported mbuffer value" [])
            else mbuffer_args rest'
        | [] => Err (errorf "unsupported mbuffer value" [])
        end
      else if (HasPrefix arg "-s" || HasPrefix arg "-m" || HasPrefix arg "-P") &&
              safeMbufferValue (str_drop 2 arg)
      then mbuffer_args rest
      else Err (errorf "unsupported mbuffer argument %q" [FStr arg])
  end.

(** [src/internal/receiverauthorization/command_authorize.go:243-267 validateMbufferStep] *)
Definition validateMbufferStep (step : receiverCommandStep) : result unit :=
  fail_if (negb (receiverStepHasNoRedirects step))
    (errorf "mbuffer redirection is not supported" []);;
  mbuffer_args (Args step).

(** [src/internal/receiverauthorization/command_authorize.go:282-293 validateDecompressorStep] *)
Definition validateDecompressorStep (step : receiverCommandStep) (policy : commandPolicy)
  : result unit :=
  fail_if (Compression policy ≟ CompressionNone)
    (errorf "decompressor is not allowed when compression is none" []);;
  fail_if (negb (receiverStepHasNoRedirects step)) (errorf "unsupported decompressor command" []);;
  if DecompressorAllowed (Name step) (Args step) (Compression policy) then Ok tt
  else Err (errorf "unsupported decompressor arguments" []).

(** [src/internal/receiverauthorization/command_authorize.go:310-330 validateZFSReceiveStep]
    The loop over the flags, returning [seenUnmounted]. *)
Fixpoint receive_flags (flags : list string) (policy : commandPolicy) (seenUnmounted : bool)
  : result bool :=
  match flags with
  | [] => Ok seenUnmounted
  | arg :: rest =>
      if arg ≟ "-u" then
        fail_if (negb (ReceiveUnmounted policy))
          (errorf "zfs receive -u is not allowed by policy" []);;
        receive_flags rest policy true
      else if arg ≟ "-s" then
        fail_if (negb (ReceiveResumable policy))
          (errorf "zfs receive -s is not allowed by policy" []);;
        receive_flags rest policy seenUnmounted
      else if arg ≟ "-F" then
        fail_if (negb (AllowRollback policy))
          (errorf "zfs receive rollback is not allowed by policy" []);;
        receive_flags rest policy seenUnmounted
      else Err (errorf "unsupported zfs receive argument %q" [FStr arg])
  end.

(** [src/internal/receiverauthorization/command_authorize.go:295-339 validateZFSReceiveStep] *)
Definition validateZFSReceiveStep (step : receiverCommandStep) (policy : commandPolicy)
  : result unit :=
  let args := Args step in
  if (length args =? 3)%nat && (args !! 0 ≟ Some "receive") && (args !! 1 ≟ Some "-A") then
    let target := List.last args "" in
    fail_if (negb (ValidDatasetName target) || (target ≠? TargetDataset policy))
      (errorf "zfs receive abort target is outside policy" []);;
    fail_if (negb (ReceiveResumable policy))
      (errorf "zfs receive abort requires resumable receive policy" [])
  else
    fail_if ((length args <? 2)%nat || (args !! 0 ≠? Some "receive"))
      (errorf "unsupported zfs receive command" []);;
    let target := List.last args "" in
    fail_if (negb (ValidDatasetName target) || (target ≠? TargetDataset policy))
      (errorf "zfs receive target is outside policy" []);;
    seenUnmounted ← receive_flags (removelast (tail args)) policy false;
    fail_if (negb seenUnmounted && negb (AllowMount policy))
      (errorf "zfs receive mounted receive is not allowed by policy" []);;
    fail_if ((1 <? length args)%nat && (args !! 1 ≟ Some "-A") && StderrToStdout step)
      (errorf "zfs receive -A must not redirect stderr" []).

(** [src/internal/receiverauthorization/command_authorize.go:354-370 snapshotDestroyAllowed] *)
Definition snapshotDestroyAllowed (target : string) (policy : commandPolicy) : bool :=
  let '(dataset, snapshots, ok) := Cut target "@"%char in
  if negb ok || Contains snapshots "@" || (dataset ≠? TargetDataset policy) then false
  else forallb (λ snapshot,
    if negb (ValidSnapshotName snapshot) then false
    else if negb (AllowTargetSnapshotDestroy policy) &&
            (negb (AllowSyncSnapshotDestroy policy) ||
             negb (SnapshotOwnedByIdentifier snapshot (SyncSnapshotIdentifier policy)))
    then false else true) (Split snapshots ","%char).

(** [src/internal/receiverauthorization/command_authorize.go:341-352 zfsDestroyAllowed] *)
Definition zfsDestroyAllowed (args : list string) (policy : commandPolicy) : bool :=
  let dataset_allowed d :=
    AllowDestroy policy && DatasetOrChild d (TargetDataset policy) && negb (Contains d "@") in
  match args with
  | [a0; a1] =>
      if a0 ≟ "destroy" then
        if snapshotDestroyAllowed a1 policy then true else dataset_allowed a1
      else false
  | [a0; a1; a2] => if (a0 ≟ "destroy") && (a1 ≟ "-r") then dataset_allowed a2 else false
  | _ => false
  end.

(** [src/internal/receiverauthorization/command_authorize.go:161-175 zfsGetAllowed] *)
Definition zfsGetAllowed (args : list string) (target : string) : bool :=
  existsb (λ pattern, args ≟ pattern)
    [["get"; "-H"; "name"; target];
     ["get"; "-H"; "receive_resume_token"; target];
     ["get"; "-Hpd"; "1"; "-t"; "snapshot"; "guid,creation"; target];
     ["get"; "-Hpd"; "1"; "type,guid,creation"; target];
     ["get"; "-H"; "-p"; "used"; target]].

(** [src/internal/receiverauthorization/command_authorize.go:138-159 validateZFSStep] *)
Definition validateZFSStep (step : receiverCommandStep) (policy : commandPolicy) : result unit :=
  match Args step with
  | [] => Err (errorf "missing zfs subcommand" [])
  | sub :: _ =>
      if sub ≟ "get" then
        fail_if (negb (receiverStepHasNoRedirects step) ||
                 negb (zfsGetAllowed (Args step) (TargetDataset policy)))
          (errorf "unsupported zfs get command" [])
      else if sub ≟ "receive" then validateZFSReceiveStep step policy
      else if sub ≟ "destroy" then
        fail_if (negb (receiverStepHasNoRedirects step) ||
                 negb (zfsDestroyAllowed (Args step) policy))
          (errorf "unsupported zfs destroy command" [])
      else Err (errorf "unsupported zfs subcommand %q" [FStr sub])
  end.

(** [src/internal/receiverauthorization/command_authorize.go:198-202 zpoolFeatureGetAllowed] *)
Definition zpoolFeatureGetAllowed (step : receiverCommandStep) (policy : commandPolicy) : bool :=
  (Name step ≟ "zpool") && receiverStepHasNoStdoutRedirects step &&
  (Args step ≟ ["get"; "-o"; "value"; "-H"; "feature@extensible_dataset";
                TargetPool (TargetDataset policy)]).

(** [src/internal/receiverauthorization/command_authorize.go:118-136 validateSingleReceiverStep] *)
Definition validateSingleReceiverStep (step : receiverCommandStep) (policy : commandPolicy)
  : result unit :=
  if Name step ≟ "ps" then
    fail_if (negb (receiverStepHasNoRedirects step) || (Args step ≠? ["-Ao"; "args="]))
      (errorf "unsupported ps command" [])
  else if Name step ≟ "zpool" then
    fail_if (negb (zpoolFeatureGetAllowed step policy)) (errorf "unsupported zpool command" [])
  else if Name step ≟ "zfs" then validateZFSStep step policy
  else Err (errorf "unsupported command %q" [FStr (Name step)]).

(** ** Validation of pipelines *)

(** [src/internal/receiverauthorization/command_authorize.go:177-196 validateZpoolFeatureCheck] *)
Definition validateZpoolFeatureCheck (steps : list receiverCommandStep) (policy : commandPolicy)
  : result unit :=
  match steps with
  | [first; second] =>
      fail_if ((Name first ≠? "zpool") || negb (receiverStepHasNoStdoutRedirects first))
        (errorf "unsupported zpool command" []);;
      fail_if (negb (zpoolFeatureGetAllowed first policy))
        (errorf "unsupported zpool get command" []);;
      fail_if ((Name second ≠? "grep") || negb (StdoutNull second) ||
               negb (StderrToStdout second)) (errorf "unsupported grep command" []);;
      fail_if ((Args second ≠? ["(active|enabled)"]) && (Args second ≠? ["\(active\|enabled\)"]))
        (errorf "unsupported grep pattern" [])
  | _ => Err (errorf "not a zpool feature check" [])
  end.

(** [src/internal/receiverauthorization/command_authorize.go:204-241 validateReceivePipeline] *)
Definition validateReceivePipeline (steps : list receiverCommandStep) (policy : commandPolicy)
  : result unit :=
  match last steps with
  | None => Err (errorf "unsupported receive pipeline length" [])
  | Some last =>
      fail_if (3 <? length steps)%nat (errorf "unsupported receive pipeline length" []);;
      fail_if ((Name last ≠? "zfs") || (Args last !! 0 ≠? Some "receive"))
        (errorf "receive pipeline must end with zfs receive" []);;
      match removelast steps with
      | [] => validateZFSReceiveStep last policy
      | [first] =>
          if Name first ≟ "mbuffer" then
            validateMbufferStep first;;
            fail_if (Compression policy ≠? CompressionNone)
              (errorf "receive pipeline is missing decompressor" []);;
            validateZFSReceiveStep last policy
          else
            validateDecompressorStep first policy;;
            validateZFSReceiveStep last policy
      | first :: second :: _ =>
          fail_if (Name first ≠? "mbuffer")
            (errorf "receive pipeline must start with mbuffer" []);;
          validateMbufferStep first;;
          validateDecompressorStep second policy;;
          validateZFSReceiveStep last policy
      end
  end.

(** [src/internal/receiverauthorization/command_authorize.go:111-116 commandLookupAllowed] *)
Definition commandLookupAllowed (name : string) (policy : commandPolicy) : bool :=
  if name ≟ "mbuffer" then true
  else (Compression policy ≠? CompressionNone) && (name ≟ Compression policy) &&
       CompressorAllowed name.

(** [src/internal/receiverauthorization/command_authorize.go:103-109 receiverPlanIsDestroy] *)
Definition receiverPlanIsDestroy (plan : receiverCommandPlan) : bool :=
  match plan with
  | PlanPipeline [step] => (Name step ≟ "zfs") && (Args step !! 0 ≟ Some "destroy")
  | _ => false
  end.

(** ** Authorization *)

(** [src/internal/receiverauthorization/command_authorize.go:36-56 authorizeReceiverCommand]
    The commands a single step can be that run no process; [None] falls out of
    the switch. *)
Definition internal_plan (step : receiverCommandStep) (policy : commandPolicy)
  : option receiverCommandPlan :=
  if Name step ≟ "exit" then
    if receiverStepHasNoRedirects step && ((Args step ≟ []) || (Args step ≟ ["0"]))
    then Some PlanExit else None
  else if Name step ≟ "echo" then
    if receiverStepHasNoRedirects step && (head (Args step) ≟ Some "-n")
    then Some (PlanEcho (tail (Args step))) else None
  else if Name step ≟ "command" then
    match Args step with
    | [flag; name] =>
        if receiverStepHasNoStdoutRedirects step && (flag ≟ "-v") &&
           commandLookupAllowed name policy
        then Some (PlanLookup name) else None
    | _ => None
    end
  else if Name step ≟ "ps" then
    if receiverStepHasNoRedirects step && (Args step ≟ ["-Ao"; "args="])
    then Some PlanPS else None
  else None.

(** [src/internal/receiverauthorization/command_authorize.go:36-71 authorizeReceiverCommand]
    The part of [authorizeReceiverCommand] after parsing. *)
Definition plan_steps (steps : list receiverCommandStep) (policy : commandPolicy)
  : result receiverCommandPlan :=
  match (match steps with [step] => internal_plan step policy | _ => None end) with
  | Some plan => Ok plan
  | None =>
      if is_ok (validateZpoolFeatureCheck steps policy) then Ok (PlanPipeline steps)
      else if is_ok (validateReceivePipeline steps policy) then Ok (PlanPipeline steps)
      else match steps with
      | [step] => validateSingleReceiverStep step policy;; Ok (PlanPipeline steps)
      | _ => Err (errorf "unsupported command pipeline" [])
      end
  end.

(** [src/internal/receiverauthorization/command_authorize.go:20-35 authorizeReceiverCommand]
    A command without [;], from the checks of the policy on. *)
Definition authorize_single (raw : string) (policy : commandPolicy) : result receiverCommandPlan :=
  let policy := with_Compression policy (CompressionDefault (Compression policy)) in
  fail_if (TargetDataset policy ≟ "") (errorf "target dataset is empty" []);;
  fail_if (negb (ValidDatasetName (TargetDataset policy))) (errorf "target dataset is invalid" []);;
  fail_if ((SyncSnapshotIdentifier policy ≠? "") &&
           negb (ValidIdentifier (SyncSnapshotIdentifier policy)))
    (errorf "sync snapshot identifier is invalid" []);;
  tokens ← tokenizeReceiverCommand raw;
  steps ← parseReceiverCommandSteps tokens;
  plan_steps steps policy.

(** [src/internal/receiverauthorization/command_authorize.go:77-97 authorizeReceiverCommandBatch]
    The loop over the parts, for the recursive call [authorize]. *)
Fixpoint batch_loop (authorize : string → result receiverCommandPlan) (parts : list string)
  (batch : list receiverCommandPlan) : result (list receiverCommandPlan) :=
  match parts with
  | [] => Ok batch
  | part :: rest =>
      let part := TrimSpace part in
      if part ≟ "" then
        if bool_decide (rest = []) then batch_loop authorize rest batch
        else Err (errorf "empty command in batch" [])
      else
        plan ← authorize part;
        fail_if (negb (receiverPlanIsDestroy plan))
          (errorf "only zfs destroy commands may be batched" []);;
        let batch := batch ++ [plan] in
        fail_if (maxReceiverDestroyBatchCommand <? length batch)%nat
          (errorf "too many commands in batch" []);;
        batch_loop authorize rest batch
  end.

(** [src/internal/receiverauthorization/command_authorize.go:74-101 authorizeReceiverCommandBatch] *)
Definition authorizeReceiverCommandBatch (authorize : string → result receiverCommandPlan)
  (raw : string) : result receiverCommandPlan :=
  batch ← batch_loop authorize (Split raw ";"%char) [];
  fail_if (bool_decide (batch = [])) (errorf "empty command batch" []);;
  Ok (PlanBatch batch).

(** [src/internal/receiverauthorization/command_authorize.go:12-72 authorizeReceiverCommand]
    The two functions call each other; a batch splits its command at every [;],
    so a depth of two is enough ([authorize_depth]). *)
Fixpoint authorize_fuel (fuel : nat) (raw : string) (policy : commandPolicy)
  : result receiverCommandPlan :=
  match fuel with
  | O => Err (errorf "recursion too deep" [])
  | S fuel' =>
      let raw := TrimSpace raw in
      fail_if (maxReceiverCommandLength <? String.length raw)%nat (errorf "command is too long" []);;
      if Contains raw ";"
      then authorizeReceiverCommandBatch (λ part, authorize_fuel fuel' part policy) raw
      else authorize_single raw policy
  end.

(** [src/internal/receiverauthorization/command_authorize.go:12-20 authorizeReceiverCommand] *)
Definition authorizeReceiverCommand (raw : string) (policy : commandPolicy)
  : result receiverCommandPlan := authorize_fuel 2 raw policy.

(** [src/internal/receiverauthorization/command_exec.go:168-199 allowedCommandPaths] *)
Definition allowedCommandPaths (name : string) : list string :=
  let sbin := λ n : string, ["/usr/sbin/" +:+ n; "/sbin/" +:+ n] in
  let bin := λ n : string, ["/usr/bin/" +:+ n; "/bin/" +:+ n] in
  let localbin := λ n : string, ["/usr/bin/" +:+ n; "/usr/local/bin/" +:+ n] in
  if name ≟ "zfs" then sbin "zfs"
  else if name ≟ "zpool" then sbin "zpool"
  else if name ≟ "grep" then bin "grep"
  else if name ≟ "ps" then bin "ps"
  else if name ≟ "mbuffer" then localbin "mbuffer"
  else if name ≟ "gzip" then bin "gzip"
  else if name ≟ "zcat" then bin "zcat"
  else if name ≟ "pigz" then localbin "pigz"
  else if name ≟ "zstd" then localbin "zstd"
  else if name ≟ "zstdmt" then localbin "zstdmt"
  else if name ≟ "xz" then bin "xz"
  else if name ≟ "lzop" then localbin "lzop"
  else if name ≟ "lz4" then localbin "lz4"
  else [].

(** * What a policy permits

    The specification below does not follow the validators: it lists the command
    lines a policy permits, as inductive rules over argument vectors. *)

Section permitted.
Context (p : commandPolicy).

Definition quiet (st : receiverCommandStep) : Prop :=
  StdoutNull st = false ∧ StderrNull st = false ∧ StderrToStdout st = false.

Definition stdout_kept (st : receiverCommandStep) : Prop :=
  StdoutNull st = false ∧ StderrToStdout st = false.

(** The flags of a receive, each with the permission it takes. *)
Definition receive_flag_ok (flag : string) : Prop :=
  (flag = "-u" ∧ ReceiveUnmounted p = true) ∨ (flag = "-s" ∧ ReceiveResumable p = true) ∨
  (flag = "-F" ∧ AllowRollback p = true).

Inductive receive_ok : list string → Prop :=
  | receive_abort : ReceiveResumable p = true → receive_ok ["receive"; "-A"; TargetDataset p]
  | receive_stream flags :
      Forall receive_flag_ok flags → "-u" ∈ flags ∨ AllowMount p = true →
      receive_ok ("receive" :: flags ++ [TargetDataset p]).

(** A snapshot of the target that may be destroyed. *)
Definition snapshot_ok (s : string) : Prop :=
  ValidSnapshotName s = true ∧
  (AllowTargetSnapshotDestroy p = true ∨
   AllowSyncSnapshotDestroy p = true ∧
   SnapshotOwnedByIdentifier s (SyncSnapshotIdentifier p) = true).

Inductive destroy_ok : list string → Prop :=
  | destroy_snapshots snaps : snaps ≠ [] → Forall snapshot_ok snaps →
      destroy_ok ["destroy"; TargetDataset p +:+ "@" +:+ Join snaps ","]
  | destroy_dataset d : AllowDestroy p = true → DatasetOrChild d (TargetDataset p) = true →
      destroy_ok ["destroy"; d]
  | destroy_recursive d : AllowDestroy p = true → DatasetOrChild d (TargetDataset p) = true →
      destroy_ok ["destroy"; "-r"; d].

Inductive get_ok : list string → Prop :=
  | get_name : get_ok ["get"; "-H"; "name"; TargetDataset p]
  | get_token : get_ok ["get"; "-H"; "receive_resume_token"; TargetDataset p]
  | get_snapshots : get_ok ["get"; "-Hpd"; "1"; "-t"; "snapshot"; "guid,creation"; TargetDataset p]
  | get_guids : get_ok ["get"; "-Hpd"; "1"; "type,guid,creation"; TargetDataset p]
  | get_used : get_ok ["get"; "-H"; "-p"; "used"; TargetDataset p].

Definition value_rune (r : N) : bool :=
  rune_between "0" "9" r || rune_is "k" r || rune_is "K" r || rune_is "m" r || rune_is "M" r ||
  rune_is "g" r || rune_is "G" r || rune_is "%" r.

Definition size_value (v : string) : Prop := v ≠ "" ∧ all_runes value_rune v = true.

Inductive mbuffer_ok : list string → Prop :=
  | mbuffer_nil : mbuffer_ok []
  | mbuffer_quiet f args : f ∈ ["-q"; "-Q"] → mbuffer_ok args → mbuffer_ok (f :: args)
  | mbuffer_value f v args : f ∈ ["-s"; "-m"; "-P"] → size_value v → mbuffer_ok args →
      mbuffer_ok (f :: v :: args)
  | mbuffer_joined f v args : f ∈ ["-s"; "-m"; "-P"] → size_value v → mbuffer_ok args →
      mbuffer_ok ((f +:+ v) :: args).

(** The last test of [validateZFSReceiveStep] is reached by one command line only,
    a receive into a dataset named "-A" (which [ValidDatasetName] accepts). *)
Definition receive_into_dash_A (st : receiverCommandStep) : Prop :=
  Args st = ["receive"; "-A"] ∧ StderrToStdout st = true.
Definition is_receive (st : receiverCommandStep) : Prop :=
  Name st = "zfs" ∧ receive_ok (Args st) ∧ ¬ receive_into_dash_A st.
Definition is_buffer (st : receiverCommandStep) : Prop :=
  Name st = "mbuffer" ∧ quiet st ∧ mbuffer_ok (Args st).
Definition is_decompressor (st : receiverCommandStep) : Prop :=
  quiet st ∧ (Compression p, Name st, Args st) ∈ decompressor_table.
Definition is_feature_get (st : receiverCommandStep) : Prop :=
  Name st = "zpool" ∧ stdout_kept st ∧
  Args st = ["get"; "-o"; "value"; "-H"; "feature@extensible_dataset";
             TargetPool (TargetDataset p)].

(** The processes a policy lets the receiver run. *)
Inductive process_ok : list receiverCommandStep → Prop :=
  | ok_feature st : is_feature_get st → process_ok [st]
  | ok_feature_check st g : is_feature_get st → Name g = "grep" →
      StdoutNull g = true → StderrToStdout g = true →
      Args g = ["(active|enabled)"] ∨ Args g = ["\(active\|enabled\)"] → process_ok [st; g]
  | ok_get st : Name st = "zfs" → quiet st → get_ok (Args st) → process_ok [st]
  | ok_destroy st : Name st = "zfs" → quiet st → destroy_ok (Args st) → process_ok [st]
  | ok_receive r : is_receive r → process_ok [r]
  | ok_buffered b r : is_buffer b → Compression p = CompressionNone → is_receive r →
      process_ok [b; r]
  | ok_decompressed d r : is_decompressor d → is_receive r → process_ok [d; r]
  | ok_buffered_decompressed b d r : is_buffer b → is_decompressor d → is_receive r →
      process_ok [b; d; r].

(** The plans, those that run no process included. *)
Inductive permitted : list receiverCommandStep → receiverCommandPlan → Prop :=
  | permit_exit st : Name st = "exit" → quiet st → Args st = [] ∨ Args st = ["0"] →
      permitted [st] PlanExit
  | permit_echo st args : Name st = "echo" → quiet st → Args st = "-n" :: args →
      permitted [st] (PlanEcho args)
  | permit_lookup st name : Name st = "command" → stdout_kept st → Args st = ["-v"; name] →
      name = "mbuffer" ∨
        (name = Compression p ∧ Compression p ≠ CompressionNone ∧ CompressorAllowed name = true) →
      permitted [st] (PlanLookup name)
  | permit_ps st : Name st = "ps" → quiet st → Args st = ["-Ao"; "args="] →
      permitted [st] PlanPS
  | permit_process steps : process_ok steps → permitted steps (PlanPipeline steps).

End permitted.

(** * Properties *)

(** ** The validators decide the rules *)

Lemma quiet_spec st : receiverStepHasNoRedirects st = true ↔ quiet st.
Proof.
  unfold receiverStepHasNoRedirects, quiet. rewrite !andb_true_iff, !negb_true_iff. tauto.
Qed.

Lemma stdout_kept_spec st : receiverStepHasNoStdoutRedirects st = true ↔ stdout_kept st.
Proof.
  unfold receiverStepHasNoStdoutRedirects, stdout_kept. by rewrite !andb_true_iff, !negb_true_iff.
Qed.

Lemma is_ok_unit (r : result unit) : is_ok r = true ↔ r = Ok tt.
Proof. destruct r as [[]|]; simpl; naive_solver. Qed.

Lemma safeMbufferValue_spec v : safeMbufferValue v = true ↔ size_value v.
Proof.
  unfold safeMbufferValue, size_value, value_rune. case_bool_decide; naive_solver.
Qed.

Lemma joined_flag arg :
  HasPrefix arg "-s" || HasPrefix arg "-m" || HasPrefix arg "-P" = true ↔
  ∃ f, f ∈ ["-s"; "-m"; "-P"] ∧ arg = f +:+ str_drop 2 arg.
Proof.
  rewrite !orb_true_iff, !HasPrefix_spec. split.
  - intros [[[t ->]|[t ->]]|[t ->]]; eexists; (split; [|reflexivity]); set_solver.
  - intros (f & Hf & ->). rewrite !elem_of_cons, elem_of_nil in Hf.
    destruct Hf as [->|[->|[->|[]]]]; eauto.
Qed.

Lemma mbuffer_args_sound args : mbuffer_args args = Ok tt → mbuffer_ok args.
Proof.
  remember (length args) as n eqn:Hn. assert (length args ≤ n) as H by lia. clear Hn.
  revert args H. induction n as [|n IH]; intros [|a args] H; simpl in H;
    [constructor|lia|constructor|]. cbn [mbuffer_args].
  destruct ((a ≟ "-q") || (a ≟ "-Q")) eqn:Eq.
  { rewrite orb_true_iff, !bool_decide_eq_true in Eq. intros E.
    apply mbuffer_quiet; [set_solver|]. apply IH; [lia|done]. }
  destruct ((a ≟ "-s") || (a ≟ "-m") || (a ≟ "-P")) eqn:Es.
  { rewrite !orb_true_iff, !bool_decide_eq_true in Es. destruct args as [|v args]; [done|].
    destruct (safeMbufferValue v) eqn:Ev; [|done]. intros E. simpl in H.
    apply mbuffer_value; [set_solver|by apply safeMbufferValue_spec|]. apply IH; [lia|done]. }
  case_match eqn:Ej; [|done]. rewrite andb_true_iff, joined_flag in Ej.
  destruct Ej as [(f & Hf & Ea) Ev%safeMbufferValue_spec]. intros E. rewrite Ea.
  apply mbuffer_joined; [done|done|]. apply IH; [lia|done].
Qed.

Lemma mbuffer_args_complete args : mbuffer_ok args → mbuffer_args args = Ok tt.
Proof.
  induction 1 as [|f args Hf _ IH|f v args Hf Hv%safeMbufferValue_spec _ IH|f v args Hf Hv _ IH].
  - done.
  - cbn [mbuffer_args]. rewrite !elem_of_cons, elem_of_nil in Hf.
    by destruct Hf as [->|[->|[]]].
  - cbn [mbuffer_args]. rewrite Hv. rewrite !elem_of_cons, elem_of_nil in Hf.
    by destruct Hf as [->|[->|[->|[]]]].
  - cbn [mbuffer_args]. pose proof Hv as [Hne _]. apply safeMbufferValue_spec in Hv.
    assert (str_drop 2 (f +:+ v) = v ∧ ∀ g, g ∈ ["-q"; "-Q"; "-s"; "-m"; "-P"] → f +:+ v ≠ g)
      as [Hd Hg].
    { rewrite !elem_of_cons, elem_of_nil in Hf. split.
      - by destruct Hf as [->|[->|[->|[]]]].
      - intros g. rewrite !elem_of_cons, elem_of_nil. intros Hg E. apply Hne.
        destruct Hf as [->|[->|[->|[]]]]; destruct Hg as [->|[->|[->|[->|[->|[]]]]]];
          try discriminate; by injection E. }
    rewrite !bool_decide_false by (apply Hg; set_solver). cbn [orb].
    rewrite Hd, Hv, andb_true_r, (proj2 (joined_flag (f +:+ v))); [done|].
    exists f. by rewrite Hd.
Qed.

Section validators.
Context (p : commandPolicy) (Htarget : ValidDatasetName (TargetDataset p) = true).

Lemma validateMbufferStep_Ok st : Name st = "mbuffer" →
  validateMbufferStep st = Ok tt ↔ is_buffer st.
Proof.
  intros Hn. unfold validateMbufferStep, is_buffer. rewrite guard_Ok, negb_false_iff, quiet_spec.
  split; intros H; go_destruct; split_and?; auto using mbuffer_args_sound, mbuffer_args_complete.
Qed.

Lemma validateDecompressorStep_Ok st : validateDecompressorStep st p = Ok tt ↔ is_decompressor p st.
Proof.
  unfold validateDecompressorStep, is_decompressor.
  rewrite <- (DecompressorAllowed_spec (Name st) (Args st) (Compression p)), <- quiet_spec.
  assert (Compression p = CompressionNone →
    DecompressorAllowed (Name st) (Args st) (Compression p) = false) as Hnone by by intros ->.
  case_bool_decide as Ec.
  - rewrite Hnone by done. simpl. naive_solver.
  - destruct (receiverStepHasNoRedirects st), (DecompressorAllowed _ _ _); simpl; naive_solver.
Qed.

Lemma decompressor_name st : is_decompressor p st → Name st ≠ "mbuffer".
Proof.
  intros [_ H] E. rewrite E in H. unfold decompressor_table in H.
  rewrite !elem_of_cons, elem_of_nil in H. naive_solver.
Qed.

Lemma receive_flags_Ok flags seen seen' :
  receive_flags flags p seen = Ok seen' ↔
  Forall (receive_flag_ok p) flags ∧ seen' = seen || bool_decide ("-u" ∈ flags).
Proof.
  revert seen. induction flags as [|f flags IH]; intros seen; cbn [receive_flags].
  { rewrite bool_decide_false by (by apply not_elem_of_nil). rewrite orb_false_r.
    split; [intros [= ->]; by split|by intros [_ ->]]. }
  rewrite Forall_cons. unfold receive_flag_ok at 1.
  assert (∀ x : string, x ≠ "-u" → bool_decide ("-u" ∈ x :: flags) = bool_decide ("-u" ∈ flags)) as Hd.
  { intros x Hx. apply bool_decide_ext. rewrite elem_of_cons. naive_solver. }
  assert (bool_decide ("-u" ∈ "-u" :: flags) = true) as Hu by (apply bool_decide_eq_true; by left).
  destruct (decide (f = "-u")) as [->|Hu'].
  { rewrite Hu, orb_true_r, (bool_decide_true ("-u" = "-u")) by done.
    destruct (ReceiveUnmounted p); simpl; [|naive_solver]. rewrite IH. naive_solver. }
  rewrite Hd, (bool_decide_false (f = "-u")) by done.
  destruct (decide (f = "-s")) as [->|Hs'].
  { rewrite (bool_decide_true ("-s" = "-s")) by done.
    destruct (ReceiveResumable p); simpl; [|naive_solver]. rewrite IH. naive_solver. }
  rewrite (bool_decide_false (f = "-s")) by done.
  destruct (decide (f = "-F")) as [->|HF'].
  { rewrite (bool_decide_true ("-F" = "-F")) by done.
    destruct (AllowRollback p); simpl; [|naive_solver]. rewrite IH. naive_solver. }
  rewrite (bool_decide_false (f = "-F")) by done. naive_solver.
Qed.

(** The shape every receive has, whatever its flags. *)
Lemma receive_ok_shape args : receive_ok p args → ∃ flags t, args = "receive" :: flags ++ [t].
Proof. destruct 1 as [_|flags]; [by exists ["-A"], (TargetDataset p)|eauto]. Qed.

Lemma receive_ok_flags flags t :
  receive_ok p ("receive" :: flags ++ [t]) ↔
  t = TargetDataset p ∧
  ((flags = ["-A"] ∧ ReceiveResumable p = true) ∨
   (Forall (receive_flag_ok p) flags ∧ ("-u" ∈ flags ∨ AllowMount p = true))).
Proof.
  split.
  - inversion 1 as [Hr E|flags' Hf Hu E].
    + change ["-A"; TargetDataset p] with (["-A"] ++ [TargetDataset p]) in E.
      apply app_inj_tail in E as [<- <-]. eauto.
    + apply app_inj_tail in E as [-> ->]. eauto.
  - intros [-> [[-> Hr]|[Hf Hu]]]; by constructor.
Qed.

Lemma abort_flags_bad : ¬ Forall (receive_flag_ok p) ["-A"].
Proof. rewrite Forall_singleton. unfold receive_flag_ok. naive_solver. Qed.

Lemma validateZFSReceiveStep_shape st flags t :
  Args st = "receive" :: flags ++ [t] →
  validateZFSReceiveStep st p = Ok tt ↔ receive_ok p (Args st) ∧ ¬ receive_into_dash_A st.
Proof.
  intros E. unfold validateZFSReceiveStep, receive_into_dash_A. rewrite E, receive_ok_flags.
  assert (List.last ("receive" :: flags ++ [t]) "" = t) as ->.
  { change ("receive" :: flags ++ [t]) with (("receive" :: flags) ++ [t]). apply List.last_last. }
  cbn [tail]. rewrite removelast_last.
  assert (negb (ValidDatasetName t) || (t ≠? TargetDataset p) = false ↔ t = TargetDataset p) as Ht.
  { rewrite orb_false_iff, !negb_false_iff, bool_decide_eq_true. naive_solver. }
  destruct (decide (flags = ["-A"])) as [->|Hne].
  - simpl. rewrite guard_Ok, fail_if_Ok, Ht, negb_false_iff. pose proof abort_flags_bad. naive_solver.
  - replace ((length ("receive" :: flags ++ [t]) =? 3)%nat && _ && _) with false.
    2: { symmetry. destruct flags as [|f [|? ?]]; simpl; [done| |by rewrite length_app, Nat.add_comm].
         rewrite bool_decide_false; [done|]. intros [= ->]. done. }
    replace ((length ("receive" :: flags ++ [t]) <? 2)%nat || _) with false.
    2: { symmetry. rewrite bool_decide_true by done. simpl. rewrite length_app. simpl.
         by rewrite Nat.add_comm. }
    assert (Forall (receive_flag_ok p) flags →
      ((1 <? length ("receive" :: flags ++ [t]))%nat && (("receive" :: flags ++ [t]) !! 1 ≟ Some "-A") &&
        StderrToStdout st = false ↔
       ¬ ("receive" :: flags ++ [t] = ["receive"; "-A"] ∧ StderrToStdout st = true))) as Hdash.
    { intros Hf. destruct flags as [|f flags].
      - rewrite andb_false_iff. destruct (StderrToStdout st); [|naive_solver].
        destruct (decide (t = "-A")) as [->|Ht']; [by split; [intros [?|?]|naive_solver]|].
        rewrite bool_decide_false by (simpl; congruence). rewrite andb_false_r. naive_solver.
      - apply Forall_cons in Hf as [Hf _]. rewrite bool_decide_false.
        2: { intros [= ->]. unfold receive_flag_ok in Hf. naive_solver. }
        rewrite andb_false_r. split; [|done]. intros _ [[= _ E'] _]. by destruct flags. }
    rewrite guard_Ok, guard_Ok, Ht, bind_Ok. setoid_rewrite receive_flags_Ok.
    setoid_rewrite guard_Ok. setoid_rewrite fail_if_Ok. simpl orb. split.
    + intros (_ & -> & seen & [Hf ->] & Hu & Hd). rewrite Hdash in Hd by done.
      split; [|done]. split; [done|]. right. split; [done|].
      rewrite andb_false_iff, !negb_false_iff, bool_decide_eq_true in Hu. done.
    + intros [[-> [[-> _]|[Hf Hu]]] Hd]; [done|]. split; [done|]. split; [done|].
      eexists. split; [done|]. rewrite andb_false_iff, !negb_false_iff, bool_decide_eq_true.
      by rewrite Hdash.
Qed.

Lemma validateZFSReceiveStep_Ok st :
  validateZFSReceiveStep st p = Ok tt ↔ receive_ok p (Args st) ∧ ¬ receive_into_dash_A st.
Proof.
  split; intros H.
  - assert (∃ flags t, Args st = "receive" :: flags ++ [t]) as (flags & t & E).
    { unfold validateZFSReceiveStep in H. destruct (Args st) as [|a [|b l]]; [done| |].
      { simpl in H. by destruct (a ≠? "receive"). }
      assert (a = "receive") as ->.
      { apply dec_stable. intros Hne. revert H.
        rewrite !(bool_decide_false (Some a = Some "receive")) by congruence.
        by rewrite andb_false_r. }
      destruct (exists_last (l := b :: l)) as (flags & t & ->); [done|eauto]. }
    by apply (validateZFSReceiveStep_shape st flags t).
  - destruct (receive_ok_shape _ (proj1 H)) as (flags & t & E).
    by apply (validateZFSReceiveStep_shape st flags t).
Qed.

Lemma has_byte_Join c ps sep :
  has_byte c sep = false → Forall (λ q, has_byte c q = false) ps → has_byte c (Join ps sep) = false.
Proof.
  intros Hs. induction 1 as [|q ps Hq Hps IH]; [done|]. destruct (decide (ps = [])) as [->|Hne]; [done|].
  by rewrite Join_cons, !has_byte_app, Hq, Hs, IH by done.
Qed.

Lemma snapshot_ok_bool s :
  (if negb (ValidSnapshotName s) then false
   else if negb (AllowTargetSnapshotDestroy p) &&
           (negb (AllowSyncSnapshotDestroy p) ||
            negb (SnapshotOwnedByIdentifier s (SyncSnapshotIdentifier p)))
   then false else true) = true ↔ snapshot_ok p s.
Proof.
  unfold snapshot_ok. destruct (ValidSnapshotName s), (AllowTargetSnapshotDestroy p),
    (AllowSyncSnapshotDestroy p), (SnapshotOwnedByIdentifier s _); simpl; naive_solver.
Qed.

Lemma snapshotDestroyAllowed_spec t :
  snapshotDestroyAllowed t p = true ↔
  ∃ snaps, snaps ≠ [] ∧ Forall (snapshot_ok p) snaps ∧
           t = TargetDataset p +:+ "@" +:+ Join snaps ",".
Proof.
  unfold snapshotDestroyAllowed. destruct (Cut t "@"%char) as [[d ss] ok] eqn:E. split.
  - case_match eqn:Hc; [done|]. rewrite !orb_false_iff, !negb_false_iff, bool_decide_eq_true in Hc.
    destruct Hc as [[-> _] ->]. apply Cut_found in E as [-> _]. intros H.
    exists (Split ss ","%char). split; [apply Split_nonempty|].
    change "," with (str1 ","%char). rewrite Join_Split. split; [|done].
    apply Forall_forall. intros s Hs. apply snapshot_ok_bool. exact (forallb_elem _ _ _ H Hs).
  - intros (snaps & Hne & Hs & ->).
    assert (∀ c, (byte_val c <? 128)%N = true → validSnapshotRune (byte_val c) = false →
      Forall (λ q, has_byte c q = false) snaps) as Hno.
    { intros c Hc Hv. eapply Forall_impl; [exact Hs|]. intros s [Hvs _].
      by apply ValidSnapshotName_no_byte. }
    assert (Cut (TargetDataset p +:+ "@" +:+ Join snaps ",") "@"%char =
      (TargetDataset p, Join snaps ",", true)) as E'.
    { apply Cut_found. split; [done|]. by apply valid_dataset_no_forbidden. }
    rewrite E' in E. simplify_eq. change "@" with (str1 "@"%char).
    rewrite Contains_byte, has_byte_Join by (try done; by apply Hno).
    rewrite bool_decide_true by done. cbn [orb negb].
    change "," with (str1 ","%char). rewrite Split_Join by (try done; by apply Hno).
    apply forallb_intro. intros s Hin. apply snapshot_ok_bool. rewrite Forall_forall in Hs. auto.
Qed.

Lemma dataset_destroy_spec d :
  AllowDestroy p && DatasetOrChild d (TargetDataset p) && negb (Contains d "@") = true ↔
  AllowDestroy p = true ∧ DatasetOrChild d (TargetDataset p) = true.
Proof.
  rewrite !andb_true_iff. split; [tauto|]. intros [Ha Hd]. split; [done|].
  apply DatasetOrChild_components in Hd as (Hv & _). change "@" with (str1 "@"%char).
  by rewrite Contains_byte, valid_dataset_no_forbidden.
Qed.

Lemma zfsDestroyAllowed_spec args : zfsDestroyAllowed args p = true ↔ destroy_ok p args.
Proof.
  unfold zfsDestroyAllowed. split.
  - destruct args as [|a0 [|a1 [|a2 [|? ?]]]]; try done.
    + case_bool_decide; [subst|done]. destruct (snapshotDestroyAllowed a1 p) eqn:E.
      * apply snapshotDestroyAllowed_spec in E as (snaps & ? & ? & ->). by constructor.
      * rewrite dataset_destroy_spec. intros []. by constructor.
    + case_match eqn:E; [|done]. rewrite andb_true_iff, !bool_decide_eq_true in E.
      destruct E as [-> ->]. rewrite dataset_destroy_spec. intros []. by constructor.
  - destruct 1 as [snaps Hne Hs|d Ha Hd|d Ha Hd].
    + rewrite (proj2 (snapshotDestroyAllowed_spec _)); [done|eauto].
    + case_match; [|done]. case_match; [done|]. by apply dataset_destroy_spec.
    + rewrite !bool_decide_true by done. by apply dataset_destroy_spec.
Qed.

Lemma zfsGetAllowed_spec args : zfsGetAllowed args (TargetDataset p) = true ↔ get_ok p args.
Proof.
  unfold zfsGetAllowed. rewrite existsb_elem. setoid_rewrite bool_decide_eq_true.
  setoid_rewrite elem_of_cons. split.
  - intros (x & Hx & ->). rewrite !elem_of_cons, elem_of_nil in Hx.
    destruct Hx as [->|[->|[->|[->|[->|[]]]]]]; constructor.
  - destruct 1; eexists; (split; [|done]); rewrite ?elem_of_cons; tauto.
Qed.

Lemma zpoolFeatureGetAllowed_spec st : zpoolFeatureGetAllowed st p = true ↔ is_feature_get p st.
Proof.
  unfold zpoolFeatureGetAllowed, is_feature_get.
  rewrite !andb_true_iff, !bool_decide_eq_true, stdout_kept_spec. tauto.
Qed.

Lemma validateZpoolFeatureCheck_Ok st g :
  validateZpoolFeatureCheck [st; g] p = Ok tt ↔
  is_feature_get p st ∧ Name g = "grep" ∧ StdoutNull g = true ∧ StderrToStdout g = true ∧
  (Args g = ["(active|enabled)"] ∨ Args g = ["\(active\|enabled\)"]).
Proof.
  unfold validateZpoolFeatureCheck. rewrite !guard_Ok, fail_if_Ok.
  rewrite andb_false_iff, !orb_false_iff, !negb_false_iff, !bool_decide_eq_true,
    zpoolFeatureGetAllowed_spec.
  unfold is_feature_get. rewrite stdout_kept_spec. tauto.
Qed.

(** The pipelines that end with a receive. *)
Definition receive_pipeline (steps : list receiverCommandStep) : Prop :=
  match steps with
  | [r] => is_receive p r
  | [f; r] =>
      (is_buffer f ∧ Compression p = CompressionNone ∨ is_decompressor p f) ∧ is_receive p r
  | [b; d; r] => is_buffer b ∧ is_decompressor p d ∧ is_receive p r
  | _ => False
  end.

Lemma receive_guard r :
  is_receive p r ↔
  ((Name r ≠? "zfs") || (Args r !! 0 ≠? Some "receive") = false ∧
   validateZFSReceiveStep r p = Ok tt).
Proof.
  rewrite validateZFSReceiveStep_Ok, orb_false_iff, !negb_false_iff, !bool_decide_eq_true.
  unfold is_receive. split; [|tauto]. intros (? & Hr & ?). split_and!; try done.
  by destruct (receive_ok_shape _ Hr) as (? & ? & ->).
Qed.

Lemma validateReceivePipeline_Ok steps :
  validateReceivePipeline steps p = Ok tt ↔ receive_pipeline steps.
Proof.
  unfold validateReceivePipeline, receive_pipeline.
  destruct steps as [|a [|b [|c [|d rest]]]]; [done| | | |]; cbn [last removelast]; rewrite ?guard_Ok.
  - rewrite receive_guard. simpl. tauto.
  - rewrite receive_guard. destruct (decide (Name a = "mbuffer")) as [Ha|Ha].
    + rewrite (bool_decide_true (Name a = _)) by done. rewrite seq_Ok, guard_Ok.
      rewrite validateMbufferStep_Ok, negb_false_iff, bool_decide_eq_true by done.
      pose proof (decompressor_name a). simpl. naive_solver.
    + rewrite (bool_decide_false (Name a = _)) by done. rewrite seq_Ok, validateDecompressorStep_Ok.
      assert (¬ is_buffer a) by by intros []. simpl. naive_solver.
  - rewrite receive_guard, !seq_Ok, negb_false_iff, bool_decide_eq_true, validateDecompressorStep_Ok.
    split.
    + intros (_ & ? & Ha & Hb & ?). rewrite validateMbufferStep_Ok in Hb by done. tauto.
    + intros (Hb & Hd & ? & ?). pose proof Hb as [Ha _].
      rewrite validateMbufferStep_Ok by done. simpl. tauto.
  - assert ((3 <? length (a :: b :: c :: d :: rest))%nat = true) as Hl by (apply Nat.ltb_lt; simpl; lia).
    split; [|done]. case_match; [|done]. rewrite Hl. done.
Qed.

Lemma validateZFSStep_Ok st :
  validateZFSStep st p = Ok tt ↔
  (quiet st ∧ get_ok p (Args st)) ∨ (receive_ok p (Args st) ∧ ¬ receive_into_dash_A st) ∨
  (quiet st ∧ destroy_ok p (Args st)).
Proof.
  assert (∀ a, get_ok p a → head a = Some "get") as Hg by by destruct 1.
  assert (∀ a, receive_ok p a → head a = Some "receive") as Hr by by destruct 1.
  assert (∀ a, destroy_ok p a → head a = Some "destroy") as Hd by by destruct 1.
  specialize (Hg (Args st)). specialize (Hr (Args st)). specialize (Hd (Args st)).
  unfold validateZFSStep. destruct (Args st) as [|sub args] eqn:E; [naive_solver|].
  rewrite <- E in *. repeat case_bool_decide; subst; rewrite ?fail_if_Ok, ?orb_false_iff, ?negb_false_iff,
    ?quiet_spec, ?zfsGetAllowed_spec, ?zfsDestroyAllowed_spec, ?validateZFSReceiveStep_Ok;
    rewrite E in *; simpl in *; naive_solver.
Qed.

(** Single steps that run a process. *)
Lemma process_single st :
  process_ok p [st] ↔
  is_feature_get p st ∨
  (Name st = "zfs" ∧ ((quiet st ∧ get_ok p (Args st)) ∨
    (receive_ok p (Args st) ∧ ¬ receive_into_dash_A st) ∨ (quiet st ∧ destroy_ok p (Args st)))).
Proof.
  split.
  - inversion 1; subst; unfold is_receive in *; tauto.
  - intros [H|(Hn & [[]|[[]|[]]])]; [by apply ok_feature|by apply ok_get| |by apply ok_destroy].
    by apply ok_receive.
Qed.

Lemma validateSingleReceiverStep_Ok st :
  validateSingleReceiverStep st p = Ok tt ↔
  (Name st = "ps" ∧ quiet st ∧ Args st = ["-Ao"; "args="]) ∨ process_ok p [st].
Proof.
  rewrite process_single. unfold validateSingleReceiverStep.
  test (Name st = "ps") as [?|?]; [|test (Name st = "zpool") as [?|?];
    [|test (Name st = "zfs") as [?|?]]].
  - rewrite fail_if_Ok, orb_false_iff, !negb_false_iff, quiet_spec, bool_decide_eq_true.
    unfold is_feature_get. split; [tauto|]. intros [|[[]|[]]]; [tauto|congruence|congruence].
  - rewrite fail_if_Ok, negb_false_iff, zpoolFeatureGetAllowed_spec. unfold is_feature_get.
    split; [tauto|]. intros [[]|[|[]]]; [congruence|tauto|congruence].
  - rewrite validateZFSStep_Ok. unfold is_feature_get. split; [tauto|].
    intros [[]|[[]|[]]]; [congruence|congruence|tauto].
  - unfold is_feature_get. split; [done|]. intros [[]|[[]|[]]]; congruence.
Qed.

(** Plans that start no process. *)
Inductive internal : receiverCommandStep → receiverCommandPlan → Prop :=
  | internal_exit st : Name st = "exit" → quiet st → Args st = [] ∨ Args st = ["0"] →
      internal st PlanExit
  | internal_echo st args : Name st = "echo" → quiet st → Args st = "-n" :: args →
      internal st (PlanEcho args)
  | internal_lookup st name : Name st = "command" → stdout_kept st → Args st = ["-v"; name] →
      name = "mbuffer" ∨
        (name = Compression p ∧ Compression p ≠ CompressionNone ∧ CompressorAllowed name = true) →
      internal st (PlanLookup name)
  | internal_ps st : Name st = "ps" → quiet st → Args st = ["-Ao"; "args="] →
      internal st PlanPS.

Lemma permitted_cases steps plan :
  permitted p steps plan ↔
  (∃ st, steps = [st] ∧ internal st plan) ∨ (process_ok p steps ∧ plan = PlanPipeline steps).
Proof.
  split.
  - destruct 1; first [by right|left; eexists; split; [done|by econstructor]].
  - intros [(st & -> & H)|[H ->]]; [|by constructor]. destruct H; by econstructor.
Qed.

Lemma commandLookupAllowed_spec name :
  commandLookupAllowed name p = true ↔
  name = "mbuffer" ∨
    (name = Compression p ∧ Compression p ≠ CompressionNone ∧ CompressorAllowed name = true).
Proof.
  unfold commandLookupAllowed. case_bool_decide; [tauto|].
  rewrite !andb_true_iff, negb_true_iff, bool_decide_eq_false, bool_decide_eq_true. tauto.
Qed.

Lemma internal_plan_spec st plan : internal_plan st p = Some plan ↔ internal st plan.
Proof.
  split.
  - unfold internal_plan. test (Name st = "exit") as [?|?]; [|test (Name st = "echo") as [?|?];
      [|test (Name st = "command") as [?|?]; [|test (Name st = "ps") as [?|?]]]].
    + case_match eqn:E; [|done]. intros [= <-].
      rewrite andb_true_iff, orb_true_iff, !bool_decide_eq_true, quiet_spec in E.
      destruct E. by apply internal_exit.
    + case_match eqn:E; [|done]. intros [= <-].
      rewrite andb_true_iff, bool_decide_eq_true, quiet_spec in E. destruct E as [Hq E].
      apply internal_echo; [done|done|]. destruct (Args st); simplify_eq/=; done.
    + destruct (Args st) as [|f [|name [|? ?]]] eqn:Ea; try done.
      case_match eqn:E; [|done]. intros [= <-].
      rewrite !andb_true_iff, bool_decide_eq_true, stdout_kept_spec, commandLookupAllowed_spec in E.
      destruct E as [[Hk ->] Hl]. by apply internal_lookup.
    + case_match eqn:E; [|done]. intros [= <-].
      rewrite andb_true_iff, bool_decide_eq_true, quiet_spec in E. destruct E.
      by apply internal_ps.
    + done.
  - unfold internal_plan. destruct 1 as [st Hn Hq Ha|st args Hn Hq Ha|st name Hn Hk Ha Hl|st Hn Hq Ha];
      rewrite Hn; simpl; rewrite ?Ha.
    + rewrite (proj2 (quiet_spec st)) by done. by destruct Ha as [->| ->].
    + rewrite (proj2 (quiet_spec st)) by done. done.
    + rewrite (proj2 (stdout_kept_spec st)), (proj2 (commandLookupAllowed_spec name)) by done. done.
    + rewrite (proj2 (quiet_spec st)) by done. done.
Qed.

Lemma internal_no_process st plan : internal st plan → ¬ process_ok p [st].
Proof.
  rewrite process_single. unfold is_feature_get.
  destruct 1; intros [[]|[]]; congruence.
Qed.

(** The receive pipelines and the feature check are processes, and the longer
    processes are one of the two. *)
Lemma receive_pipeline_process steps : receive_pipeline steps → process_ok p steps.
Proof.
  unfold receive_pipeline. destruct steps as [|a [|b [|c [|d rest]]]]; try done.
  - intros H. by apply ok_receive.
  - intros [[[]|] ?]; [by apply ok_buffered|by apply ok_decompressed].
  - intros (?&?&?). by apply ok_buffered_decompressed.
Qed.

Lemma process_long st g rest :
  process_ok p (st :: g :: rest) →
  validateZpoolFeatureCheck (st :: g :: rest) p = Ok tt ∨ receive_pipeline (st :: g :: rest).
Proof.
  inversion 1; subst; simpl; try tauto.
  left. apply validateZpoolFeatureCheck_Ok. tauto.
Qed.

Lemma plan_steps_spec steps plan : plan_steps steps p = Ok plan ↔ permitted p steps plan.
Proof.
  rewrite permitted_cases. unfold plan_steps. destruct steps as [|st [|g rest]].
  - split; [done|]. intros [(? & ? & _)|[H _]]; [done|inversion H].
  - destruct (internal_plan st p) as [plan'|] eqn:Ei.
    + apply internal_plan_spec in Ei. pose proof (internal_no_process _ _ Ei). split.
      * intros [= ->]. eauto.
      * intros [(st' & [= <-] & Hi)|[]]; [|done]. apply internal_plan_spec in Ei, Hi. congruence.
    + assert (∀ q, ¬ internal st q) as Hno by (intros q; rewrite <- internal_plan_spec; congruence).
      cbn [validateZpoolFeatureCheck is_ok]. case_match eqn:Er.
      * rewrite is_ok_unit, validateReceivePipeline_Ok in Er.
        pose proof (receive_pipeline_process _ Er). split; [intros [= <-]; auto|].
        intros [(? & [= <-] & ?)|[_ ->]]; [naive_solver|done].
      * rewrite seq_Ok, validateSingleReceiverStep_Ok. split.
        -- intros [[(?&?&?)|?] [= <-]]; [|auto]. destruct (Hno PlanPS). by constructor.
        -- intros [(? & [= <-] & ?)|[? ->]]; [naive_solver|]. auto.
  - split.
    + case_match eqn:Ef.
      * intros [= <-]. right. split; [|done]. apply is_ok_unit in Ef.
        destruct rest; [|done]. apply validateZpoolFeatureCheck_Ok in Ef. destruct Ef as (?&?&?&?&?).
        by apply ok_feature_check.
      * case_match eqn:Er; [|done]. intros [= <-]. right. split; [|done].
        apply is_ok_unit, validateReceivePipeline_Ok in Er. by apply receive_pipeline_process.
    + intros [(? & ? & _)|[H ->]]; [done|]. apply process_long in H as [H|H].
      * by rewrite H.
      * apply validateReceivePipeline_Ok in H. rewrite H. by case_match.
Qed.

End validators.

(** ** One command *)

(** A policy the authorizer accepts at all. *)
Definition policy_ok (p : commandPolicy) : Prop :=
  ValidDatasetName (TargetDataset p) = true ∧
  (SyncSnapshotIdentifier p = "" ∨ ValidIdentifier (SyncSnapshotIdentifier p) = true).

(** The policy with its compression resolved. *)
Definition resolved (p : commandPolicy) : commandPolicy :=
  with_Compression p (CompressionDefault (Compression p)).

(** A command without [;] that the policy permits, with its plan. *)
Definition authorized_one (p : commandPolicy) (raw : string) (plan : receiverCommandPlan) : Prop :=
  policy_ok p ∧ ∃ tokens steps,
    tokenizeReceiverCommand raw = Ok tokens ∧ parseReceiverCommandSteps tokens = Ok steps ∧
    permitted (resolved p) steps plan.

Lemma authorize_single_Ok raw p plan :
  authorize_single raw p = Ok plan ↔ authorized_one p raw plan.
Proof.
  unfold authorize_single, authorized_one, policy_ok. fold (resolved p). cbv zeta.
  change (TargetDataset (resolved p)) with (TargetDataset p).
  change (SyncSnapshotIdentifier (resolved p)) with (SyncSnapshotIdentifier p).
  rewrite !guard_Ok.
  rewrite andb_false_iff, !negb_false_iff, bool_decide_eq_true, bool_decide_eq_false.
  split.
  - intros (_ & Ht & Hi & H). apply bind_Ok in H as (tokens & Htk & H).
    apply bind_Ok in H as (steps & Hst & H). split; [done|]. exists tokens, steps.
    split_and!; [done|done|]. exact (proj1 (plan_steps_spec (resolved p) Ht _ _) H).
  - intros ((Ht & Hi) & tokens & steps & Htk & Hst & Hp). split_and!; try done.
    { intros E. by rewrite E in Ht. }
    eapply bind_Ok_intro; [exact Htk|]. eapply bind_Ok_intro; [exact Hst|].
    exact (proj2 (plan_steps_spec (resolved p) Ht _ _) Hp).
Qed.

(** ** Batches *)

Lemma Contains_semicolon s : Contains s ";" = has_byte ";" s.
Proof. change ";" with (str1 ";"%char). apply Contains_byte. Qed.

Lemma authorize_fuel_S fuel raw p :
  authorize_fuel (S fuel) raw p =
  (fail_if (maxReceiverCommandLength <? String.length (TrimSpace raw))%nat
     (errorf "command is too long" []);;
   if Contains (TrimSpace raw) ";"
   then authorizeReceiverCommandBatch (λ part, authorize_fuel fuel part p) (TrimSpace raw)
   else authorize_single (TrimSpace raw) p).
Proof. done. Qed.

Lemma authorize_fuel_one fuel raw p :
  has_byte ";" raw = false →
  authorize_fuel (S fuel) raw p =
  (fail_if (maxReceiverCommandLength <? String.length (TrimSpace raw))%nat
     (errorf "command is too long" []);; authorize_single (TrimSpace raw) p).
Proof.
  intros H. cbn [authorize_fuel]. by rewrite Contains_semicolon, has_byte_TrimSpace.
Qed.

Lemma batch_loop_ext f g parts batch :
  (∀ part, part ∈ parts → f (TrimSpace part) = g (TrimSpace part)) →
  batch_loop f parts batch = batch_loop g parts batch.
Proof.
  revert batch. induction parts as [|part parts IH]; intros batch H; [done|]. cbn [batch_loop].
  rewrite (H part) by (by left). case_bool_decide.
  { case_match; [|done]. apply IH. intros. apply H. by right. }
  destruct (g (TrimSpace part)) as [plan|]; [|done]. unfold mbind, result_bind.
  destruct (fail_if (negb _) _); [|done]. destruct (fail_if (_ <? _)%nat _); [|done].
  apply IH. intros. apply H. by right.
Qed.

(** The commands of a batch: the trimmed parts, without an empty last one. *)
Definition batch_commands (parts : list string) : list string :=
  let commands := TrimSpace <$> parts in
  if decide (last commands = Some "") then removelast commands else commands.

Lemma batch_commands_cons part rest :
  batch_commands (part :: rest) =
  if decide (rest = []) then (if decide (TrimSpace part = "") then [] else [TrimSpace part])
  else TrimSpace part :: batch_commands rest.
Proof.
  unfold batch_commands. cbv zeta. destruct rest as [|q rest].
  - simpl. repeat case_decide; congruence.
  - rewrite fmap_cons. rewrite (decide_False (P := q :: rest = [])) by done.
    assert (last (TrimSpace part :: (TrimSpace <$> q :: rest)) = last (TrimSpace <$> q :: rest))
      as -> by done.
    by destruct (decide (last (TrimSpace <$> q :: rest) = Some "")).
Qed.

Lemma batch_loop_Ok f parts batch batch' :
  batch_loop f parts batch = Ok batch' ↔
  ∃ plans, batch' = batch ++ plans ∧
    Forall2 (λ c plan, c ≠ "" ∧ f c = Ok plan ∧ receiverPlanIsDestroy plan = true)
      (batch_commands parts) plans ∧
    (plans = [] ∨ length batch' ≤ maxReceiverDestroyBatchCommand).
Proof.
  revert batch. induction parts as [|part rest IH]; intros batch.
  { simpl. split.
    - intros [= ->]. exists []. rewrite app_nil_r. split_and!; [done|constructor|by left].
    - intros (plans & -> & H & _). inversion H. by rewrite app_nil_r. }
  cbn [batch_loop]. rewrite batch_commands_cons.
  destruct (decide (TrimSpace part = "")) as [Et|Et];
    [rewrite (bool_decide_true (TrimSpace part = "")) by done
    |rewrite (bool_decide_false (TrimSpace part = "")) by done].
  - destruct (decide (rest = [])) as [->|Hr].
    + rewrite bool_decide_true by done. rewrite IH. done.
    + rewrite bool_decide_false by done. split; [done|]. intros (plans & _ & H & _).
      inversion H as [|? ? ? ? (? & _)]; done.
  - rewrite bind_Ok. setoid_rewrite guard_Ok. setoid_rewrite guard_Ok. setoid_rewrite IH.
    setoid_rewrite negb_false_iff. setoid_rewrite Nat.ltb_ge.
    assert ((if decide (rest = []) then [TrimSpace part] else TrimSpace part :: batch_commands rest)
      = TrimSpace part :: batch_commands rest) as ->.
    { case_decide; [by subst|done]. }
    split.
    + intros (plan & Hf & Hd & Hl & plans & -> & H2 & Hl2). exists (plan :: plans).
      rewrite <- app_assoc. simpl. split; [done|]. split; [by constructor|]. right.
      destruct Hl2 as [->|Hl2]; [done|]. by rewrite <- app_assoc in Hl2.
    + intros (plans & -> & H2 & Hl). inversion H2 as [|? plan ? plans' (_ & Hf & Hd) H2']; subst.
      destruct Hl as [|Hl]; [done|]. exists plan. split; [done|]. split; [done|].
      assert (batch ++ plan :: plans' = (batch ++ [plan]) ++ plans') as E by by rewrite <- app_assoc.
      rewrite E in Hl |- *. split; [rewrite length_app in Hl; lia|]. by exists plans'; auto.
Qed.

(** ** The authorizer *)

Lemma Split_length s c part : part ∈ Split s c → String.length part ≤ String.length s.
Proof.
  revert part. induction s as [|d s IH]; intros part; simpl.
  { rewrite list_elem_of_singleton. by intros ->. }
  case_decide.
  - rewrite elem_of_cons. intros [->|Hin]; simpl; [lia|]. apply IH in Hin. lia.
  - destruct (Split s c) as [|q qs] eqn:E; [by apply Split_nonempty in E|].
    rewrite elem_of_cons. intros [->|Hin]; simpl.
    + specialize (IH q ltac:(by left)). lia.
    + specialize (IH part ltac:(by right)). lia.
Qed.

Lemma TrimSpace_length s : String.length (TrimSpace s) ≤ String.length s.
Proof.
  destruct (trim_segs_spec (segs s)) as (pre & post & E & _).
  assert (s = flat pre +:+ TrimSpace s +:+ flat post) as Hs.
  { transitivity (flat (segs s)); [by rewrite flat_segs|]. by rewrite E, !flat_app. }
  rewrite Hs at 2. rewrite !length_app_str. lia.
Qed.

Lemma batch_commands_in c parts : c ∈ batch_commands parts → ∃ part, part ∈ parts ∧ c = TrimSpace part.
Proof.
  unfold batch_commands. cbv zeta. intros H.
  assert (c ∈ TrimSpace <$> parts) as Hc.
  { case_decide as E; [|done]. destruct (TrimSpace <$> parts) as [|x l] eqn:El; [done|].
    rewrite (app_removelast_last "" (l := x :: l)) by done. apply elem_of_app. by left. }
  apply list_elem_of_fmap in Hc as (part & -> & Hp). eauto.
Qed.

(** The mutual recursion of the authorizer ends: a batch is split at every
    [;], so any depth of two or more computes the same plan. *)
Theorem authorize_depth fuel raw p :
  authorize_fuel (S (S fuel)) raw p = authorizeReceiverCommand raw p.
Proof.
  unfold authorizeReceiverCommand. set (m := S fuel). cbn [authorize_fuel].
  destruct (Contains (TrimSpace raw) ";"); [|done].
  unfold authorizeReceiverCommandBatch.
  rewrite (batch_loop_ext (λ part, authorize_fuel m part p) (λ part, authorize_fuel 1 part p)); [done|].
  intros part Hp. unfold m. pose proof (Split_parts (TrimSpace raw) ";"%char) as Hs.
  rewrite Forall_forall in Hs. specialize (Hs _ Hp).
  by rewrite !authorize_fuel_one by (by apply has_byte_TrimSpace).
Qed.

(** A destroy of one step, as a batch admits it. *)
Definition destroy_plan (p : commandPolicy) (plan : receiverCommandPlan) : Prop :=
  ∃ st, plan = PlanPipeline [st] ∧ Name st = "zfs" ∧ quiet st ∧ destroy_ok p (Args st).

Lemma destroy_plan_spec p steps plan :
  permitted p steps plan →
  receiverPlanIsDestroy plan = true ↔ destroy_plan p plan.
Proof.
  intros Hp. split.
  - intros Hd. destruct plan as [| | | |[|st [|? ?]]|]; try done.
    unfold receiverPlanIsDestroy in Hd. rewrite andb_true_iff, !bool_decide_eq_true in Hd.
    destruct Hd as [Hn Ha]. exists st. split; [done|]. split; [done|].
    inversion Hp as [| | | |? Hpr]; subst. apply process_single in Hpr as [[]|(_ & H)]; [congruence|].
    destruct H as [[_ H]|[[H _]|H]]; [by destruct H|by destruct H|done].
  - intros (st & -> & Hn & _ & Hd). unfold receiverPlanIsDestroy. rewrite Hn. by destruct Hd.
Qed.

(** The specification of the authorizer: one command, or a batch of 1 to 32
    destroys, of at most 8192 bytes. *)
Definition authorized (p : commandPolicy) (raw : string) (plan : receiverCommandPlan) : Prop :=
  let raw := TrimSpace raw in
  String.length raw ≤ maxReceiverCommandLength ∧
  if has_byte ";" raw then
    ∃ plans, plan = PlanBatch plans ∧ 1 ≤ length plans ≤ maxReceiverDestroyBatchCommand ∧
      Forall2 (λ c pl, authorized_one p c pl ∧ destroy_plan (resolved p) pl)
        (batch_commands (Split raw ";"%char)) plans
  else authorized_one p raw plan.

Lemma authorized_one_nonempty p plan : ¬ authorized_one p "" plan.
Proof. intros (_ & tokens & steps & H & _). by vm_compute in H. Qed.

Lemma authorize_part p raw c plan :
  String.length raw ≤ maxReceiverCommandLength → c ∈ batch_commands (Split raw ";"%char) →
  (c ≠ "" ∧ authorize_fuel 1 c p = Ok plan ∧ receiverPlanIsDestroy plan = true) ↔
  (authorized_one p c plan ∧ destroy_plan (resolved p) plan).
Proof.
  intros Hl Hc. apply batch_commands_in in Hc as (part & Hp & ->).
  pose proof (Split_parts raw ";"%char) as Hs. rewrite Forall_forall in Hs. specialize (Hs _ Hp).
  rewrite authorize_fuel_one by (by apply has_byte_TrimSpace).
  rewrite TrimSpace_idemp, guard_Ok, Nat.ltb_ge, authorize_single_Ok. split.
  - intros (_ & [_ Ha] & Hd). split; [done|].
    destruct Ha as (_ & tokens & steps & _ & _ & Hperm). by apply (destroy_plan_spec _ steps).
  - intros [Ha Hd]. split_and!; try done.
    + intros E. rewrite E in Ha. by apply authorized_one_nonempty in Ha.
    + pose proof (TrimSpace_length part). pose proof (Split_length _ _ _ Hp). lia.
    + destruct Ha as (_ & tokens & steps & _ & _ & Hperm). by apply (destroy_plan_spec _ steps) in Hd.
Qed.

(** The authorizer and the specification agree. *)
Lemma authorize_Ok raw p plan :
  authorizeReceiverCommand raw p = Ok plan ↔ authorized p raw plan.
Proof.
  unfold authorizeReceiverCommand, authorized. cbv zeta.
  destruct (has_byte ";" (TrimSpace raw)) eqn:Hb.
  2: { assert (authorize_fuel 2 raw p =
         (fail_if (maxReceiverCommandLength <? String.length (TrimSpace raw))%nat
           (errorf "command is too long" []);; authorize_single (TrimSpace raw) p)) as ->.
       { cbn [authorize_fuel]. by rewrite Contains_semicolon, Hb. }
       by rewrite guard_Ok, Nat.ltb_ge, authorize_single_Ok. }
  rewrite authorize_fuel_S, guard_Ok, Nat.ltb_ge, Contains_semicolon, Hb. unfold authorizeReceiverCommandBatch.
  apply and_iff_compat_l_strong. intros Hl. rewrite bind_Ok. split.
  - intros (batch & Hloop & H). rewrite guard_Ok, bool_decide_eq_false in H. destruct H as [Hne [= <-]].
    apply batch_loop_Ok in Hloop as (plans & -> & H2 & Hmax). simpl in *. exists plans.
    split; [done|]. destruct Hmax as [->|Hmax]; [done|].
    split; [destruct plans; simpl in *; [done|lia]|].
    eapply Forall2_impl_In; [|exact H2]. intros c pl Hc. by apply (authorize_part p _ c pl Hl Hc).
  - intros (plans & -> & [Hn Hmax] & H2). exists plans. split.
    + apply batch_loop_Ok. exists plans. split; [done|]. split; [|by right].
      eapply Forall2_impl_In; [|exact H2]. intros c pl Hc. by apply (authorize_part p _ c pl Hl Hc).
    + rewrite bool_decide_false; [done|]. intros ->. simpl in Hn. lia.
Qed.

(** C3. The authorizer accepts exactly what the policy permits, with the plan the
    specification gives: nothing else is admitted, nothing permitted is refused,
    and a command has at most one plan. *)
Theorem authorize_spec raw p :
  (∀ plan, authorizeReceiverCommand raw p = Ok plan ↔ authorized p raw plan) ∧
  ((∃ e, authorizeReceiverCommand raw p = Err e) ↔ ∀ plan, ¬ authorized p raw plan) ∧
  (∀ plan plan', authorized p raw plan → authorized p raw plan' → plan = plan').
Proof.
  split_and!; [intros plan; apply authorize_Ok| |].
  - setoid_rewrite <- authorize_Ok. destruct (authorizeReceiverCommand raw p); naive_solver.
  - intros plan plan'. rewrite <- !authorize_Ok. congruence.
Qed.

(** ** What an admitted plan can touch *)

(** The steps of a plan that run as processes. *)
Fixpoint plan_processes (plan : receiverCommandPlan) : list receiverCommandStep :=
  match plan with
  | PlanPipeline steps => steps
  | PlanBatch plans =>
      (fix go (l : list receiverCommandPlan) : list receiverCommandStep :=
         match l with [] => [] | x :: l' => plan_processes x ++ go l' end) plans
  | _ => []
  end.

(** The datasets a command line names, read as zfs(8) and zpool(8) read it: the
    last argument of the subcommand, with the snapshots of a destroy separated by
    commas after the [@]. *)
Inductive access :=
  | Reads (name : string)
  | ReceivesInto (dataset : string)
  | DestroysDataset (dataset : string)
  | DestroysSnapshot (dataset snapshot : string).

Definition step_accesses (st : receiverCommandStep) : list access :=
  let operand := List.last (Args st) "" in
  if Name st ≟ "zpool" then [Reads operand]
  else if Name st ≟ "zfs" then
    if head (Args st) ≟ Some "receive" then [ReceivesInto operand]
    else if head (Args st) ≟ Some "destroy" then
      let '(dataset, snapshots, ok) := Cut operand "@"%char in
      if ok then DestroysSnapshot dataset <$> Split snapshots ","%char
      else [DestroysDataset operand]
    else [Reads operand]
  else [].

(** The accesses a policy grants. *)
Definition access_ok (p : commandPolicy) (a : access) : Prop :=
  match a with
  | Reads name => name = TargetDataset p ∨ name = TargetPool (TargetDataset p)
  | ReceivesInto dataset => dataset = TargetDataset p
  | DestroysDataset dataset =>
      AllowDestroy p = true ∧ DatasetOrChild dataset (TargetDataset p) = true
  | DestroysSnapshot dataset snapshot => dataset = TargetDataset p ∧ snapshot_ok p snapshot
  end.

Lemma last_receive flags t : List.last ("receive" :: flags ++ [t]) "" = t.
Proof. change ("receive" :: flags ++ [t]) with (("receive" :: flags) ++ [t]). apply List.last_last. Qed.

Lemma receive_access p st a :
  is_receive p st → a ∈ step_accesses st → access_ok p a.
Proof.
  intros (Hn & Hr & _). unfold step_accesses. rewrite Hn.
  assert (head (Args st) = Some "receive" ∧ List.last (Args st) "" = TargetDataset p) as [-> ->].
  { destruct Hr as [|flags]; [done|]. by rewrite last_receive. }
  simpl. by rewrite list_elem_of_singleton; intros ->.
Qed.

Lemma destroy_access p st a :
  ValidDatasetName (TargetDataset p) = true → Name st = "zfs" → destroy_ok p (Args st) →
  a ∈ step_accesses st → access_ok p a.
Proof.
  intros Ht Hn Hd. unfold step_accesses. rewrite Hn.
  assert (∀ d, DatasetOrChild d (TargetDataset p) = true → Cut d "@"%char = (d, "", false)) as Hc.
  { intros d (Hv & _)%DatasetOrChild_components.
    assert (has_byte "@" d = false) as Hb by by apply valid_dataset_no_forbidden.
    destruct (Cut d "@"%char) as [[x y] [|]] eqn:E.
    - apply Cut_found in E as [-> _]. by rewrite has_byte_app, orb_comm in Hb.
    - by apply Cut_not_found in E as (_ & -> & ->). }
  destruct Hd as [snaps Hne Hs|d Ha Hd|d Ha Hd]; simpl.
  - assert (Cut (TargetDataset p +:+ "@" +:+ Join snaps ",") "@"%char =
      (TargetDataset p, Join snaps ",", true)) as ->.
    { apply Cut_found. split; [done|]. by apply valid_dataset_no_forbidden. }
    rewrite list_elem_of_fmap. intros (s & -> & Hin). change "," with (str1 ","%char) in Hin.
    rewrite Split_Join in Hin; [|done|].
    + rewrite Forall_forall in Hs. split; [done|]. by apply Hs.
    + eapply Forall_impl; [exact Hs|]. intros s' [Hv _]. by apply ValidSnapshotName_no_byte.
  - rewrite (Hc d Hd). by rewrite list_elem_of_singleton; intros ->.
  - rewrite (Hc d Hd). by rewrite list_elem_of_singleton; intros ->.
Qed.

Lemma other_access p st a :
  ValidDatasetName (TargetDataset p) = true →
  is_feature_get p st ∨ (Name st = "zfs" ∧ get_ok p (Args st)) → a ∈ step_accesses st → access_ok p a.
Proof.
  intros Ht [(Hn & _ & Ha)|[Hn Hg]]; unfold step_accesses; rewrite Hn; simpl.
  - rewrite list_elem_of_singleton. intros ->. rewrite Ha. simpl. by right.
  - assert (head (Args st) = Some "get" ∧ List.last (Args st) "" = TargetDataset p) as [-> ->]
      by by destruct Hg.
    simpl. rewrite list_elem_of_singleton. intros ->. by left.
Qed.

Lemma no_access p st : Name st ≠ "zfs" → Name st ≠ "zpool" → ∀ a, a ∈ step_accesses st → access_ok p a.
Proof.
  intros H1 H2 a. unfold step_accesses. rewrite !bool_decide_false by done. by rewrite elem_of_nil.
Qed.

Lemma decompressor_paths p st :
  is_decompressor p st → allowedCommandPaths (Name st) ≠ [] ∧ Name st ≠ "zfs" ∧ Name st ≠ "zpool".
Proof.
  intros [_ H]. unfold decompressor_table in H. rewrite !elem_of_cons, elem_of_nil in H.
  repeat (destruct H as [[= _ -> _]|H]; [done|]). destruct H.
Qed.

Lemma process_safe p steps st :
  ValidDatasetName (TargetDataset p) = true → process_ok p steps → st ∈ steps →
  allowedCommandPaths (Name st) ≠ [] ∧ ∀ a, a ∈ step_accesses st → access_ok p a.
Proof.
  intros Ht Hp Hst.
  assert (∀ x, is_feature_get p x → allowedCommandPaths (Name x) ≠ []) as Hfeat by by intros x [-> _].
  assert (∀ x, is_receive p x → allowedCommandPaths (Name x) ≠ []) as Hrecv by by intros x [-> _].
  assert (∀ x, is_buffer x → allowedCommandPaths (Name x) ≠ [] ∧
    ∀ a, a ∈ step_accesses x → access_ok p a) as Hbuf.
  { intros x [E _]. rewrite E. split; [done|]. apply no_access; by rewrite E. }
  assert (∀ x, is_decompressor p x → allowedCommandPaths (Name x) ≠ [] ∧
    ∀ a, a ∈ step_accesses x → access_ok p a) as Hdec.
  { intros x (? & ? & ?)%decompressor_paths. split; [done|]. by apply no_access. }
  destruct Hp as [x Hx|x g Hx Hg|x Hn _ Hg|x Hn _ Hd|r Hr|b r Hb _ Hr|d r Hd Hr|b d r Hb Hd Hr];
    rewrite ?elem_of_cons, elem_of_nil in Hst; repeat destruct Hst as [->|Hst]; try done;
    try (by split; [auto|]; intros a; apply receive_access); try by auto.
  - split; [auto|]. intros a. apply other_access; auto.
  - split; [auto|]. intros a. apply other_access; auto.
  - rewrite Hg. split; [done|]. apply no_access; by rewrite Hg.
  - split; [by rewrite Hn|]. intros a. apply other_access; auto.
  - split; [by rewrite Hn|]. intros a. by apply destroy_access.
Qed.

Lemma plan_processes_batch plans st :
  st ∈ plan_processes (PlanBatch plans) → ∃ plan, plan ∈ plans ∧ st ∈ plan_processes plan.
Proof.
  induction plans as [|x plans IH]; [by rewrite elem_of_nil|].
  change (plan_processes (PlanBatch (x :: plans)))
    with (plan_processes x ++ plan_processes (PlanBatch plans)).
  rewrite elem_of_app. intros [H|H]; [exists x; split; [by left|done]|].
  destruct (IH H) as (y & ? & ?). exists y. split; [by right|done].
Qed.

Lemma authorized_one_safe p raw plan st :
  authorized_one p raw plan → st ∈ plan_processes plan →
  allowedCommandPaths (Name st) ≠ [] ∧ ∀ a, a ∈ step_accesses st → access_ok p a.
Proof.
  intros ([Ht _] & tokens & steps & _ & _ & Hp) Hst.
  destruct Hp as [| | | |steps Hp]; simpl in Hst; try by apply elem_of_nil in Hst.
  exact (process_safe (resolved p) steps st Ht Hp Hst).
Qed.

(** A process of a plan belongs to one authorized command. *)
Lemma plan_member raw p plan st :
  authorizeReceiverCommand raw p = Ok plan → st ∈ plan_processes plan →
  ∃ c pl, authorized_one p c pl ∧ st ∈ plan_processes pl.
Proof.
  rewrite authorize_Ok. unfold authorized. cbv zeta. intros [_ H] Hst.
  destruct (has_byte ";" (TrimSpace raw)); [|by exists (TrimSpace raw), plan].
  destruct H as (plans & -> & _ & H2). apply plan_processes_batch in Hst as (pl & Hpl & Hst).
  apply list_elem_of_lookup in Hpl as [i Hi].
  destruct (Forall2_lookup_r _ _ _ _ _ H2 Hi) as (c & _ & Ha & _). by exists c, pl.
Qed.

(** C2. Whatever a sender asks for, an admitted plan runs only programs with a
    fixed path, reads only the target dataset and its pool, receives only into
    the target, destroys datasets only at or below the target when the policy
    allows it, and destroys only snapshots of the target the policy allows. *)
Theorem command_safety raw p plan st :
  authorizeReceiverCommand raw p = Ok plan → st ∈ plan_processes plan →
  allowedCommandPaths (Name st) ≠ [] ∧ ∀ a, a ∈ step_accesses st → access_ok p a.
Proof.
  intros Ha Hst. destruct (plan_member raw p plan st Ha Hst) as (c & pl & Hone & Hpl).
  by apply (authorized_one_safe p c pl).
Qed.

(** ** The receive a contract asks for *)

(** The command line of a buffered receive, as the sender writes it: the target
    quoted, the flags from the policy, an optional decompressor. *)
Definition receive_prefix (unmounted resumable rollback : bool)
  (decompressor : option (string * list string)) : string :=
  "mbuffer -q -s 128k -m 16M | " +:+
  match decompressor with
  | Some (name, args) => Join (name :: args) " " +:+ " | "
  | None => ""
  end +:+ "zfs receive " +:+
  (if unmounted then "-u " else "") +:+ (if resumable then "-s " else "") +:+
  (if rollback then "-F " else "").

Definition receive_text (p : commandPolicy) (decompressor : option (string * list string)) : string :=
  receive_prefix (ReceiveUnmounted p) (ReceiveResumable p) (AllowRollback p) decompressor +:+
  "'" +:+ TargetDataset p +:+ "' 2>&1".

Definition receive_words (unmounted resumable rollback : bool) : list string :=
  "receive" :: (if unmounted then ["-u"] else []) ++ (if resumable then ["-s"] else []) ++
  (if rollback then ["-F"] else []).

Definition receive_tokens unmounted resumable rollback (decompressor : option (string * list string))
  : list string :=
  ["mbuffer"; "-q"; "-s"; "128k"; "-m"; "16M"; "|"] ++
  match decompressor with Some (name, args) => name :: args ++ ["|"] | None => [] end ++
  "zfs" :: receive_words unmounted resumable rollback.

(** The decompressors of a policy, and none. *)
Definition decompressor_choices : list (option (string * list string)) :=
  None :: ((λ '(_, name, args), Some (name, args)) <$> decompressor_table).

Definition bools : list bool := [true; false].

Lemma elem_of_bools b : b ∈ bools.
Proof. destruct b; set_solver. Qed.

(** The prefix of each of the 96 command lines tokenizes as listed, up to the
    opening quote of the target. *)
Lemma receive_prefix_tokens :
  forallb (λ u, forallb (λ s, forallb (λ f, forallb (λ d,
    match tokenize_loop (runes (receive_prefix u s f d +:+ "'")) [] "" None with
    | Ok (tokens, "", Some q) => (tokens ≟ receive_tokens u s f d) && (q =? rune "'")%N
    | _ => false
    end && forallb (λ t, is_ok (check_token t)) (receive_tokens u s f d) &&
    is_ascii (receive_prefix u s f d) && (String.length (receive_prefix u s f d) <? 100)%nat &&
    negb (has_byte ";" (receive_prefix u s f d)))
    decompressor_choices) bools) bools) bools = true.
Proof. vm_compute. reflexivity. Qed.

Lemma tokenize_loop_app rs1 rs2 tokens current quote :
  tokenize_loop (rs1 ++ rs2) tokens current quote =
  ('(tokens, current, quote) ← tokenize_loop rs1 tokens current quote;
   tokenize_loop rs2 tokens current quote).
Proof.
  revert tokens current quote. induction rs1 as [|r rs1 IH]; intros tokens current quote; [done|].
  cbn [tokenize_loop app]. destruct quote; repeat (case_match; [done || apply IH|]); try done; apply IH.
Qed.

Lemma runes_app_ascii_l s t : is_ascii s = true → runes (s +:+ t) = runes s ++ runes t.
Proof.
  intros Hs. induction s as [|c s IH]; [done|]. simpl in Hs. apply andb_prop in Hs as [Hc Hs].
  rewrite app_cons. unfold runes in *. rewrite !segs_ascii_cons by done.
  rewrite !fmap_cons, IH by done. done.
Qed.

(** A dataset name is read back unchanged between quotes. *)
Lemma tokenize_quoted d tokens current :
  is_ascii d = true → has_byte "'" d = false → has_byte (ascii_of_nat 10) d = false →
  has_byte (ascii_of_nat 13) d = false → has_byte bquote d = false → has_byte dollar d = false →
  tokenize_loop (runes d) tokens current (Some (rune "'")) = Ok (tokens, current +:+ d, Some (rune "'")).
Proof.
  revert current. induction d as [|c d IH]; intros current; [by rewrite str_app_nil_r|].
  cbn [is_ascii has_byte]. rewrite andb_true_iff, !orb_false_iff, !bool_decide_eq_false.
  intros [Hc Ha] [H1 H1'] [H2 H2'] [H3 H3'] [H4 H4'] [H5 H5'].
  unfold runes. rewrite segs_ascii_cons by done. rewrite fmap_cons. fold (runes d).
  cbn [tokenize_loop fst].
  assert (∀ x, c ≠ x → (byte_val c =? rune x)%N = false) as Hx.
  { intros x Hne. apply N.eqb_neq. intros E. apply Hne. apply (f_equal ascii_of_N) in E.
    unfold rune in E. by rewrite !ascii_N_embedding in E. }
  unfold quoted_forbidden, rune_is. rewrite !Hx by congruence. cbn [orb].
  assert (EncodeRune (byte_val c) = str1 c) as ->.
  { unfold EncodeRune. rewrite Hc. unfold byte_of. by rewrite ascii_N_embedding. }
  rewrite IH by done. by rewrite <- str_app_assoc.
Qed.

Lemma steps_loop_app l1 l2 steps part :
  steps_loop (l1 ++ l2) steps part =
  ('(steps, part) ← steps_loop l1 steps part; steps_loop l2 steps part).
Proof.
  revert steps part. induction l1 as [|x l1 IH]; intros steps part; [done|].
  cbn [steps_loop app]. case_match; [apply IH|].
  destruct (parseReceiverCommandStep part); [apply IH|done].
Qed.

Lemma step_loop_seen l args step r : step_loop l args step true = Ok r → r.1 = args.
Proof.
  revert step. induction l as [|y l IH]; intros step; [by intros [= <-]|].
  cbn [step_loop]. repeat (case_match; [apply IH|]). done.
Qed.

Lemma step_loop_app l1 l2 args step :
  step_loop l1 args step false = Ok (args ++ l1, step) →
  step_loop (l1 ++ l2) args step false = step_loop l2 (args ++ l1) step false.
Proof.
  revert args. induction l1 as [|x l1 IH]; intros args H; [by rewrite app_nil_r|].
  assert (∀ st, step_loop l1 args st true ≠ Ok (args ++ x :: l1, step)) as Hno.
  { intros st Hst. apply step_loop_seen in Hst. simpl in Hst.
    apply (f_equal length) in Hst. rewrite length_app in Hst. simpl in Hst. lia. }
  revert H. cbn [step_loop app]. repeat (case_match; [by intros H'; destruct (Hno _ H')|]).
  change (x :: l1) with ([x] ++ l1). rewrite (app_assoc args). apply IH.
Qed.

(** The steps of a receive: buffer, decompressor, receive. *)
Definition plain_step (name : string) (args : list string) : receiverCommandStep :=
  {| Name := name; Args := args; StdoutNull := false; StderrNull := false;
     StderrToStdout := false |}.

Definition stages (decompressor : option (string * list string)) : list receiverCommandStep :=
  plain_step "mbuffer" ["-q"; "-s"; "128k"; "-m"; "16M"] ::
  match decompressor with Some (name, args) => [plain_step name args] | None => [] end.

Definition receive_step (args : list string) : receiverCommandStep :=
  {| Name := "zfs"; Args := args; StdoutNull := false; StderrNull := false;
     StderrToStdout := true |}.

Lemma receive_prefix_steps :
  forallb (λ u, forallb (λ s, forallb (λ f, forallb (λ d,
    match steps_loop (receive_tokens u s f d) [] [] with
    | Ok (steps, part) => (steps ≟ stages d) && (part ≟ "zfs" :: receive_words u s f)
    | Err _ => false
    end &&
    match step_loop ("zfs" :: receive_words u s f) [] zero_step false with
    | Ok (args, step) => (args ≟ "zfs" :: receive_words u s f) && (step ≟ zero_step)
    | Err _ => false
    end) decompressor_choices) bools) bools) bools = true.
Proof. vm_compute. reflexivity. Qed.

Lemma forall_cases (F : bool → bool → bool → option (string * list string) → bool) :
  forallb (λ u, forallb (λ s, forallb (λ f, forallb (F u s f) decompressor_choices) bools) bools)
    bools = true →
  ∀ u s f d, d ∈ decompressor_choices → F u s f d = true.
Proof.
  intros H u s f d Hd.
  apply (forallb_elem _ _ _ (forallb_elem _ _ _ (forallb_elem _ _ _
    (forallb_elem _ _ _ H (elem_of_bools u)) (elem_of_bools s)) (elem_of_bools f)) Hd).
Qed.

Lemma parse_receive u s f d target :
  d ∈ decompressor_choices → has_byte "|" target = false → has_byte ">" target = false →
  parseReceiverCommandSteps (receive_tokens u s f d ++ [target; "2>&1"]) =
  Ok (stages d ++ [receive_step (receive_words u s f ++ [target])]).
Proof.
  intros Hd Hp Hg. pose proof (forall_cases _ receive_prefix_steps u s f d Hd) as H. cbv beta in H.
  apply andb_prop in H as [H1 H2].
  destruct (steps_loop (receive_tokens u s f d) [] []) as [[steps part]|] eqn:E1; [|done].
  rewrite andb_true_iff, !bool_decide_eq_true in H1. destruct H1 as [-> ->].
  destruct (step_loop _ [] zero_step false) as [[args step]|] eqn:E2; [|done].
  rewrite andb_true_iff, !bool_decide_eq_true in H2. destruct H2 as [-> ->].
  assert (∀ x, has_byte "|" x || has_byte ">" x = true → target ≠ x) as Hne.
  { intros x Hx ->. by rewrite Hp, Hg in Hx. }
  unfold parseReceiverCommandSteps. rewrite steps_loop_app, E1, ok_bind.
  cbn [steps_loop]. rewrite !bool_decide_false by (done || by apply Hne).
  cbn [negb]. rewrite <- app_assoc, ok_bind. unfold parseReceiverCommandStep.
  rewrite bool_decide_false by done. cbn [fail_if]. rewrite ok_bind.
  rewrite step_loop_app by exact E2. cbn [step_loop app].
  rewrite !(bool_decide_false (target = _)) by (by apply Hne).
  rewrite !(bool_decide_false ("2>&1" = _)) by done.
  rewrite (bool_decide_true ("2>&1" = "2>&1")) by done.
  done.
Qed.

(** The decompressor a policy calls for, or none. *)
Definition decompressor_for (p : commandPolicy) (d : option (string * list string)) : Prop :=
  match d with
  | None => CompressionDefault (Compression p) = CompressionNone
  | Some (name, args) => (Compression p, name, args) ∈ decompressor_table
  end.

Lemma decompressor_for_choice p d : decompressor_for p d → d ∈ decompressor_choices.
Proof.
  destruct d as [[name args]|]; [|by left]. intros H. right. apply list_elem_of_fmap.
  by exists (Compression p, name, args).
Qed.

Lemma table_compression c name args :
  (c, name, args) ∈ decompressor_table → c ≠ "" ∧ c ≠ CompressionNone ∧ name ≠ "mbuffer".
Proof. unfold decompressor_table. rewrite !elem_of_cons, elem_of_nil. naive_solver. Qed.

Lemma tokenize_close tokens target :
  target ≠ "" →
  tokenize_loop (runes "' 2>&1") tokens target (Some (rune "'")) =
  Ok (tokens ++ [target], "2>&1", None).
Proof.
  intros Hne. transitivity (Ok (flush tokens target, "2>&1", @None N)); [reflexivity|].
  unfold flush. by rewrite bool_decide_false.
Qed.

Lemma check_token_plain t :
  has_byte "&" t = false → has_byte ">" t = false → has_byte "|" t = false → check_token t = Ok tt.
Proof.
  intros Ha Hg Hb. unfold check_token.
  change "&" with (str1 "&"%char). change ">" with (str1 ">"%char). rewrite !Contains_byte, Ha, Hg.
  rewrite (bool_decide_false (t = "||")), (bool_decide_false (t = "&&")); [done| |];
    intros ->; discriminate.
Qed.

Section receive_text.
Context (p : commandPolicy) (d : option (string * list string)).
Context (Hp : policy_ok p) (Hascii : is_ascii (TargetDataset p) = true).
Context (Hd : decompressor_for p d).

Let u := ReceiveUnmounted p.
Let s := ReceiveResumable p.
Let f := AllowRollback p.
Let pre := receive_prefix u s f d.
Let target := TargetDataset p.

Lemma target_no_byte c : has_byte c dataset_forbidden = true → has_byte c target = false.
Proof. destruct Hp as [Ht _]. by apply valid_dataset_no_forbidden. Qed.

Lemma target_nonempty : target ≠ "".
Proof. destruct Hp as [Ht _]. intros E. unfold target in E. by rewrite E in Ht. Qed.

(** What was computed for every prefix, for this one. *)
Lemma prefix_facts :
  tokenize_loop (runes (pre +:+ "'")) [] "" None =
    Ok (receive_tokens u s f d, "", Some (rune "'")) ∧
  Forall (λ t, check_token t = Ok tt) (receive_tokens u s f d) ∧
  is_ascii pre = true ∧ String.length pre < 100 ∧ has_byte ";" pre = false.
Proof.
  pose proof (forall_cases _ receive_prefix_tokens u s f d (decompressor_for_choice _ _ Hd)) as H.
  cbv beta in H. fold pre in H. rewrite !andb_true_iff in H. destruct H as [[[[H Hc] Ha] Hl] Hs].
  split_and!; [|apply Forall_forall|done|by apply Nat.ltb_lt|by apply negb_true_iff].
  - destruct (tokenize_loop _ _ _ _) as [[[tokens current] [q|]]|]; try done; destruct current; try done.
    rewrite andb_true_iff, bool_decide_eq_true, N.eqb_eq in H. by destruct H as [-> ->].
  - intros t Ht. apply is_ok_unit. exact (forallb_elem _ _ _ Hc Ht).
Qed.

Lemma receive_text_eq : receive_text p d = pre +:+ "'" +:+ target +:+ "' 2>&1".
Proof. done. Qed.

Lemma receive_text_ascii : is_ascii (receive_text p d) = true.
Proof.
  destruct prefix_facts as (_ & _ & Ha & _). rewrite receive_text_eq, !is_ascii_app, Ha.
  unfold target. by rewrite Hascii.
Qed.

Lemma receive_text_trim : TrimSpace (receive_text p d) = receive_text p d.
Proof.
  apply TrimSpace_id; intros x.
  - unfold receive_text, receive_prefix. rewrite !app_cons. rewrite segs_ascii_cons by done.
    by intros [= <-].
  - assert (receive_text p d = (pre +:+ "'" +:+ target +:+ "' 2>&") +:+ "1") as ->.
    { rewrite receive_text_eq. by rewrite <- !str_app_assoc. }
    rewrite segs_app_ascii by done. cbn [segs]. rewrite last_snoc. by intros [= <-].
Qed.

Lemma receive_text_tokens :
  tokenizeReceiverCommand (receive_text p d) = Ok (receive_tokens u s f d ++ [target; "2>&1"]).
Proof.
  destruct prefix_facts as (Ht & Hc & Ha & _). unfold tokenizeReceiverCommand. cbv zeta.
  rewrite receive_text_trim, bool_decide_false by done. cbn [fail_if]. rewrite ok_bind.
  assert (receive_text p d = (pre +:+ "'") +:+ target +:+ "' 2>&1") as ->.
  { rewrite receive_text_eq. by rewrite <- !str_app_assoc. }
  rewrite (runes_app_ascii_l (pre +:+ "'")) by by rewrite is_ascii_app, Ha.
  rewrite (runes_app_ascii_l target) by done.
  rewrite tokenize_loop_app, Ht, ok_bind, tokenize_loop_app.
  rewrite tokenize_quoted by (done || by apply target_no_byte). rewrite ok_bind, app_nil_str.
  rewrite tokenize_close by apply target_nonempty. rewrite ok_bind. cbn [fail_if]. rewrite ok_bind.
  unfold flush. rewrite bool_decide_false, <- app_assoc by done. cbn [app].
  rewrite (proj2 (for_each_Ok _ _ tt)), ok_bind; [done|]. apply Forall_app. split; [done|].
  repeat constructor. by apply check_token_plain; apply target_no_byte.
Qed.

Lemma receive_text_permitted :
  u = true ∨ AllowMount p = true → target ≠ "-A" →
  process_ok (resolved p) (stages d ++ [receive_step (receive_words u s f ++ [target])]).
Proof.
  intros Hu HA.
  assert (is_receive (resolved p) (receive_step (receive_words u s f ++ [target]))) as Hr.
  { split; [done|]. split.
    - unfold receive_words, receive_step. cbn [Args app]. apply receive_stream.
      + rewrite !Forall_app. unfold receive_flag_ok, u, s, f.
        change (ReceiveUnmounted (resolved p)) with (ReceiveUnmounted p).
        change (ReceiveResumable (resolved p)) with (ReceiveResumable p).
        change (AllowRollback (resolved p)) with (AllowRollback p).
        split_and!; case_match; rewrite ?Forall_singleton, ?Forall_nil; naive_solver.
      + destruct Hu as [Hu|Hu]; [left|by right]. rewrite Hu. by left.
    - intros [E _]. cbn [Args receive_step receive_words app] in E. injection E as E.
      apply (f_equal last) in E. rewrite last_snoc in E. by injection E. }
  assert (is_buffer (plain_step "mbuffer" ["-q"; "-s"; "128k"; "-m"; "16M"])) as Hb.
  { split_and!; [done| |by apply mbuffer_args_sound]. done. }
  unfold decompressor_for in Hd. destruct d as [[name args]|].
  - destruct (table_compression _ _ _ Hd) as (Hne & _).
    apply ok_buffered_decompressed; [done| |done]. split; [done|]. cbn [Name Args plain_step].
    unfold resolved. cbn [Compression with_Compression]. unfold CompressionDefault.
    by rewrite bool_decide_false.
  - by apply ok_buffered.
Qed.

(** The receive a policy calls for is admitted: for an accepted policy with an
    ASCII target, the quoted command line with the flags of the policy and the
    decompressor of its compression runs as a buffered receive into the target. *)
Lemma receive_text_authorized :
  u = true ∨ AllowMount p = true → target ≠ "-A" → String.length target ≤ 256 →
  authorizeReceiverCommand (receive_text p d) p =
  Ok (PlanPipeline (stages d ++ [receive_step (receive_words u s f ++ [target])])).
Proof.
  intros Hu HA Hlen. apply authorize_Ok. unfold authorized. cbv zeta. rewrite receive_text_trim.
  destruct prefix_facts as (_ & _ & _ & Hl & Hs). split.
  { rewrite receive_text_eq, !length_app_str. cbn [String.length].
    assert (400 ≤ maxReceiverCommandLength) by (apply Nat.leb_le; vm_compute; reflexivity). lia. }
  assert (has_byte ";" (receive_text p d) = false) as ->.
  { rewrite receive_text_eq, !has_byte_app, Hs.
    by rewrite target_no_byte. }
  split; [done|]. eexists _, _. split; [apply receive_text_tokens|]. split.
  - apply parse_receive; [by apply (decompressor_for_choice p)|by apply target_no_byte..].
  - constructor. by apply receive_text_permitted.
Qed.
End receive_text.

(** ** Concrete policies *)

Definition sample_policy : commandPolicy :=
  {| TargetDataset := "tank/dst"; ReceiveUnmounted := true; ReceiveResumable := true;
     AllowRollback := false; AllowDestroy := false; AllowMount := false;
     AllowSyncSnapshotDestroy := true; AllowTargetSnapshotDestroy := false;
     SyncSnapshotIdentifier := "zrc-1"; Compression := "lz4" |}.

(** Commands of the repository's own tests. *)
Example admit_get :
  is_ok (authorizeReceiverCommand "zfs get -H name tank/dst" sample_policy) = true.
Proof. vm_compute. reflexivity. Qed.

Example admit_batch :
  is_ok (authorizeReceiverCommand
    "zfs destroy tank/dst@syncoid_zrc-1_a; zfs destroy tank/dst@syncoid_zrc-1_b;" sample_policy) = true.
Proof. vm_compute. reflexivity. Qed.

Example deny_other_snapshot :
  is_ok (authorizeReceiverCommand "zfs destroy tank/dst@daily" sample_policy) = false.
Proof. vm_compute. reflexivity. Qed.

Example deny_other_target :
  is_ok (authorizeReceiverCommand "zfs receive -u -s tank/other" sample_policy) = false.
Proof. vm_compute. reflexivity. Qed.

Lemma command_safety_witness :
  let st := plain_step "zfs" ["get"; "-H"; "name"; "tank/dst"] in
  allowedCommandPaths (Name st) ≠ [] ∧ ∀ a, a ∈ step_accesses st → access_ok sample_policy a.
Proof.
  apply (command_safety "zfs get -H name tank/dst" sample_policy
    (PlanPipeline [plain_step "zfs" ["get"; "-H"; "name"; "tank/dst"]])).
  - vm_compute. reflexivity.
  - left.
Defined.

Lemma receive_text_authorized_witness :
  authorizeReceiverCommand
    "mbuffer -q -s 128k -m 16M | lz4 -dc | zfs receive -u -s 'tank/dst' 2>&1" sample_policy =
  Ok (PlanPipeline [plain_step "mbuffer" ["-q"; "-s"; "128k"; "-m"; "16M"];
                    plain_step "lz4" ["-dc"];
                    receive_step ["receive"; "-u"; "-s"; "tank/dst"]]).
Proof.
  apply (receive_text_authorized sample_policy (Some ("lz4", ["-dc"]))).
  - split; [reflexivity|right; reflexivity].
  - reflexivity.
  - unfold decompressor_for, decompressor_table. repeat (left || right).
  - left. reflexivity.
  - discriminate.
  - apply Nat.leb_le. reflexivity.
Defined.
