(* ===== verification/ReceiverGrant.v ===== *)
(** * Receiver grants (internal/receiverauthorization/grant.go)

    Compilation of the candidates of one receiver view into grants: validation of
    each candidate on its own, rejection of candidates that share a task UID or a
    public key, and the identities of the stored grants. *)
From S2P Require Import Prelude GoStrings Sha256 GoErrors GoTime Api Replication Names Syncoid Ssh ReceiverCommand.
From Stdlib Require Import NArith.
Local Open Scope Z_scope.

(** ** Data *)

(** [src/internal/receiverauthorization/grant.go:19-19 maximumLeaseHorizon] *)
Definition maximumLeaseHorizon : duration := 35 * Minute.

(** [src/internal/receiverauthorization/grant.go:22-37 Candidate] *)
Record Candidate := {
  c_TaskUID : string;
  c_AuthorizedPublicKey : string;
  c_ExpiresAt : time;
  c_TargetDataset : string;
  c_ReceiverDatasetPrefixes : list string;
  c_ReceiveUnmounted : bool;
  c_ReceiveResumable : bool;
  c_AllowRollback : bool;
  c_AllowDestroy : bool;
  c_AllowMount : bool;
  c_AllowSyncSnapshotDestroy : bool;
  c_AllowTargetSnapshotDestroy : bool;
  c_SyncSnapshotIdentifier : string;
  c_Compression : string }.

(** [src/internal/receiverauthorization/grant.go:41-44 Outcome] *)
Record Outcome := { o_TaskUID : string; o_Rejection : string }.

(** [src/internal/receiverauthorization/grant.go:53-67 grant] The expiry is an instant and
    the location it is written in. *)
Record grant := {
  g_TaskUID : string;
  g_AuthorizedPublicKey : string;
  g_ExpiresAt : time;
  g_ExpiresIn : location;
  g_TargetDataset : string;
  g_ReceiveUnmounted : bool;
  g_ReceiveResumable : bool;
  g_AllowRollback : bool;
  g_AllowDestroy : bool;
  g_AllowMount : bool;
  g_AllowSyncSnapshotDestroy : bool;
  g_AllowTargetSnapshotDestroy : bool;
  g_SyncSnapshotIdentifier : string;
  g_Compression : string }.

#[export] Instance grant_eq_dec : EqDecision grant.
Proof. solve_decision. Defined.

(** [src/internal/receiverauthorization/grant.go:48-51 compilation] *)
Record compilation := { grants : list grant; outcomes : list Outcome }.

(** ** Validation of one candidate *)

Section keys.
Context `{SSHKeys}.

(** [src/internal/receiverauthorization/grant.go:198-214 canonicalPublicKey] *)
Definition canonicalPublicKey (raw : string) : result string :=
  let raw := TrimSpace raw in
  fail_if (raw ≟ "") (errorf "authorized public key is empty" []);;
  '(key, _, options, rest) ← wrap_err (ParseAuthorizedKey raw)
    (λ e, errorf "parse authorized public key: %w" [FErr e]);
  fail_if (0 <? length options)%nat
    (errorf "authorized public key must not include authorized_keys options" []);;
  fail_if (TrimSpace rest ≠? "") (errorf "authorized public key contains trailing data" []);;
  Ok (TrimSpace (MarshalAuthorizedKey key)).

(** [src/internal/receiverauthorization/grant.go:153-168 validateCandidateRules] *)
Definition validateCandidateRules (candidate : Candidate) : result unit :=
  for_each (λ prefix,
    fail_if (negb (ValidDatasetName prefix))
      (errorf "invalid receiver dataset prefix %q" [FStr prefix]))
    (c_ReceiverDatasetPrefixes candidate);;
  match c_ReceiverDatasetPrefixes candidate with
  | [] => Ok tt
  | prefixes =>
      if existsb (λ prefix, DatasetOrChild (c_TargetDataset candidate) prefix) prefixes then Ok tt
      else Err (errorf "destination dataset is not allowed on this receiver" [])
  end.

(** [src/internal/receiverauthorization/grant.go:170-196 validateGrant] *)
Definition validateGrant (now : time) (g : grant) : result unit :=
  fail_if (g_TaskUID g ≟ "") (errorf "receive task UID is empty" []);;
  canonicalPublicKey (g_AuthorizedPublicKey g);;
  fail_if (negb (ValidDatasetName (g_TargetDataset g)))
    (errorf "invalid destination dataset %q" [FStr (g_TargetDataset g)]);;
  fail_if ((g_Compression g ≟ "") || negb (CompressionSupported (g_Compression g)))
    (errorf "unsupported compression %q" [FStr (g_Compression g)]);;
  fail_if ((g_SyncSnapshotIdentifier g ≠? "") && negb (ValidIdentifier (g_SyncSnapshotIdentifier g)))
    (errorf "invalid sync snapshot identifier %q" [FStr (g_SyncSnapshotIdentifier g)]);;
  fail_if (g_AllowSyncSnapshotDestroy g && (g_SyncSnapshotIdentifier g ≟ ""))
    (errorf "sync snapshot destroy requires a sync snapshot identifier" []);;
  fail_if (negb (After (g_ExpiresAt g) now)) (errorf "authorization lease is expired" []);;
  fail_if (After (g_ExpiresAt g) (Add now maximumLeaseHorizon))
    (errorf "authorization lease exceeds maximum horizon" []).

(** [src/internal/receiverauthorization/grant.go:129-143 compileCandidate] *)
Definition candidate_grant (candidate : Candidate) (publicKey : string) : grant :=
  {| g_TaskUID := c_TaskUID candidate;
     g_AuthorizedPublicKey := publicKey;
     g_ExpiresAt := c_ExpiresAt candidate;
     g_ExpiresIn := None;
     g_TargetDataset := c_TargetDataset candidate;
     g_ReceiveUnmounted := c_ReceiveUnmounted candidate;
     g_ReceiveResumable := c_ReceiveResumable candidate;
     g_AllowRollback := c_AllowRollback candidate;
     g_AllowDestroy := c_AllowDestroy candidate;
     g_AllowMount := c_AllowMount candidate;
     g_AllowSyncSnapshotDestroy := c_AllowSyncSnapshotDestroy candidate;
     g_AllowTargetSnapshotDestroy := c_AllowTargetSnapshotDestroy candidate;
     g_SyncSnapshotIdentifier := c_SyncSnapshotIdentifier candidate;
     g_Compression := CompressionDefault (c_Compression candidate) |}.

(** [src/internal/receiverauthorization/grant.go:128-151 compileCandidate] *)
Definition compileCandidate (now : time) (candidate : Candidate) (publicKey : string) : result grant :=
  let compiledGrant := candidate_grant candidate publicKey in
  validateCandidateRules candidate;;
  validateGrant now compiledGrant;;
  Ok compiledGrant.

(** ** Compilation of all candidates *)

Context `{UnicodeTables}.

(** [owners[key] = append(owners[key], i)]. *)
Definition add_owner (m : gmap string (list nat)) (key : string) (i : nat) : gmap string (list nat) :=
  <[key := default [] (m !! key) ++ [i]]> m.

(** The variables of [compileCandidates] during its first loop. *)
Record compile_state := {
  cs_outcomes : list Outcome;
  cs_grants : list (option grant);
  cs_keyOwners : gmap string (list nat);
  cs_uidOwners : gmap string (list nat) }.

(** [src/internal/receiverauthorization/grant.go:74-101 compileCandidates] The first
    loop; outcomes and grants are filled in index order. *)
Fixpoint compile_loop (now : time) (i : nat) (candidates : list Candidate) (st : compile_state)
  : compile_state :=
  match candidates with
  | [] => st
  | candidate :: rest =>
      let uidOwners :=
        if c_TaskUID candidate ≠? "" then add_owner (cs_uidOwners st) (c_TaskUID candidate) i
        else cs_uidOwners st in
      let publicKey := canonicalPublicKey (c_AuthorizedPublicKey candidate) in
      let keyOwners :=
        match publicKey with
        | Ok key => add_owner (cs_keyOwners st) key i
        | Err _ => cs_keyOwners st
        end in
      let '(rejection, compiled) :=
        if c_TaskUID candidate ≟ "" then ("receive task UID is empty", None)
        else match publicKey with
        | Err keyErr => (Error keyErr, None)
        | Ok key =>
            match compileCandidate now candidate key with
            | Err err => (Error err, None)
            | Ok g => ("", Some g)
            end
        end in
      compile_loop now (S i) rest
        {| cs_outcomes := cs_outcomes st ++
             [{| o_TaskUID := c_TaskUID candidate; o_Rejection := rejection |}];
           cs_grants := cs_grants st ++ [compiled];
           cs_keyOwners := keyOwners; cs_uidOwners := uidOwners |}
  end.

(** [compiled.outcomes[owner].Rejection = reason]. *)
Definition set_rejection (reason : string) (o : Outcome) : Outcome :=
  {| o_TaskUID := o_TaskUID o; o_Rejection := reason |}.

(** [src/internal/receiverauthorization/grant.go:102-119 compileCandidates] The loop
    over one owner map, for its entries in the order of the iteration. *)
Definition reject_shared (reason : string) (entries : list (string * list nat))
  (st : list Outcome * list (option grant)) : list Outcome * list (option grant) :=
  foldl (λ st '(_, owners),
    if (length owners <? 2)%nat then st
    else foldl (λ '(outs, gs) owner,
      (alter (set_rejection reason) owner outs, <[owner := None]> gs)) st owners) st entries.

Definition uid_ambiguous : string :=
  "receive task UID is ambiguous within the active candidate set".
Definition key_ambiguous : string :=
  "authorized public key is ambiguous within the active candidate set".

(** [src/internal/receiverauthorization/grant.go:69-126 compileCandidates] [range]
    lists the entries of a map in the order a Go iteration visits them. *)
Definition compileCandidates (range : gmap string (list nat) → list (string * list nat))
  (now : time) (candidates : list Candidate) : compilation :=
  let st := compile_loop now 0 candidates
    {| cs_outcomes := []; cs_grants := []; cs_keyOwners := ∅; cs_uidOwners := ∅ |} in
  let '(outs, gs) :=
    reject_shared key_ambiguous (range (cs_keyOwners st))
      (reject_shared uid_ambiguous (range (cs_uidOwners st)) (cs_outcomes st, cs_grants st)) in
  {| grants := omap id gs; outcomes := outs |}.

End keys.

(** ** Identities *)

(** [src/internal/receiverauthorization/grant.go:216-219 grantID] *)
Definition grantID (taskUID : string) : string := "grant-" +:+ hex_encode (SHA.Sum256 taskUID).

(** [src/internal/receiverauthorization/authorization.go:225-235 validGrantID] *)
Definition validGrantID (id : string) : bool :=
  if negb (String.length id =? 6 + 64)%nat || negb (HasPrefix id "grant-") then false
  else all_runes (λ r, rune_between "0" "9" r || rune_between "a" "f" r) (str_drop 6 id).

(** [src/internal/receiverauthorization/grant.go:301-304 escapeAuthorizedKeysOption] *)
Definition escapeAuthorizedKeysOption (value : string) : string :=
  let value := ReplaceAll value backslash (backslash +:+ backslash) in
  ReplaceAll value dquote (backslash +:+ dquote).

(** [src/internal/receiverauthorization/authorization.go:265-276 readGrantPolicy] The
    policy of a stored grant. *)
Definition grant_policy (g : grant) : commandPolicy :=
  {| TargetDataset := g_TargetDataset g;
     ReceiveUnmounted := g_ReceiveUnmounted g;
     ReceiveResumable := g_ReceiveResumable g;
     AllowRollback := g_AllowRollback g;
     AllowDestroy := g_AllowDestroy g;
     AllowMount := g_AllowMount g;
     AllowSyncSnapshotDestroy := g_AllowSyncSnapshotDestroy g;
     AllowTargetSnapshotDestroy := g_AllowTargetSnapshotDestroy g;
     SyncSnapshotIdentifier := g_SyncSnapshotIdentifier g;
     Compression := g_Compression g |}.

(** [src/cmd/zfsrep-receiver/receiver_policy.go:8-25 receiveTaskCandidate] The
    candidate of a task for the allowed dataset prefixes of a receiver. *)
Definition receiveTaskCandidate (allowedPrefixes : list string) (task : ZFSReceiveTask) : Candidate :=
  let policy := ts_Policy (task_spec task) in
  {| c_TaskUID := om_uid (task_meta task);
     c_AuthorizedPublicKey := AuthorizedPublicKey (ts_SSH (task_spec task));
     c_ExpiresAt := ExpiresAt (ts_SSH (task_spec task));
     c_TargetDataset := ts_Dataset (task_spec task);
     c_ReceiverDatasetPrefixes := allowedPrefixes;
     c_ReceiveUnmounted := p_ReceiveUnmounted policy;
     c_ReceiveResumable := p_ReceiveResumable policy;
     c_AllowRollback := p_AllowRollback policy;
     c_AllowDestroy := p_AllowDestroy policy;
     c_AllowMount := p_AllowMount policy;
     c_AllowSyncSnapshotDestroy := p_AllowSyncSnapshotDestroy policy;
     c_AllowTargetSnapshotDestroy := p_AllowTargetSnapshotDestroy policy;
     c_SyncSnapshotIdentifier := p_SyncSnapshotIdentifier policy;
     c_Compression := p_Compression policy |}.

(** * What compilation means

    Declaratively: a candidate is judged on its own, and rejected in addition when
    its key or its UID occurs in another candidate of the same view. *)

Section specification.
Context `{SSHKeys} `{UnicodeTables}.

Definition key_of (c : Candidate) : option string :=
  match canonicalPublicKey (c_AuthorizedPublicKey c) with Ok key => Some key | Err _ => None end.

Definition uid_of (c : Candidate) : option string :=
  if decide (c_TaskUID c = "") then None else Some (c_TaskUID c).

(** The value [f c] exists and another candidate has it too. *)
Definition shared (f : Candidate → option string) (cs : list Candidate) (c : Candidate) : Prop :=
  is_Some (f c) ∧ (2 ≤ length (filter (λ c', f c' = f c) cs))%nat.

#[export] Instance shared_dec f cs c : Decision (shared f cs c).
Proof. apply _. Defined.

(** One candidate on its own. *)
Definition judge (now : time) (c : Candidate) : result grant :=
  fail_if (c_TaskUID c ≟ "") (errorf "receive task UID is empty" []);;
  key ← canonicalPublicKey (c_AuthorizedPublicKey c);
  compileCandidate now c key.

Definition rejection_of (now : time) (cs : list Candidate) (c : Candidate) : string :=
  if decide (shared key_of cs c) then key_ambiguous
  else if decide (shared uid_of cs c) then uid_ambiguous
  else match judge now c with Ok _ => "" | Err e => Error e end.

Definition grant_of (now : time) (cs : list Candidate) (c : Candidate) : option grant :=
  if decide (shared key_of cs c ∨ shared uid_of cs c) then None
  else match judge now c with Ok g => Some g | Err _ => None end.

Definition compile_spec (now : time) (cs : list Candidate) : compilation :=
  {| grants := omap (grant_of now cs) cs;
     outcomes := (λ c, {| o_TaskUID := c_TaskUID c; o_Rejection := rejection_of now cs c |}) <$> cs |}.

(** ** The first loop *)

Definition first_rejection (now : time) (c : Candidate) : string :=
  match judge now c with Ok _ => "" | Err e => Error e end.

Definition first_grant (now : time) (c : Candidate) : option grant :=
  match judge now c with Ok g => Some g | Err _ => None end.

Fixpoint add_owners (f : Candidate → option string) (i : nat) (cs : list Candidate)
  (m : gmap string (list nat)) : gmap string (list nat) :=
  match cs with
  | [] => m
  | c :: cs' => add_owners f (S i) cs' (match f c with Some k => add_owner m k i | None => m end)
  end.

Lemma compile_loop_spec now i cs st :
  compile_loop now i cs st =
  {| cs_outcomes := cs_outcomes st ++
       ((λ c, {| o_TaskUID := c_TaskUID c; o_Rejection := first_rejection now c |}) <$> cs);
     cs_grants := cs_grants st ++ (first_grant now <$> cs);
     cs_keyOwners := add_owners key_of i cs (cs_keyOwners st);
     cs_uidOwners := add_owners uid_of i cs (cs_uidOwners st) |}.
Proof.
  revert i st. induction cs as [|c cs IH]; intros i st.
  { cbn [compile_loop fmap list_fmap add_owners]. rewrite !app_nil_r. by destruct st. }
  cbn [compile_loop]. rewrite !fmap_cons. cbn [add_owners].
  assert ((if c_TaskUID c ≟ "" then ("receive task UID is empty", None)
    else match canonicalPublicKey (c_AuthorizedPublicKey c) with
    | Err keyErr => (Error keyErr, None)
    | Ok key => match compileCandidate now c key with
                | Err err => (Error err, None) | Ok g => ("", Some g) end
    end) = (first_rejection now c, first_grant now c)) as ->.
  { unfold first_rejection, first_grant, judge. case_bool_decide; [done|]. cbn [fail_if].
    rewrite ok_bind. destruct (canonicalPublicKey _); [|done]. rewrite ok_bind.
    by destruct (compileCandidate now c a). }
  rewrite IH. cbn [cs_outcomes cs_grants cs_keyOwners cs_uidOwners]. rewrite <- !app_assoc.
  f_equal.
  - assert (key_of c = match canonicalPublicKey (c_AuthorizedPublicKey c) with
                      | Ok key => Some key | Err _ => None end) as -> by done.
    by destruct (canonicalPublicKey (c_AuthorizedPublicKey c)).
  - replace (uid_of c) with (if c_TaskUID c ≠? "" then Some (c_TaskUID c) else None).
    + by destruct (c_TaskUID c ≠? "").
    + unfold uid_of. test (c_TaskUID c = "") as [?|?]; done.
Qed.

(** ** Owners *)

Fixpoint indices (f : Candidate → option string) (i : nat) (cs : list Candidate) (k : string)
  : list nat :=
  match cs with
  | [] => []
  | c :: cs' => (if decide (f c = Some k) then [i] else []) ++ indices f (S i) cs' k
  end.

Lemma add_owners_lookup f i cs m k :
  default [] (add_owners f i cs m !! k) = default [] (m !! k) ++ indices f i cs k.
Proof.
  revert i m. induction cs as [|c cs IH]; intros i m; cbn [add_owners indices].
  { by rewrite app_nil_r. }
  rewrite IH. destruct (f c) as [k'|] eqn:E; [|done]. unfold add_owner.
  destruct (decide (k' = k)) as [->|Hne].
  - rewrite lookup_insert_eq, decide_True by done. simpl. by rewrite <- app_assoc.
  - rewrite lookup_insert_ne, decide_False by congruence. done.
Qed.

Lemma indices_spec f i cs k j :
  j ∈ indices f i cs k ↔ ∃ n c, j = (i + n)%nat ∧ cs !! n = Some c ∧ f c = Some k.
Proof.
  revert i. induction cs as [|c cs IH]; intros i; cbn [indices].
  { rewrite elem_of_nil. naive_solver. }
  rewrite elem_of_app, IH. split.
  - intros [Hj|(n & c' & -> & Hn & Hf)].
    + case_decide; [|by apply elem_of_nil in Hj]. apply list_elem_of_singleton in Hj as ->.
      exists 0%nat, c. split; [lia|done].
    + exists (S n), c'. split; [lia|done].
  - intros ([|n] & c' & -> & Hn & Hf); simpl in Hn.
    + simplify_eq. left. rewrite decide_True by done. rewrite list_elem_of_singleton. lia.
    + right. exists n, c'. split; [lia|done].
Qed.

Lemma indices_length f i cs k :
  length (indices f i cs k) = length (filter (λ c, f c = Some k) cs).
Proof.
  revert i. induction cs as [|c cs IH]; intros i; [done|]. cbn [indices].
  rewrite length_app, IH, filter_cons. by case_decide.
Qed.

(** An index is in a shared owner list exactly when its candidate is shared. *)
Lemma owners_shared f cs j c :
  cs !! j = Some c →
  (∃ k os, add_owners f 0 cs ∅ !! k = Some os ∧ (2 ≤ length os)%nat ∧ j ∈ os) ↔ shared f cs c.
Proof.
  intros Hj.
  assert (∀ k, default [] (add_owners f 0 cs ∅ !! k) = indices f 0 cs k) as Hl.
  { intros k. by rewrite add_owners_lookup, lookup_empty. }
  split.
  - intros (k & os & Hk & Hlen & Hin). specialize (Hl k). rewrite Hk in Hl. simpl in Hl. subst os.
    apply indices_spec in Hin as (n & c' & -> & Hn & Hf). simpl in Hj. simplify_eq.
    split; [by eexists|]. by rewrite Hf, <- (indices_length f 0).
  - intros [[k Hk] Hlen]. rewrite Hk in Hlen. rewrite <- (indices_length f 0) in Hlen.
    exists k, (indices f 0 cs k). split_and!; [|done|].
    + specialize (Hl k). destruct (add_owners f 0 cs ∅ !! k); simpl in Hl; [by subst|].
      rewrite <- Hl in Hlen. simpl in Hlen. lia.
    + apply indices_spec. exists j, c. done.
Qed.

(** ** Rejection of shared entries *)

Definition hit (entries : list (string * list nat)) (j : nat) : Prop :=
  Exists (λ e, (2 ≤ length e.2)%nat ∧ j ∈ e.2) entries.

#[local] Instance hit_dec entries j : Decision (hit entries j).
Proof. unfold hit. apply _. Defined.

Definition reject_step (reason : string) (st : list Outcome * list (option grant)) (owner : nat)
  : list Outcome * list (option grant) :=
  (alter (set_rejection reason) owner st.1, <[owner := None]> st.2).

Lemma reject_owners_lookup reason os st j :
  (foldl (reject_step reason) st os).1 !! j =
    (if decide (j ∈ os) then set_rejection reason <$> st.1 !! j else st.1 !! j) ∧
  (foldl (reject_step reason) st os).2 !! j =
    (if decide (j ∈ os) then (λ _, None) <$> st.2 !! j else st.2 !! j).
Proof.
  revert st. induction os as [|o os IH]; intros st; [done|]. simpl foldl.
  destruct (IH (reject_step reason st o)) as [-> ->]. unfold reject_step. cbn [fst snd].
  rewrite list_lookup_alter, list_lookup_set.
  destruct (decide (o = j)) as [->|Hne].
  - rewrite !(decide_True (P := j ∈ j :: os)) by (by left).
    case_decide; [|done]. by destruct (st.1 !! j), (st.2 !! j).
  - destruct (decide (j ∈ os)) as [Hin|Hin].
    + by rewrite !decide_True by (by right).
    + by rewrite !decide_False by (rewrite elem_of_cons; naive_solver).
Qed.

Lemma reject_shared_lookup reason entries st j :
  (reject_shared reason entries st).1 !! j =
    (if decide (hit entries j) then set_rejection reason <$> st.1 !! j else st.1 !! j) ∧
  (reject_shared reason entries st).2 !! j =
    (if decide (hit entries j) then (λ _, None) <$> st.2 !! j else st.2 !! j).
Proof.
  revert st. induction entries as [|[k os] entries IH]; intros st.
  { by rewrite !decide_False by (by intros ?%Exists_nil). }
  unfold reject_shared. simpl foldl. fold (reject_shared reason entries).
  assert (hit ((k, os) :: entries) j ↔ ((2 ≤ length os)%nat ∧ j ∈ os) ∨ hit entries j) as Hh.
  { unfold hit. by rewrite Exists_cons. }
  destruct (Nat.ltb_spec (length os) 2) as [Hlt|Hge].
  - destruct (IH st) as [H1 H2]. unfold reject_shared in H1, H2. rewrite H1, H2.
    assert (hit ((k, os) :: entries) j ↔ hit entries j) as Hh' by (rewrite Hh; naive_solver lia).
    by rewrite !(decide_ext _ _ _ _ Hh').
  - assert (foldl (λ '(outs, gs) owner, (alter (set_rejection reason) owner outs, <[owner:=None]> gs))
      st os = foldl (reject_step reason) st os) as ->.
    { clear. revert st. induction os as [|o os IH]; intros [outs gs]; [done|]. apply IH. }
    destruct (IH (foldl (reject_step reason) st os)) as [H1 H2]. unfold reject_shared in H1, H2.
    rewrite H1, H2. destruct (reject_owners_lookup reason os st j) as [-> ->].
    destruct (decide (j ∈ os)) as [Hin|Hin], (decide (hit entries j)) as [Hhit|Hhit].
    + rewrite !decide_True by (rewrite Hh; auto). by destruct (st.1 !! j), (st.2 !! j).
    + by rewrite !decide_True by (rewrite Hh; auto).
    + by rewrite !decide_True by (rewrite Hh; auto).
    + by rewrite !decide_False by (rewrite Hh; naive_solver).
Qed.

(** ** The compilation *)

Lemma hit_owners range f cs j c :
  (∀ m : gmap string (list nat), range m ≡ₚ map_to_list m) → cs !! j = Some c →
  hit (range (add_owners f 0 cs ∅)) j ↔ shared f cs c.
Proof.
  intros Hr Hj. rewrite <- (owners_shared f cs j c Hj). unfold hit.
  rewrite (Hr (add_owners f 0 cs ∅)), Exists_exists. split.
  - intros ([k os] & Hin & Hlen & Hj'). apply elem_of_map_to_list in Hin. eauto.
  - intros (k & os & Hk & Hlen & Hj'). exists (k, os). by rewrite elem_of_map_to_list.
Qed.

(** What the loops of [compileCandidates] compute, in any order of the maps. *)
Lemma compile_meaning range now cs :
  (∀ m : gmap string (list nat), range m ≡ₚ map_to_list m) →
  compileCandidates range now cs = compile_spec now cs.
Proof.
  intros Hr. unfold compileCandidates, compile_spec. rewrite compile_loop_spec.
  cbn [cs_outcomes cs_grants cs_keyOwners cs_uidOwners app].
  set (st0 := (_, first_grant now <$> cs)). set (st1 := reject_shared uid_ambiguous _ st0).
  set (st2 := reject_shared key_ambiguous _ st1). rewrite (surjective_pairing st2). f_equal.
  - assert (st2.2 = grant_of now cs <$> cs) as ->; [|apply omap_id_fmap].
    apply list_eq. intros j. unfold st2. rewrite (proj2 (reject_shared_lookup _ _ _ _)).
    unfold st1. rewrite (proj2 (reject_shared_lookup _ _ _ _)). unfold st0. cbn [snd].
    rewrite !list_lookup_fmap. destruct (cs !! j) as [c|] eqn:Hj.
    2: { by repeat case_decide. }
    rewrite !(decide_ext _ _ _ _ (hit_owners range _ _ _ _ Hr Hj)). simpl. unfold grant_of.
    repeat case_decide; try done; exfalso; naive_solver.
  - apply list_eq. intros j. unfold st2. rewrite (proj1 (reject_shared_lookup _ _ _ _)).
    unfold st1. rewrite (proj1 (reject_shared_lookup _ _ _ _)). unfold st0. cbn [fst].
    rewrite !list_lookup_fmap. destruct (cs !! j) as [c|] eqn:Hj.
    2: { by repeat case_decide. }
    rewrite !(decide_ext _ _ _ _ (hit_owners range _ _ _ _ Hr Hj)). simpl. unfold rejection_of.
    repeat case_decide; try done; exfalso; naive_solver.
Qed.

(** ** Outcomes *)

(** Every error of a call has text. *)
Definition all_worded {A} (r : result A) : Prop := ∀ e, r = Err e → worded e.

Lemma worded_errorf c f args : c ≠ "%"%char → worded (errorf (String c f) args).
Proof. intros Hc. by exists c, f, args. Qed.

Lemma all_worded_bind {A B} (r : result A) (f : A → result B) :
  all_worded r → (∀ a, all_worded (f a)) → all_worded (r ≫= f).
Proof. intros Hr Hf. destruct r as [a|e]; [apply Hf|]. intros ? [= <-]. by apply Hr. Qed.

Lemma all_worded_fail_if b e : worded e → all_worded (fail_if b e).
Proof. intros He. destruct b; [|done]. by intros ? [= <-]. Qed.

Lemma all_worded_wrap {A} (r : result A) f : (∀ e, worded (f e)) → all_worded (wrap_err r f).
Proof. intros Hf. destruct r; [done|]. intros ? [= <-]. apply Hf. Qed.

Lemma all_worded_for_each {A} (f : A → result unit) l :
  (∀ x, all_worded (f x)) → all_worded (for_each f l).
Proof.
  intros Hf. induction l as [|x l IH]; [done|]. simpl. destruct (f x) as [[]|e] eqn:E; [done|].
  intros ? [= <-]. by apply (Hf x).
Qed.

Ltac worded_steps := repeat first
  [ apply all_worded_bind; [|intros ?] | apply all_worded_fail_if | apply all_worded_wrap; intros ?
  | apply all_worded_for_each; intros ? | apply worded_errorf; discriminate
  | case_match | intros ? [= <-] | discriminate ].

Lemma judge_worded now c : all_worded (judge now c).
Proof.
  unfold judge, compileCandidate, validateCandidateRules, validateGrant, canonicalPublicKey. cbv zeta.
  worded_steps.
Qed.

(** A candidate is accepted exactly when it is granted. *)
Lemma accepted_granted now cs c : rejection_of now cs c = "" ↔ is_Some (grant_of now cs c).
Proof.
  unfold rejection_of, grant_of.
  destruct (decide (shared key_of cs c)), (decide (shared uid_of cs c)); rewrite ?decide_True by tauto;
    try (split; [done|by intros []]).
  rewrite decide_False by tauto. destruct (judge now c) as [g|e] eqn:Ej; [by split; [eexists|]|].
  split; [|by intros []]. intros He. by apply judge_worded, worded_text in Ej.
Qed.

(** C17. Whatever order Go visits the owner maps in, compilation gives every
    candidate the outcome it has on its own unless its UID or its key occurs twice
    in the view, in which case no candidate that shares it is granted; and the
    candidates reported as accepted are exactly those granted. *)
Theorem compileCandidates_spec range now cs :
  (∀ m : gmap string (list nat), range m ≡ₚ map_to_list m) →
  compileCandidates range now cs = compile_spec now cs ∧
  ∀ i c, cs !! i = Some c →
    ∃ o, outcomes (compileCandidates range now cs) !! i = Some o ∧ o_TaskUID o = c_TaskUID c ∧
      (o_Rejection o = "" ↔ ∃ g, grant_of now cs c = Some g ∧
         g ∈ grants (compileCandidates range now cs) ∧ g_TaskUID g = c_TaskUID c).
Proof.
  intros Hr. rewrite compile_meaning by done. split; [done|]. intros i c Hi.
  eexists. cbn [outcomes compile_spec]. rewrite list_lookup_fmap, Hi. split_and!; [done|done|].
  cbn [o_Rejection]. rewrite accepted_granted. split; [|by intros (g & -> & _)].
  intros [g Hg]. exists g. split_and!; [done| |].
  - apply list_elem_of_omap. exists c. split; [by eapply list_elem_of_lookup_2|done].
  - unfold grant_of in Hg. case_decide; [done|]. destruct (judge now c) as [g'|] eqn:Ej; [|done].
    injection Hg as <-. unfold judge in Ej. apply guard_Ok in Ej as [_ Ej].
    apply bind_Ok in Ej as (key & _ & Ej). unfold compileCandidate in Ej. cbv zeta in Ej.
    rewrite !seq_Ok in Ej. by destruct Ej as (_ & _ & [= <-]).
Qed.

End specification.

(** * Properties of grants *)

Section properties.
Context `{SSHKeys} `{UnicodeTables}.
Context (range : gmap string (list nat) → list (string * list nat)).
Context (range_perm : ∀ m : gmap string (list nat), range m ≡ₚ map_to_list m).

(** What [validateGrant] demands. *)
Definition grant_valid (now : time) (g : grant) : Prop :=
  g_TaskUID g ≠ "" ∧ is_ok (canonicalPublicKey (g_AuthorizedPublicKey g)) = true ∧
  ValidDatasetName (g_TargetDataset g) = true ∧
  g_Compression g ≠ "" ∧ CompressionSupported (g_Compression g) = true ∧
  (g_SyncSnapshotIdentifier g = "" ∨ ValidIdentifier (g_SyncSnapshotIdentifier g) = true) ∧
  (g_AllowSyncSnapshotDestroy g = true → g_SyncSnapshotIdentifier g ≠ "") ∧
  now < g_ExpiresAt g ≤ now + maximumLeaseHorizon.

Lemma validateGrant_Ok now g : validateGrant now g = Ok tt ↔ grant_valid now g.
Proof.
  unfold validateGrant, grant_valid. rewrite guard_Ok.
  assert (∀ k : result unit, (canonicalPublicKey (g_AuthorizedPublicKey g);; k) = Ok tt ↔
    is_ok (canonicalPublicKey (g_AuthorizedPublicKey g)) = true ∧ k = Ok tt) as Hk.
  { intros k. destruct (canonicalPublicKey _); [rewrite ok_bind; cbn [is_ok]; tauto|].
    by split; [|intros []]. }
  rewrite Hk, !guard_Ok, fail_if_Ok.
  rewrite orb_false_iff, !andb_false_iff, !negb_false_iff, !bool_decide_eq_false, !bool_decide_eq_true.
  rewrite After_spec, After_false. unfold Add.
  destruct (g_AllowSyncSnapshotDestroy g); intuition (try done; lia).
Qed.

Lemma validateCandidateRules_Ok c :
  validateCandidateRules c = Ok tt ↔
  Forall (λ pre, ValidDatasetName pre = true) (c_ReceiverDatasetPrefixes c) ∧
  (c_ReceiverDatasetPrefixes c = [] ∨
   ∃ pre, pre ∈ c_ReceiverDatasetPrefixes c ∧ DatasetOrChild (c_TargetDataset c) pre = true).
Proof.
  unfold validateCandidateRules. rewrite seq_Ok, for_each_Ok.
  assert (Forall (λ x, fail_if (negb (ValidDatasetName x))
    (errorf "invalid receiver dataset prefix %q" [FStr x]) = Ok tt) (c_ReceiverDatasetPrefixes c) ↔
    Forall (λ pre, ValidDatasetName pre = true) (c_ReceiverDatasetPrefixes c)) as ->.
  { apply Forall_iff. intros pre. by rewrite fail_if_Ok, negb_false_iff. }
  apply and_iff_compat_l. destruct (c_ReceiverDatasetPrefixes c) as [|q qs]; [naive_solver|].
  rewrite <- existsb_elem. destruct (existsb _ _); naive_solver.
Qed.

Lemma judge_Ok now c g :
  judge now c = Ok g ↔
  ∃ key, key_of c = Some key ∧ g = candidate_grant c key ∧
    validateCandidateRules c = Ok tt ∧ grant_valid now g.
Proof.
  unfold judge, key_of. rewrite guard_Ok, bool_decide_eq_false. split.
  - intros [Hu Hj]. apply bind_Ok in Hj as (key & Hk & Hc). exists key. rewrite Hk.
    unfold compileCandidate in Hc. cbv zeta in Hc. rewrite !seq_Ok in Hc.
    destruct Hc as (Hr & Hg & [= <-]). split_and!; try done. by apply validateGrant_Ok.
  - intros (key & Hk & -> & Hr & Hg). split; [by destruct Hg|].
    destruct (canonicalPublicKey (c_AuthorizedPublicKey c)) as [key'|]; [|done]. simplify_eq.
    rewrite ok_bind. unfold compileCandidate. cbv zeta. rewrite !seq_Ok. split; [done|].
    split; [by apply validateGrant_Ok|done].
Qed.

Lemma grant_of_Some now cs c g :
  grant_of now cs c = Some g ↔
  ¬ shared key_of cs c ∧ ¬ shared uid_of cs c ∧ judge now c = Ok g.
Proof.
  unfold grant_of. case_decide; [naive_solver|]. destruct (judge now c); naive_solver.
Qed.

(** C18. Every grant of a compilation comes from a candidate of the view, is valid
    at the time of the compilation, stays within the allowed dataset prefixes and
    expires after now and within thirty-five minutes. *)
Theorem compile_grants_sound now cs g :
  g ∈ grants (compileCandidates range now cs) →
  ∃ c key, c ∈ cs ∧ key_of c = Some key ∧ g = candidate_grant c key ∧ grant_valid now g ∧
    (c_ReceiverDatasetPrefixes c = [] ∨
     ∃ pre, pre ∈ c_ReceiverDatasetPrefixes c ∧ DatasetOrChild (g_TargetDataset g) pre = true).
Proof.
  rewrite compile_meaning by done. unfold compile_spec. cbn [grants].
  rewrite list_elem_of_omap. intros (c & Hc & Hg). apply grant_of_Some in Hg as (_ & _ & Hj).
  apply judge_Ok in Hj as (key & Hk & -> & Hr & Hv). exists c, key.
  apply validateCandidateRules_Ok in Hr as [_ Hr]. done.
Qed.

(** At most one candidate of a view has a value that is not shared. *)
Lemma not_shared_unique f cs i j ci cj :
  cs !! i = Some ci → cs !! j = Some cj → is_Some (f ci) → f ci = f cj → ¬ shared f cs ci → i = j.
Proof.
  intros Hi Hj Hs Hf Hn. destruct (decide (i = j)) as [|Hne]; [done|]. destruct Hn. split; [done|].
  revert i j Hi Hj Hne. induction cs as [|c cs IH]; intros [|i] [|j] Hi Hj Hne; simpl in *;
    try done; simplify_eq; rewrite filter_cons.
  - rewrite decide_True by done. simpl.
    assert (cj ∈ filter (λ c', f c' = f ci) cs) as Hin.
    { apply list_elem_of_filter. split; [done|]. by eapply list_elem_of_lookup_2. }
    destruct (filter _ cs); [by apply elem_of_nil in Hin|simpl; lia].
  - rewrite decide_True by done. simpl.
    assert (ci ∈ filter (λ c', f c' = f ci) cs) as Hin.
    { apply list_elem_of_filter. split; [done|]. by eapply list_elem_of_lookup_2. }
    destruct (filter _ cs); [by apply elem_of_nil in Hin|simpl; lia].
  - specialize (IH i j Hi Hj ltac:(congruence)). case_decide; simpl; lia.
Qed.

Lemma NoDup_omap_key {A B} (h : Candidate → option A) (k : A → B) cs :
  (∀ i j ci cj a b, cs !! i = Some ci → cs !! j = Some cj → h ci = Some a → h cj = Some b →
    k a = k b → i = j) →
  NoDup (k <$> omap h cs).
Proof.
  induction cs as [|c cs IH]; intros Hinj; [constructor|].
  assert (NoDup (k <$> omap h cs)) as Hnd.
  { apply IH. intros i j ci cj a b Hi Hj Ha Hb Hk.
    specialize (Hinj (S i) (S j) ci cj a b Hi Hj Ha Hb Hk). lia. }
  cbn [omap list_omap]. destruct (h c) as [a|] eqn:Ha; [|done]. rewrite fmap_cons.
  constructor; [|done]. rewrite list_elem_of_fmap. intros (b & Hk & Hb).
  apply list_elem_of_omap in Hb as (c' & Hc' & Hb). apply list_elem_of_lookup in Hc' as [i Hi].
  by specialize (Hinj 0%nat (S i) c c' a b eq_refl Hi Ha Hb Hk).
Qed.

(** No two grants of a compilation are for the same task or accept the same
    public key. *)
Theorem compile_grants_unique now cs :
  NoDup (g_TaskUID <$> grants (compileCandidates range now cs)) ∧
  NoDup (g_AuthorizedPublicKey <$> grants (compileCandidates range now cs)).
Proof.
  rewrite compile_meaning by done. unfold compile_spec. cbn [grants].
  split; apply NoDup_omap_key; intros i j ci cj a b Hi Hj Ha Hb Hk;
    apply grant_of_Some in Ha as (Hnk & Hnu & Ha), Hb as (_ & _ & Hb);
    apply judge_Ok in Ha as (ka & Hka & -> & _ & Hva), Hb as (kb & Hkb & -> & _ & _);
    cbn [g_TaskUID g_AuthorizedPublicKey candidate_grant] in Hk.
  - destruct Hva as [Hne _]. cbn [g_TaskUID candidate_grant] in Hne.
    apply (not_shared_unique uid_of cs i j ci cj); try done; unfold uid_of.
    + by rewrite decide_False.
    + by rewrite Hk.
  - apply (not_shared_unique key_of cs i j ci cj);
      [done|done|by rewrite Hka|by rewrite Hka, Hkb, Hk|done].
Qed.

(** The order of the candidates does not matter: a permuted view gives the
    same grants, permuted. *)
Theorem compile_grants_perm now cs cs' :
  cs ≡ₚ cs' →
  grants (compileCandidates range now cs) ≡ₚ grants (compileCandidates range now cs').
Proof.
  intros Hp. rewrite !compile_meaning by done. unfold compile_spec. cbn [grants].
  assert (∀ f c, shared f cs c ↔ shared f cs' c) as Hs.
  { intros f c. unfold shared. by rewrite Hp. }
  transitivity (omap (grant_of now cs) cs'); [by apply omap_Permutation|].
  erewrite list_omap_ext; [done|]. apply Forall2_same_length_lookup_2; [done|].
  intros i x y Hx Hy. simplify_eq. unfold grant_of.
  assert (shared key_of cs x ∨ shared uid_of cs x ↔ shared key_of cs' x ∨ shared uid_of cs' x) as E
    by by rewrite !Hs.
  by rewrite (decide_ext _ _ _ _ E).
Qed.

End properties.

(** ** From a contract to an admitted receive *)

Section contract.
Context `{SSHLaws} `{UnicodeTables}.

Lemma marshal_nonempty k : TrimSpace (MarshalAuthorizedKey k) ≠ "".
Proof. intros E. pose proof parse_empty as He. by rewrite <- E, parse_marshal in He. Qed.

(** A canonical key is its own canonical form. *)
Lemma canonicalPublicKey_fixpoint raw key :
  canonicalPublicKey raw = Ok key → canonicalPublicKey key = Ok key.
Proof.
  intros E. unfold canonicalPublicKey in E. cbv zeta in E. rewrite guard_Ok in E.
  destruct E as [_ E]. apply bind_Ok in E as ([[[k ?] ?] ?] & _ & E). rewrite !guard_Ok in E.
  destruct E as (_ & _ & [= <-]). unfold canonicalPublicKey. cbv zeta. rewrite TrimSpace_idemp.
  rewrite bool_decide_false by apply marshal_nonempty. cbn [fail_if]. rewrite ok_bind, parse_marshal.
  done.
Qed.

(** The receive task of a run's contract, whatever its other fields. *)
Definition task_of_contract (run : ZFSReplicationRun) (c : Contract) (task : ZFSReceiveTask) : Prop :=
  ts_Dataset (task_spec task) = Dataset (Target (run_spec run)) ∧
  ts_Policy (task_spec task) = ReceiverPolicy c.

Lemma contract_judge run c task now prefixes key :
  Translate (Some run) = Ok c → task_of_contract run c task →
  om_uid (task_meta task) ≠ "" →
  canonicalPublicKey (AuthorizedPublicKey (ts_SSH (task_spec task))) = Ok key →
  now < ExpiresAt (ts_SSH (task_spec task)) ≤ now + maximumLeaseHorizon →
  validateCandidateRules (receiveTaskCandidate prefixes task) = Ok tt →
  judge now (receiveTaskCandidate prefixes task) =
    Ok (candidate_grant (receiveTaskCandidate prefixes task) key).
Proof.
  intros HT [Hd Hp] Hu Hk Hexp Hr. apply judge_Ok. exists key.
  split; [unfold key_of; cbn [c_AuthorizedPublicKey receiveTaskCandidate]; by rewrite Hk|].
  split; [done|]. split; [done|]. apply Translate_Ok in HT as (_ & Ht & Hc & ->).
  set (o := normalize _) in *.
  assert (CompressionDefault (compression o) ≠ "" ∧
          CompressionSupported (CompressionDefault (compression o)) = true) as [Hne Hs].
  { unfold CompressionDefault. case_bool_decide as E; [by split|done]. }
  unfold grant_valid. cbn [candidate_grant receiveTaskCandidate g_TaskUID g_AuthorizedPublicKey
    g_TargetDataset g_Compression g_SyncSnapshotIdentifier g_AllowSyncSnapshotDestroy g_ExpiresAt
    c_TaskUID c_TargetDataset c_Compression c_SyncSnapshotIdentifier c_AllowSyncSnapshotDestroy
    c_ExpiresAt].
  rewrite Hd, Hp, (canonicalPublicKey_fixpoint _ _ Hk).
  cbn [ReceiverPolicy receiverPolicy policy_of with_identifier p_Compression
    p_SyncSnapshotIdentifier identifier compression].
  pose proof (relationshipIdentifier_valid_id run) as Hid.
  do 5 (split; [done|]). split; [by right|]. split; [|done].
  intros _ E. rewrite E in Hid. discriminate Hid.
Qed.

(** The task is alone in the view with its UID and its key. *)
Definition alone (cs : list Candidate) (c : Candidate) : Prop :=
  c ∈ cs ∧ ¬ shared key_of cs c ∧ ¬ shared uid_of cs c.


End contract.

(** ** Concrete keys, tasks and views *)

Definition sample_task (run : ZFSReplicationRun) (policy : ReceiveTaskPolicy) : ZFSReceiveTask :=
  {| task_meta := new_meta "receive" "default" ∅ ;
     task_spec := {| ts_NodeName := "node-b"; ts_Dataset := Dataset (Target (run_spec run));
                     ts_SSH := {| AuthorizedPublicKey := "ssh-ed25519 AAAA";
                                  ExpiresAt := 30 * Minute |};
                     ts_Policy := policy |};
     task_status := empty_task_status |}.

Definition with_uid (task : ZFSReceiveTask) (uid : string) : ZFSReceiveTask :=
  {| task_meta :=
       {| om_name := om_name (task_meta task); om_namespace := om_namespace (task_meta task);
          om_uid := uid; om_labels := ∅; om_annotations := ∅; om_creation := 0;
          om_deletion := None; om_owners := [] |};
     task_spec := task_spec task; task_status := task_status task |}.

Definition sample_contract : Contract :=
  Eval vm_compute in
    match Translate (Some (sample_run "nightly" "u1")) with
    | Ok c => c
    | Err _ => {| sourceDataset := ""; targetDataset := "";
                  contract_options := normalize (Api.Syncoid sample_spec);
                  receiverPolicy := policy_of (normalize (Api.Syncoid sample_spec)) |}
    end.

Definition sample_candidate : Candidate :=
  receiveTaskCandidate ["backup"]
    (with_uid (sample_task (sample_run "nightly" "u1") (receiverPolicy sample_contract)) "t1").

(** Three candidates: the second has the key of the third in another spelling. *)
Definition second_candidate : Candidate :=
  {| c_TaskUID := "t2"; c_AuthorizedPublicKey := " ssh-ed25519 BBBB"; c_ExpiresAt := 30 * Minute;
     c_TargetDataset := "backup/x"; c_ReceiverDatasetPrefixes := []; c_ReceiveUnmounted := true;
     c_ReceiveResumable := false; c_AllowRollback := false; c_AllowDestroy := false;
     c_AllowMount := false; c_AllowSyncSnapshotDestroy := false;
     c_AllowTargetSnapshotDestroy := false; c_SyncSnapshotIdentifier := "";
     c_Compression := "" |}.

Definition third_candidate : Candidate :=
  {| c_TaskUID := "t3"; c_AuthorizedPublicKey := "ssh-ed25519 BBBB"; c_ExpiresAt := 30 * Minute;
     c_TargetDataset := "backup/y"; c_ReceiverDatasetPrefixes := []; c_ReceiveUnmounted := true;
     c_ReceiveResumable := false; c_AllowRollback := false; c_AllowDestroy := false;
     c_AllowMount := false; c_AllowSyncSnapshotDestroy := false;
     c_AllowTargetSnapshotDestroy := false; c_SyncSnapshotIdentifier := "";
     c_Compression := "" |}.

Definition sample_view : list Candidate := [sample_candidate; second_candidate; third_candidate].

Example compile_view :
  let _ := two_keys in let _ := Names.ascii_tables in
  o_Rejection <$> outcomes (compileCandidates map_to_list 0 sample_view) =
  [""; key_ambiguous; key_ambiguous].
Proof. vm_compute. reflexivity. Qed.

Lemma compileCandidates_spec_witness :
  @compileCandidates two_keys Names.ascii_tables map_to_list 0 sample_view =
  @compile_spec two_keys Names.ascii_tables 0 sample_view.
Proof.
  apply (@compileCandidates_spec two_keys Names.ascii_tables map_to_list 0 sample_view).
  intros m. reflexivity.
Defined.

Lemma compile_grants_sound_witness :
  @grant_valid two_keys 0 (candidate_grant sample_candidate "ssh-ed25519 AAAA").
Proof.
  destruct (@compile_grants_sound two_keys Names.ascii_tables map_to_list (λ m, reflexivity _) 0
    sample_view (candidate_grant sample_candidate "ssh-ed25519 AAAA"))
    as (c & key & _ & _ & _ & Hv & _); [|exact Hv].
  vm_compute. left.
Defined.

Lemma compile_grants_unique_witness :
  NoDup (g_TaskUID <$> grants (@compileCandidates two_keys Names.ascii_tables map_to_list 0 sample_view)).
Proof.
  apply (@compile_grants_unique two_keys Names.ascii_tables map_to_list (λ m, reflexivity _) 0
    sample_view).
Defined.

Lemma compile_grants_perm_witness :
  grants (@compileCandidates two_keys Names.ascii_tables map_to_list 0
    [sample_candidate; second_candidate]) ≡ₚ
  grants (@compileCandidates two_keys Names.ascii_tables map_to_list 0
    [second_candidate; sample_candidate]).
Proof.
  apply (@compile_grants_perm two_keys Names.ascii_tables map_to_list (λ m, reflexivity _)).
  apply perm_swap.
Defined.

