(* ===== verification/Effects.v ===== *)
(** * Effectful programs

    A Go function that talks to its environment is a tree of calls: each node is
    an operation, with a continuation for every answer the environment may give.
    Nothing is assumed of the answers, so a property of all executions covers
    stale caches, injected faults and every interference of other processes. *)
From S2P Require Import Prelude.

(** An operation signature: the operations and the answers each may get. *)
Record sig := Sig { op : Type; ans : op → Type }.

Inductive prog (E : sig) (A : Type) : Type :=
  | Ret (a : A)
  | Call (o : op E) (k : ans E o → prog E A).
Arguments Ret {E A} a.
Arguments Call {E A} o k.

Fixpoint prog_bind {E A B} (f : A → prog E B) (p : prog E A) : prog E B :=
  match p with
  | Ret a => f a
  | Call o k => Call o (λ x, prog_bind f (k x))
  end.

#[export] Instance prog_mret E : MRet (prog E) := @Ret E.
#[export] Instance prog_mbind E : MBind (prog E) := λ A B f p, prog_bind f p.

(** One operation, answered. *)
Definition call {E : sig} (o : op E) : prog E (ans E o) := Call o Ret.

(** Propagate the error of a call: [x, err := p; if err != nil { return err }]. *)
Definition bind_result {E A B} (p : prog E (result A)) (f : A → prog E (result B)) :
  prog E (result B) :=
  r ← p; match r with Ok a => f a | Err e => Ret (Err e) end.

Notation "x ←? p ; q" := (bind_result p (λ x, q))
  (at level 20, p at level 100, q at level 200, only parsing) : go_scope.
Notation "' x ←? p ; q" := (bind_result p (λ y, match y with x => q end))
  (at level 20, x pattern, p at level 100, q at level 200, only parsing) : go_scope.

(** [if err := p; err != nil { return err }] in a function returning an error. *)
Definition then_err {E} (p q : prog E goerr) : prog E goerr :=
  e ← p; match e with Some e' => Ret (Some e') | None => q end.
Notation "p ;;? q" := (then_err p q) (at level 100, q at level 200, right associativity) : go_scope.

(** ** Executions *)

(** A call and the answer it got. *)
Record event (E : sig) := Event { ev_op : op E; ev_ans : ans E ev_op }.
Arguments Event {E} ev_op ev_ans.
Arguments ev_op {E} _.
Arguments ev_ans {E} _.

Inductive exec {E A} : prog E A → list (event E) → A → Prop :=
  | exec_ret a : exec (Ret a) [] a
  | exec_call o x k tr a : exec (k x) tr a → exec (Call o k) (Event o x :: tr) a.

Lemma exec_inv {E A} (p : prog E A) tr a :
  exec p tr a →
  match p with
  | Ret b => tr = [] ∧ b = a
  | Call o k => ∃ x tr', tr = Event o x :: tr' ∧ exec (k x) tr' a
  end.
Proof. destruct 1; naive_solver. Qed.

(** ** Executions of composed programs *)

Lemma exec_bind {E A B} (p : prog E A) (f : A → prog E B) tr b :
  exec (p ≫= f) tr b → ∃ t1 t2 a, tr = t1 ++ t2 ∧ exec p t1 a ∧ exec (f a) t2 b.
Proof.
  revert tr. induction p as [a|o k IH]; intros tr Hx.
  - exists [], tr, a. split_and!; [done|constructor|done].
  - apply exec_inv in Hx as (x & tr' & -> & Hx). apply IH in Hx as (t1 & t2 & a & -> & Hp & Hf).
    exists (Event o x :: t1), t2, a. split_and!; [done|by constructor|done].
Qed.

Lemma exec_bind_intro {E A B} (p : prog E A) (f : A → prog E B) t1 t2 a b :
  exec p t1 a → exec (f a) t2 b → exec (p ≫= f) (t1 ++ t2) b.
Proof. intros Hp Hf. induction Hp as [a|o x k tr a _ IH]; [done|]. constructor. by apply IH. Qed.

Lemma exec_Ret {E A} (a b : A) (tr : list (event E)) : exec (Ret a) tr b ↔ tr = [] ∧ a = b.
Proof. split; [intros Hx; by apply exec_inv in Hx as [-> ->]|intros [-> ->]; constructor]. Qed.

Lemma exec_op {E A} (o : op E) (f : ans E o → prog E A) tr b :
  exec (call (E := E) o ≫= f) tr b → ∃ x t, tr = Event o x :: t ∧ exec (f x) t b.
Proof. intros Hx. apply exec_inv in Hx as (x & t & -> & Hx). by exists x, t. Qed.

Lemma exec_call_inv {E} (o : op E) tr b : exec (call (E := E) o) tr b → tr = [Event o b].
Proof. intros Hx. apply exec_inv in Hx as (x & t & -> & Hx). by apply exec_Ret in Hx as [-> ->]. Qed.

Lemma exec_then_err {E} (p q : prog E goerr) tr :
  exec (p ;;? q) tr None ↔ ∃ t1 t2, tr = t1 ++ t2 ∧ exec p t1 None ∧ exec q t2 None.
Proof.
  split.
  - intros Hx. apply exec_bind in Hx as (t1 & t2 & [e|] & -> & Hp & Hq); [by apply exec_Ret in Hq as [_ ?]|].
    by exists t1, t2.
  - intros (t1 & t2 & -> & Hp & Hq). by apply (exec_bind_intro p _ t1 t2 None).
Qed.

Lemma exec_bind_result {E A B} (p : prog E (result A)) (f : A → prog E (result B)) tr b :
  exec (bind_result p f) tr (Ok b) ↔ ∃ t1 t2 a, tr = t1 ++ t2 ∧ exec p t1 (Ok a) ∧ exec (f a) t2 (Ok b).
Proof.
  split.
  - intros Hx. apply exec_bind in Hx as (t1 & t2 & [a|e] & -> & Hp & Hf); [by exists t1, t2, a|].
    by apply exec_Ret in Hf as [_ ?].
  - intros (t1 & t2 & a & -> & Hp & Hf). by apply (exec_bind_intro p _ t1 t2 (Ok a)).
Qed.

(** Run against a handler with a state of its own: the executable semantics. *)
Fixpoint run_with {E A S} (handle : ∀ o : op E, S → ans E o * S) (p : prog E A) (s : S)
  : list (event E) * A * S :=
  match p with
  | Ret a => ([], a, s)
  | Call o k =>
      let '(x, s1) := handle o s in
      let '(tr, a, s2) := run_with handle (k x) s1 in
      (Event o x :: tr, a, s2)
  end.

Lemma run_with_exec {E A S} (handle : ∀ o : op E, S → ans E o * S) (p : prog E A) s :
  let '(tr, a, _) := run_with handle p s in exec p tr a.
Proof.
  revert s. induction p as [a|o k IH]; intros s; simpl; [constructor|].
  destruct (handle o s) as [x s1]. specialize (IH x s1).
  destruct (run_with handle (k x) s1) as [[tr a] s2]. by constructor.
Qed.

(** ** Reasoning about all executions *)

(** The history contains the call [o] answered by [x]. *)
Definition seen {E} (h : list (event E)) (o : op E) (x : ans E o) : Prop := Event o x ∈ h.

Lemma seen_prefix {E} (h h' : list (event E)) o x : h `prefix_of` h' → seen h o x → seen h' o x.
Proof. intros [k ->] Hs. apply elem_of_app. by left. Qed.

Lemma seen_app {E} (h k : list (event E)) o x : seen h o x → seen (h ++ k) o x.
Proof. intros Hs. apply elem_of_app. by left. Qed.

Lemma seen_last {E} (h : list (event E)) o x : seen (h ++ [Event o x]) o x.
Proof. apply elem_of_app. right. by left. Qed.

Section safety.
Context {E : sig}.
Implicit Types (h tr : list (event E)).

(** [safe G Q h p]: after the history [h], every operation [p] can reach
    satisfies [G] of the history before it, and every value it can return
    satisfies [Q] of the whole history. *)
Fixpoint safe {A} (G : list (event E) → op E → Prop) (Q : list (event E) → A → Prop)
  (h : list (event E)) (p : prog E A) : Prop :=
  match p with
  | Ret a => Q h a
  | Call o k => G h o ∧ ∀ x, safe G Q (h ++ [Event o x]) (k x)
  end.

Lemma safe_bind {A B} G (Q : list (event E) → B → Prop) h (p : prog E A) (f : A → prog E B) :
  safe G (λ h' a, safe G Q h' (f a)) h p → safe G Q h (p ≫= f).
Proof.
  revert h. induction p as [a|o k IH]; intros h; simpl; [done|].
  intros [Ho Hk]. split; [done|]. intros x. by apply IH.
Qed.

Lemma safe_mono {A} G (Q Q' : list (event E) → A → Prop) h p :
  (∀ tr a, Q (h ++ tr) a → Q' (h ++ tr) a) → safe G Q h p → safe G Q' h p.
Proof.
  revert h. induction p as [a|o k IH]; intros h HQ; simpl.
  - specialize (HQ [] a). by rewrite app_nil_r in HQ.
  - intros [Ho Hk]. split; [done|]. intros x. apply (IH x); [|done].
    intros tr a. rewrite <- app_assoc. apply HQ.
Qed.

(** Consequence: what a program returns is known at a later history. *)
Lemma safe_conseq {A} G (Q Q' : list (event E) → A → Prop) h p :
  safe G Q h p → (∀ h' a, h `prefix_of` h' → Q h' a → Q' h' a) → safe G Q' h p.
Proof. intros Hs HQ. eapply safe_mono; [|exact Hs]. intros tr a. apply HQ. by exists tr. Qed.

Lemma safe_call {A} G (Q : list (event E) → A → Prop) h o (f : ans E o → prog E A) :
  G h o → (∀ x, safe G Q (h ++ [Event o x]) (f x)) → safe G Q h (call (E := E) o ≫= f).
Proof. by split. Qed.

Lemma safe_call_ret G h (o : op E) (Q : list (event E) → ans E o → Prop) :
  G h o → (∀ x, Q (h ++ [Event o x]) x) → safe G Q h (call (E := E) o).
Proof. by split. Qed.

Lemma safe_bind_result {A B} G (Q : list (event E) → result B → Prop) h
    (p : prog E (result A)) (f : A → prog E (result B)) :
  safe G (λ h' r, match r with Ok a => safe G Q h' (f a) | Err e => Q h' (Err e) end) h p →
  safe G Q h (bind_result p f).
Proof.
  intros Hs. apply safe_bind. eapply safe_mono; [|exact Hs]. by intros tr [].
Qed.

Lemma safe_then_err G (Q : list (event E) → goerr → Prop) h (p q : prog E goerr) :
  safe G (λ h' r, match r with Some e => Q h' (Some e) | None => safe G Q h' q end) h p →
  safe G Q h (p ;;? q).
Proof.
  intros Hs. apply safe_bind. eapply safe_mono; [|exact Hs]. by intros tr [].
Qed.

Lemma safe_guard {A} (G G' : list (event E) → op E → Prop) (Q : list (event E) → A → Prop) h p :
  (∀ h o, G h o → G' h o) → safe G Q h p → safe G' Q h p.
Proof. intros HG. revert h. induction p as [|o k IH]; intros h; simpl; [done|]. naive_solver. Qed.

Lemma safe_and {A} G (Q Q' : list (event E) → A → Prop) h p :
  safe G Q h p → safe G Q' h p → safe G (λ h a, Q h a ∧ Q' h a) h p.
Proof. revert h. induction p as [|o k IH]; intros h; simpl; [done|]. naive_solver. Qed.

(** The meaning of [safe] on executions. *)
Lemma safe_sound {A} G (Q : list (event E) → A → Prop) h p tr a :
  safe G Q h p → exec p tr a →
  Q (h ++ tr) a ∧ ∀ t1 ev t2, tr = t1 ++ ev :: t2 → G (h ++ t1) (ev_op ev).
Proof.
  intros Hs Hx. revert h Hs. induction Hx as [a|o x k tr a Hx IH]; intros h Hs.
  - rewrite app_nil_r. split; [done|]. intros [|? ?] ? ?; discriminate.
  - destruct Hs as [Ho Hk]. destruct (IH _ (Hk x)) as [HQ HG].
    rewrite <- app_assoc in HQ. split; [done|]. intros [|ev' t1] ev t2 Ht; simplify_eq/=.
    + by rewrite app_nil_r.
    + specialize (HG t1 ev t2 eq_refl). by rewrite <- app_assoc in HG.
Qed.

(** The operations of a program, whatever the answers. *)
Fixpoint only {A} (P : op E → Prop) (p : prog E A) : Prop :=
  match p with
  | Ret _ => True
  | Call o k => P o ∧ ∀ x, only P (k x)
  end.

Lemma only_bind {A B} P (p : prog E A) (f : A → prog E B) :
  only P p → (∀ a, only P (f a)) → only P (p ≫= f).
Proof. intros Hp Hf. induction p as [a|o k IH]; [apply Hf|]. destruct Hp. split; [done|]. intros x. by apply IH. Qed.

Lemma only_exec {A} P (p : prog E A) tr a : only P p → exec p tr a → Forall (λ ev, P (ev_op ev)) tr.
Proof. intros Hp Hx. induction Hx as [|o x k tr a _ IH]; constructor; [apply Hp|apply IH, Hp]. Qed.

(** A program with such operations, and what its executions return. *)
Lemma safe_only {A} P G (Q : list (event E) → A → Prop) h p :
  only P p → (∀ h o, P o → G h o) → (∀ tr a, exec p tr a → Q (h ++ tr) a) → safe G Q h p.
Proof.
  intros Hp HG. revert h. induction p as [a|o k IH]; intros h HQ; cbn [safe].
  - specialize (HQ [] a (exec_ret a)). by rewrite app_nil_r in HQ.
  - destruct Hp as [Ho Hk]. split; [by apply HG|]. intros x. apply IH; [apply Hk|].
    intros tr a Hx. rewrite <- app_assoc. apply HQ. by constructor.
Qed.

(** Every execution exists: a program returns for any way of answering it. *)
Lemma prog_returns {A} (answer : list (event E) → ∀ o : op E, ans E o) (p : prog E A) h :
  ∃ tr a, exec p tr a.
Proof.
  revert h. induction p as [a|o k IH]; intros h; [by eexists _, _; constructor|].
  destruct (IH (answer h o) (h ++ [Event o (answer h o)])) as (tr & a & Hx).
  eexists _, _. by constructor.
Qed.

End safety.

(** ** An environment that does not change *)

(** The result of a program whose operations are answered the same at all times. *)
Fixpoint evaluate {E : sig} {A} (answers : ∀ o : op E, ans E o) (p : prog E A) : A :=
  match p with
  | Ret a => a
  | Call o k => evaluate answers (k (answers o))
  end.

Lemma evaluate_bind {E : sig} {A B} (answers : ∀ o : op E, ans E o) (p : prog E A) (f : A → prog E B) :
  evaluate answers (p ≫= f) = evaluate answers (f (evaluate answers p)).
Proof. induction p as [a|o k IH]; [done|]. apply IH. Qed.

Lemma evaluate_exec {E : sig} {A} (answers : ∀ o : op E, ans E o) (p : prog E A) :
  ∃ tr, exec p tr (evaluate answers p) ∧ ∀ o x, seen tr o x → x = answers o.
Proof.
  induction p as [a|o k IH].
  - exists []. split; [constructor|]. intros o x Hs. by apply elem_of_nil in Hs.
  - destruct (IH (answers o)) as (tr & Hx & Hs). exists (Event o (answers o) :: tr). split; [by constructor|].
    intros o' x [Heq|Hin]%elem_of_cons; [|by apply Hs].
    change (ev_ans (Event o' x) = answers (ev_op (Event o' x))). by rewrite Heq.
Qed.

(** ** Two signatures together *)

Definition sum_sig (E F : sig) : sig :=
  {| op := op E + op F;
     ans o := match o with inl o => ans E o | inr o => ans F o end |}.

(** A program over one of them. *)
Fixpoint in_left {E F : sig} {A} (p : prog E A) : prog (sum_sig E F) A :=
  match p with
  | Ret a => Ret a
  | Call o k => Call (E := sum_sig E F) (inl o) (λ x, in_left (k x))
  end.

Fixpoint in_right {E F : sig} {A} (p : prog F A) : prog (sum_sig E F) A :=
  match p with
  | Ret a => Ret a
  | Call o k => Call (E := sum_sig E F) (inr o) (λ x, in_right (k x))
  end.

Definition left_event {E F : sig} (ev : event E) : event (sum_sig E F) :=
  Event (E := sum_sig E F) (inl (ev_op ev)) (ev_ans ev).
Definition right_event {E F : sig} (ev : event F) : event (sum_sig E F) :=
  Event (E := sum_sig E F) (inr (ev_op ev)) (ev_ans ev).

Lemma in_left_exec {E F : sig} {A} (p : prog E A) tr a :
  exec (in_left (F := F) p) tr a → ∃ t, tr = left_event <$> t ∧ exec p t a.
Proof.
  revert tr. induction p as [b|o k IH]; intros tr Hx.
  - apply exec_Ret in Hx as [-> ->]. exists []. split; [done|constructor].
  - apply exec_inv in Hx as (x & tr' & -> & Hx). apply IH in Hx as (t & -> & Hx).
    exists (Event o x :: t). split; [done|by constructor].
Qed.

Lemma in_right_exec {E F : sig} {A} (p : prog F A) tr a :
  exec (in_right (E := E) p) tr a → ∃ t, tr = right_event <$> t ∧ exec p t a.
Proof.
  revert tr. induction p as [b|o k IH]; intros tr Hx.
  - apply exec_Ret in Hx as [-> ->]. exists []. split; [done|constructor].
  - apply exec_inv in Hx as (x & tr' & -> & Hx). apply IH in Hx as (t & -> & Hx).
    exists (Event o x :: t). split; [done|by constructor].
Qed.

(** The event of the second signature that an event is. *)
Definition right_part {E F : sig} (ev : event (sum_sig E F)) : option (event F) :=
  match ev with Event o x => match o return ans (sum_sig E F) o → option (event F) with
    | inl _ => λ _, None | inr o => λ x, Some (Event o x) end x end.

Lemma right_part_left {E F : sig} (ev : event E) : right_part (left_event (F := F) ev) = None.
Proof. by destruct ev. Qed.

Lemma right_part_right {E F : sig} (ev : event F) : right_part (right_event (E := E) ev) = Some ev.
Proof. by destruct ev. Qed.

(** An event of the second program lies after the first. *)
Lemma split_right {E F : sig} (ta : list (event E)) (tb : list (event F)) t1 ev t2 :
  (left_event (F := F) <$> ta) ++ (right_event (E := E) <$> tb) = t1 ++ right_event ev :: t2 →
  ∃ k1 k2, tb = k1 ++ ev :: k2 ∧ t1 = (left_event <$> ta) ++ (right_event <$> k1).
Proof.
  revert t1. induction ta as [|a ta IH]; intros t1; cbn [fmap list_fmap app].
  - revert t1. induction tb as [|b tb IH]; intros t1 Heq; [by destruct t1|]. destruct t1 as [|ev' t1].
    + apply (f_equal (λ l, head l ≫= right_part)) in Heq. cbn [head app fmap list_fmap mbind option_bind] in Heq.
      rewrite !right_part_right in Heq. injection Heq as ->. by exists [], tb.
    + injection Heq as <- Heq. destruct (IH t1 Heq) as (k1 & k2 & -> & ->). by exists (b :: k1), k2.
  - intros Heq. destruct t1 as [|ev' t1].
    + apply (f_equal (λ l, head l ≫= right_part)) in Heq. cbn [head app mbind option_bind] in Heq.
      by rewrite right_part_left, right_part_right in Heq.
    + injection Heq as <- Heq. destruct (IH t1 Heq) as (k1 & k2 & -> & ->). by exists k1, k2.
Qed.

(** ** Interpretation of one signature in another *)

(** Each operation of [E] is done by a program over [F], with a state threaded
    through the operations. *)
Fixpoint interp {E F : sig} {S A : Type} (handle : ∀ o : op E, S → prog F (ans E o * S))
  (p : prog E A) (s : S) : prog F (A * S) :=
  match p with
  | Ret a => Ret (a, s)
  | Call o k => r ← handle o s; interp handle (k r.1) r.2
  end.

(** The trace of the interpretation is that of the program with each event replaced
    by an execution of its handler. *)
Inductive expands {E F : sig} {S : Type} (handle : ∀ o : op E, S → prog F (ans E o * S)) :
  list (event E) → S → list (event F) → S → Prop :=
  | expands_nil s : expands handle [] s [] s
  | expands_cons o x s t s1 tr ftr s2 :
      exec (handle o s) t (x, s1) → expands handle tr s1 ftr s2 →
      expands handle (Event o x :: tr) s (t ++ ftr) s2.

Lemma interp_exec {E F : sig} {S A} (handle : ∀ o : op E, S → prog F (ans E o * S)) (p : prog E A) s ftr a s' :
  exec (interp handle p s) ftr (a, s') → ∃ tr, exec p tr a ∧ expands handle tr s ftr s'.
Proof.
  revert s ftr. induction p as [b|o k IH]; intros s ftr Hx; cbn [interp] in Hx.
  - apply exec_Ret in Hx as [-> [= -> ->]]. exists []. split; constructor.
  - apply exec_bind in Hx as (t1 & t2 & [x s1] & -> & Hh & Hk). cbn [fst snd] in Hk.
    apply IH in Hk as (tr & Hp & He). exists (Event o x :: tr). split; [by constructor|].
    by econstructor.
Qed.

(** An event of the expansion lies within that of one event. *)
Lemma expands_split {E F : sig} {S} (handle : ∀ o : op E, S → prog F (ans E o * S)) tr s ft1 ev ft2 s' :
  expands handle tr s (ft1 ++ ev :: ft2) s' →
  ∃ u o x v s1 s2 f1 w1 w2, tr = u ++ Event o x :: v ∧ expands handle u s f1 s1 ∧
    exec (handle o s1) (w1 ++ ev :: w2) (x, s2) ∧ ft1 = f1 ++ w1.
Proof.
  intros He. remember (ft1 ++ ev :: ft2) as ft eqn:Eft. revert ft1 Eft.
  induction He as [s|o x s t s1 tr ftr s2 Hx He IH]; intros ft1 Eft; [by destruct ft1|].
  apply app_eq_inv in Eft as [(k & -> & Hk)|(k & -> & ->)].
  - destruct k as [|ev' k]; [|injection Hk as <- ->].
    + cbn in Hk. specialize (IH [] (eq_sym Hk)) as (u & o' & y & v & s3 & s4 & f1 & w1 & w2 & -> & Hu & Hy & Hnil).
      rewrite app_nil_r in Hx. exists (Event o x :: u), o', y, v, s3, s4, (ft1 ++ f1), w1, w2.
      split_and!; [done|by econstructor|done|]. by rewrite <- app_assoc, <- Hnil, app_nil_r.
    + exists [], o, x, tr, s, s1, [], ft1, k. split_and!; [done|constructor|done|done].
  - destruct (IH k eq_refl) as (u & o' & y & v & s3 & s4 & f1 & w1 & w2 & -> & Hu & Hy & ->).
    exists (Event o x :: u), o', y, v, s3, s4, (t ++ f1), w1, w2.
    split_and!; [done|by econstructor|done|by rewrite <- app_assoc].
Qed.

(** An event of the program has its handler's execution in the expansion. *)
Lemma expands_seen {E F : sig} {S} (handle : ∀ o : op E, S → prog F (ans E o * S)) tr s ftr s' o x :
  expands handle tr s ftr s' → seen tr o x →
  ∃ f1 f2 t s1 s2, ftr = f1 ++ t ++ f2 ∧ exec (handle o s1) t (x, s2).
Proof.
  intros He. induction He as [s|o' y s t s1 tr ftr s2 Hx He IH]; intros Hs; [by apply elem_of_nil in Hs|].
  apply elem_of_cons in Hs as [Heq|Hs].
  - exists [], ftr, t, s, s1. split; [done|]. clear -Hx Heq.
    change (exec (handle (ev_op (Event o x)) s) t (ev_ans (Event o x), s1)). by rewrite Heq.
  - destruct (IH Hs) as (f1 & f2 & t' & s3 & s4 & -> & Hx'). exists (t ++ f1), f2, t', s3, s4.
    by rewrite <- app_assoc.
Qed.
