(* ===== verification/Kube.v ===== *)
(** * The Kubernetes client

    The operations of controller-runtime's client the controllers use, with the
    answers they may get, and the metadata helpers of apimachinery. *)
From S2P Require Import Prelude GoStrings GoErrors GoTime Api Effects.
Local Open Scope Z_scope.

(** A read goes to the informer cache of the manager, or to the API server. *)
Inductive reader := Cache | Fresh.

(** SSH key material, as generated for a run
    (internal/controller/ssh_key.go:14-18). *)
Record sshKeyMaterial := {
  PrivateKeyPEM : string;
  PublicKeyLine : string;
  AuthorizedKeys : string }.

(** The calls: reads, writes, the clock, and the entropy of key generation. A
    status patch carries the object it was computed from and the new status. *)
Inductive kube_op :=
  | GetRun (r : reader) (namespace name : string)
  | GetTask (r : reader) (namespace name : string)
  | GetSecret (namespace name : string)
  | GetJob (namespace name : string)
  | GetPod (namespace name : string)
  | GetSchedule (namespace name : string)
  | ListRuns (namespace : string) (labels : gmap string string)
  | ListTasks (namespace : string)
  | ListPods (r : reader) (namespace : string)
  | CreateSecret (s : Secret)
  | CreateTask (t : ZFSReceiveTask)
  | CreateJob (j : Job)
  | CreateRun (r : ZFSReplicationRun)
  | UpdateTask (t : ZFSReceiveTask)
  | UpdateSecret (s : Secret)
  | DeleteSecret (s : Secret)
  | DeleteRun (r : ZFSReplicationRun)
  | PatchRunStatus (base : ZFSReplicationRun) (status : ZFSReplicationRunStatus)
  | PatchTaskStatus (lock : bool) (base : ZFSReceiveTask) (status : ZFSReceiveTaskStatus)
  | PatchScheduleStatus (base : ZFSReplicationSchedule) (status : ZFSReplicationScheduleStatus)
  | GenerateRSAKey
  | Now.

(** The private key generated by crypto/rsa, in the two forms the program takes
    from it: the PEM block (absent when encoding fails) and the line of
    [MarshalAuthorizedKey] for its public key. *)
Record RSAKey := {
  rsa_pem : option string;
  rsa_authorized : result string }.

Definition kube_ans (o : kube_op) : Type :=
  match o with
  | GetRun _ _ _ => result ZFSReplicationRun
  | GetTask _ _ _ => result ZFSReceiveTask
  | GetSecret _ _ => result Secret
  | GetJob _ _ => result Job
  | GetPod _ _ => result Pod
  | GetSchedule _ _ => result ZFSReplicationSchedule
  | ListRuns _ _ => result (list ZFSReplicationRun)
  | ListTasks _ => result (list ZFSReceiveTask)
  | ListPods _ _ => result (list Pod)
  | GenerateRSAKey => result RSAKey
  | Now => time
  | _ => goerr
  end.

Definition Kube : sig := {| op := kube_op; ans := kube_ans |}.
Abbreviation kube := (prog Kube).
Abbreviation kevent := (event Kube).

(** A call of the client. *)
Definition kcall (o : kube_op) : kube (kube_ans o) := call (E := Kube) o.

(** The result of a reconciliation: [ctrl.Result]. *)
Record Result := { Requeue : bool; RequeueAfter : duration }.
Definition no_requeue : Result := {| Requeue := false; RequeueAfter := 0 |}.
Definition requeue_after (d : duration) : Result := {| Requeue := false; RequeueAfter := d |}.

(** [metav1.GetControllerOf]: the first owner that is a controller. *)
Definition GetControllerOf (m : ObjectMeta) : option OwnerReference :=
  List.find (λ o, match or_controller o with Some b => b | None => false end) (om_owners m).

(** [ctrl.SetControllerReference(owner, object, scheme)] on an object's metadata.
    controller-runtime is not part of this repository: its function is a
    parameter, and what the program relies on is that it adds the owner as the
    controller or fails. *)
Class ControllerRuntime := {
  SetControllerReference : string → ObjectMeta → ObjectMeta → result ObjectMeta;
  SetControllerReference_spec kind owner object object' :
    SetControllerReference kind owner object = Ok object' →
    om_name object' = om_name object ∧ om_namespace object' = om_namespace object ∧
    om_labels object' = om_labels object ∧ om_deletion object' = om_deletion object ∧
    ∃ o, GetControllerOf object' = Some o ∧ or_uid o = om_uid owner }.

(** The constructor of a controller for new objects: the reference appended. *)
Definition add_controller (kind : string) (owner object : ObjectMeta) : result ObjectMeta :=
  match GetControllerOf object with
  | Some _ => Err (errorf "Object %s is already owned by another controller" [FStr (om_name object)])
  | None => Ok
      {| om_name := om_name object; om_namespace := om_namespace object; om_uid := om_uid object;
         om_labels := om_labels object; om_annotations := om_annotations object;
         om_creation := om_creation object; om_deletion := om_deletion object;
         om_owners := om_owners object ++
           [{| or_kind := kind; or_uid := om_uid owner; or_controller := Some true |}] |}
  end.

(** An implementation that meets the contract, to evaluate reconciliations. *)
Definition append_controller : ControllerRuntime.
Proof.
  refine {| SetControllerReference := add_controller |}.
  intros kind owner object object'. unfold add_controller.
  destruct (GetControllerOf object) eqn:E; [done|]. intros [= <-]. simpl. split_and!; try done.
  unfold GetControllerOf in *. simpl. revert E. induction (om_owners object) as [|o l IH]; simpl.
  - intros _. by eexists.
  - destruct (match or_controller o with Some b => b | None => false end); [done|]. apply IH.
Defined.

(** ** Formatted messages *)

Section messages.
Context `{UnicodeTables}.

(** [fmt.Sprintf]. *)
Definition sprintf (format : string) (args : list fmt_arg) : string :=
  Sprintf format (arg_text <$> args).

(** [fmt.Sprintf("%v", err)] and [err.Error()]. *)
Definition text (e : error) : string := Error e.

End messages.

(** [src/internal/controller/names.go:14-14 labelPrefix] *)
Definition labelPrefix : string := "zfsreplication.ringhof.io".
