(* ===== verification/RunController.v ===== *)
(** * The run controller (internal/controller/zfsreplication_run_controller.go)

    The reconciliation of one replication run: validation, the destination lock,
    the children of the run (SSH Secret, receive task, sender Job), the lease of
    the receive task, the sender Job's outcome, and the terminal cleanup; with the
    sender Job built by sender_job.go and the keys by ssh_key.go. *)
From S2P Require Import Prelude GoStrings GoErrors GoTime Api Replication Names Syncoid Ssh Effects Kube.
Local Open Scope Z_scope.

(** ** The sender Job *)

(** [src/internal/controller/sender_job.go:15-24 senderContainerName] *)
Definition senderContainerName : string := "sender".
Definition senderExecutable : string := "/usr/local/bin/zfsrep-sender".
Definition senderSSHMountPath : string := "/var/run/zfsrep/ssh".
Definition senderSSHKeyFile : string := senderSSHMountPath +:+ "/id_rsa".
Definition senderKnownHostsFile : string := senderSSHMountPath +:+ "/known_hosts".
Definition senderPodHostname : string := "zfsrep-sender".
Definition senderTerminationMessage : string := "/dev/termination-log".
Definition senderFinishedJobTTLSeconds : Z := 86400.

(** [src/internal/controller/sender_job.go:114-121 senderImageTag] *)
Definition senderImageTag (image : string) : string :=
  let lastSlash := LastIndexByte image "/"%char in
  let lastColon := LastIndexByte image ":"%char in
  if lastColon <=? lastSlash then "" else str_drop (Z.to_nat (lastColon + 1)) image.

(** [src/internal/controller/sender_job.go:104-112 senderImagePullPolicy] *)
Definition senderImagePullPolicy (image : string) : string :=
  if Contains image "@sha256:" then "IfNotPresent"
  else
    let tag := senderImageTag image in
    if (tag ≟ "") || (tag ≟ "latest") || (tag ≟ "main") then "Always" else "IfNotPresent".

(** [src/internal/controller/names.go:16-20 runObjects] *)
Record runObjects := {
  SecretName : string;
  ReceiveTaskName : string;
  SenderName : string }.

(** [src/internal/controller/zfsreplication_run_controller.go:29-36 ZFSReplicationRunReconciler]
    The configuration of the reconciler: whether it has a fresh API reader, the
    release image and the namespace of the receivers. *)
Record RunReconciler := {
  hasAPIReader : bool;
  ReleaseImage : string;
  ReceiverNamespace : string }.

(** [src/internal/controller/zfsreplication_run_controller.go:38-41 runReceiverStatus] *)
Record runReceiverStatus := { podName : string; podIP : string }.

(** [src/internal/controller/zfsreplication_run_controller.go:43-46 authorizationLease] *)
Definition authorizationLease : duration := 30 * Minute.
Definition authorizationRenewLead : duration := 10 * Minute.

Section controller.
Context `{UnicodeTables} `{SSHKeys} `{ControllerRuntime}.

(** [src/internal/controller/zfsreplication_run_controller.go:976-983 objectNamesForRun] *)
Definition objectNamesForRun (runName : string) : runObjects :=
  let names := ForRun runName in
  {| SecretName := SSHSecret names; ReceiveTaskName := ReceiveTask names;
     SenderName := SenderJob names |}.

(** [src/internal/controller/sender_job.go:26-102 senderJob] *)
Definition senderJob (run : ZFSReplicationRun) (releaseImage : string) (endpoint : ReceiveTaskEndpoint)
  : result Job :=
  let names := objectNamesForRun (om_name (run_meta run)) in
  let labels : gmap string string := {[ labelPrefix +:+ "/role" := "sender" ]} in
  contract ← wrap_err (Translate (Some run))
    (λ e, errorf "translate Syncoid Replication Contract: %w" [FErr e]);
  arguments ← wrap_err
    (SenderArguments contract
      {| TargetHost := sprintf "zfs-recv@%s" [FStr (Host endpoint)];
         SSHKeyFile := senderSSHKeyFile; KnownHostsFile := senderKnownHostsFile;
         SSHPort := Port endpoint |})
    (λ e, errorf "build Syncoid sender arguments: %w" [FErr e]);
  Ok {| job_meta := new_meta (SenderName names) (om_namespace (run_meta run)) labels;
        job_spec :=
          {| js_backoffLimit := 0; js_ttlSeconds := senderFinishedJobTTLSeconds;
             js_podLabels := labels;
             js_pod :=
               {| ps_hostname := senderPodHostname; ps_restartPolicy := "Never";
                  ps_automountToken := false; ps_nodeName := NodeName (Source (run_spec run));
                  ps_containerName := senderContainerName; ps_image := releaseImage;
                  ps_imagePullPolicy := senderImagePullPolicy releaseImage;
                  ps_command := [senderExecutable]; ps_args := arguments;
                  ps_privileged := true; ps_terminationPath := senderTerminationMessage;
                  ps_terminationPolicy := "File";
                  ps_mounts := [("dev-zfs", "/dev/zfs", false);
                                ("ssh", senderSSHMountPath, true)];
                  ps_hostPathVolumes := [("dev-zfs", "/dev/zfs")];
                  ps_secretVolumes := [("ssh", SecretName names, 256)] |} |};
        job_status := {| jst_succeeded := 0; jst_failed := 0; jst_conditions := [] |} |}.

(** ** SSH keys *)

(** [src/internal/controller/ssh_key.go:43-51 authorizedKey] *)
Definition authorizedKey (key : RSAKey) : result string :=
  public ← wrap_err (rsa_authorized key) (λ e, errorf "encode ssh public key: %w" [FErr e]);
  Ok (TrimSuffix public nl +:+ " zfsreplication-controller" +:+ nl).

(** [src/internal/controller/ssh_key.go:20-41 generateSSHKeyMaterial] *)
Definition generateSSHKeyMaterial : kube (result sshKeyMaterial) :=
  key ← kcall GenerateRSAKey;
  Ret (
    key ← wrap_err key (λ e, errorf "generate ssh key: %w" [FErr e]);
    match rsa_pem key with
    | None => Err (errorf "encode ssh private key" [])
    | Some private =>
        public ← authorizedKey key;
        Ok {| PrivateKeyPEM := private; PublicKeyLine := public; AuthorizedKeys := public |}
    end).

(** [src/internal/controller/zfsreplication_run_controller.go:397-403 publicKeyFromSecret] *)
Definition publicKeyFromSecret (secret : Secret) : result string :=
  let publicKey := TrimSpace (default "" (secret_data secret !! "id_rsa.pub")) in
  if publicKey ≟ ""
  then Err (errorf "ssh secret %s/%s is missing id_rsa.pub"
    [FStr (om_namespace (secret_meta secret)); FStr (om_name (secret_meta secret))])
  else Ok publicKey.

(** [net.JoinHostPort]. *)
Definition JoinHostPort (host port : string) : string :=
  if has_byte ":" host || has_byte "%" host then "[" +:+ host +:+ "]:" +:+ port
  else host +:+ ":" +:+ port.

(** [src/internal/controller/zfsreplication_run_controller.go:1024-1040 knownHostsLine] *)
Definition knownHostsLine (host : string) (port : Z) (hostKey : string) : result string :=
  '(key, comment, options, rest) ← wrap_err (ParseAuthorizedKey (TrimSpace hostKey))
    (λ e, errorf "parse receiver host key: %w" [FErr e]);
  fail_if (0 <? length options)%nat
    (errorf "receiver host key must not include authorized_keys options" []);;
  fail_if (0 <? String.length rest)%nat (errorf "receiver host key contains trailing data" []);;
  let line := KnownHostsLine [JoinHostPort host (FormatInt port)] key in
  let line := if comment ≠? "" then line +:+ " " +:+ comment else line in
  Ok (line +:+ nl).

(** ** New children *)

(** [src/internal/controller/zfsreplication_run_controller.go:985-999 runSSHSecret] *)
Definition runSSHSecret (run : ZFSReplicationRun) (names : runObjects) (key : sshKeyMaterial) : Secret :=
  {| secret_meta := new_meta (SecretName names) (om_namespace (run_meta run))
       {[ labelPrefix +:+ "/role" := "ssh" ]};
     secret_data := list_to_map [("id_rsa", PrivateKeyPEM key); ("id_rsa.pub", PublicKeyLine key);
                                 ("authorized_keys", AuthorizedKeys key)] |}.

(** [src/internal/controller/zfsreplication_run_controller.go:1001-1022 runReceiveTask] *)
Definition runReceiveTask (run : ZFSReplicationRun) (names : runObjects) (publicKey : string)
  (expiresAt : time) : result ZFSReceiveTask :=
  contract ← wrap_err (Translate (Some run))
    (λ e, errorf "translate Syncoid Replication Contract: %w" [FErr e]);
  Ok {| task_meta := new_meta (ReceiveTaskName names) (om_namespace (run_meta run))
          {[ labelPrefix +:+ "/role" := "receiver" ]};
        task_spec :=
          {| ts_NodeName := NodeName (Target (run_spec run));
             ts_Dataset := Dataset (Target (run_spec run));
             ts_SSH := {| AuthorizedPublicKey := publicKey; ExpiresAt := expiresAt |};
             ts_Policy := ReceiverPolicy contract |};
        task_status := empty_task_status |}.

(** The object with its new metadata, as [SetControllerReference] updates it. *)
Definition own_secret (run : ZFSReplicationRun) (s : Secret) : result Secret :=
  m ← SetControllerReference "ZFSReplicationRun" (run_meta run) (secret_meta s);
  Ok {| secret_meta := m; secret_data := secret_data s |}.
Definition own_task (run : ZFSReplicationRun) (t : ZFSReceiveTask) : result ZFSReceiveTask :=
  m ← SetControllerReference "ZFSReplicationRun" (run_meta run) (task_meta t);
  Ok {| task_meta := m; task_spec := task_spec t; task_status := task_status t |}.
Definition own_job (run : ZFSReplicationRun) (j : Job) : result Job :=
  m ← SetControllerReference "ZFSReplicationRun" (run_meta run) (job_meta j);
  Ok {| job_meta := m; job_spec := job_spec j; job_status := job_status j |}.

(** ** Refusals *)

(** [src/internal/controller/zfsreplication_run_controller.go:564-581 runChildRefusal] *)
Definition runChildRefusal (run : ZFSReplicationRun) (child : ObjectMeta) (kind : string) : string :=
  let refused :=
    match GetControllerOf child with
    | None => true
    | Some owner => or_uid owner ≠? om_uid (run_meta run)
    end in
  if refused then
    sprintf "%s %s/%s is not controlled by Replication Run %s/%s with UID %s"
      [FStr kind; FStr (om_namespace child); FStr (om_name child);
       FStr (om_namespace (run_meta run)); FStr (om_name (run_meta run)); FStr (om_uid (run_meta run))]
  else if negb (opt_IsZero (om_deletion child)) then
    sprintf "%s %s/%s is being deleted" [FStr kind; FStr (om_namespace child); FStr (om_name child)]
  else "".

(** [src/internal/controller/zfsreplication_run_controller.go:453-464 receiveTaskLeaseRefusal] *)
Definition receiveTaskLeaseRefusal (task : ZFSReceiveTask) (now : time) : string :=
  if (tst_Phase (task_status task) ≟ ReceiveTaskPhaseFailed) && (tst_Error (task_status task) ≠? "")
  then tst_Error (task_status task)
  else if ReceiveTaskPhase_Terminal (tst_Phase (task_status task)) then
    sprintf "receive task is terminal with phase %s" [FStr (tst_Phase (task_status task))]
  else if negb (After (ExpiresAt (ts_SSH (task_spec task))) now)
  then "receive task authorization lease has expired"
  else "".

(** [src/internal/controller/zfsreplication_run_controller.go:893-919 validateRunSpec] *)
Definition validateRunSpec (spec : ZFSReplicationRunSpec) : result unit :=
  let source := Source spec in
  let target := Target spec in
  fail_if (NodeName source ≟ "") (errorf "spec.source.nodeName must not be empty" []);;
  fail_if (Dataset source ≟ "") (errorf "spec.source.dataset must not be empty" []);;
  fail_if (negb (ValidDatasetName (Dataset source)))
    (errorf "spec.source.dataset must be a valid zfs dataset name" []);;
  fail_if (NodeName target ≟ "") (errorf "spec.target.nodeName must not be empty" []);;
  fail_if (Dataset target ≟ "") (errorf "spec.target.dataset must not be empty" []);;
  fail_if (negb (ValidDatasetName (Dataset target)))
    (errorf "spec.target.dataset must be a valid zfs dataset name" []);;
  fail_if ((NodeName source ≟ NodeName target) && (Dataset source ≟ Dataset target))
    (errorf "source and target must not reference the same dataset on the same node" []);;
  wrap_err
    (Translate (Some {| run_meta := new_meta "" "" ∅; run_spec := spec;
                        run_status := empty_run_status |}))
    (λ e, errorf "spec.syncoid is invalid: %w" [FErr e]);;
  Ok tt.

(** ** The destination lock *)

(** [src/internal/controller/zfsreplication_run_controller.go:941-943 targetDatasetsOverlap] *)
Definition targetDatasetsOverlap (a b : string) : bool := DatasetOrChild a b || DatasetOrChild b a.

(** [src/internal/controller/zfsreplication_run_controller.go:945-955 shouldWaitForDestinationRun] *)
Definition shouldWaitForDestinationRun (run other : ZFSReplicationRun) : bool :=
  if (rs_Phase (run_status other) ≠? "") && (rs_Phase (run_status other) ≠? PhasePending) then true
  else
    let runTime := om_creation (run_meta run) in
    let otherTime := om_creation (run_meta other) in
    if IsZero runTime || IsZero otherTime || TEqual runTime otherTime
    then String.ltb (om_name (run_meta other)) (om_name (run_meta run))
    else Before otherTime runTime.

(** [src/internal/controller/zfsreplication_run_controller.go:926-937 destinationLocked]
    The test of one run in the loop. *)
Definition blocks (run other : ZFSReplicationRun) : bool :=
  if (om_name (run_meta other) ≟ om_name (run_meta run)) ||
     negb (Phase_Active (rs_Phase (run_status other))) then false
  else if (NodeName (Target (run_spec other)) ≠? NodeName (Target (run_spec run))) ||
          negb (targetDatasetsOverlap (Dataset (Target (run_spec run)))
                  (Dataset (Target (run_spec other)))) then false
  else shouldWaitForDestinationRun run other.

(** [src/internal/controller/zfsreplication_run_controller.go:921-939 destinationLocked] *)
Definition destinationLocked (run : ZFSReplicationRun) : kube (result (bool * string)) :=
  runs ← kcall (ListRuns (om_namespace (run_meta run)) ∅);
  match runs with
  | Err e => Ret (Err e)
  | Ok items =>
      Ret (Ok (match List.find (blocks run) items with
        | Some other =>
            (true, sprintf "waiting for active run %s to finish receiving into %s on %s"
               [FStr (om_name (run_meta other)); FStr (Dataset (Target (run_spec run)));
                FStr (NodeName (Target (run_spec run)))])
        | None => (false, "")
        end))
  end.

(** ** Status *)

(** The assignments of the mutation functions. *)
Definition set_Phase (p : Phase) (s : ZFSReplicationRunStatus) : ZFSReplicationRunStatus :=
  {| rs_Phase := p; SenderJobName := SenderJobName s; SenderJobUID := SenderJobUID s;
     ReceiverPodName := ReceiverPodName s; ReceiverPodIP := ReceiverPodIP s;
     StartedAt := StartedAt s; CompletedAt := CompletedAt s; LastError := LastError s |}.
Definition set_SenderJobName (n : string) (s : ZFSReplicationRunStatus) : ZFSReplicationRunStatus :=
  {| rs_Phase := rs_Phase s; SenderJobName := n; SenderJobUID := SenderJobUID s;
     ReceiverPodName := ReceiverPodName s; ReceiverPodIP := ReceiverPodIP s;
     StartedAt := StartedAt s; CompletedAt := CompletedAt s; LastError := LastError s |}.
Definition set_SenderJobUID (u : string) (s : ZFSReplicationRunStatus) : ZFSReplicationRunStatus :=
  {| rs_Phase := rs_Phase s; SenderJobName := SenderJobName s; SenderJobUID := u;
     ReceiverPodName := ReceiverPodName s; ReceiverPodIP := ReceiverPodIP s;
     StartedAt := StartedAt s; CompletedAt := CompletedAt s; LastError := LastError s |}.
Definition set_Receiver (r : runReceiverStatus) (s : ZFSReplicationRunStatus) : ZFSReplicationRunStatus :=
  {| rs_Phase := rs_Phase s; SenderJobName := SenderJobName s; SenderJobUID := SenderJobUID s;
     ReceiverPodName := podName r; ReceiverPodIP := podIP r;
     StartedAt := StartedAt s; CompletedAt := CompletedAt s; LastError := LastError s |}.
Definition set_StartedAt (t : option time) (s : ZFSReplicationRunStatus) : ZFSReplicationRunStatus :=
  {| rs_Phase := rs_Phase s; SenderJobName := SenderJobName s; SenderJobUID := SenderJobUID s;
     ReceiverPodName := ReceiverPodName s; ReceiverPodIP := ReceiverPodIP s;
     StartedAt := t; CompletedAt := CompletedAt s; LastError := LastError s |}.
Definition set_CompletedAt (t : option time) (s : ZFSReplicationRunStatus) : ZFSReplicationRunStatus :=
  {| rs_Phase := rs_Phase s; SenderJobName := SenderJobName s; SenderJobUID := SenderJobUID s;
     ReceiverPodName := ReceiverPodName s; ReceiverPodIP := ReceiverPodIP s;
     StartedAt := StartedAt s; CompletedAt := t; LastError := LastError s |}.
Definition set_LastError (e : string) (s : ZFSReplicationRunStatus) : ZFSReplicationRunStatus :=
  {| rs_Phase := rs_Phase s; SenderJobName := SenderJobName s; SenderJobUID := SenderJobUID s;
     ReceiverPodName := ReceiverPodName s; ReceiverPodIP := ReceiverPodIP s;
     StartedAt := StartedAt s; CompletedAt := CompletedAt s; LastError := e |}.

(** The local assignment [run.Status = s]. *)
Definition with_run_status (run : ZFSReplicationRun) (s : ZFSReplicationRunStatus) : ZFSReplicationRun :=
  {| run_meta := run_meta run; run_spec := run_spec run; run_status := s |}.

(** [src/internal/controller/zfsreplication_run_controller.go:957-963 initializeRunStatus] *)
Definition initializeRunStatus (names : runObjects) (st : ZFSReplicationRunStatus)
  : kube ZFSReplicationRunStatus :=
  st ← match StartedAt st with
       | None => now ← kcall Now; Ret (set_StartedAt (Some now) st)
       | Some _ => Ret st
       end;
  Ret (set_SenderJobName (SenderName names) st).

(** [src/internal/controller/zfsreplication_run_controller.go:868-872 patchRunStatus] The
    mutation may read the clock. *)
Definition patchRunStatus (run : ZFSReplicationRun)
  (mutate : ZFSReplicationRunStatus → kube ZFSReplicationRunStatus) : kube goerr :=
  st ← mutate (run_status run);
  kcall (PatchRunStatus run st).

(** [src/internal/controller/zfsreplication_run_controller.go:889-891 runStatusNeedsInitialStatus] *)
Definition runStatusNeedsInitialStatus (st : ZFSReplicationRunStatus) : bool :=
  match StartedAt st with None => rs_Phase st ≟ "" | Some _ => false end.

Context (r : RunReconciler).

(** [src/internal/controller/zfsreplication_run_controller.go:878-887 observedRunStatus] *)
Definition observedRunStatus (run : ZFSReplicationRun) : kube ZFSReplicationRunStatus :=
  if negb (hasAPIReader r) then Ret (run_status run)
  else
    fresh ← kcall (GetRun Fresh (om_namespace (run_meta run)) (om_name (run_meta run)));
    match fresh with
    | Err _ => Ret (run_status run)
    | Ok fresh => Ret (run_status fresh)
    end.

(** [src/internal/controller/zfsreplication_run_controller.go:874-876 needsInitialRunStatus] *)
Definition needsInitialRunStatus (run : ZFSReplicationRun) : kube bool :=
  st ← observedRunStatus run; Ret (runStatusNeedsInitialStatus st).

(** ** Terminal states *)

(** [src/internal/controller/zfsreplication_run_controller.go:848-866 markReceiveTaskTerminal] *)
Definition markReceiveTaskTerminal (run : ZFSReplicationRun) (names : runObjects)
  (phase : ReceiveTaskPhase) (msg : string) : kube goerr :=
  if phase ≟ "" then Ret None
  else
    task ← kcall (GetTask Cache (om_namespace (run_meta run)) (ReceiveTaskName names));
    match task with
    | Err e => Ret (IgnoreNotFound (Some e))
    | Ok task =>
        if runChildRefusal run (task_meta task) "Receive Task" ≠? "" then Ret None
        else if (tst_Phase (task_status task) ≟ phase) && (tst_Error (task_status task) ≟ msg)
        then Ret None
        else kcall (PatchTaskStatus false task
          {| tst_Phase := phase; Endpoint := Endpoint (task_status task);
             HostKey := HostKey (task_status task); ReceiverPod := ReceiverPod (task_status task);
             tst_Error := msg |})
    end.

(** [src/internal/controller/zfsreplication_run_controller.go:784-800 deleteRunSSHSecret] *)
Definition deleteRunSSHSecret (run : ZFSReplicationRun) (names : runObjects) : kube goerr :=
  let ns := om_namespace (run_meta run) in
  secret ← kcall (GetSecret ns (SecretName names));
  match secret with
  | Err e =>
      if IsNotFound e then Ret None
      else Ret (Some (errorf "read SSH Secret %s/%s for deletion: %w"
        [FStr ns; FStr (SecretName names); FErr e]))
  | Ok secret =>
      if runChildRefusal run (secret_meta secret) "SSH Secret" ≠? "" then Ret None
      else
        err ← kcall (DeleteSecret secret);
        match IgnoreNotFound err with
        | Some e => Ret (Some (errorf "delete SSH Secret %s/%s: %w"
            [FStr (om_namespace (secret_meta secret)); FStr (om_name (secret_meta secret)); FErr e]))
        | None => Ret None
        end
  end.

(** [errors.Join(a, b)] over two calls, both made. *)
Definition join2 (a b : kube goerr) : kube goerr :=
  e1 ← a; e2 ← b; Ret (errors_Join [e1; e2]).

(** [src/internal/controller/zfsreplication_run_controller.go:153-158 reconcileTerminalRun] *)
Definition reconcileTerminalRun (run : ZFSReplicationRun) (names : runObjects) : kube goerr :=
  join2 (markReceiveTaskTerminal run names (ReceiveTaskTerminalPhase (rs_Phase (run_status run)))
           (LastError (run_status run)))
        (deleteRunSSHSecret run names).

(** [src/internal/controller/zfsreplication_run_controller.go:809-827 failRunObject] *)
Definition failRunObject (run : ZFSReplicationRun) (names : runObjects) (msg : string) : kube goerr :=
  _ ← observedRunStatus run;
  now ← kcall Now;
  patchRunStatus run (λ st,
    initializeRunStatus names (set_LastError msg (set_CompletedAt (Some now) (set_Phase PhaseFailed st))))
  ;;?
  join2 (markReceiveTaskTerminal run names ReceiveTaskPhaseFailed msg)
        (deleteRunSSHSecret run names).

(** [src/internal/controller/zfsreplication_run_controller.go:829-846 failRunValidation] *)
Definition failRunValidation (run : ZFSReplicationRun) (msg : string) : kube goerr :=
  _ ← observedRunStatus run;
  now ← kcall Now;
  patchRunStatus run (λ st,
    let st := set_LastError msg (set_CompletedAt (Some now) (set_Phase PhaseFailed st)) in
    Ret (match StartedAt st with None => set_StartedAt (Some now) st | Some _ => st end)).

(** [src/internal/controller/zfsreplication_run_controller.go:295-312 waitForReplicationReceiver] *)
Definition waitForReplicationReceiver (run : ZFSReplicationRun) (names : runObjects)
  : kube (Result * goerr) :=
  _ ← observedRunStatus run;
  err ← patchRunStatus run (λ st, initializeRunStatus names (set_Phase PhaseStartingReceiver st));
  Ret (requeue_after (5 * Second), err).

(** ** The sender Job's outcome *)

(** [src/internal/controller/zfsreplication_run_controller.go:718-722 terminatedSender] *)
Record terminatedSender := { t_state : Terminated; t_createdAt : time; t_podName : string }.

(** [src/internal/controller/zfsreplication_run_controller.go:762-772 podControlledByJobUID] *)
Definition podControlledByJobUID (pod : Pod) (uid : string) : bool :=
  if uid ≟ "" then false
  else existsb (λ owner,
    match or_controller owner with Some b => b | None => false end &&
    (or_kind owner ≟ "Job") && (or_uid owner ≟ uid)) (om_owners (pod_meta pod)).

(** [src/internal/controller/zfsreplication_run_controller.go:774-782 newerTerminatedSender] *)
Definition newerTerminatedSender (left right : terminatedSender) : bool :=
  if negb (TEqual (tm_finishedAt (t_state left)) (tm_finishedAt (t_state right)))
  then After (tm_finishedAt (t_state left)) (tm_finishedAt (t_state right))
  else if negb (TEqual (t_createdAt left) (t_createdAt right))
  then After (t_createdAt left) (t_createdAt right)
  else String.ltb (t_podName right) (t_podName left).

(** [src/internal/controller/zfsreplication_run_controller.go:730-748 senderTerminationMessage]
    The terminated sender containers of the Job's pods, in the order of the loop. *)
Definition terminatedSenders (job : Job) (pods : list Pod) : list terminatedSender :=
  pod ← pods;
  if negb (podControlledByJobUID pod (om_uid (job_meta job))) then []
  else
    status ← pod_containers pod;
    match cs_terminated status with
    | Some t =>
        if cs_name status ≠? senderContainerName then []
        else [{| t_state := t; t_createdAt := om_creation (pod_meta pod);
                 t_podName := om_name (pod_meta pod) |}]
    | None => []
    end.

(** [src/internal/controller/zfsreplication_run_controller.go:744-746 senderTerminationMessage] *)
Definition newestSender (candidates : list terminatedSender) : option terminatedSender :=
  foldl (λ newest candidate,
    match newest with
    | None => Some candidate
    | Some n => if newerTerminatedSender candidate n then Some candidate else Some n
    end) None candidates.

(** [src/internal/controller/zfsreplication_run_controller.go:802-807 podReader] *)
Definition podReader : reader := if hasAPIReader r then Fresh else Cache.

(** [src/internal/controller/zfsreplication_run_controller.go:724-760 senderTerminationMessage] *)
Definition senderTerminationMessage_of (job : Job) : kube (result string) :=
  pods ← kcall (ListPods podReader (om_namespace (job_meta job)));
  match pods with
  | Err e => Ret (Err (errorf "list sender Pods in namespace %s: %w"
      [FStr (om_namespace (job_meta job)); FErr e]))
  | Ok pods =>
      Ret (Ok (match newestSender (terminatedSenders job pods) with
        | None => ""
        | Some newest =>
            if tm_message (t_state newest) ≠? "" then tm_message (t_state newest)
            else sprintf "sender terminated: reason %s, exit code %d"
              [FStr (tm_reason (t_state newest)); FInt (tm_exitCode (t_state newest))]
        end))
  end.

(** [src/internal/controller/zfsreplication_run_controller.go:701-716 jobFailed] *)
Definition jobFailed (job : Job) (fallback : string) : kube (result (bool * string)) :=
  if jst_failed (job_status job) =? 0 then Ret (Ok (false, ""))
  else
    msg ←? senderTerminationMessage_of job;
    if msg ≠? "" then Ret (Ok (true, msg))
    else Ret (Ok (true,
      match List.find (λ cond, (c_type cond ≟ "Failed") && (c_status cond ≟ "True") &&
                               (c_message cond ≠? "")) (jst_conditions (job_status job)) with
      | Some cond => c_message cond
      | None => fallback
      end)).

(** [src/internal/controller/zfsreplication_run_controller.go:248-284 finishFromSenderJob]
    The result, whether the run is finished, and the error. *)
Definition finishFromSenderJob (run : ZFSReplicationRun) (names : runObjects)
  (receiver : runReceiverStatus) (job : Job) : kube (Result * bool * goerr) :=
  failed ← jobFailed job "sender Job failed";
  match failed with
  | Err e => Ret (no_requeue, false, Some e)
  | Ok (true, msg) => err ← failRunObject run names msg; Ret (no_requeue, true, err)
  | Ok (false, _) =>
      if 0 <? jst_succeeded (job_status job) then
        now ← kcall Now;
        err ← patchRunStatus run (λ st,
          initializeRunStatus names
            (set_LastError "" (set_CompletedAt (Some now)
              (set_Receiver receiver (set_Phase PhaseSucceeded st)))));
        match err with
        | Some e => Ret (no_requeue, false, Some e)
        | None =>
            err ← join2 (markReceiveTaskTerminal run names ReceiveTaskPhaseCompleted "")
                    (deleteRunSSHSecret run names);
            Ret (no_requeue, true, err)
        end
      else Ret (no_requeue, false, None)
  end.

(** [src/internal/controller/zfsreplication_run_controller.go:509-544 senderJobForRun] *)
Definition senderJobForRun (run : ZFSReplicationRun) (names : runObjects)
  (st : ZFSReplicationRunStatus) : kube (result (option Job * string)) :=
  let ns := om_namespace (run_meta run) in
  job ← kcall (GetJob ns (SenderName names));
  match job with
  | Err e =>
      if IsNotFound e then
        Ret (Ok (None,
          if SenderJobUID st ≠? "" then
            sprintf "sender Job %s/%s with UID %s is missing"
              [FStr ns; FStr (SenderName names); FStr (SenderJobUID st)]
          else ""))
      else Ret (Err (errorf "read sender Job %s/%s: %w" [FStr ns; FStr (SenderName names); FErr e]))
  | Ok job =>
      let msg := runChildRefusal run (job_meta job) "sender Job" in
      if msg ≠? "" then Ret (Ok (None, msg))
      else if (SenderJobUID st ≠? "") && (om_uid (job_meta job) ≠? SenderJobUID st) then
        Ret (Ok (None, sprintf "sender Job %s/%s UID %s differs from recorded UID %s"
          [FStr (om_namespace (job_meta job)); FStr (om_name (job_meta job));
           FStr (om_uid (job_meta job)); FStr (SenderJobUID st)]))
      else Ret (Ok (Some job, ""))
  end.

(** [src/internal/controller/zfsreplication_run_controller.go:546-562 bindSenderJobIdentity] *)
Definition bindSenderJobIdentity (run : ZFSReplicationRun) (names : runObjects) (job : Job)
  : kube goerr :=
  err ← patchRunStatus run (λ st,
    if SenderJobUID st ≟ "" then
      initializeRunStatus names
        (set_SenderJobUID (om_uid (job_meta job)) (set_SenderJobName (SenderName names) st))
    else Ret st);
  Ret (match err with
       | Some e => Some (errorf "bind sender Job %s/%s UID %s in Replication Run status: %w"
           [FStr (om_namespace (job_meta job)); FStr (om_name (job_meta job));
            FStr (om_uid (job_meta job)); FErr e])
       | None => None
       end).

(** ** The lease of the receive task *)

(** [src/internal/controller/zfsreplication_run_controller.go:445-446 reconcileRunReceiveTaskLease] *)
Definition renewed_task (task : ZFSReceiveTask) (now : time) : ZFSReceiveTask :=
  let spec := task_spec task in
  {| task_meta := task_meta task;
     task_spec := {| ts_NodeName := ts_NodeName spec; ts_Dataset := ts_Dataset spec;
                     ts_SSH := {| AuthorizedPublicKey := AuthorizedPublicKey (ts_SSH spec);
                                  ExpiresAt := Add now authorizationLease |};
                     ts_Policy := ts_Policy spec |};
     task_status := task_status task |}.

(** [src/internal/controller/zfsreplication_run_controller.go:405-451 reconcileRunReceiveTaskLease] *)
Definition reconcileRunReceiveTaskLease (run : ZFSReplicationRun) (names : runObjects)
  : kube (result (duration * string)) :=
  let ns := om_namespace (run_meta run) in
  if Phase_Terminal (rs_Phase (run_status run)) then Ret (Ok (0, ""))
  else if negb (hasAPIReader r) then Ret (Err (errorf "fresh API reader must not be nil" []))
  else
    freshRun ← kcall (GetRun Fresh ns (om_name (run_meta run)));
    match freshRun with
    | Err e =>
        if IsNotFound e then Ret (Ok (0, ""))
        else Ret (Err (errorf "read current replication run %s/%s for lease renewal: %w"
          [FStr ns; FStr (om_name (run_meta run)); FErr e]))
    | Ok freshRun =>
        if (om_uid (run_meta run) ≠? "") && (om_uid (run_meta freshRun) ≠? om_uid (run_meta run))
        then Ret (Ok (0, ""))
        else if Phase_Terminal (rs_Phase (run_status freshRun)) then Ret (Ok (0, ""))
        else
          task ← kcall (GetTask Fresh ns (ReceiveTaskName names));
          match task with
          | Err e =>
              if IsNotFound e then Ret (Ok (0, ""))
              else Ret (Err (errorf "read current receive task %s/%s for lease renewal: %w"
                [FStr ns; FStr (ReceiveTaskName names); FErr e]))
          | Ok task =>
              let msg := runChildRefusal run (task_meta task) "Receive Task" in
              if msg ≠? "" then Ret (Ok (0, msg))
              else
                now ← kcall Now;
                let msg := receiveTaskLeaseRefusal task now in
                if msg ≠? "" then Ret (Ok (0, msg))
                else
                  let remaining := Sub (ExpiresAt (ts_SSH (task_spec task))) now in
                  if authorizationRenewLead <? remaining
                  then Ret (Ok (remaining - authorizationRenewLead, ""))
                  else
                    err ← kcall (UpdateTask (renewed_task task now));
                    match err with
                    | Some e => Ret (Err (errorf "renew receive task %s/%s authorization lease: %w"
                        [FStr ns; FStr (ReceiveTaskName names); FErr e]))
                    | None => Ret (Ok (authorizationLease - authorizationRenewLead, ""))
                    end
          end
    end.

(** [src/internal/controller/zfsreplication_run_controller.go:473-478 withEarlierRequeue] *)
Definition withEarlierRequeue (result : Result) (leaseRequeueAfter : duration) : Result :=
  if (0 <? leaseRequeueAfter) &&
     ((RequeueAfter result =? 0) || (leaseRequeueAfter <? RequeueAfter result))
  then {| Requeue := Requeue result; RequeueAfter := leaseRequeueAfter |}
  else result.

(** ** Children before the sender *)

(** [src/internal/controller/zfsreplication_run_controller.go:319-341 ensurePreSenderChildren]
    One child read before the sender: absent, refused with a message, or there. *)
Definition child_read {A} (run : ZFSReplicationRun) (child : result A) (meta : A → ObjectMeta)
  (kind name : string) : result (option A * string) :=
  match child with
  | Err e =>
      if IsNotFound e then Ok (None, "")
      else Err (errorf "read %s %s/%s before sender creation: %w"
        [FStr kind; FStr (om_namespace (run_meta run)); FStr name; FErr e])
  | Ok c => Ok (Some c, runChildRefusal run (meta c) kind)
  end.

(** [if err := r.Create(...); err != nil && !apierrors.IsAlreadyExists(err)]. *)
Definition created (err : goerr) (kind ns name : string) : result (bool * string) :=
  match err with
  | Some e =>
      if IsAlreadyExists e then Ok (true, "")
      else Err (errorf "create %s %s/%s: %w" [FStr kind; FStr ns; FStr name; FErr e])
  | None => Ok (true, "")
  end.

(** [src/internal/controller/zfsreplication_run_controller.go:352-365 ensurePreSenderChildren] *)
Definition create_secret (run : ZFSReplicationRun) (names : runObjects) : kube (result (bool * string)) :=
  let ns := om_namespace (run_meta run) in
  key ← generateSSHKeyMaterial;
  match key with
  | Err e => Ret (Err (errorf "generate SSH key material for Replication Run %s/%s: %w"
      [FStr ns; FStr (om_name (run_meta run)); FErr e]))
  | Ok key =>
      match own_secret run (runSSHSecret run names key) with
      | Err e => Ret (Err (errorf "set Replication Run %s/%s as controller of SSH Secret %s: %w"
          [FStr ns; FStr (om_name (run_meta run)); FStr (SecretName names); FErr e]))
      | Ok secret =>
          err ← kcall (CreateSecret secret);
          Ret (created err "SSH Secret" (om_namespace (secret_meta secret))
                 (om_name (secret_meta secret)))
      end
  end.

(** [src/internal/controller/zfsreplication_run_controller.go:383-394 ensurePreSenderChildren] *)
Definition create_task (run : ZFSReplicationRun) (names : runObjects) (publicKey : string)
  : kube (result (bool * string)) :=
  let ns := om_namespace (run_meta run) in
  now ← kcall Now;
  match runReceiveTask run names publicKey (Add now authorizationLease) with
  | Err e => Ret (Err (errorf "build Receive Task %s/%s: %w"
      [FStr ns; FStr (ReceiveTaskName names); FErr e]))
  | Ok newTask =>
      match own_task run newTask with
      | Err e => Ret (Err (errorf "set Replication Run %s/%s as controller of Receive Task %s: %w"
          [FStr ns; FStr (om_name (run_meta run)); FStr (om_name (task_meta newTask)); FErr e]))
      | Ok newTask =>
          err ← kcall (CreateTask newTask);
          Ret (created err "Receive Task" (om_namespace (task_meta newTask))
                 (om_name (task_meta newTask)))
      end
  end.

(** [src/internal/controller/zfsreplication_run_controller.go:314-395 ensurePreSenderChildren] *)
Definition ensurePreSenderChildren (run : ZFSReplicationRun) (names : runObjects)
  : kube (result (bool * string)) :=
  let ns := om_namespace (run_meta run) in
  secret ← kcall (GetSecret ns (SecretName names));
  match child_read run secret secret_meta "SSH Secret" (SecretName names) with
  | Err e => Ret (Err e)
  | Ok (secret, msg) =>
      if msg ≠? "" then Ret (Ok (false, msg))
      else
        task ← kcall (GetTask Cache ns (ReceiveTaskName names));
        match child_read run task task_meta "Receive Task" (ReceiveTaskName names) with
        | Err e => Ret (Err e)
        | Ok (task, msg) =>
            if msg ≠? "" then Ret (Ok (false, msg))
            else
              match secret, task with
              | None, Some task =>
                  Ret (Ok (false, sprintf "Receive Task %s/%s exists without its matching SSH Secret %s"
                    [FStr (om_namespace (task_meta task)); FStr (om_name (task_meta task));
                     FStr (SecretName names)]))
              | None, None => create_secret run names
              | Some secret, task =>
                  match publicKeyFromSecret secret with
                  | Err e => Ret (Ok (false, text e))
                  | Ok publicKey =>
                      match task with
                      | Some task =>
                          if AuthorizedPublicKey (ts_SSH (task_spec task)) ≠? publicKey then
                            Ret (Ok (false,
                              sprintf "Receive Task %s/%s authorized public key does not match SSH Secret %s"
                                [FStr (om_namespace (task_meta task)); FStr (om_name (task_meta task));
                                 FStr (om_name (secret_meta secret))]))
                          else Ret (Ok (false, ""))
                      | None => create_task run names publicKey
                      end
                  end
              end
        end
  end.

(** ** Starting the sender *)

(** [src/internal/controller/zfsreplication_run_controller.go:644-668 exactReceiverPodReady] *)
Definition exactReceiverPodReady (reported : ReceiveTaskPodStatus) : kube (result bool) :=
  if ReceiverNamespace r ≟ "" then Ret (Err (errorf "receiver namespace must not be empty" []))
  else if negb (hasAPIReader r) then Ret (Err (errorf "fresh API reader must not be nil" []))
  else
    pod ← kcall (GetPod (ReceiverNamespace r) (rp_Name reported));
    match pod with
    | Err e =>
        if IsNotFound e then Ret (Ok false)
        else Ret (Err (errorf "read receiver Pod %s/%s with UID %s: %w"
          [FStr (ReceiverNamespace r); FStr (rp_Name reported); FStr (rp_UID reported); FErr e]))
    | Ok pod =>
        if (om_uid (pod_meta pod) ≠? rp_UID reported) || negb (opt_IsZero (om_deletion (pod_meta pod)))
        then Ret (Ok false)
        else Ret (Ok (match List.find (λ c, c_type c ≟ "Ready") (pod_conditions pod) with
          | Some condition => c_status condition ≟ "True"
          | None => false
          end))
    end.

(** [src/internal/controller/zfsreplication_run_controller.go:616-630 readyReceiveTask] What a
    Ready task must report. *)
Definition ready_incomplete (st : ZFSReceiveTaskStatus) : string :=
  if Host (Endpoint st) ≟ "" then "receive task is Ready without endpoint host"
  else if Port (Endpoint st) =? 0 then "receive task is Ready without endpoint port"
  else if HostKey st ≟ "" then "receive task is Ready without SSH host key"
  else if rp_Name (ReceiverPod st) ≟ "" then "receive task is Ready without receiver Pod name"
  else if rp_UID (ReceiverPod st) ≟ "" then "receive task is Ready without receiver Pod UID"
  else "".

(** [src/internal/controller/zfsreplication_run_controller.go:583-642 readyReceiveTask] *)
Definition readyReceiveTask (run : ZFSReplicationRun) (names : runObjects)
  : kube (result (ZFSReceiveTask * bool * string)) :=
  let ns := om_namespace (run_meta run) in
  task ←? kcall (GetTask Cache ns (ReceiveTaskName names));
  let msg := runChildRefusal run (task_meta task) "Receive Task" in
  if msg ≠? "" then Ret (Ok (task, false, msg))
  else if om_uid (task_meta task) ≟ "" then Ret (Ok (task, false, "receive task is missing its UID"))
  else if negb (hasAPIReader r) then Ret (Err (errorf "fresh API reader must not be nil" []))
  else
    fresh ← kcall (GetTask Fresh ns (ReceiveTaskName names));
    match fresh with
    | Err e =>
        if IsNotFound e then Ret (Ok (task, false, ""))
        else Ret (Err (errorf "read current receive task %s/%s: %w"
          [FStr ns; FStr (ReceiveTaskName names); FErr e]))
    | Ok fresh =>
        if om_uid (task_meta fresh) ≠? om_uid (task_meta task) then Ret (Ok (task, false, ""))
        else
          let task := fresh in
          let msg := runChildRefusal run (task_meta task) "Receive Task" in
          if msg ≠? "" then Ret (Ok (task, false, msg))
          else
            now ← kcall Now;
            let msg := receiveTaskLeaseRefusal task now in
            if msg ≠? "" then Ret (Ok (task, false, msg))
            else if tst_Phase (task_status task) ≟ ReceiveTaskPhaseReady then
              let msg := ready_incomplete (task_status task) in
              if msg ≠? "" then Ret (Ok (task, false, msg))
              else
                podReady ←? exactReceiverPodReady (ReceiverPod (task_status task));
                Ret (Ok (task, podReady, ""))
            else Ret (Ok (task, false, ""))
    end.

(** [src/internal/controller/zfsreplication_run_controller.go:670-699 ensureRunKnownHosts] *)
Definition ensureRunKnownHosts (run : ZFSReplicationRun) (names : runObjects) (task : ZFSReceiveTask)
  : kube (result string) :=
  let ns := om_namespace (run_meta run) in
  secret ← kcall (GetSecret ns (SecretName names));
  match secret with
  | Err e => Ret (Err (errorf "read SSH Secret %s/%s for sender preflight: %w"
      [FStr ns; FStr (SecretName names); FErr e]))
  | Ok secret =>
      let msg := runChildRefusal run (secret_meta secret) "SSH Secret" in
      if msg ≠? "" then Ret (Ok msg)
      else
        let st := task_status task in
        match knownHostsLine (Host (Endpoint st)) (Port (Endpoint st)) (HostKey st) with
        | Err e => Ret (Err e)
        | Ok line =>
            if default "" (secret_data secret !! "known_hosts") ≟ line then Ret (Ok "")
            else
              let copy := {| secret_meta := secret_meta secret;
                             secret_data := <["known_hosts" := line]> (secret_data secret) |} in
              err ← kcall (UpdateSecret copy);
              match err with
              | Some e => Ret (Err (errorf "update SSH Secret %s/%s with receiver host key: %w"
                  [FStr (om_namespace (secret_meta copy)); FStr (om_name (secret_meta copy)); FErr e]))
              | None => Ret (Ok "")
              end
        end
  end.

(** [src/internal/controller/zfsreplication_run_controller.go:227-246 receiveTaskEligibleForSender] *)
Definition receiveTaskEligibleForSender (expected : ZFSReceiveTask) : kube (result (bool * string)) :=
  if negb (hasAPIReader r) then Ret (Err (errorf "fresh API reader must not be nil" []))
  else
    let ns := om_namespace (task_meta expected) in
    let name := om_name (task_meta expected) in
    fresh ← kcall (GetTask Fresh ns name);
    match fresh with
    | Err e =>
        if IsNotFound e then Ret (Ok (false, ""))
        else Ret (Err (errorf "read current receive task %s/%s before sender creation: %w"
          [FStr ns; FStr name; FErr e]))
    | Ok fresh =>
        if om_uid (task_meta fresh) ≠? om_uid (task_meta expected) then Ret (Ok (false, ""))
        else
          now ← kcall Now;
          let msg := receiveTaskLeaseRefusal fresh now in
          if msg ≠? "" then Ret (Ok (false, msg)) else Ret (Ok (true, ""))
    end.

(** [src/internal/controller/zfsreplication_run_controller.go:488-507 ensureRunJob] Created, and
    to be checked again. *)
Definition ensureRunJob (run : ZFSReplicationRun) (job : Job) : kube (result (bool * bool)) :=
  let ns := om_namespace (job_meta job) in
  let name := om_name (job_meta job) in
  existing ← kcall (GetJob ns name);
  match existing with
  | Ok _ => Ret (Ok (false, true))
  | Err e =>
      if negb (IsNotFound e)
      then Ret (Err (errorf "read sender Job %s/%s before creation: %w" [FStr ns; FStr name; FErr e]))
      else
        match own_job run job with
        | Err e => Ret (Err (errorf "set Replication Run %s/%s as controller of sender Job %s: %w"
            [FStr (om_namespace (run_meta run)); FStr (om_name (run_meta run)); FStr name; FErr e]))
        | Ok job =>
            err ← kcall (CreateJob job);
            match err with
            | Some e =>
                if IsAlreadyExists e then Ret (Ok (false, true))
                else Ret (Err (errorf "create sender Job %s/%s: %w" [FStr ns; FStr name; FErr e]))
            | None => Ret (Ok (true, true))
            end
        end
  end.

(** [src/internal/controller/zfsreplication_run_controller.go:480-486 ensureRunSenderJob] *)
Definition ensureRunSenderJob (run : ZFSReplicationRun) (endpoint : ReceiveTaskEndpoint)
  : kube (result (bool * bool)) :=
  match senderJob run (ReleaseImage r) endpoint with
  | Err e => Ret (Err (errorf "build sender Job for Replication Run %s/%s: %w"
      [FStr (om_namespace (run_meta run)); FStr (om_name (run_meta run)); FErr e]))
  | Ok job => ensureRunJob run job
  end.

(** The zero [runReceiverStatus]. *)
Definition no_receiver : runReceiverStatus := {| podName := ""; podIP := "" |}.

(** [src/internal/controller/zfsreplication_run_controller.go:160-225 ensureSenderStarted] The
    receiver, the result, whether reconciliation is done, and the error. *)
Definition ensureSenderStarted (run : ZFSReplicationRun) (names : runObjects)
  : kube (runReceiverStatus * Result * bool * goerr) :=
  let fail_run msg :=
    err ← failRunObject run names msg; Ret (no_receiver, no_requeue, true, err) in
  let wait :=
    '(result, err) ← waitForReplicationReceiver run names; Ret (no_receiver, result, true, err) in
  ready ← readyReceiveTask run names;
  match ready with
  | Err e => Ret (no_receiver, no_requeue, false, Some e)
  | Ok (task, ready, msg) =>
      if msg ≠? "" then fail_run msg
      else if negb ready then wait
      else
        let receiver := {| podName := rp_Name (ReceiverPod (task_status task));
                           podIP := Host (Endpoint (task_status task)) |} in
        _ ← observedRunStatus run;
        known ← ensureRunKnownHosts run names task;
        match known with
        | Err e => Ret (no_receiver, no_requeue, false, Some e)
        | Ok msg =>
            if msg ≠? "" then fail_run msg
            else
              _ ← needsInitialRunStatus run;
              err ← patchRunStatus run (λ st,
                initializeRunStatus names (set_Receiver receiver (set_Phase PhaseReceiverReady st)));
              match err with
              | Some e => Ret (no_receiver, no_requeue, false, Some e)
              | None =>
                  eligible ← receiveTaskEligibleForSender task;
                  match eligible with
                  | Err e => Ret (no_receiver, no_requeue, false, Some e)
                  | Ok (eligible, msg) =>
                      if msg ≠? "" then fail_run msg
                      else if negb eligible then wait
                      else
                        job ← ensureRunSenderJob run (Endpoint (task_status task));
                        match job with
                        | Err e => Ret (no_receiver, no_requeue, false, Some e)
                        | Ok (_, recheck) =>
                            if (recheck : bool)
                            then Ret (receiver, requeue_after Second, true, None)
                            else Ret (receiver, no_requeue, false, None)
                        end
                  end
              end
        end
  end.

(** ** Reconciliation *)

(** [src/internal/controller/zfsreplication_run_controller.go:112-151 Reconcile] From the lease
    on, for a run whose sender Job was read as [sender]. *)
Definition reconcile_children (run : ZFSReplicationRun) (names : runObjects)
  (receiver : runReceiverStatus) (sender : option Job) : kube (Result * goerr) :=
  lease ← reconcileRunReceiveTaskLease run names;
  match lease with
  | Err e => Ret (no_requeue, Some e)
  | Ok (leaseRequeueAfter, msg) =>
      if msg ≠? "" then err ← failRunObject run names msg; Ret (no_requeue, err)
      else
        match sender with
        | Some _ =>
            let after := if leaseRequeueAfter =? 0 then 5 * Second else leaseRequeueAfter in
            err ← patchRunStatus run (λ st,
              initializeRunStatus names (set_Receiver receiver (set_Phase PhaseRunning st)));
            Ret (requeue_after after, err)
        | None =>
            children ← ensurePreSenderChildren run names;
            match children with
            | Err e => Ret (no_requeue, Some e)
            | Ok (childrenCreated, msg) =>
                if msg ≠? "" then err ← failRunObject run names msg; Ret (no_requeue, err)
                else if (childrenCreated : bool) then waitForReplicationReceiver run names
                else
                  '(_, result, done, err) ← ensureSenderStarted run names;
                  Ret (withEarlierRequeue result leaseRequeueAfter, err)
            end
        end
  end.

(** [src/internal/controller/zfsreplication_run_controller.go:82-110 Reconcile] From the sender
    Job on. *)
Definition reconcile_sender (run : ZFSReplicationRun) (names : runObjects) : kube (Result * goerr) :=
  observedStatus ← observedRunStatus run;
  found ← senderJobForRun run names observedStatus;
  match found with
  | Err e => Ret (no_requeue, Some e)
  | Ok (sender, msg) =>
      if msg ≠? "" then err ← failRunObject run names msg; Ret (no_requeue, err)
      else
        let receiver := {| podName := ReceiverPodName (run_status run);
                           podIP := ReceiverPodIP (run_status run) |} in
        match sender with
        | None => reconcile_children run names receiver None
        | Some sender =>
            if om_uid (job_meta sender) ≟ "" then Ret (requeue_after Second, None)
            else
              bound ← (if SenderJobUID observedStatus ≟ "" then
                         err ← bindSenderJobIdentity run names sender;
                         Ret (match err with
                              | Some e => Err e
                              | None => Ok (with_run_status run
                                  (set_SenderJobUID (om_uid (job_meta sender))
                                    (set_SenderJobName (SenderName names) (run_status run))))
                              end)
                       else Ret (Ok run));
              match bound with
              | Err e => Ret (no_requeue, Some e)
              | Ok run =>
                  '(result, done, err) ← finishFromSenderJob run names receiver sender;
                  match err with
                  | Some e => Ret (result, Some e)
                  | None =>
                      if (done : bool) then Ret (result, None)
                      else reconcile_children run names receiver (Some sender)
                  end
              end
        end
  end.

(** [src/internal/controller/zfsreplication_run_controller.go:53-81 Reconcile] From the run as it
    was read. *)
Definition reconcile_run (run : ZFSReplicationRun) : kube (Result * goerr) :=
  let names := objectNamesForRun (om_name (run_meta run)) in
  if Phase_Terminal (rs_Phase (run_status run)) then
    err ← reconcileTerminalRun run names; Ret (no_requeue, err)
  else
    match validateRunSpec (run_spec run) with
    | Err e => err ← failRunValidation run (text e); Ret (no_requeue, err)
    | Ok _ =>
        locked ← destinationLocked run;
        match locked with
        | Err e => Ret (no_requeue, Some e)
        | Ok (true, msg) =>
            _ ← needsInitialRunStatus run;
            err ← patchRunStatus run (λ st,
              initializeRunStatus names (set_LastError msg (set_Phase PhasePending st)));
            Ret (requeue_after (5 * Second), err)
        | Ok (false, _) => reconcile_sender run names
        end
    end.

(** [src/internal/controller/zfsreplication_run_controller.go:48-151 Reconcile] *)
Definition Reconcile (namespace name : string) : kube (Result * goerr) :=
  run ← kcall (GetRun Cache namespace name);
  match run with
  | Err e => Ret (no_requeue, IgnoreNotFound (Some e))
  | Ok run => reconcile_run run
  end.

End controller.
