(* ===== verification/Cluster.v ===== *)
(** * A cluster in memory

    A deterministic API server for one run and its children, with the actions of
    the receiver and of the sender Job's pod, to execute reconciliations on: the
    life of a replication run from creation to success, its failures, and a stale
    cache. *)
From S2P Require Import Prelude GoStrings GoErrors GoTime Api Replication Names Syncoid Ssh Effects Kube RunController.
Local Open Scope Z_scope.

(** The objects of the run, and the clock. *)
Record cluster := Cluster {
  c_run : option ZFSReplicationRun;
  c_task : option ZFSReceiveTask;
  c_secret : option Secret;
  c_job : option Job;
  c_pod : option Pod;
  clock : time }.

Definition not_found : error := apiError NotFound "not found".
Definition already_exists : error := apiError AlreadyExists "already exists".

(** A read by name. *)
Definition get {A} (meta : A → ObjectMeta) (ns name : string) (x : option A) : result A :=
  match x with
  | Some a => if (om_namespace (meta a) ≟ ns) && (om_name (meta a) ≟ name) then Ok a else Err not_found
  | None => Err not_found
  end.

(** The server assigns the UID and the creation time. *)
Definition admit_meta (uid : string) (now : time) (m : ObjectMeta) : ObjectMeta :=
  {| om_name := om_name m; om_namespace := om_namespace m; om_uid := uid; om_labels := om_labels m;
     om_annotations := om_annotations m; om_creation := now; om_deletion := None;
     om_owners := om_owners m |}.

Definition with_task (t : option ZFSReceiveTask) (s : cluster) : cluster :=
  Cluster (c_run s) t (c_secret s) (c_job s) (c_pod s) (clock s).
Definition with_secret (x : option Secret) (s : cluster) : cluster :=
  Cluster (c_run s) (c_task s) x (c_job s) (c_pod s) (clock s).
Definition with_job (j : option Job) (s : cluster) : cluster :=
  Cluster (c_run s) (c_task s) (c_secret s) j (c_pod s) (clock s).
Definition with_pod (p : option Pod) (s : cluster) : cluster :=
  Cluster (c_run s) (c_task s) (c_secret s) (c_job s) p (clock s).
Definition with_run (r : option ZFSReplicationRun) (s : cluster) : cluster :=
  Cluster r (c_task s) (c_secret s) (c_job s) (c_pod s) (clock s).
Definition tick (d : duration) (s : cluster) : cluster :=
  Cluster (c_run s) (c_task s) (c_secret s) (c_job s) (c_pod s) (clock s + d).

Definition create {A} (old : option A) (set : cluster → cluster) (s : cluster) : goerr * cluster :=
  match old with Some _ => (Some already_exists, s) | None => (None, set s) end.

(** The API server: reads see every earlier write. *)
Definition serve (o : kube_op) (s : cluster) : kube_ans o * cluster :=
  match o return kube_ans o * cluster with
  | GetRun _ ns name => (get run_meta ns name (c_run s), s)
  | GetTask _ ns name => (get task_meta ns name (c_task s), s)
  | GetSecret ns name => (get secret_meta ns name (c_secret s), s)
  | GetJob ns name => (get job_meta ns name (c_job s), s)
  | GetPod ns name => (get pod_meta ns name (c_pod s), s)
  | GetSchedule _ _ => (Err not_found, s)
  | ListRuns _ _ => (Ok (option_list (c_run s)), s)
  | ListTasks _ => (Ok (option_list (c_task s)), s)
  | ListPods _ _ => (Ok (option_list (c_pod s)), s)
  | CreateSecret x => create (c_secret s) (with_secret (Some
      {| secret_meta := admit_meta "secret-uid" (clock s) (secret_meta x); secret_data := secret_data x |})) s
  | CreateTask t => create (c_task s) (with_task (Some
      {| task_meta := admit_meta "task-uid" (clock s) (task_meta t); task_spec := task_spec t;
         task_status := task_status t |})) s
  | CreateJob j => create (c_job s) (with_job (Some
      {| job_meta := admit_meta "job-uid" (clock s) (job_meta j); job_spec := job_spec j;
         job_status := job_status j |})) s
  | CreateRun r => create (c_run s) (with_run (Some
      {| run_meta := admit_meta "run-uid" (clock s) (run_meta r); run_spec := run_spec r;
         run_status := run_status r |})) s
  | UpdateTask t => (None, with_task (Some t) s)
  | UpdateSecret x => (None, with_secret (Some x) s)
  | DeleteSecret _ => (None, with_secret None s)
  | DeleteRun _ => (None, with_run None s)
  | PatchRunStatus base st => (None, with_run (Some (with_run_status base st)) s)
  | PatchTaskStatus _ base st => (None, with_task (Some
      {| task_meta := task_meta base; task_spec := task_spec base; task_status := st |}) s)
  | PatchScheduleStatus _ _ => (None, s)
  | GenerateRSAKey => (Ok {| rsa_pem := Some "PRIVATE KEY"; rsa_authorized := Ok (key_line false +:+ nl) |}, s)
  | Now => (clock s, s)
  end.

(** ** The other parties *)

(** The receiver reports the task ready at its endpoint. *)
Definition receiver_ready (s : cluster) : cluster :=
  with_pod (Some {| pod_meta := admit_meta "pod-uid" (clock s) (new_meta "receiver-0" "zfsrep" ∅);
                    pod_conditions := [{| c_type := "Ready"; c_status := "True"; c_message := "" |}];
                    pod_containers := [] |})
  (with_task ((λ t, {| task_meta := task_meta t; task_spec := task_spec t;
     task_status := {| tst_Phase := ReceiveTaskPhaseReady;
                       Endpoint := {| Host := "10.0.0.7"; Port := 2222 |};
                       HostKey := key_line true;
                       ReceiverPod := {| rp_Name := "receiver-0"; rp_UID := "pod-uid" |};
                       tst_Error := "" |} |}) <$> c_task s) s).

(** The Job controller reports the outcome of the sender. *)
Definition job_outcome (succeeded failed : Z) (s : cluster) : cluster :=
  with_job ((λ j, {| job_meta := job_meta j; job_spec := job_spec j;
                     job_status := {| jst_succeeded := succeeded; jst_failed := failed;
                                      jst_conditions := [] |} |}) <$> c_job s) s.

(** ** Executing reconciliations *)

Definition config : RunReconciler :=
  {| hasAPIReader := true; ReleaseImage := "ghcr.io/example/zfsrep:v1"; ReceiverNamespace := "zfsrep" |}.

(** A cluster with one new run. *)
Definition start : cluster :=
  Cluster (Some (sample_run "nightly" "run-uid")) None None None None (1000000 * Hour).

Definition reconcile_nightly : kube (Result * goerr) :=
  @Reconcile ascii_tables two_keys append_controller config "default" "nightly".

Definition reconcile (s : cluster) : cluster := (run_with (E := Kube) serve reconcile_nightly s).2.
Definition trace (s : cluster) : list kevent := (run_with (E := Kube) serve reconcile_nightly s).1.1.
Definition outcome (s : cluster) : Result * goerr := (run_with (E := Kube) serve reconcile_nightly s).1.2.

Lemma trace_exec s : exec reconcile_nightly (trace s) (outcome s).
Proof.
  pose proof (run_with_exec (E := Kube) serve reconcile_nightly s) as Hx. unfold trace, outcome.
  by destruct (run_with (E := Kube) serve reconcile_nightly s) as [[tr a] s'].
Defined.

(** The writes of a trace, by kind. *)
Definition write_name (o : kube_op) : list string :=
  match o with
  | CreateSecret _ => ["create secret"]
  | CreateTask _ => ["create task"]
  | CreateJob _ => ["create job"]
  | UpdateTask _ => ["renew task"]
  | UpdateSecret _ => ["known hosts"]
  | DeleteSecret _ => ["delete secret"]
  | PatchRunStatus _ st => [rs_Phase st]
  | PatchTaskStatus _ _ st => ["task " +:+ tst_Phase st]
  | _ => []
  end.
Definition writes (s : cluster) : list string := ev ← trace s; write_name (ev_op (E := Kube) ev).

(** The stages of a run, each reconciled from the one before. *)
Definition with_secret_made : cluster := reconcile start.
Definition with_task_made : cluster := reconcile with_secret_made.
Definition ready : cluster := receiver_ready with_task_made.
Definition sender_made : cluster := reconcile ready.
Definition running : cluster := reconcile sender_made.
Definition done_running : cluster := job_outcome 1 0 running.
Definition failed_running : cluster := job_outcome 0 1 running.

(** From creation to success: what each reconciliation writes. *)
Example lifecycle :
  writes start = ["create secret"; "StartingReceiver"] ∧
  writes with_secret_made = ["create task"; "StartingReceiver"] ∧
  writes with_task_made = ["StartingReceiver"] ∧
  writes ready = ["known hosts"; "ReceiverReady"; "create job"] ∧
  writes sender_made = ["ReceiverReady"; "Running"] ∧
  writes (tick (25 * Minute) running) = ["renew task"; "Running"] ∧
  writes (tick (31 * Minute) running) = ["Failed"; "task Failed"; "delete secret"] ∧
  writes done_running = ["Succeeded"; "task Completed"; "delete secret"] ∧
  writes (reconcile done_running) = [] ∧
  writes failed_running = ["Failed"; "task Failed"; "delete secret"].
Proof. vm_compute. by split_and!. Qed.

(** A reconciliation whose cache still holds the run as it was created: it observes the
    start on the server, but sends a start of its own. *)
Definition serve_stale (o : kube_op) (s : cluster) : kube_ans o * cluster :=
  match o return kube_ans o * cluster with
  | GetRun Cache ns name => (get run_meta ns name (c_run start), s)
  | o => serve o s
  end.

Definition started (s : cluster) : option time := run ← c_run s; StartedAt (run_status run).

Example stale_cache_restarts :
  started with_task_made = Some (clock start) ∧
  started (run_with (E := Kube) serve_stale reconcile_nightly (tick Minute with_task_made)).2 =
    Some (clock start + Minute).
Proof. vm_compute. by split. Qed.
