(* ===== verification/DestinationLock.v ===== *)
(** * The destination lock

    The order in which runs that receive into overlapping datasets of one node
    wait for each other (internal/controller/zfsreplication_run_controller.go,
    [destinationLocked]): it excludes, it makes progress, and where it yields. *)
From S2P Require Import Prelude GoStrings StringOrder GoErrors GoTime Api Replication Names Syncoid Ssh Effects Kube RunController Cluster.
Local Open Scope Z_scope.

(** ** Who waits for whom *)

(** A run that has not started receiving. *)
Definition pending (run : ZFSReplicationRun) : Prop :=
  rs_Phase (run_status run) = "" ∨ rs_Phase (run_status run) = PhasePending.

(** Runs that contend for a destination: active runs of different names into the
    same dataset, or a dataset and one below it, of one node. *)
Definition contend (a b : ZFSReplicationRun) : Prop :=
  om_name (run_meta a) ≠ om_name (run_meta b) ∧
  Phase_Active (rs_Phase (run_status a)) = true ∧ Phase_Active (rs_Phase (run_status b)) = true ∧
  NodeName (Target (run_spec a)) = NodeName (Target (run_spec b)) ∧
  targetDatasetsOverlap (Dataset (Target (run_spec a))) (Dataset (Target (run_spec b))) = true.

(** Created before, by the timestamps the server recorded, or at the same time
    with the smaller name. *)
Definition earlier (a b : ZFSReplicationRun) : Prop :=
  om_creation (run_meta a) < om_creation (run_meta b) ∨
  om_creation (run_meta a) = om_creation (run_meta b) ∧
  String.ltb (om_name (run_meta a)) (om_name (run_meta b)) = true.

Definition created_at (run : ZFSReplicationRun) : Prop := om_creation (run_meta run) ≠ 0.

Lemma earlier_trans a b c : earlier a b → earlier b c → earlier a c.
Proof.
  unfold earlier. intros [?|[? ?]] [?|[? ?]]; try (left; lia).
  right. split; [lia|by eapply ltb_trans].
Qed.

Lemma earlier_irrefl a : ¬ earlier a a.
Proof. unfold earlier. rewrite ltb_irrefl. by intros [?|[_ ?]]; [lia|]. Qed.

Lemma pending_active run : pending run → Phase_Active (rs_Phase (run_status run)) = true.
Proof. unfold Phase_Active. by intros [-> | ->]. Qed.

Lemma in_progress_test run :
  (rs_Phase (run_status run) ≠? "") && (rs_Phase (run_status run) ≠? PhasePending) = false ↔ pending run.
Proof.
  unfold pending. rewrite andb_false_iff, !negb_false_iff, !bool_decide_eq_true. done.
Qed.

(** The test of the source for two runs with recorded creation times. *)
Lemma shouldWaitForDestinationRun_spec run other :
  created_at run → created_at other →
  shouldWaitForDestinationRun run other = true ↔ ¬ pending other ∨ earlier other run.
Proof.
  intros Hr Ho. unfold shouldWaitForDestinationRun. destruct (_ && _) eqn:E.
  - split; [left|done]. intros Hp%in_progress_test. congruence.
  - apply in_progress_test in E. unfold created_at in *. unfold IsZero, TEqual, Before, earlier.
    destruct (Z.eqb_spec (om_creation (run_meta run)) 0) as [?|_]; [done|].
    destruct (Z.eqb_spec (om_creation (run_meta other)) 0) as [?|_]; [done|]. simpl.
    destruct (Z.eqb_spec (om_creation (run_meta run)) (om_creation (run_meta other))) as [->|Hne].
    + split; [|intros [?|[?|[_ ?]]]; [done|lia|done]]. intros ?. right. right. done.
    + rewrite Z.ltb_lt. split; [by right; left|]. intros [?|[?|[? _]]]; [done|done|]. by subst.
Qed.

Lemma targetDatasetsOverlap_sym a b : targetDatasetsOverlap a b = targetDatasetsOverlap b a.
Proof. unfold targetDatasetsOverlap. apply orb_comm. Qed.

Lemma contend_sym a b : contend a b → contend b a.
Proof.
  intros (Hn & Ha & Hb & Hnode & Ho). split_and!; try done. by rewrite targetDatasetsOverlap_sym.
Qed.

(** The test of one run against another. *)
Lemma blocks_spec run other :
  created_at run → created_at other → Phase_Active (rs_Phase (run_status run)) = true →
  blocks run other = true ↔ contend run other ∧ (¬ pending other ∨ earlier other run).
Proof.
  intros Hr Ho Ha. rewrite <- shouldWaitForDestinationRun_spec by done. unfold blocks, contend.
  destruct (bool_decide_reflect (om_name (run_meta other) = om_name (run_meta run))) as [En|En]; simpl.
  { split; [done|]. intros [[Hne _] _]. congruence. }
  destruct (Phase_Active (rs_Phase (run_status other))) eqn:Ep; simpl.
  2: { split; [done|]. by intros [(_ & _ & ? & _) _]. }
  destruct (bool_decide_reflect (NodeName (Target (run_spec other)) = NodeName (Target (run_spec run))))
    as [Ed|Ed]; simpl.
  2: { split; [done|]. intros [(_ & _ & _ & ? & _) _]. congruence. }
  destruct (targetDatasetsOverlap _ _); simpl.
  - split; [|by intros []]. intros Hw. split; [|done]. split_and!; congruence.
  - split; [done|]. by intros [(_ & _ & _ & _ & ?) _].
Qed.

(** Of two pending runs that contend exactly one waits. *)
Lemma blocks_exclusive a b :
  pending a → pending b → contend a b → blocks a b = negb (blocks b a).
Proof.
  intros Ha Hb (Hn & Haa & Hab & Hnode & Ho). unfold blocks.
  rewrite (targetDatasetsOverlap_sym (Dataset (Target (run_spec b)))), Ho, Haa, Hab, Hnode.
  rewrite (bool_decide_false (om_name (run_meta b) = _)), (bool_decide_false (om_name (run_meta a) = _)),
    bool_decide_true by congruence. simpl.
  unfold shouldWaitForDestinationRun.
  apply in_progress_test in Ha as ->, Hb as ->. unfold IsZero, TEqual, Before.
  rewrite (orb_comm (om_creation (run_meta b) =? 0)), (Z.eqb_sym (om_creation (run_meta b)) (om_creation (run_meta a))).
  destruct (_ || _) eqn:Eo; [by apply ltb_antisym|].
  apply orb_false_iff in Eo as [_ Eo]. apply Z.eqb_neq in Eo.
  destruct (Z.ltb_spec (om_creation (run_meta b)) (om_creation (run_meta a))),
    (Z.ltb_spec (om_creation (run_meta a)) (om_creation (run_meta b))); simpl; try done; lia.
Qed.


(** Among finitely many runs there is an earliest one. *)
Lemma earliest (runs : list ZFSReplicationRun) :
  runs ≠ [] → ∃ a, a ∈ runs ∧ ∀ b, b ∈ runs → ¬ earlier b a.
Proof.
  induction runs as [|x runs IH]; [done|]. intros _. destruct runs as [|y runs].
  - exists x. split; [by left|]. intros b ->%list_elem_of_singleton. apply earlier_irrefl.
  - destruct IH as (a & Ha & Hmin); [done|].
    assert (earlier x a ∨ ¬ earlier x a) as [Hxa|Hxa] by (unfold earlier; destruct (String.ltb _ _); lia).
    + exists x. split; [by left|]. intros b [->|Hb]%elem_of_cons; [apply earlier_irrefl|].
      intros Hbx. apply (Hmin b Hb). by eapply earlier_trans.
    + exists a. split; [by right|]. intros b [->|Hb]%elem_of_cons; [done|by apply Hmin].
Qed.

(** C36. Pending runs never wait for each other in a circle: of any pending runs
    with recorded creation times, one waits for none of the others. *)
Theorem destination_progress (runs : list ZFSReplicationRun) :
  runs ≠ [] → Forall created_at runs → Forall pending runs →
  ∃ a, a ∈ runs ∧ ∀ b, b ∈ runs → blocks a b = false.
Proof.
  intros Hne Hc Hp. rewrite Forall_forall in Hc, Hp. destruct (earliest runs Hne) as (a & Ha & Hmin).
  exists a. split; [done|]. intros b Hb. apply not_true_iff_false.
  rewrite blocks_spec by auto using pending_active. intros [_ [Hnp|He]]; [by apply Hnp, Hp|].
  by apply (Hmin b).
Qed.

(** The circle that the zero creation time would allow. *)
Definition at_time (name : string) (t : time) (phase : Phase) : ZFSReplicationRun :=
  {| run_meta := {| om_name := name; om_namespace := "default"; om_uid := name; om_labels := ∅;
                    om_annotations := ∅; om_creation := t; om_deletion := None; om_owners := [] |};
     run_spec := sample_spec; run_status := set_Phase phase empty_run_status |}.

Example zero_time_circle :
  let a := at_time "b" 0 "" in let b := at_time "a" 10 "" in let c := at_time "c" 5 "" in
  (blocks a b, blocks b c, blocks c a) = (true, true, true).
Proof. vm_compute. reflexivity. Qed.

(** ** A run that is receiving *)

Section yields.
Context `{UnicodeTables} `{SSHKeys} `{ControllerRuntime}.
Context (r : RunReconciler).

(** What a reconciliation of an active, valid run does after its listing of the runs. *)
Lemma reconcile_listed ns name run items t res :
  exec (Reconcile r ns name)
    (Event (E := Kube) (GetRun Cache ns name) (Ok run) ::
     Event (E := Kube) (ListRuns (om_namespace (run_meta run)) ∅) (Ok items) :: t) res →
  Phase_Active (rs_Phase (run_status run)) = true → is_ok (validateRunSpec (run_spec run)) = true →
  let names := objectNamesForRun (om_name (run_meta run)) in
  match List.find (blocks run) items with
  | Some other => ∃ msg, exec (
      _ ← needsInitialRunStatus r run;
      err ← patchRunStatus run (λ st, initializeRunStatus names (set_LastError msg (set_Phase PhasePending st)));
      Ret (requeue_after (5 * Second), err)) t res
  | None => exec (reconcile_sender r run names) t res
  end.
Proof.
  intros Hx Ha Hv. apply exec_inv in Hx as (a & t1 & Heq & Hx).
  pose proof (f_equal (λ l, head l ≫= λ ev : kevent, match ev with
    | Event (GetRun _ _ _) x => Some x | _ => None end) Heq) as [= <-].
  pose proof (f_equal tail Heq) as Ht. cbn [tail] in Ht. subst t1.
  change (exec (reconcile_run r run) (Event (E := Kube) (ListRuns (om_namespace (run_meta run)) ∅) (Ok items) :: t) res) in Hx.
  unfold reconcile_run in Hx. unfold Phase_Active in Ha. apply negb_true_iff in Ha. rewrite Ha in Hx. cbv zeta in Hx.
  destruct (validateRunSpec (run_spec run)); [|done]. unfold destinationLocked in Hx.
  apply exec_inv in Hx as (x & t1 & Heq' & Hx).
  pose proof (f_equal (λ l, head l ≫= λ ev : kevent, match ev with
    | Event (ListRuns _ _) x => Some x | _ => None end) Heq') as [= <-].
  pose proof (f_equal tail Heq') as Ht. cbn [tail] in Ht. subst t1.
  cbn [prog_bind mbind prog_mbind] in Hx. destruct (List.find (blocks run) items); [by eexists|exact Hx].
Qed.

(** A read of the run, or of the clock. *)
Definition looks (o : kube_op) : Prop := match o with GetRun Fresh _ _ | Now => True | _ => False end.

Lemma needsInitial_looks run tr b :
  exec (needsInitialRunStatus r run) tr b → Forall looks (ev_op (E := Kube) <$> tr).
Proof.
  unfold needsInitialRunStatus, observedRunStatus. destruct (hasAPIReader r); cbn [negb]; intros Hx.
  - apply exec_bind in Hx as (t1 & t2 & st & -> & K1 & K2). apply exec_Ret in K2 as [-> _].
    apply exec_op in K1 as (x & t & -> & K1). assert (t = []) as -> by (destruct x; by apply exec_Ret in K1 as [-> _]).
    repeat constructor.
  - apply exec_bind in Hx as (t1 & t2 & st & -> & K1 & K2). apply exec_Ret in K1 as [-> _].
    apply exec_Ret in K2 as [-> _]. constructor.
Qed.

Lemma initializeRunStatus_exec names st tr st' :
  exec (initializeRunStatus names st) tr st' →
  Forall looks (ev_op (E := Kube) <$> tr) ∧ rs_Phase st' = rs_Phase st ∧ SenderJobUID st' = SenderJobUID st.
Proof.
  unfold initializeRunStatus. destruct (StartedAt st); intros Hx.
  - apply exec_Ret in Hx as [-> <-]. by split; [constructor|].
  - apply exec_op in Hx as (now & t & -> & Hx). apply exec_Ret in Hx as [-> <-]. by split; [repeat constructor|].
Qed.

(** C37. A run that is receiving, even one with a sender Job, gives its destination up to
    a pending run created in the same second under a smaller name: its reconciliation
    does nothing but set its status back to Pending, and keeps the sender Job; and
    against that status a reconciliation of the pending run is not held back, but goes
    on to start its own sender. *)
Theorem in_progress_run_yields ns name run items other t res :
  exec (Reconcile r ns name)
    (Event (E := Kube) (GetRun Cache ns name) (Ok run) ::
     Event (E := Kube) (ListRuns (om_namespace (run_meta run)) ∅) (Ok items) :: t) res →
  is_ok (validateRunSpec (run_spec run)) = true → is_ok (validateRunSpec (run_spec other)) = true →
  ¬ pending run → pending other → other ∈ items → contend run other →
  om_creation (run_meta other) = om_creation (run_meta run) →
  String.ltb (om_name (run_meta other)) (om_name (run_meta run)) = true →
  ∃ t0 st e,
    t = t0 ++ [Event (E := Kube) (PatchRunStatus run st) e] ∧ Forall looks (ev_op (E := Kube) <$> t0) ∧
    rs_Phase st = PhasePending ∧ SenderJobUID st = SenderJobUID (run_status run) ∧
    res = (requeue_after (5 * Second), e) ∧
    ∀ ns' name' t' res',
      exec (Reconcile r ns' name')
        (Event (E := Kube) (GetRun Cache ns' name') (Ok other) ::
         Event (E := Kube) (ListRuns (om_namespace (run_meta other)) ∅) (Ok [with_run_status run st; other]) :: t') res' →
      exec (reconcile_sender r other (objectNamesForRun (om_name (run_meta other)))) t' res'.
Proof.
  intros Hx Hv Hv' Hr Ho Hin (Hn & Hra & Hoa & Hnode & Hov) Ht Hlt.
  assert (blocks run other = true) as Hb.
  { unfold blocks. rewrite Hoa, Hov, Hnode, !bool_decide_false, bool_decide_true by congruence. simpl.
    unfold shouldWaitForDestinationRun. apply in_progress_test in Ho as ->. simpl.
    rewrite Ht. unfold TEqual. by rewrite Z.eqb_refl, orb_true_r. }
  apply reconcile_listed in Hx; [|done..]. cbv zeta in Hx.
  destruct (List.find (blocks run) items) as [o|] eqn:Ef.
  2: { pose proof (find_none _ _ Ef other ltac:(by apply list_elem_of_In)) as Hf. congruence. }
  destruct Hx as [msg Hx]. apply exec_bind in Hx as (t1 & t2 & b & -> & K1 & Hx). apply needsInitial_looks in K1.
  apply exec_bind in Hx as (t3 & t4 & e & -> & K3 & K4). apply exec_Ret in K4 as [-> <-].
  apply exec_bind in K3 as (t5 & t6 & st & -> & K5 & K6). apply (exec_call_inv (E := Kube) (PatchRunStatus run st)) in K6 as ->.
  apply initializeRunStatus_exec in K5 as (K5 & Hp & Hu).
  exists (t1 ++ t5), st, e. rewrite app_nil_r, <- app_assoc. split; [done|].
  split; [rewrite fmap_app; by apply Forall_app|]. split_and!; [done..|].
  intros ns' name' t' res' Hx'. apply reconcile_listed in Hx'; [|done..]. cbv zeta in Hx'.
  assert (List.find (blocks other) [with_run_status run st; other] = None) as Hnone; [|by rewrite Hnone in Hx'].
  assert (blocks (with_run_status run st) other = true) as Hb' by exact Hb.
  assert (blocks other (with_run_status run st) = false) as Hfree.
  { rewrite (blocks_exclusive other (with_run_status run st)); [by rewrite Hb'|done|right; exact Hp|].
    split_and!; try done; [unfold Phase_Active; cbn; by rewrite Hp|]. by rewrite targetDatasetsOverlap_sym. }
  cbn [List.find]. rewrite Hfree. unfold blocks at 1. by rewrite bool_decide_true.
Qed.

End yields.

(** ** Concrete inputs *)

Definition waiting_text : string := "waiting for active run a to finish receiving into backup/data on node-b".

Lemma waiting_listing (_ut := Names.ascii_tables) :
  exec (destinationLocked (at_time "b" 7 ""))
    [Event (E := Kube) (ListRuns "default" ∅) (Ok [at_time "a" 9 PhaseRunning])] (Ok (true, waiting_text)).
Proof.
  apply (exec_call (E := Kube)). cbn [prog_bind].
  assert (List.find (blocks (at_time "b" 7 "")) [at_time "a" 9 PhaseRunning] = Some (at_time "a" 9 PhaseRunning))
    as -> by (vm_compute; reflexivity).
  assert (∀ s t : string, s = t → exec (E := Kube) (Ret (Ok (true, s) : result (bool * string))) [] (Ok (true, t)))
    as Hret by (intros s ? <-; constructor).
  apply Hret. vm_compute. reflexivity.
Qed.


Lemma destination_progress_witness :
  ∃ a, a ∈ [at_time "b" 7 ""; at_time "a" 9 ""] ∧
       ∀ b, b ∈ [at_time "b" 7 ""; at_time "a" 9 ""] → blocks a b = false.
Proof.
  apply destination_progress; [discriminate| |].
  - repeat constructor; discriminate.
  - repeat constructor; left; reflexivity.
Defined.

(** A run with a sender Job that is receiving, and a pending one of the same second. *)
Definition receiving : ZFSReplicationRun :=
  with_run_status (at_time "z" 7 "") (set_SenderJobUID "job-uid" (set_Phase PhaseRunning empty_run_status)).
Definition newcomer : ZFSReplicationRun := at_time "a" 7 "".

Definition serve_two (o : kube_op) (s : cluster) : kube_ans o * cluster :=
  match o return kube_ans o * cluster with
  | ListRuns _ _ => (Ok [receiving; newcomer], s)
  | o => serve o s
  end.

Definition reconcile_receiving : list kevent * (Result * goerr) * cluster :=
  run_with (E := Kube) serve_two (@Reconcile ascii_tables two_keys append_controller config "default" "z")
    (with_run (Some receiving) start).

Lemma in_progress_run_yields_witness : ∃ t0 st e,
  reconcile_receiving.1.1 = Event (E := Kube) (GetRun Cache "default" "z") (Ok receiving) ::
    Event (E := Kube) (ListRuns "default" ∅) (Ok [receiving; newcomer]) ::
    t0 ++ [Event (E := Kube) (PatchRunStatus receiving st) e] ∧
  rs_Phase st = PhasePending ∧ SenderJobUID st = "job-uid".
Proof.
  destruct (@in_progress_run_yields ascii_tables two_keys append_controller config "default" "z" receiving
    [receiving; newcomer] newcomer (drop 2 reconcile_receiving.1.1) reconcile_receiving.1.2)
    as (t0 & st & e & Ht & _ & Hp & Hu & _).
  - replace (_ :: _ :: drop 2 reconcile_receiving.1.1) with reconcile_receiving.1.1 by (vm_compute; reflexivity).
    unfold reconcile_receiving.
    pose proof (run_with_exec (E := Kube) serve_two
      (@Reconcile ascii_tables two_keys append_controller config "default" "z") (with_run (Some receiving) start)) as Hx.
    destruct (run_with _ _ _) as [[tr a] s]. exact Hx.
  - vm_compute. reflexivity.
  - vm_compute. reflexivity.
  - intros [Hp|Hp]; discriminate Hp.
  - left. reflexivity.
  - right. left.
  - split_and!; [discriminate|vm_compute; reflexivity..].
  - reflexivity.
  - reflexivity.
  - exists t0, st, e. rewrite <- Ht. split; [vm_compute; reflexivity|]. split; [exact Hp|exact Hu].
Defined.
