(* ===== verification/RunSafety.v ===== *)
(** * Safety of the run controller

    What every write of a reconciliation is preceded by, for arbitrary answers of
    the API server and the cache: one guarantee for all writes of [Reconcile],
    proved function by function, and its consequences. *)
From S2P Require Import Prelude GoStrings GoErrors GoTime Api Replication Names Syncoid Ssh Effects Kube RunController.
Local Open Scope Z_scope.

Section guarantee.
Context `{UnicodeTables} `{SSHKeys} `{ControllerRuntime}.
Context (r : RunReconciler) (run : ZFSReplicationRun).

Let ns := om_namespace (run_meta run).
Let names := objectNamesForRun (om_name (run_meta run)).

(** A child of the run: controlled by its UID and not being deleted. *)
Definition controlled (m : ObjectMeta) : Prop :=
  (∃ o, GetControllerOf m = Some o ∧ or_uid o = om_uid (run_meta run)) ∧
  opt_IsZero (om_deletion m) = true.

(** The receive task a sender Job may be created for. *)
Definition ready_task (h : list kevent) (task : ZFSReceiveTask) : Prop :=
  seen h (GetTask Fresh ns (ReceiveTaskName names)) (Ok task) ∧ controlled (task_meta task) ∧
  tst_Phase (task_status task) = ReceiveTaskPhaseReady ∧ ready_incomplete (task_status task) = "" ∧
  ∃ pod, seen h (GetPod (ReceiverNamespace r) (rp_Name (ReceiverPod (task_status task)))) (Ok pod) ∧
    om_uid (pod_meta pod) = rp_UID (ReceiverPod (task_status task)) ∧
    opt_IsZero (om_deletion (pod_meta pod)) = true ∧
    ∃ c, List.find (λ c, c_type c ≟ "Ready") (pod_conditions pod) = Some c ∧ c_status c = "True".

(** What a reconciliation observes of the status of its run: a fresh read, if there is
    a reader for it and the read succeeds, and the run as it was read before if not. *)
Definition observation (t : list kevent) (status : ZFSReplicationRunStatus) : Prop :=
  if hasAPIReader r then
    ∃ answer, t = [Event (E := Kube) (GetRun Fresh ns (om_name (run_meta run))) answer] ∧
      status = match answer with Ok fresh => run_status fresh | Err _ => run_status run end
  else t = [] ∧ status = run_status run.

(** The sender Job that was read directly after such an observation, and what has
    happened since. *)
Definition sender_read (h h1 : list kevent) (status : ZFSReplicationRunStatus) (job : Job) : Prop :=
  ∃ h0 t, h = h0 ++ t ++ [Event (E := Kube) (GetJob ns (SenderName names)) (Ok job)] ++ h1 ∧
    observation t status ∧ controlled (job_meta job).

(** At most a reading of the clock. *)
Definition clock_only (t : list kevent) : Prop := t = [] ∨ ∃ now, t = [Event (E := Kube) Now now].

(** The sender Job as it was read: controlled by the run, and the one whose UID the
    observed status records, if any. *)
Definition sender_seen (h : list kevent) (job : Job) : Prop :=
  ∃ h1 status, sender_read h h1 status job ∧
    (SenderJobUID status = "" ∨ SenderJobUID status = om_uid (job_meta job)).

(** A status patch: of this run, never dropping the start, binding the sender
    Job's UID only directly after an observation without one, and succeeding only on
    the run's own finished Job. *)
Definition patch_ok (h : list kevent) (base : ZFSReplicationRun) (st : ZFSReplicationRunStatus) : Prop :=
  run_meta base = run_meta run ∧ run_spec base = run_spec run ∧
  (is_Some (StartedAt (run_status base)) → StartedAt st = StartedAt (run_status base)) ∧
  (SenderJobUID st = SenderJobUID (run_status base) ∨
   SenderJobUID (run_status base) = "" ∧ ∃ h1 status job, sender_read h h1 status job ∧ clock_only h1 ∧
     SenderJobUID status = "" ∧ om_uid (job_meta job) ≠ "" ∧ SenderJobUID st = om_uid (job_meta job)) ∧
  (rs_Phase st = PhaseSucceeded → ∃ job, sender_seen h job ∧ om_uid (job_meta job) ≠ "" ∧
     jst_failed (job_status job) = 0 ∧ 0 < jst_succeeded (job_status job)).

(** What each write is preceded by. *)
Definition write_ok (h : list kevent) (o : kube_op) : Prop :=
  match o with
  | GetRun _ _ _ | GetTask _ _ _ | GetSecret _ _ | GetJob _ _ | GetPod _ _ | GetSchedule _ _
  | ListRuns _ _ | ListTasks _ | ListPods _ _ | GenerateRSAKey | Now => True
  | CreateRun _ | DeleteRun _ | PatchScheduleStatus _ _ => False
  | CreateSecret s =>
      (∃ e, seen h (GetSecret ns (SecretName names)) (Err e) ∧ IsNotFound e = true) ∧
      (∃ e, seen h (GetTask Cache ns (ReceiveTaskName names)) (Err e) ∧ IsNotFound e = true) ∧
      ∃ key, own_secret run (runSSHSecret run names key) = Ok s
  | CreateTask t =>
      ∃ h0 now secret e key t0, h = h0 ++ [Event (E := Kube) Now now] ∧
        seen h0 (GetSecret ns (SecretName names)) (Ok secret) ∧ controlled (secret_meta secret) ∧
        seen h0 (GetTask Cache ns (ReceiveTaskName names)) (Err e) ∧ IsNotFound e = true ∧
        publicKeyFromSecret secret = Ok key ∧
        runReceiveTask run names key (now + authorizationLease) = Ok t0 ∧ own_task run t0 = Ok t
  | CreateJob j =>
      ∃ h0 task fresh now e j0,
        h = h0 ++ [Event (E := Kube) (GetTask Fresh (om_namespace (task_meta task))
                                        (om_name (task_meta task))) (Ok fresh);
                   Event (E := Kube) Now now;
                   Event (E := Kube) (GetJob (om_namespace (job_meta j0)) (om_name (job_meta j0))) (Err e)] ∧
        ready_task h0 task ∧ om_uid (task_meta task) ≠ "" ∧
        om_uid (task_meta fresh) = om_uid (task_meta task) ∧
        receiveTaskLeaseRefusal fresh now = "" ∧ IsNotFound e = true ∧
        senderJob run (ReleaseImage r) (Endpoint (task_status task)) = Ok j0 ∧ own_job run j0 = Ok j
  | UpdateTask t =>
      ∃ h0 task fresh now,
        h = h0 ++ [Event (E := Kube) (GetTask Fresh ns (ReceiveTaskName names)) (Ok task);
                   Event (E := Kube) Now now] ∧
        seen h0 (GetRun Fresh ns (om_name (run_meta run))) (Ok fresh) ∧
        Phase_Terminal (rs_Phase (run_status fresh)) = false ∧
        (om_uid (run_meta run) ≠ "" → om_uid (run_meta fresh) = om_uid (run_meta run)) ∧
        controlled (task_meta task) ∧ receiveTaskLeaseRefusal task now = "" ∧
        Sub (ExpiresAt (ts_SSH (task_spec task))) now ≤ authorizationRenewLead ∧
        t = renewed_task task now
  | UpdateSecret s =>
      ∃ secret line, seen h (GetSecret ns (SecretName names)) (Ok secret) ∧
        controlled (secret_meta secret) ∧ secret_meta s = secret_meta secret ∧
        secret_data s = <["known_hosts" := line]> (secret_data secret)
  | DeleteSecret s =>
      seen h (GetSecret ns (SecretName names)) (Ok s) ∧ controlled (secret_meta s)
  | PatchTaskStatus _ t st =>
      seen h (GetTask Cache ns (ReceiveTaskName names)) (Ok t) ∧ controlled (task_meta t) ∧
      ReceiveTaskPhase_Terminal (tst_Phase st) = true ∧
      Endpoint st = Endpoint (task_status t) ∧ HostKey st = HostKey (task_status t) ∧
      ReceiverPod st = ReceiverPod (task_status t)
  | PatchRunStatus base st => patch_ok h base st
  end.

(** ** Refusals *)

Lemma sprintf_nonempty c f args :
  c ≠ "%"%char → sprintf (String c f) args ≠ "".
Proof. intros Hc. unfold sprintf. cbn [Sprintf]. by rewrite bool_decide_false. Qed.

Lemma sprintf_kind kind f args : kind ≠ "" → sprintf ("%s" +:+ f) (FStr kind :: args) ≠ "".
Proof. intros Hk. unfold sprintf. simpl. destruct kind; [done|]. by rewrite app_cons. Qed.

Lemma runChildRefusal_controlled m kind : runChildRefusal run m kind = "" → kind ≠ "" → controlled m.
Proof.
  intros Href Hkind. unfold runChildRefusal in Href.
  destruct (GetControllerOf m) as [o|] eqn:Eo.
  2: { cbv zeta iota in Href. by apply sprintf_kind in Href. }
  case_match eqn:Eu; [by apply sprintf_kind in Href|].
  apply negb_false_iff, bool_decide_eq_true in Eu.
  case_match eqn:Ed; [by apply sprintf_kind in Href|]. apply negb_false_iff in Ed.
  split; [|done]. eauto.
Qed.

(** ** Stepping through a program *)

Abbreviation W := (write_ok).
Let anything {A} : list kevent → A → Prop := λ _ _, True.

(** One step: a read, a test, or the value returned. *)
Ltac safe_step :=
  lazymatch goal with
  | |- safe _ _ _ (Ret _) => cbn [safe]
  | |- safe _ _ _ (kcall _ ≫= _) => apply (safe_call (E := Kube)); [try done|intros ?]
  | |- safe _ _ _ (kcall _) => apply (safe_call_ret (E := Kube)); [try done|intros ?]
  | |- safe _ _ _ (bind_result _ _) => apply safe_bind_result
  | |- safe _ _ _ (then_err _ _) => apply safe_then_err
  | |- safe _ _ _ (if ?b then _ else _) => destruct b eqn:?
  | |- safe _ _ _ (match ?x with _ => _ end) => destruct x eqn:?
  end.
Ltac safe_steps := repeat (cbv zeta; safe_step; try done).

(** A refusal that did not happen: the child is controlled by the run. *)
Lemma not_refused st m kind :
  (runChildRefusal (with_run_status run st) m kind ≠? "") = false → kind ≠ "" → controlled m.
Proof.
  intros Hb Hk. apply negb_false_iff, bool_decide_eq_true in Hb.
  exact (runChildRefusal_controlled m kind Hb Hk).
Qed.

Ltac use_refusals := repeat match goal with
  | Hb : (runChildRefusal (with_run_status run _) _ _ ≠? "") = false |- _ =>
      apply not_refused in Hb; [|done]
  end.

(** Continue after a function whose behaviour is known. *)
Ltac safe_use lem :=
  apply safe_bind; eapply safe_conseq; [apply lem|cbv beta; intros ? ? ? ?].

(** The run under another status: what the local variable [run] holds. *)
Implicit Types (h : list kevent) (st : ZFSReplicationRunStatus).

Lemma safe_anything {A} h (p : kube A) Q : safe write_ok Q h p → safe write_ok anything h p.
Proof. intros Hs. by eapply safe_conseq. Qed.

Lemma observedRunStatus_safe st h :
  safe write_ok (λ h' _, True) h (observedRunStatus r (with_run_status run st)).
Proof. unfold observedRunStatus. safe_steps. Qed.

(** What [initializeRunStatus] leaves alone. *)
Definition initialized (st st' : ZFSReplicationRunStatus) : Prop :=
  rs_Phase st' = rs_Phase st ∧ SenderJobUID st' = SenderJobUID st ∧
  (is_Some (StartedAt st) → StartedAt st' = StartedAt st).

Lemma initializeRunStatus_safe st h :
  safe write_ok (λ h' st', initialized st st' ∧ ∃ t, h' = h ++ t ∧ clock_only t) h (initializeRunStatus names st).
Proof.
  unfold initializeRunStatus. apply safe_bind. destruct (StartedAt st) as [t|] eqn:E.
  - cbn [safe]. unfold initialized. rewrite E. split; [done|]. exists []. by rewrite app_nil_r; split; [|left].
  - apply (safe_call (E := Kube)); [done|]. intros now. cbn [safe]. unfold initialized. rewrite E.
    split; [split_and!; [done|done|by intros []]|]. eexists. split; [done|]. right. by exists now.
Qed.

Lemma patchRunStatus_safe base mutate h :
  safe write_ok (λ h' st', patch_ok h' base st') h (mutate (run_status base)) →
  safe write_ok anything h (patchRunStatus base mutate).
Proof.
  intros Hm. unfold patchRunStatus. apply safe_bind. eapply safe_conseq; [exact Hm|].
  intros h' st' _ Hp. by apply safe_call_ret.
Qed.

(** A patch that only initializes and changes other fields than the UID. *)
Lemma patch_initialized st f h :
  SenderJobUID (f st) = SenderJobUID st → StartedAt (f st) = StartedAt st →
  rs_Phase (f st) ≠ PhaseSucceeded →
  safe write_ok anything h
    (patchRunStatus (with_run_status run st) (λ st, initializeRunStatus names (f st))).
Proof.
  intros Hu Hs Hp. apply patchRunStatus_safe. eapply safe_conseq; [apply initializeRunStatus_safe|].
  intros h' st' _ [(Hph & Hui & Hst) _]. unfold patch_ok. cbn [with_run_status run_meta run_spec run_status] in *.
  split_and!; try done.
  - by rewrite Hs in Hst.
  - left. by rewrite Hui.
  - rewrite Hph. done.
Qed.

Lemma markReceiveTaskTerminal_safe st phase msg h :
  phase = "" ∨ ReceiveTaskPhase_Terminal phase = true →
  safe write_ok anything h (markReceiveTaskTerminal (with_run_status run st) names phase msg).
Proof.
  intros Hp. unfold markReceiveTaskTerminal. safe_steps. use_refusals. split_and!; [apply seen_last|done| |done..].
  destruct Hp as [->|Hp]; [discriminate|done].
Qed.

Lemma deleteRunSSHSecret_safe st h :
  safe write_ok anything h (deleteRunSSHSecret (with_run_status run st) names).
Proof.
  unfold deleteRunSSHSecret. safe_steps; use_refusals. by split; [apply seen_last|].
Qed.

Lemma join2_safe a b h :
  (∀ h, safe write_ok anything h a) → (∀ h, safe write_ok anything h b) →
  safe write_ok anything h (join2 a b).
Proof.
  intros Ha Hb. unfold join2. apply safe_bind. eapply safe_conseq; [apply Ha|]. intros h1 e1 _ _.
  apply safe_bind. eapply safe_conseq; [apply Hb|]. done.
Qed.

Lemma reconcileTerminalRun_safe st h :
  safe write_ok anything h (reconcileTerminalRun (with_run_status run st) names).
Proof.
  apply join2_safe; intros h'; [|apply deleteRunSSHSecret_safe].
  apply markReceiveTaskTerminal_safe. destruct (ReceiveTaskTerminalPhase_spec (rs_Phase st)) as [Ht1 Ht2].
  destruct (Phase_Terminal (rs_Phase st)) eqn:E; [right|left]; [by apply Ht1|by apply Ht2].
Qed.

Lemma failRunObject_safe st msg h :
  safe write_ok anything h (failRunObject r (with_run_status run st) names msg).
Proof.
  unfold failRunObject. safe_use observedRunStatus_safe. safe_step. apply safe_then_err.
  eapply safe_conseq; [by apply patch_initialized|]. intros ? [e|] _ _; [done|].
  apply join2_safe; intros ?; [|apply deleteRunSSHSecret_safe].
  apply markReceiveTaskTerminal_safe. by right.
Qed.

Lemma failRunValidation_safe st msg h :
  safe write_ok anything h (failRunValidation r (with_run_status run st) msg).
Proof.
  unfold failRunValidation. safe_use observedRunStatus_safe. safe_step.
  apply patchRunStatus_safe. cbv zeta. cbn [safe]. unfold patch_ok.
  cbn [with_run_status run_meta run_spec run_status set_LastError set_CompletedAt set_Phase StartedAt].
  destruct (StartedAt st) eqn:E; cbn; rewrite ?E; split_and!; try done; try (by left); by intros [].
Qed.

Lemma waitForReplicationReceiver_safe st h :
  safe write_ok anything h (waitForReplicationReceiver r (with_run_status run st) names).
Proof.
  unfold waitForReplicationReceiver. safe_use observedRunStatus_safe. apply safe_bind.
  eapply safe_conseq; [by apply patch_initialized|]. done.
Qed.

(** ** The sender Job's outcome *)

Lemma sender_seen_prefix h h' job : h `prefix_of` h' → sender_seen h job → sender_seen h' job.
Proof.
  intros [k ->] (h1 & status & (h0 & t & -> & Ho & Hc) & Hu). exists (h1 ++ k), status. split; [|done].
  exists h0, t. split; [by rewrite <- !app_assoc|done].
Qed.

(** The observed status, with the events of its reading. *)
Lemma observedRunStatus_observes h :
  safe write_ok (λ h' status, ∃ t, h' = h ++ t ∧ observation t status) h (observedRunStatus r run).
Proof.
  unfold observedRunStatus, observation. destruct (hasAPIReader r); cbn [negb].
  - apply (safe_call (E := Kube)); [done|].
    intros [fresh|e]; cbn [safe]; eexists; (split; [done|]); eexists; (split; [done|done]).
  - cbn [safe]. exists []. by rewrite app_nil_r.
Qed.

(** A sender Job that is found is the one the observed status records, if any. *)
Lemma senderJobForRun_safe status t h :
  observation t status →
  safe write_ok (λ h' res, ∀ job msg, res = Ok (Some job, msg) → sender_read h' [] status job ∧
      (SenderJobUID status = "" ∨ SenderJobUID status = om_uid (job_meta job))) (h ++ t)
    (senderJobForRun run names status).
Proof.
  intros Ho. unfold senderJobForRun. apply (safe_call (E := Kube)); [done|].
  intros [job|e]; [|by destruct (IsNotFound e)]. cbv zeta.
  destruct (runChildRefusal run (job_meta job) "sender Job" ≠? "") eqn:Er; [done|].
  destruct ((SenderJobUID status ≠? "") && (om_uid (job_meta job) ≠? SenderJobUID status)) eqn:Eu; [done|].
  intros ? ? [= <- <-]. split.
  - exists h, t. split; [by rewrite app_nil_r, <- app_assoc|]. split; [done|].
    apply negb_false_iff, bool_decide_eq_true in Er. by eapply runChildRefusal_controlled.
  - apply andb_false_iff in Eu as [Eu|Eu]; apply negb_false_iff, bool_decide_eq_true in Eu; [by left|by right].
Qed.

Lemma jobFailed_safe job fallback h :
  safe write_ok (λ h' res, ∀ msg, res = Ok (false, msg) → jst_failed (job_status job) = 0) h
    (jobFailed r job fallback).
Proof.
  unfold jobFailed, senderTerminationMessage_of. destruct (jst_failed (job_status job) =? 0) eqn:E.
  - apply Z.eqb_eq in E. by intros ? [= <-].
  - safe_steps.
Qed.

Lemma patch_succeeded st receiver job now h :
  sender_seen h job → om_uid (job_meta job) ≠ "" →
  jst_failed (job_status job) = 0 → 0 < jst_succeeded (job_status job) →
  safe write_ok anything h
    (patchRunStatus (with_run_status run st) (λ st, initializeRunStatus names
       (set_LastError "" (set_CompletedAt (Some now) (set_Receiver receiver (set_Phase PhaseSucceeded st)))))).
Proof.
  intros Hjob Huid Hf Hs. apply patchRunStatus_safe. eapply safe_conseq; [apply initializeRunStatus_safe|].
  intros h' st' Hp [(_ & Hui & Hst) _]. pose proof (sender_seen_prefix h h' job Hp Hjob) as Hseen.
  split_and!; [done|done|exact Hst|by left|]. intros _. by exists job.
Qed.

Lemma finishFromSenderJob_safe st receiver job h :
  sender_seen h job → om_uid (job_meta job) ≠ "" →
  safe write_ok anything h (finishFromSenderJob r (with_run_status run st) names receiver job).
Proof.
  intros Hjob Huid. unfold finishFromSenderJob. apply safe_bind.
  eapply safe_conseq; [apply jobFailed_safe|]. intros h1 res Hp Hf. destruct res as [[[] msg]|e]; [|..|done].
  - safe_use failRunObject_safe. done.
  - destruct (0 <? jst_succeeded (job_status job)) eqn:Es; [|done]. apply Z.ltb_lt in Es.
    safe_step. apply safe_bind.
    eapply safe_conseq; [apply (patch_succeeded _ _ job);
      [eapply sender_seen_prefix, Hjob; by apply prefix_app_r|done|by eapply Hf|done]|].
    intros h2 [e|] _ _; [done|]. apply safe_bind.
    eapply safe_conseq; [apply join2_safe|done]; intros ?; [|apply deleteRunSSHSecret_safe].
    apply markReceiveTaskTerminal_safe. by right.
Qed.

Lemma bindSenderJobIdentity_safe st status job h :
  sender_read h [] status job → SenderJobUID status = "" → om_uid (job_meta job) ≠ "" → rs_Phase st ≠ PhaseSucceeded →
  safe write_ok anything h (bindSenderJobIdentity (with_run_status run st) names job).
Proof.
  intros (h0 & t & -> & Ho & Hc) Hs Huid Hph. unfold bindSenderJobIdentity. apply safe_bind.
  eapply safe_conseq; [|done]. apply patchRunStatus_safe. cbn [run_status with_run_status].
  destruct (SenderJobUID st ≟ "") eqn:E.
  - apply bool_decide_eq_true in E. eapply safe_conseq; [apply initializeRunStatus_safe|].
    intros h' st' Hp [(Hph' & Hui & Hst) (k & -> & Hk)].
    split_and!; [done|done|exact Hst| |by rewrite Hph'].
    right. split; [exact E|]. exists k, status, job. split_and!; try done.
    exists h0, t. split_and!; [by rewrite app_nil_r, <- !app_assoc|done..].
  - cbn [safe]. split_and!; [done..|by left|done].
Qed.

(** ** The lease *)

Lemma neq_test_false (x y : string) : (x ≠? y) = false → x = y.
Proof. intros Hb. by apply negb_false_iff, bool_decide_eq_true in Hb. Qed.

Lemma reconcileRunReceiveTaskLease_safe st h :
  safe write_ok anything h (reconcileRunReceiveTaskLease r (with_run_status run st) names).
Proof.
  unfold reconcileRunReceiveTaskLease. cbn [with_run_status run_meta run_status].
  safe_steps; use_refusals. subst.
  match goal with Hb : (receiveTaskLeaseRefusal ?t ?now ≠? "") = false,
    Hl : (_ <? _) = false, Hu : _ && _ = false |- W (((_ ++ [Event _ (Ok ?fresh)]) ++ _) ++ _) _ =>
    apply neq_test_false in Hb; apply Z.ltb_ge in Hl; rename Hu into Huid;
    eexists _, t, fresh, now end.
  rewrite <- app_assoc. split_and!; try done; [apply seen_last|]. intros Hne.
  apply andb_false_iff in Huid as [Huid|Huid]; apply neq_test_false in Huid; done.
Qed.

(** ** Children before the sender *)

Lemma child_read_cases {A} st (child : result A) meta kind name c msg :
  kind ≠ "" → child_read (with_run_status run st) child meta kind name = Ok (c, msg) →
  (msg ≠? "") = false →
  match c with
  | Some c => child = Ok c ∧ controlled (meta c)
  | None => ∃ e, child = Err e ∧ IsNotFound e = true
  end.
Proof.
  intros Hk Hr Hm. destruct child as [c'|e]; simpl in Hr.
  - injection Hr as <- <-. split; [done|]. by eapply not_refused.
  - destruct (IsNotFound e) eqn:E; simplify_eq. eauto.
Qed.

Lemma create_secret_safe st h :
  (∃ e, seen h (GetSecret ns (SecretName names)) (Err e) ∧ IsNotFound e = true) →
  (∃ e, seen h (GetTask Cache ns (ReceiveTaskName names)) (Err e) ∧ IsNotFound e = true) →
  safe write_ok anything h (create_secret (with_run_status run st) names).
Proof.
  intros (e1 & Hs & He1) (e2 & Ht & He2). unfold create_secret, generateSSHKeyMaterial.
  cbv zeta. apply safe_bind. safe_step. cbn [safe]. safe_steps. split_and!.
  - exists e1. split; [by apply seen_app|done].
  - exists e2. split; [by apply seen_app|done].
  - eexists. done.
Qed.

Lemma create_task_safe st secret key h :
  seen h (GetSecret ns (SecretName names)) (Ok secret) → controlled (secret_meta secret) →
  (∃ e, seen h (GetTask Cache ns (ReceiveTaskName names)) (Err e) ∧ IsNotFound e = true) →
  publicKeyFromSecret secret = Ok key →
  safe write_ok anything h (create_task (with_run_status run st) names key).
Proof.
  intros Hs Hc (e & Ht & He) Hkey. unfold create_task. safe_steps.
  eexists h, _, secret, e, key, _. by split_and!.
Qed.

Lemma ensurePreSenderChildren_safe st h :
  safe write_ok anything h (ensurePreSenderChildren (with_run_status run st) names).
Proof.
  unfold ensurePreSenderChildren. cbn [with_run_status run_meta]. cbv zeta.
  safe_step. destruct (child_read _ x secret_meta _ _) as [[secret msg]|e] eqn:E1; [|done].
  destruct (msg ≠? "") eqn:Em; [done|].
  apply child_read_cases in E1 as Hsecret; [|done..].
  safe_step. destruct (child_read _ x0 task_meta _ _) as [[task msg']|e] eqn:E2; [|done].
  destruct (msg' ≠? "") eqn:Em'; [done|].
  apply child_read_cases in E2 as Htask; [|done..].
  destruct secret as [secret|], task as [task|]; try done.
  - safe_steps.
  - destruct Hsecret as [-> Hc], Htask as (e & -> & He).
    destruct (publicKeyFromSecret secret) as [key|e'] eqn:Ek; [|done].
    eapply create_task_safe; [apply seen_app, seen_last|done| |done].
    exists e. split; [apply seen_last|done].
  - destruct Hsecret as (e & -> & He), Htask as (e' & -> & He').
    apply create_secret_safe; [exists e|exists e']; (split; [|done]);
      [apply seen_app|]; apply seen_last.
Qed.

(** ** Starting the sender *)

Lemma exactReceiverPodReady_safe reported h :
  safe write_ok (λ h' res, res = Ok true → ∃ pod,
      seen h' (GetPod (ReceiverNamespace r) (rp_Name reported)) (Ok pod) ∧
      om_uid (pod_meta pod) = rp_UID reported ∧ opt_IsZero (om_deletion (pod_meta pod)) = true ∧
      ∃ c, List.find (λ c, c_type c ≟ "Ready") (pod_conditions pod) = Some c ∧ c_status c = "True") h
    (exactReceiverPodReady r reported).
Proof.
  unfold exactReceiverPodReady. safe_step; [done|]. safe_step; [done|]. safe_step.
  destruct x as [pod|e]; [|by safe_steps]. safe_step; [done|]. cbn [safe]. intros [= Hr].
  match goal with Hb : _ || _ = false |- _ => apply orb_false_iff in Hb as [Hu Hd] end.
  apply neq_test_false in Hu. apply negb_false_iff in Hd.
  exists pod. split_and!; [apply seen_last|done|done|].
  destruct (List.find _ _) as [c|]; [|done]. exists c. split; [done|]. by apply bool_decide_eq_true in Hr.
Qed.

Lemma readyReceiveTask_safe st h :
  safe write_ok (λ h' res, ∀ task, res = Ok (task, true, "") →
      ready_task h' task ∧ om_uid (task_meta task) ≠ "") h
    (readyReceiveTask r (with_run_status run st) names).
Proof.
  unfold readyReceiveTask. cbn [with_run_status run_meta].
  repeat (cbv zeta; lazymatch goal with
    | |- safe _ _ _ (bind_result (exactReceiverPodReady _ _) _) =>
        apply safe_bind_result; eapply safe_conseq; [apply exactReceiverPodReady_safe|]
    | |- match ?x with _ => _ end => destruct x eqn:?
    | |- _ => safe_step
    end; try done).
  all: use_refusals; try (intros ? [= <- ->]; congruence); try (intros ? [= <- <-]; congruence).
  intros h' [b|e] Hp Hpod; [|done]. cbn [safe]. intros ? [= <- ->].
  specialize (Hpod eq_refl). subst.
  repeat match goal with Hb : (_ ≠? _) = false |- _ => apply neq_test_false in Hb end.
  repeat match goal with Hb : (_ ≟ _) = true |- _ => apply bool_decide_eq_true in Hb
                       | Hb : (_ ≟ _) = false |- _ => apply bool_decide_eq_false in Hb end.
  split; [|congruence]. split_and!; try done.
  eapply seen_prefix; [exact Hp|]. apply seen_app, seen_last.
Qed.

Lemma ensureRunKnownHosts_safe st task h :
  safe write_ok anything h (ensureRunKnownHosts (with_run_status run st) names task).
Proof.
  unfold ensureRunKnownHosts. cbn [with_run_status run_meta]. safe_steps; use_refusals. subst.
  eexists _, _. split; [apply seen_last|]. by split_and!.
Qed.

Lemma receiveTaskEligibleForSender_safe task h :
  safe write_ok (λ h' res, res = Ok (true, "") → ∃ fresh now,
    h' = h ++ [Event (E := Kube) (GetTask Fresh (om_namespace (task_meta task))
                                    (om_name (task_meta task))) (Ok fresh);
               Event (E := Kube) Now now] ∧
    om_uid (task_meta fresh) = om_uid (task_meta task) ∧ receiveTaskLeaseRefusal fresh now = "") h
    (receiveTaskEligibleForSender r task).
Proof.
  unfold receiveTaskEligibleForSender. safe_steps. subst. intros _. eexists _, _.
  rewrite <- app_assoc. split; [done|]. by split; apply neq_test_false.
Qed.

Lemma senderJob_meta endpoint job :
  senderJob run (ReleaseImage r) endpoint = Ok job →
  om_namespace (job_meta job) = ns ∧ om_name (job_meta job) = SenderName names.
Proof.
  unfold senderJob. intros Hj.
  repeat (apply bind_Ok in Hj as (? & _ & Hj)). by simplify_eq.
Qed.

Lemma ready_task_prefix h h' task : h `prefix_of` h' → ready_task h task → ready_task h' task.
Proof.
  intros Hp (Hs & Hc & Hph & Hin & pod & Hpod & Hrest).
  split_and!; [by eapply seen_prefix|done..|]. exists pod. split; [by eapply seen_prefix|done].
Qed.

Lemma ensureRunSenderJob_safe st task fresh now h :
  ready_task h task → om_uid (task_meta task) ≠ "" →
  om_uid (task_meta fresh) = om_uid (task_meta task) → receiveTaskLeaseRefusal fresh now = "" →
  safe write_ok anything
    (h ++ [Event (E := Kube) (GetTask Fresh (om_namespace (task_meta task))
                                    (om_name (task_meta task))) (Ok fresh);
           Event (E := Kube) Now now])
    (ensureRunSenderJob r (with_run_status run st) (Endpoint (task_status task))).
Proof.
  intros Hready Huid Hfresh Hlease. unfold ensureRunSenderJob.
  change (senderJob (with_run_status run st)) with (senderJob run).
  destruct (senderJob _ _ _) as [j0|] eqn:Ej; [|done]. unfold ensureRunJob.
  change (own_job (with_run_status run st)) with (own_job run). cbv zeta.
  safe_step. destruct x as [|e]; [done|]. destruct (negb (IsNotFound e)) eqn:Ee; [done|].
  apply negb_false_iff in Ee. destruct (own_job run j0) as [j|] eqn:Eo; [|done].
  apply (safe_call (E := Kube)); [|by intros [?|]; [case_match|]].
  exists h, task, fresh, now, e, j0. split_and!; try done. by rewrite <- app_assoc.
Qed.

Lemma fail_run_safe {A} st msg (x : goerr → A) h :
  safe write_ok anything h
    (err ← failRunObject r (with_run_status run st) names msg; Ret (x err)).
Proof. safe_use failRunObject_safe. done. Qed.

Lemma wait_safe {A} st (x : Result → goerr → A) h :
  safe write_ok anything h
    ('(result, err) ← waitForReplicationReceiver r (with_run_status run st) names; Ret (x result err)).
Proof. apply safe_bind. eapply safe_conseq; [apply waitForReplicationReceiver_safe|]. by intros ? []. Qed.

Lemma ensureSenderStarted_safe st h :
  safe write_ok anything h (ensureSenderStarted r (with_run_status run st) names).
Proof.
  unfold ensureSenderStarted. cbv zeta.
  apply safe_bind. eapply safe_conseq; [apply readyReceiveTask_safe|].
  intros h1 [[[task ready] msg]|e] _ Hready; [|done].
  destruct (msg ≠? "") eqn:Em; [apply fail_run_safe|]. apply neq_test_false in Em. subst msg.
  destruct ready; [|apply (wait_safe st (λ result err, (no_receiver, result, true, err)))]. cbn [negb].
  destruct (Hready _ eq_refl) as [Htask Huid].
  safe_use observedRunStatus_safe. apply safe_bind.
  eapply safe_conseq; [apply ensureRunKnownHosts_safe|]. intros h3 [msg|e] Hp3 _; [|done].
  destruct (msg ≠? "") eqn:Em; [apply fail_run_safe|].
  unfold needsInitialRunStatus. apply safe_bind. safe_use observedRunStatus_safe. cbn [safe].
  apply safe_bind. eapply safe_conseq; [by apply patch_initialized|]. intros h5 [e|] Hp5 _; [done|].
  apply safe_bind. eapply safe_conseq; [apply receiveTaskEligibleForSender_safe|].
  intros h6 [[ok msg']|e] _ Hel; [|done].
  destruct (msg' ≠? "") eqn:Em'; [apply fail_run_safe|]. apply neq_test_false in Em'. subst msg'.
  destruct ok; [|apply (wait_safe st (λ result err, (no_receiver, result, true, err)))]. cbn [negb].
  destruct (Hel eq_refl) as (fresh & now & -> & Hfu & Hfl).
  apply safe_bind. eapply safe_conseq; [eapply ensureRunSenderJob_safe; try done|].
  - eapply ready_task_prefix; [|exact Htask]. do 3 (etrans; [eassumption|]). done.
  - intros ? [[? []]|] _ _; done.
Qed.

(** ** Reconciliation *)

Lemma reconcile_children_safe st receiver sender h :
  rs_Phase st ≠ PhaseSucceeded →
  safe write_ok anything h (reconcile_children r (with_run_status run st) names receiver sender).
Proof.
  intros Hph. unfold reconcile_children. apply safe_bind.
  eapply safe_conseq; [apply reconcileRunReceiveTaskLease_safe|]. intros h1 [[lease msg]|e] _ _; [|done].
  destruct (msg ≠? ""); [apply fail_run_safe|]. destruct sender as [sender|].
  - cbv zeta. apply safe_bind. eapply safe_conseq; [by apply patch_initialized|done].
  - apply safe_bind. eapply safe_conseq; [apply ensurePreSenderChildren_safe|].
    intros h2 [[created msg']|e] _ _; [|done].
    destruct (msg' ≠? ""); [apply fail_run_safe|].
    destruct created; [apply waitForReplicationReceiver_safe|].
    apply safe_bind. eapply safe_conseq; [apply ensureSenderStarted_safe|]. by intros ? [[[] ?] ?] _ _.
Qed.

Lemma finish_then_children st receiver sender h :
  sender_seen h sender → om_uid (job_meta sender) ≠ "" → rs_Phase st ≠ PhaseSucceeded →
  safe write_ok anything h
    ('(result, done, err) ← finishFromSenderJob r (with_run_status run st) names receiver sender;
     match err with
     | Some e => Ret (result, Some e)
     | None =>
         if (done : bool) then Ret (result, None)
         else reconcile_children r (with_run_status run st) names receiver (Some sender)
     end).
Proof.
  intros Hjob Huid Hph. apply safe_bind. eapply safe_conseq; [by apply finishFromSenderJob_safe|].
  intros h1 [[result []] [e|]] _ _; try done. by apply reconcile_children_safe.
Qed.

Lemma reconcile_sender_safe h :
  rs_Phase (run_status run) ≠ PhaseSucceeded → safe write_ok anything h (reconcile_sender r run names).
Proof.
  intros Hph. assert (with_run_status run (run_status run) = run) as Heta by by destruct run.
  unfold reconcile_sender. apply safe_bind.
  eapply safe_conseq; [apply observedRunStatus_observes|]. intros h1 status _ (t & -> & Ho).
  apply safe_bind. eapply safe_conseq; [by apply senderJobForRun_safe|].
  intros h2 [[sender msg]|e] _ Hjob; [|done].
  destruct (msg ≠? "") eqn:Em; [rewrite <- Heta; apply fail_run_safe|]. cbv zeta.
  destruct sender as [sender|]; [|rewrite <- Heta; by apply reconcile_children_safe].
  destruct (Hjob _ _ eq_refl) as [Hread Hu]. destruct (om_uid (job_meta sender) ≟ "") eqn:Eu; [done|].
  apply bool_decide_eq_false in Eu.
  assert (sender_seen h2 sender) as Hseen by (by exists [], status).
  destruct (SenderJobUID status ≟ "") eqn:Es.
  - apply bool_decide_eq_true in Es. apply safe_bind, safe_bind.
    pose proof (bindSenderJobIdentity_safe (run_status run) status sender h2 Hread Es Eu Hph) as Hb.
    rewrite Heta in Hb. eapply safe_conseq; [exact Hb|].
    intros h3 [e|] Hp _; [done|]. cbn [safe].
    by apply finish_then_children; [eapply sender_seen_prefix|..].
  - apply safe_bind. cbn [safe]. rewrite <- Heta. by apply finish_then_children.
Qed.

(** What follows the first read of [Reconcile]. *)
Lemma reconcile_run_safe h : safe write_ok anything h (reconcile_run r run).
Proof.
  assert (with_run_status run (run_status run) = run) as Heta by by destruct run.
  unfold reconcile_run. cbv zeta.
  destruct (Phase_Terminal _) eqn:Et.
  - apply safe_bind. rewrite <- Heta. eapply safe_conseq; [apply reconcileTerminalRun_safe|done].
  - assert (rs_Phase (run_status run) ≠ PhaseSucceeded) as Hph
      by (intros Hph; by rewrite Hph in Et).
    destruct (validateRunSpec _) as [|e].
    2: { apply safe_bind. rewrite <- Heta. eapply safe_conseq; [apply failRunValidation_safe|done]. }
    apply safe_bind. unfold destinationLocked. safe_step. destruct x as [runs|]; [|done]. cbn [safe].
    destruct (List.find _ _) as [other|]; [|by apply reconcile_sender_safe].
    rewrite <- Heta. unfold needsInitialRunStatus. apply safe_bind. safe_use observedRunStatus_safe. cbn [safe].
    apply safe_bind. eapply safe_conseq; [by apply patch_initialized|done].
Qed.

End guarantee.

(** ** Executions of [Reconcile] *)

Section executions.
Context `{UnicodeTables} `{SSHKeys} `{ControllerRuntime}.

(** Every call of a reconciliation after the read of its run meets [write_ok]. *)
Lemma reconcile_trace r ns name tr res :
  exec (Reconcile r ns name) tr res →
  ∃ answer tr', tr = Event (E := Kube) (GetRun Cache ns name) answer :: tr' ∧
    ∀ t1 ev t2, tr' = t1 ++ ev :: t2 →
      ∃ run, answer = Ok run ∧ write_ok r run t1 (ev_op ev).
Proof.
  intros Hx. apply exec_inv in Hx as (answer & tr' & -> & Hx). cbn [prog_bind] in Hx.
  exists answer, tr'. split; [done|]. destruct answer as [run|e].
  - intros t1 ev t2 ->. exists run. split; [done|].
    destruct (safe_sound (write_ok r run) (λ _ _, True) [] _ _ _ (reconcile_run_safe r run []) Hx)
      as [_ HG].
    exact (HG t1 ev t2 eq_refl).
  - apply exec_inv in Hx as [-> _]. by intros [] ? ?.
Qed.

End executions.
