(* ===== verification/RunProperties.v ===== *)
(** * What the run controller guarantees

    Consequences of [write_ok] for the executions of [Reconcile], whatever the
    API server answers; the destination lock; and their concrete instances. *)
From S2P Require Import Prelude GoStrings GoErrors GoTime Api Replication Names Syncoid Ssh Effects Kube RunController Cluster RunSafety.
Local Open Scope Z_scope.

Section writes.
Context `{UnicodeTables} `{SSHKeys} `{ControllerRuntime}.
Context (r : RunReconciler).
Implicit Types (tr : list kevent) (run : ZFSReplicationRun).

(** A call of a reconciliation that is not its first one: the run was read, and
    the calls since meet the guarantee. *)
Lemma reconcile_call ns name tr res t1 (o : kube_op) (x : kube_ans o) t2 :
  exec (Reconcile r ns name) tr res → tr = t1 ++ Event (E := Kube) o x :: t2 →
  (∀ rd ns' name', o ≠ GetRun rd ns' name') →
  ∃ run t1', t1 = Event (E := Kube) (GetRun Cache ns name) (Ok run) :: t1' ∧ write_ok r run t1' o.
Proof.
  intros Hx Htr Ho. apply reconcile_trace in Hx as (answer & tr' & -> & HG).
  destruct t1 as [|ev t1].
  - injection Htr as Heq _. exfalso. by apply (Ho Cache ns name).
  - injection Htr as <- ->. destruct (HG t1 _ t2 eq_refl) as (run & -> & Hok). by exists run, t1.
Qed.

(** A history with more events before it. *)
Lemma seen_cons h ev o (x : ans Kube o) : seen h o x → seen (ev :: h) o x.
Proof. intros Hs. by right. Qed.

Lemma ready_task_cons run ev h task : ready_task r run h task → ready_task r run (ev :: h) task.
Proof.
  intros (Hs & Hc & Hph & Hin & pod & Hpod & Hrest).
  split_and!; [by apply seen_cons|done..|]. exists pod. split; [by apply seen_cons|done].
Qed.

(** A lease that still admits a sender. *)
Definition lease_valid (task : ZFSReceiveTask) (now : time) : Prop :=
  ReceiveTaskPhase_Terminal (tst_Phase (task_status task)) = false ∧
  now < ExpiresAt (ts_SSH (task_spec task)).

Lemma receiveTaskLeaseRefusal_spec task now :
  receiveTaskLeaseRefusal task now = "" ↔ lease_valid task now.
Proof.
  unfold receiveTaskLeaseRefusal, lease_valid, ReceiveTaskPhase_Terminal, After.
  destruct (tst_Phase (task_status task) ≟ ReceiveTaskPhaseFailed) eqn:Ef; simpl.
  - apply bool_decide_eq_true in Ef. rewrite Ef. cbn [bool_decide]. rewrite orb_true_r.
    split; [|by intros [? _]]. case_match eqn:Ee; [|by intros ?%sprintf_nonempty].
    intros He. by rewrite He in Ee.
  - rewrite orb_false_r. case_match eqn:Ec; [split; [by intros ?%sprintf_nonempty|by intros []]|].
    destruct (now <? _) eqn:En; simpl; [apply Z.ltb_lt in En|apply Z.ltb_ge in En]; naive_solver lia.
Qed.

(** ** Creating the sender Job *)

(** C11. A reconciliation creates a sender Job only for a run it read, directly
    after three reads: the receive task afresh, still the task that was found
    Ready on a ready receiver Pod, with an unexpired lease; the clock; and the
    absence of the Job. The Job runs the sender arguments translated from the run
    for that task's endpoint, on the source node, owned by the run. *)
Theorem sender_created_on_ready_task ns name tr res t1 j x t2 :
  exec (Reconcile r ns name) tr res →
  tr = t1 ++ Event (E := Kube) (CreateJob j) x :: t2 →
  ∃ run t0 task fresh now e contract,
    t1 = t0 ++ [Event (E := Kube) (GetTask Fresh (om_namespace (task_meta task))
                                     (om_name (task_meta task))) (Ok fresh);
                Event (E := Kube) Now now;
                Event (E := Kube) (GetJob (om_namespace (run_meta run))
                   (SenderName (objectNamesForRun (om_name (run_meta run))))) (Err e)] ∧
    seen t0 (GetRun Cache ns name) (Ok run) ∧ ready_task r run t0 task ∧
    om_uid (task_meta fresh) = om_uid (task_meta task) ∧ lease_valid fresh now ∧ IsNotFound e = true ∧
    Translate (Some run) = Ok contract ∧
    SenderArguments contract
      {| TargetHost := sprintf "zfs-recv@%s" [FStr (Host (Endpoint (task_status task)))];
         SSHKeyFile := senderSSHKeyFile; KnownHostsFile := senderKnownHostsFile;
         SSHPort := Port (Endpoint (task_status task)) |} = Ok (ps_args (js_pod (job_spec j))) ∧
    ps_nodeName (js_pod (job_spec j)) = NodeName (Source (run_spec run)) ∧
    controlled run (job_meta j).
Proof.
  intros Hx Htr. eapply reconcile_call in Hx as (run & t1' & -> & Hok); [|exact Htr|done].
  destruct Hok as (h0 & task & fresh & now & e & j0 & -> & Hready & Huid & Hfu & Hlease & He & Hj & Ho).
  destruct (senderJob_meta _ _ _ _ Hj) as [Hns Hname]. rewrite Hns, Hname.
  unfold senderJob in Hj. apply bind_Ok in Hj as (contract & Ht & Hj).
  apply bind_Ok in Hj as (args & Ha & Hj). apply wrap_err_Ok in Ht, Ha. simplify_eq.
  unfold own_job in Ho. apply bind_Ok in Ho as (m & Hm & [= <-]).
  apply SetControllerReference_spec in Hm as (_ & _ & _ & Hd & o & Ho & Hou).
  exists run, (Event (E := Kube) (GetRun Cache ns name) (Ok run) :: h0), task, fresh, now, e, contract.
  split_and!; try done.
  - by left.
  - by apply ready_task_cons.
  - by apply receiveTaskLeaseRefusal_spec.
  - split; [by exists o|]. simpl. by rewrite Hd.
Qed.

(** ** Renewing the lease *)

Lemma Sub_le t u d : d < maxDuration → Sub t u ≤ d → t ≤ u + d.
Proof. unfold Sub. lia. Qed.

(** C13. A reconciliation extends the lease of a receive task only directly after
    reading the task and the clock, when the task belongs to the run, is not
    terminal, and its lease is unexpired with at most ten minutes left, and after
    a fresh read of the same run still active; it changes only the expiry, to
    thirty minutes from then, so leases only grow. *)
Theorem lease_renewed_only_while_valid ns name tr res t1 t x t2 :
  exec (Reconcile r ns name) tr res →
  tr = t1 ++ Event (E := Kube) (UpdateTask t) x :: t2 →
  ∃ run fresh t0 task now,
    t1 = t0 ++ [Event (E := Kube) (GetTask Fresh (om_namespace (run_meta run))
                   (ReceiveTaskName (objectNamesForRun (om_name (run_meta run))))) (Ok task);
                Event (E := Kube) Now now] ∧
    seen t0 (GetRun Cache ns name) (Ok run) ∧
    seen t0 (GetRun Fresh (om_namespace (run_meta run)) (om_name (run_meta run))) (Ok fresh) ∧
    Phase_Active (rs_Phase (run_status fresh)) = true ∧
    (om_uid (run_meta run) ≠ "" → om_uid (run_meta fresh) = om_uid (run_meta run)) ∧
    controlled run (task_meta task) ∧ lease_valid task now ∧
    ExpiresAt (ts_SSH (task_spec task)) ≤ now + authorizationRenewLead ∧
    t = renewed_task task now ∧
    ExpiresAt (ts_SSH (task_spec task)) < ExpiresAt (ts_SSH (task_spec t)) ≤ now + authorizationLease.
Proof.
  intros Hx Htr. eapply reconcile_call in Hx as (run & t1' & -> & Hok); [|exact Htr|done].
  destruct Hok as (h0 & task & fresh & now & -> & Hfresh & Hph & Huid & Hc & Hlease & Hrem & ->).
  apply receiveTaskLeaseRefusal_spec in Hlease. apply Sub_le in Hrem; [|done].
  exists run, fresh, (Event (E := Kube) (GetRun Cache ns name) (Ok run) :: h0), task, now.
  split_and!; try done.
  - by left.
  - by apply seen_cons.
  - unfold Phase_Active. by rewrite Hph.
  - cbn. unfold Add, authorizationRenewLead, authorizationLease, Minute, Second in *. lia.
Qed.

(** ** Objects of others *)

(** What a call writes: nothing, the status of a run, a child of a run, or
    something else. *)
Inductive target := Nothing | RunStatusOf (run : ZFSReplicationRun) | Child (m : ObjectMeta) | Other.

Definition target_of (o : kube_op) : target :=
  match o with
  | CreateSecret s | UpdateSecret s | DeleteSecret s => Child (secret_meta s)
  | CreateTask t | UpdateTask t | PatchTaskStatus _ t _ => Child (task_meta t)
  | CreateJob j => Child (job_meta j)
  | PatchRunStatus run _ => RunStatusOf run
  | CreateRun _ | DeleteRun _ | PatchScheduleStatus _ _ => Other
  | _ => Nothing
  end.

Lemma created_controlled run m0 m :
  SetControllerReference "ZFSReplicationRun" (run_meta run) m0 = Ok m →
  om_deletion m0 = None → controlled run m.
Proof.
  intros Hm Hd. apply SetControllerReference_spec in Hm as (_ & _ & _ & Hdel & Ho).
  split; [done|]. by rewrite Hdel, Hd.
Qed.

Lemma write_ok_target run h o :
  write_ok r run h o →
  match target_of o with
  | Nothing => True
  | RunStatusOf base => run_meta base = run_meta run ∧ run_spec base = run_spec run
  | Child m => controlled run m
  | Other => False
  end.
Proof.
  destruct o; simpl; try done.
  - intros (_ & _ & key & Hs). unfold own_secret in Hs. apply bind_Ok in Hs as (m & Hm & [= <-]).
    by eapply created_controlled.
  - intros (? & ? & ? & ? & ? & t0 & _ & _ & _ & _ & _ & _ & Ht0 & Ht).
    unfold own_task in Ht. apply bind_Ok in Ht as (m & Hm & [= <-]).
    eapply created_controlled; [exact Hm|]. unfold runReceiveTask in Ht0.
    apply bind_Ok in Ht0 as (? & _ & [= <-]). done.
  - intros (? & ? & ? & ? & ? & j0 & _ & _ & _ & _ & _ & _ & Hj0 & Hj).
    unfold own_job in Hj. apply bind_Ok in Hj as (m & Hm & [= <-]).
    eapply created_controlled; [exact Hm|]. unfold senderJob in Hj0.
    repeat apply bind_Ok in Hj0 as (? & _ & Hj0). by simplify_eq.
  - intros (? & ? & ? & ? & _ & _ & _ & _ & Hc & _ & _ & ->). exact Hc.
  - intros (? & ? & _ & Hc & -> & _). exact Hc.
  - by intros [_ Hc].
  - by intros (? & ? & _).
  - by intros (_ & Hc & _).
Qed.

(** C12. Every write of a reconciliation goes to the status of the run it read, or
    to a Secret, receive task or Job controlled by that run's UID and not being
    deleted; it never writes another run, a schedule or another run's child. *)
Theorem writes_only_own_objects ns name tr res o :
  exec (Reconcile r ns name) tr res → o ∈ ev_op (E := Kube) <$> tr → target_of o ≠ Nothing →
  ∃ run, seen tr (GetRun Cache ns name) (Ok run) ∧
    match target_of o with
    | Nothing => True
    | RunStatusOf base => run_meta base = run_meta run ∧ run_spec base = run_spec run
    | Child m => controlled run m
    | Other => False
    end.
Proof.
  intros Hx ([o' x] & -> & Hin)%list_elem_of_fmap Hn. apply list_elem_of_split in Hin as (t1 & t2 & Htr).
  eapply reconcile_call in Hx as (run & t1' & Ht1 & Hok); [|exact Htr|by intros ? ? ? ->].
  exists run. split; [|by eapply write_ok_target]. rewrite Htr, Ht1. by left.
Qed.

(** ** The status of the run *)


(** C14. A reconciliation reports success only on a sender Job read under the
    run's sender name, controlled by the run and not being deleted, with a UID,
    at least one succeeded pod and no failed one. *)
Theorem success_only_on_own_finished_job ns name tr res t1 base st x t2 :
  exec (Reconcile r ns name) tr res →
  tr = t1 ++ Event (E := Kube) (PatchRunStatus base st) x :: t2 →
  rs_Phase st = PhaseSucceeded →
  ∃ run job, seen t1 (GetRun Cache ns name) (Ok run) ∧
    seen t1 (GetJob (om_namespace (run_meta run))
       (SenderName (objectNamesForRun (om_name (run_meta run))))) (Ok job) ∧
    controlled run (job_meta job) ∧ om_uid (job_meta job) ≠ "" ∧
    jst_failed (job_status job) = 0 ∧ 0 < jst_succeeded (job_status job).
Proof.
  intros Hx Htr Hs. eapply reconcile_call in Hx as (run & t1' & -> & Hok); [|exact Htr|done].
  destruct Hok as (_ & _ & _ & _ & Hok).
  destruct (Hok Hs) as (job & (later & status & (t & observed & -> & _ & Hc) & _) & Hrest).
  exists run, job. split_and!; [by left| |done|apply Hrest..].
  apply seen_cons, elem_of_app. right. apply elem_of_app. right. by left.
Qed.

(** ** Terminal runs *)

(** The calls of the cleanup of a run. *)
Definition cleanup (o : kube_op) : Prop :=
  match o with
  | GetTask _ _ _ | GetSecret _ _ | DeleteSecret _ | PatchTaskStatus _ _ _ => True
  | _ => False
  end.

Ltac cleanup_steps := repeat (cbv zeta; match goal with
  | |- safe _ _ _ (kcall _ ≫= _) => apply (safe_call (E := Kube)); [done|intros ?]
  | |- safe _ _ _ (kcall _) => apply (safe_call_ret (E := Kube)); done
  | |- safe _ _ _ (if ?b then _ else _) => destruct b
  | |- safe _ _ _ (match ?x with _ => _ end) => destruct x
  | |- _ => done
  end).

Lemma reconcileTerminalRun_cleanup run (names : runObjects) (h : list kevent) :
  safe (E := Kube) (λ _ o, cleanup o) (λ _ _, True) h (reconcileTerminalRun run names).
Proof.
  apply safe_bind. eapply safe_conseq.
  { instantiate (1 := λ _ _, True). unfold markReceiveTaskTerminal. cleanup_steps. }
  intros h' e _ _. apply safe_bind. eapply safe_conseq; [|done].
  instantiate (1 := λ _ _, True). unfold deleteRunSSHSecret. cleanup_steps.
Qed.

(** The answer to a read of a run. *)
Definition run_answer (ev : kevent) : option (result ZFSReplicationRun) :=
  match ev with Event (GetRun _ _ _) x => Some x | _ => None end.

(** C16. On a run that has succeeded or failed, a reconciliation only reads its
    receive task and its Secret, reports the outcome on the task and deletes the
    Secret: it creates nothing, renews no lease and leaves the run's status. *)
Theorem terminal_run_only_cleans_up ns name res run t o :
  exec (Reconcile r ns name) (Event (E := Kube) (GetRun Cache ns name) (Ok run) :: t) res →
  Phase_Terminal (rs_Phase (run_status run)) = true →
  o ∈ ev_op (E := Kube) <$> t → cleanup o.
Proof.
  intros Hx Hterm ([o' x] & -> & Hin)%list_elem_of_fmap. apply exec_inv in Hx as (a & t' & Heq & Hx).
  pose proof (f_equal (λ l, head l ≫= run_answer) Heq) as [= <-].
  pose proof (f_equal tail Heq) as Ht. simpl in Ht. subst t'.
  change (exec (reconcile_run r run) t res) in Hx. unfold reconcile_run in Hx. rewrite Hterm in Hx.
  cbv zeta in Hx.
  apply list_elem_of_split in Hin as (t1 & t2 & ->).
  eapply (safe_sound (E := Kube) (λ _ o, cleanup o) (λ _ _, True) []) in Hx as [_ HG].
  - exact (HG t1 _ t2 eq_refl).
  - apply safe_bind. eapply safe_conseq; [apply reconcileTerminalRun_cleanup|done].
Qed.

End writes.

(** ** Concrete reconciliations *)

(** The calls of a stage that carry a Job, a task, or a run status. *)
Definition job_at (s : cluster) (n : nat) : option Job :=
  ev ← trace s !! n; match ev_op (E := Kube) ev with CreateJob j => Some j | _ => None end.
Definition task_at (s : cluster) (n : nat) : option ZFSReceiveTask :=
  ev ← trace s !! n; match ev_op (E := Kube) ev with UpdateTask t => Some t | _ => None end.
Definition patch_at (s : cluster) (n : nat) : option (ZFSReplicationRun * ZFSReplicationRunStatus) :=
  ev ← trace s !! n; match ev_op (E := Kube) ev with PatchRunStatus b st => Some (b, st) | _ => None end.

Definition made_job : Job := default
  {| job_meta := new_meta "" "" ∅;
     job_spec := {| js_backoffLimit := 0; js_ttlSeconds := 0; js_podLabels := ∅;
       js_pod := {| ps_hostname := ""; ps_restartPolicy := ""; ps_automountToken := false;
         ps_nodeName := ""; ps_containerName := ""; ps_image := ""; ps_imagePullPolicy := "";
         ps_command := []; ps_args := []; ps_privileged := false; ps_terminationPath := "";
         ps_terminationPolicy := ""; ps_mounts := []; ps_hostPathVolumes := [];
         ps_secretVolumes := [] |} |};
     job_status := {| jst_succeeded := 0; jst_failed := 0; jst_conditions := [] |} |}
  (job_at ready 21).
Definition dummy_run : ZFSReplicationRun := sample_run "" "".
Definition made_task : ZFSReceiveTask := default
  {| task_meta := new_meta "" "" ∅;
     task_spec := {| ts_NodeName := ""; ts_Dataset := "";
       ts_SSH := {| AuthorizedPublicKey := ""; ExpiresAt := 0 |};
       ts_Policy := policy_of (normalize (Api.Syncoid sample_spec)) |};
     task_status := empty_task_status |} (task_at (tick (25 * Minute) running) 7).
Definition binding : ZFSReplicationRun * ZFSReplicationRunStatus :=
  default (dummy_run, empty_run_status) (patch_at sender_made 4).
Definition success : ZFSReplicationRun * ZFSReplicationRunStatus :=
  default (dummy_run, empty_run_status) (patch_at done_running 5).

(** A trace around one of its calls. *)
Lemma trace_split s n ev : trace s !! n = Some ev → trace s = take n (trace s) ++ ev :: drop (S n) (trace s).
Proof. intros Hn. symmetry. by apply take_drop_middle. Qed.

#[local] Existing Instance ascii_tables.
#[local] Existing Instance two_keys.
#[local] Existing Instance append_controller.

Lemma sender_created_on_ready_task_witness : ∃ run t0 task,
  seen (E := Kube) t0 (GetRun Cache "default" "nightly") (Ok run) ∧ ready_task config run t0 task ∧
  controlled run (job_meta made_job).
Proof.
  destruct (sender_created_on_ready_task config "default" "nightly" (trace ready) (outcome ready)
    (take 21 (trace ready)) made_job None (drop 22 (trace ready)))
    as (run & t0 & task & fresh & now & e & contract & _ & Hrun & Hready & _ & _ & _ & _ & _ & _ & Hc).
  - apply trace_exec.
  - apply trace_split. vm_compute. reflexivity.
  - exists run, t0, task. split; [exact Hrun|]. split; [exact Hready|exact Hc].
Defined.

Lemma lease_renewed_only_while_valid_witness : ∃ task now,
  lease_valid task now ∧ made_task = renewed_task task now.
Proof.
  destruct (lease_renewed_only_while_valid config "default" "nightly"
    (trace (tick (25 * Minute) running)) (outcome (tick (25 * Minute) running))
    (take 7 (trace (tick (25 * Minute) running))) made_task None
    (drop 8 (trace (tick (25 * Minute) running))))
    as (run & fresh & t0 & task & now & _ & _ & _ & _ & _ & _ & Hv & _ & Ht & _).
  - apply trace_exec.
  - apply trace_split. vm_compute. reflexivity.
  - exists task, now. split; [exact Hv|exact Ht].
Defined.

Lemma writes_only_own_objects_witness : ∃ run, controlled run (job_meta made_job).
Proof.
  destruct (writes_only_own_objects config "default" "nightly" (trace ready) (outcome ready)
    (CreateJob made_job)) as (run & _ & Hc).
  - apply trace_exec.
  - apply (list_elem_of_lookup_2 _ 21). vm_compute. reflexivity.
  - discriminate.
  - exists run. exact Hc.
Defined.


Lemma success_only_on_own_finished_job_witness : ∃ run job,
  controlled run (job_meta job) ∧ 0 < jst_succeeded (job_status job).
Proof.
  destruct (success_only_on_own_finished_job config "default" "nightly" (trace done_running)
    (outcome done_running) (take 5 (trace done_running)) success.1 success.2 None
    (drop 6 (trace done_running))) as (run & job & _ & _ & Hc & _ & _ & Hs).
  - apply trace_exec.
  - apply trace_split. vm_compute. reflexivity.
  - vm_compute. reflexivity.
  - exists run, job. split; [exact Hc|exact Hs].
Defined.

Lemma terminal_run_only_cleans_up_witness : ∃ o run,
  c_run (reconcile done_running) = Some run ∧ cleanup o.
Proof.
  destruct (c_run (reconcile done_running)) as [run|] eqn:Er.
  2: { exfalso. vm_compute in Er. discriminate. }
  set (s := reconcile done_running) in *.
  exists (GetTask Cache "default" "zfsrep-nightly-receiver"), run. split; [reflexivity|].
  apply (terminal_run_only_cleans_up config "default" "nightly" (outcome s) run (tail (trace s))).
  - replace (Event (E := Kube) (GetRun Cache "default" "nightly") (Ok run) :: tail (trace s)) with (trace s).
    + apply trace_exec.
    + vm_compute in Er. injection Er as <-. vm_compute. reflexivity.
  - vm_compute in Er. injection Er as <-. vm_compute. reflexivity.
  - apply (list_elem_of_lookup_2 _ 0). vm_compute. reflexivity.
Defined.
