(* ===== verification/ScheduleController.v ===== *)
(** * The schedule controller (internal/controller/zfsreplication_schedule_controller.go)

    The reconciliation of one schedule: the due time of its cron expression
    (cron.go), the run created for it, the concurrency policy, and the pruning
    of finished runs. *)
From S2P Require Import Prelude GoStrings GoErrors GoTime Api Replication Names Syncoid Ssh Effects Kube RunController.
Local Open Scope Z_scope.

(** ** Cron (github.com/robfig/cron/v3) *)

(** What [cron.ParseStandard] does with an expression: it returns, or panics. *)
Inductive parse_outcome (A : Type) :=
  | Returned (r : result A)
  | Panicked (recovered : string).
Arguments Returned {A} r.
Arguments Panicked {A} recovered.

Class Cron := {
  CronSchedule : Type;
  ParseStandard : string → parse_outcome CronSchedule;
  Next : CronSchedule → time → time }.

(** The next activation is later than the given time and on a whole second; the
    zero time says that there is none. *)
Class CronLaws `{Cron} :=
  Next_later s t : Next s t = 0 ∨ (t < Next s t ∧ Next s t mod Second = 0).

(** [src/internal/controller/zfsreplication_schedule_controller.go:25-28 defaultSuccessfulRunsHistoryLimit] *)
Definition defaultSuccessfulRunsHistoryLimit : Z := 3.
Definition defaultFailedRunsHistoryLimit : Z := 1.

(** ** Validation and times *)

(** [src/internal/controller/zfsreplication_schedule_controller.go:248-256 validateConcurrencyPolicy] *)
Definition validateConcurrencyPolicy (policy : ConcurrencyPolicy) : result ConcurrencyPolicy :=
  if policy ≟ "" then Ok ConcurrencyPolicyForbid
  else if (policy ≟ ConcurrencyPolicyAllow) || (policy ≟ ConcurrencyPolicyForbid) then Ok policy
  else Err (errorf "concurrencyPolicy must be Allow or Forbid" []).

(** [src/internal/controller/zfsreplication_schedule_controller.go:265-270 validateHistoryLimit] *)
Definition validateHistoryLimit (field : string) (value : option Z) : result unit :=
  match value with
  | Some v => fail_if (v <? 0) (errorf "%s must be greater than or equal to 0" [FStr field])
  | None => Ok tt
  end.

(** [src/internal/controller/zfsreplication_schedule_controller.go:258-263 validateScheduleHistoryLimits] *)
Definition validateScheduleHistoryLimits (schedule : ZFSReplicationSchedule) : result unit :=
  validateHistoryLimit "successfulRunsHistoryLimit" (SuccessfulRunsHistoryLimit (sched_spec schedule));;
  validateHistoryLimit "failedRunsHistoryLimit" (FailedRunsHistoryLimit (sched_spec schedule)).

(** [src/internal/controller/zfsreplication_schedule_controller.go:272-277 scheduleHistoryLimit] *)
Definition scheduleHistoryLimit (value : option Z) (defaultValue : Z) : Z :=
  match value with None => defaultValue | Some v => v end.

(** [src/internal/controller/zfsreplication_schedule_controller.go:279-288 requeueAt] *)
Definition requeueAt (now next : time) : Result :=
  if IsZero next then requeue_after Hour
  else
    let delay := Sub next now in
    if delay <? Second then requeue_after Second else requeue_after delay.

(** [src/internal/controller/zfsreplication_schedule_controller.go:213-218 terminalRunHistoryTime] *)
Definition terminalRunHistoryTime (run : ZFSReplicationRun) : time :=
  match CompletedAt (run_status run) with
  | Some t => t
  | None => om_creation (run_meta run)
  end.

(** [src/internal/controller/zfsreplication_schedule_controller.go:195-211 terminalRunOlder] *)
Definition terminalRunOlder (a b : ZFSReplicationRun) : bool :=
  let aTime := terminalRunHistoryTime a in
  let bTime := terminalRunHistoryTime b in
  if negb (TEqual aTime bTime) then
    if IsZero aTime then true
    else if IsZero bTime then false
    else Before aTime bTime
  else if negb (TEqual (om_creation (run_meta a)) (om_creation (run_meta b)))
  then Before (om_creation (run_meta a)) (om_creation (run_meta b))
  else String.ltb (om_name (run_meta a)) (om_name (run_meta b)).

(** [sort.Slice] by [terminalRunOlder]: an order in which no run is older than
    one before it. *)
Definition not_younger (a b : ZFSReplicationRun) : Prop := terminalRunOlder b a = false.
#[export] Instance not_younger_dec : RelDecision not_younger.
Proof. intros a b. unfold not_younger. apply _. Defined.

(** [src/internal/controller/zfsreplication_schedule_controller.go:182-184 pruneTerminalRuns] *)
Definition oldest_first (runs : list ZFSReplicationRun) : list ZFSReplicationRun :=
  merge_sort not_younger runs.

Section controller.
Context `{UnicodeTables} `{ControllerRuntime} `{Cron}.

(** [src/internal/controller/cron.go:10-18 parseCronSchedule] *)
Definition parseCronSchedule (expr : string) : result CronSchedule :=
  match ParseStandard expr with
  | Returned r => r
  | Panicked recovered => Err (errorf "invalid schedule format: %v" [FStr recovered])
  end.

(** [src/internal/controller/cron.go:23-26 dueAndNext] The loop, with fuel for its turns. *)
Fixpoint due_loop (fuel : nat) (s : CronSchedule) (now due next : time) : option (time * time) :=
  if negb (IsZero next) && negb (After next now) then
    match fuel with
    | O => None
    | S fuel' => due_loop fuel' s now next (Next s next)
    end
  else Some (due, next).

(** Activations are whole seconds apart, so this many turns reach [now]. *)
Definition due_fuel (last now : time) : nat := Z.to_nat ((now - last) / Second + 2).

(** [src/internal/controller/cron.go:20-28 dueAndNext] *)
Definition dueAndNext (s : CronSchedule) (last now : time) : option (time * time) :=
  due_loop (due_fuel last now) s now 0 (Next s last).

(** [src/internal/controller/zfsreplication_schedule_controller.go:244-246 scheduledRunName] *)
Definition scheduledRunName (scheduleName : string) (due : time) : string :=
  sanitizeName ["zfsrep"; scheduleName; format_minutes due].

(** The labels by which a schedule finds its runs. *)
Definition schedule_labels (schedule : ZFSReplicationSchedule) : gmap string string :=
  {[ labelPrefix +:+ "/schedule" := om_name (sched_meta schedule) ]}.

(** [src/internal/controller/zfsreplication_schedule_controller.go:119-131 ensureScheduledRun] *)
Definition scheduled_run (schedule : ZFSReplicationSchedule) (runName : string) (due : time)
  : ZFSReplicationRun :=
  let m := new_meta runName (om_namespace (sched_meta schedule)) (schedule_labels schedule) in
  {| run_meta :=
       {| om_name := om_name m; om_namespace := om_namespace m; om_uid := om_uid m;
          om_labels := om_labels m;
          om_annotations := {[ labelPrefix +:+ "/scheduled-at" := format_RFC3339 due ]};
          om_creation := om_creation m; om_deletion := om_deletion m; om_owners := om_owners m |};
     run_spec := RunTemplate (sched_spec schedule);
     run_status := empty_run_status |}.

Definition own_run (schedule : ZFSReplicationSchedule) (run : ZFSReplicationRun) : result ZFSReplicationRun :=
  m ← SetControllerReference "ZFSReplicationSchedule" (sched_meta schedule) (run_meta run);
  Ok {| run_meta := m; run_spec := run_spec run; run_status := run_status run |}.

(** [src/internal/controller/zfsreplication_schedule_controller.go:109-136 ensureScheduledRun] *)
Definition ensureScheduledRun (schedule : ZFSReplicationSchedule) (runName : string) (due : time)
  : kube goerr :=
  existing ← kcall (GetRun Cache (om_namespace (sched_meta schedule)) runName);
  match existing with
  | Ok _ => Ret None
  | Err e =>
      if negb (IsNotFound e) then Ret (Some e)
      else
        match own_run schedule (scheduled_run schedule runName due) with
        | Err e => Ret (Some e)
        | Ok run => kcall (CreateRun run)
        end
  end.

(** [src/internal/controller/zfsreplication_schedule_controller.go:138-149 hasActiveRun] *)
Definition hasActiveRun (schedule : ZFSReplicationSchedule) : kube (result bool) :=
  runs ← kcall (ListRuns (om_namespace (sched_meta schedule)) (schedule_labels schedule));
  match runs with
  | Err e => Ret (Err e)
  | Ok items => Ret (Ok (existsb (λ run, Phase_Active (rs_Phase (run_status run))) items))
  end.

(** [src/internal/controller/zfsreplication_schedule_controller.go:186-191 pruneTerminalRuns] *)
Fixpoint delete_runs (runs : list ZFSReplicationRun) : kube goerr :=
  match runs with
  | [] => Ret None
  | run :: runs' =>
      err ← kcall (DeleteRun run);
      match IgnoreNotFound err with
      | Some _ => Ret (match err with
          | Some e => Some (errorf "delete old scheduled run %s/%s: %w"
              [FStr (om_namespace (run_meta run)); FStr (om_name (run_meta run)); FErr e])
          | None => None
          end)
      | None => delete_runs runs'
      end
  end.

(** [src/internal/controller/zfsreplication_schedule_controller.go:178-193 pruneTerminalRuns] *)
Definition pruneTerminalRuns (runs : list ZFSReplicationRun) (limit : Z) : kube goerr :=
  if Z.of_nat (length runs) <=? limit then Ret None
  else delete_runs (take (Z.to_nat (Z.of_nat (length runs) - limit)) (oldest_first runs)).

(** [src/internal/controller/zfsreplication_schedule_controller.go:151-176 pruneScheduleRunHistory] *)
Definition pruneScheduleRunHistory (schedule : ZFSReplicationSchedule) : kube goerr :=
  runs ← kcall (ListRuns (om_namespace (sched_meta schedule)) (schedule_labels schedule));
  match runs with
  | Err e => Ret (Some e)
  | Ok items =>
      let successful := filter (λ run, rs_Phase (run_status run) = PhaseSucceeded) items in
      let failed := filter (λ run, rs_Phase (run_status run) = PhaseFailed) items in
      join2
        (pruneTerminalRuns successful (scheduleHistoryLimit
           (SuccessfulRunsHistoryLimit (sched_spec schedule)) defaultSuccessfulRunsHistoryLimit))
        (pruneTerminalRuns failed (scheduleHistoryLimit
           (FailedRunsHistoryLimit (sched_spec schedule)) defaultFailedRunsHistoryLimit))
  end.

(** [src/internal/controller/zfsreplication_schedule_controller.go:226-230 patchScheduleStatus] *)
Definition patchScheduleStatus (schedule : ZFSReplicationSchedule)
  (mutate : ZFSReplicationScheduleStatus → ZFSReplicationScheduleStatus) : kube goerr :=
  kcall (PatchScheduleStatus schedule (mutate (sched_status schedule))).

(** The assignments of the mutation functions. *)
Definition set_sst_LastError (msg : string) (st : ZFSReplicationScheduleStatus)
  : ZFSReplicationScheduleStatus :=
  {| LastScheduleTime := LastScheduleTime st; LastRunName := LastRunName st; sst_LastError := msg |}.
Definition set_LastScheduleTime (t : time) (st : ZFSReplicationScheduleStatus)
  : ZFSReplicationScheduleStatus :=
  {| LastScheduleTime := Some t; LastRunName := LastRunName st; sst_LastError := sst_LastError st |}.
Definition set_LastRunName (n : string) (st : ZFSReplicationScheduleStatus)
  : ZFSReplicationScheduleStatus :=
  {| LastScheduleTime := LastScheduleTime st; LastRunName := n; sst_LastError := sst_LastError st |}.

(** [src/internal/controller/zfsreplication_schedule_controller.go:220-224 failSchedule] *)
Definition failSchedule (schedule : ZFSReplicationSchedule) (msg : string) : kube (Result * goerr) :=
  err ← patchScheduleStatus schedule (set_sst_LastError msg); Ret (no_requeue, err).

(** [src/internal/controller/zfsreplication_schedule_controller.go:232-242 patchScheduleStatusAndPruneHistory] *)
Definition patchScheduleStatusAndPruneHistory (schedule : ZFSReplicationSchedule) (result : Result)
  (mutate : ZFSReplicationScheduleStatus → ZFSReplicationScheduleStatus) : kube (Result * goerr) :=
  err ← patchScheduleStatus schedule mutate;
  match err with
  | Some e => Ret (result, Some e)
  | None => err ← pruneScheduleRunHistory schedule; Ret (result, err)
  end.

(** [src/internal/controller/zfsreplication_schedule_controller.go:56-62 Reconcile] The time the
    last activation is counted from. *)
Definition last_time (schedule : ZFSReplicationSchedule) (now : time) : time :=
  let last := match LastScheduleTime (sched_status schedule) with
              | Some t => t
              | None => om_creation (sched_meta schedule)
              end in
  if IsZero last then now else last.

(** [src/internal/controller/zfsreplication_schedule_controller.go:71-98 Reconcile] For a
    schedule that is due. *)
Definition reconcile_due (schedule : ZFSReplicationSchedule) (policy : ConcurrencyPolicy)
  (now due next : time) : kube (Result * goerr) :=
  let result := requeueAt now next in
  active ← (if policy ≟ ConcurrencyPolicyForbid then hasActiveRun schedule else Ret (Ok false));
  match active with
  | Err e => Ret (no_requeue, Some e)
  | Ok true =>
      patchScheduleStatusAndPruneHistory schedule result (λ st,
        set_sst_LastError "skipped scheduled run because a previous run is still active"
          (set_LastScheduleTime due st))
  | Ok false =>
      let runName := scheduledRunName (om_name (sched_meta schedule)) due in
      err ← ensureScheduledRun schedule runName due;
      match err with
      | Some e => Ret (no_requeue, Some e)
      | None =>
          patchScheduleStatusAndPruneHistory schedule result (λ st,
            set_sst_LastError "" (set_LastRunName runName (set_LastScheduleTime due st)))
      end
  end.

(** [src/internal/controller/zfsreplication_schedule_controller.go:35-98 Reconcile] The schedule
    as it was read; [None] when the fuel of [dueAndNext] runs out. *)
Definition reconcile_schedule (schedule : ZFSReplicationSchedule) : kube (option (Result * goerr)) :=
  let spec := sched_spec schedule in
  let fail_with msg := x ← failSchedule schedule msg; Ret (Some x) in
  match parseCronSchedule (Schedule spec) with
  | Err e => fail_with (text e)
  | Ok parsed =>
  match validateRunSpec (RunTemplate spec) with
  | Err e => fail_with (sprintf "runTemplate: %v" [FErr e])
  | Ok _ =>
  match validateConcurrencyPolicy (ss_ConcurrencyPolicy spec) with
  | Err e => fail_with (text e)
  | Ok policy =>
  match validateScheduleHistoryLimits schedule with
  | Err e => fail_with (text e)
  | Ok _ =>
  if boolDefault (Suspend spec) false then
    x ← patchScheduleStatusAndPruneHistory schedule no_requeue (set_sst_LastError ""); Ret (Some x)
  else
    now ← kcall Now;
    match dueAndNext parsed (last_time schedule now) now with
    | None => Ret None
    | Some (due, next) =>
        if IsZero due then
          x ← patchScheduleStatusAndPruneHistory schedule (requeueAt now next) (set_sst_LastError "");
          Ret (Some x)
        else x ← reconcile_due schedule policy now due next; Ret (Some x)
    end
  end end end end.

(** [src/internal/controller/zfsreplication_schedule_controller.go:30-99 ZFSReplicationScheduleReconciler.Reconcile] *)
Definition Reconcile (namespace name : string) : kube (option (Result * goerr)) :=
  schedule ← kcall (GetSchedule namespace name);
  match schedule with
  | Err e => Ret (Some (no_requeue, IgnoreNotFound (Some e)))
  | Ok schedule => reconcile_schedule schedule
  end.

End controller.
