(* ===== verification/ScheduleProperties.v ===== *)
(** * What the schedule controller guarantees

    Due times, the pruning of finished runs, and the writes of a reconciliation,
    whatever the API server answers. *)
From S2P Require Import Prelude GoStrings StringOrder GoErrors GoTime Api Replication Names Syncoid Ssh Effects Kube RunController DestinationLock ScheduleController.
Local Open Scope Z_scope.

(** ** Due times *)

Section due.
Context `{CronLaws}.
Implicit Types (s : CronSchedule).

(** The activations of a schedule after [last], in order. *)
Inductive nth_activation s (last : time) : nat → time → Prop :=
  | first_activation : Next s last ≠ 0 → nth_activation s last 0 (Next s last)
  | next_activation k t :
      nth_activation s last k t → Next s t ≠ 0 → nth_activation s last (S k) (Next s t).

Definition activation s (last t : time) : Prop := ∃ k, nth_activation s last k t.

Lemma Next_nonzero s t : Next s t ≠ 0 → t < Next s t ∧ Next s t mod Second = 0.
Proof. intros Hn. by destruct (Next_later s t). Qed.

Lemma nth_activation_later s last k t : nth_activation s last k t → last < t.
Proof. induction 1 as [Hn|k t _ IH Hn]; apply Next_nonzero in Hn; lia. Qed.

Lemma nth_activation_inj s last k t u : nth_activation s last k t → nth_activation s last k u → t = u.
Proof.
  intros Ht. revert u. induction Ht as [|k t Ht IH Hn]; intros u Hu; inversion Hu; subst; [done|].
  by erewrite IH.
Qed.

Lemma nth_activation_before s last j n t :
  nth_activation s last (n + j)%nat t → ∃ u, nth_activation s last j u ∧ u ≤ t.
Proof.
  revert t. induction n as [|n IH]; intros t Ht; [by exists t|].
  inversion Ht as [|k u Hu Hn]; subst. destruct (IH u Hu) as (v & Hv & Hle).
  exists v. split; [done|]. apply Next_nonzero in Hn. lia.
Qed.

(** Any other activation is not later than [due], or at or after the next one. *)
Lemma activation_split s last due t :
  activation s last due → activation s last t → t ≤ due ∨ (Next s due ≠ 0 ∧ Next s due ≤ t).
Proof.
  intros [k Hk] [j Hj]. destruct (Nat.le_gt_cases j k) as [Hle|Hgt].
  - left. replace k with ((k - j) + j)%nat in Hk by lia.
    apply nth_activation_before in Hk as (u & Hu & Hle'). by rewrite (nth_activation_inj _ _ _ _ _ Hj Hu).
  - right. replace j with ((j - S k) + S k)%nat in Hj by lia.
    apply nth_activation_before in Hj as (u & Hu & Hle').
    inversion Hu as [|k' v Hv Hn]; subst. by rewrite (nth_activation_inj _ _ _ _ _ Hk Hv).
Qed.

(** ** The loop *)

(** What the loop has found: nothing yet, or an activation and the one after. *)
Definition loop_state s (last due next : time) : Prop :=
  (due = 0 ∧ next = Next s last) ∨ (due ≠ 0 ∧ activation s last due ∧ next = Next s due).

Lemma loop_state_next s last due next :
  loop_state s last due next → next ≠ 0 → loop_state s last next (Next s next).
Proof.
  intros [[_ ->]|(_ & [k Hk] & ->)] Hn; right; (split; [done|]); split; try done.
  - exists 0%nat. by constructor.
  - exists (S k). by constructor.
Qed.

Lemma due_loop_spec fuel s last now due next r :
  loop_state s last due next → (due = 0 ∨ due ≤ now) → due_loop fuel s now due next = Some r →
  loop_state s last r.1 r.2 ∧ (r.1 = 0 ∨ r.1 ≤ now) ∧ (r.2 = 0 ∨ now < r.2).
Proof.
  revert due next. induction fuel as [|fuel IH]; intros due next Hst Hdue; simpl;
    destruct (Z.eqb_spec next 0) as [Hz|Hz]; simpl; unfold IsZero;
    try (rewrite Hz; simpl; intros [= <-]; simpl; subst; naive_solver);
    rewrite (proj2 (Z.eqb_neq next 0) Hz); unfold After; simpl;
    destruct (Z.ltb_spec now next) as [Hn|Hn]; simpl; try done;
    try (intros [= <-]; simpl; naive_solver).
  intros Hr. eapply IH; [|by right|exact Hr]. by eapply loop_state_next.
Qed.

Lemma whole_seconds_apart t u :
  t mod Second = 0 → u mod Second = 0 → t < u → t + Second ≤ u.
Proof.
  intros Ht Hu Hlt. assert (0 < Second) as Hs by done.
  pose proof (Z_div_mod_eq_full t Second) as Et. pose proof (Z_div_mod_eq_full u Second) as Eu.
  rewrite Ht, Z.add_0_r in Et. rewrite Hu, Z.add_0_r in Eu.
  assert (t / Second < u / Second) by nia. nia.
Qed.

Lemma due_loop_enough fuel s now due next :
  next mod Second = 0 → now - next < Z.of_nat fuel * Second → is_Some (due_loop fuel s now due next).
Proof.
  revert due next. induction fuel as [|fuel IH]; intros due next Hm Hf; simpl;
    unfold IsZero, After; destruct (Z.eqb_spec next 0) as [Hz|Hz]; simpl; try by eexists.
  - rewrite (proj2 (Z.ltb_lt now next)) by lia. by eexists.
  - destruct (Z.ltb_spec now next); [by eexists|]. simpl.
    destruct (Next_later s next) as [Hn|[Hn Hm']].
    + rewrite Hn. destruct fuel; by eexists.
    + apply IH; [done|].
      rewrite Nat2Z.inj_succ, Z.mul_succ_l in Hf. assert (next + Second ≤ Next s next); [|lia].
      by apply whole_seconds_apart.
Qed.

(** What the loop finds, and that the fuel suffices. *)
Lemma dueAndNext_found s last now :
  ∃ due next, dueAndNext s last now = Some (due, next) ∧
    (next = 0 ∨ now < next) ∧
    ((due = 0 ∧ next = Next s last ∧ ∀ t, activation s last t → now < t) ∨
     (due ≠ 0 ∧ activation s last due ∧ last < due ≤ now ∧ next = Next s due ∧
      ∀ t, activation s last t → t ≤ now → t ≤ due)).
Proof.
  assert (is_Some (dueAndNext s last now)) as [[due next] Hd].
  { unfold dueAndNext. destruct (Next_later s last) as [Hn|[Hn Hm]].
    - rewrite Hn. destruct (due_fuel last now); by eexists.
    - apply due_loop_enough; [done|]. unfold due_fuel. assert (0 < Second) by done.
      pose proof (Z_div_mod_eq_full (now - last) Second).
      pose proof (Z.mod_pos_bound (now - last) Second ltac:(done)). nia. }
  exists due, next. split; [done|]. unfold dueAndNext in Hd.
  apply (due_loop_spec _ _ last) in Hd as (Hst & Hdue & Hnext); [|by left|by left].
  simpl in *. split; [done|]. destruct Hst as [[-> ->]|(Hz & Hact & ->)]; [left|right].
  - split_and!; [done..|]. intros t [k Hk].
    replace k with (k + 0)%nat in Hk by lia.
    apply nth_activation_before in Hk as (u & Hu & Hle). inversion Hu; subst. lia.
  - destruct Hdue as [?|Hdue]; [done|]. split_and!; try done.
    + destruct Hact as [k Hk]. by eapply nth_activation_later.
    + intros t Ht Hle. destruct (activation_split _ _ _ _ Hact Ht) as [?|[Hn Hge]]; [done|lia].
Qed.

Lemma due_loop_more fuel fuel' s now due next r :
  (fuel ≤ fuel')%nat → due_loop fuel s now due next = Some r → due_loop fuel' s now due next = Some r.
Proof.
  revert fuel' due next. induction fuel as [|fuel IH]; intros fuel' due next Hle; simpl;
    destruct fuel' as [|fuel']; try lia; simpl; destruct (_ && _); try done.
  apply IH. lia.
Qed.

(** C32. [dueAndNext] terminates: with this or any larger bound on its turns it
    returns the latest activation that has come, the zero time when none has, with
    the first activation still to come. Every activation of the schedule after
    [last] up to [now] is at or before the due time. *)
Theorem dueAndNext_spec s last now :
  ∃ due next,
    (∀ fuel, (due_fuel last now ≤ fuel)%nat →
       due_loop fuel s now 0 (Next s last) = Some (due, next)) ∧
    dueAndNext s last now = Some (due, next) ∧
    (next = 0 ∨ now < next) ∧
    ((due = 0 ∧ next = Next s last ∧ ∀ t, activation s last t → now < t) ∨
     (due ≠ 0 ∧ activation s last due ∧ last < due ≤ now ∧ next = Next s due ∧
      ∀ t, activation s last t → t ≤ now → t ≤ due)).
Proof.
  destruct (dueAndNext_found s last now) as (due & next & Hd & Hrest).
  exists due, next. split; [|done]. intros fuel Hf. by eapply due_loop_more.
Qed.

End due.

(** ** Pruning *)

Lemma ltb_false_trans a b c : String.ltb b a = false → String.ltb c b = false → String.ltb c a = false.
Proof.
  intros Hba Hcb. apply not_true_iff_false. intros Hca.
  destruct (decide (c = b)) as [->|Hn]; [congruence|].
  assert (String.ltb b c = true) as Hbc by (rewrite ltb_antisym by done; by rewrite Hcb).
  rewrite (ltb_trans b c a Hbc Hca) in Hba. done.
Qed.

(** The zero time comes before every other. *)
Definition history_before (t u : time) : Prop := t ≠ u ∧ (t = 0 ∨ (u ≠ 0 ∧ t < u)).

(** When a finished run ended: its completion, or its creation when that is missing. *)
Definition ended_at (run : ZFSReplicationRun) : time :=
  default (om_creation (run_meta run)) (CompletedAt (run_status run)).

(** Ended before, or at the same time and created before, or with a smaller name. *)
Definition as_old_as (a b : ZFSReplicationRun) : Prop :=
  history_before (ended_at a) (ended_at b) ∨
  ended_at a = ended_at b ∧
    (om_creation (run_meta a) < om_creation (run_meta b) ∨
     om_creation (run_meta a) = om_creation (run_meta b) ∧
     String.ltb (om_name (run_meta b)) (om_name (run_meta a)) = false).

Lemma ended_at_history run : terminalRunHistoryTime run = ended_at run.
Proof. unfold terminalRunHistoryTime, ended_at. by destruct (CompletedAt _). Qed.

Lemma terminalRunOlder_spec a b :
  terminalRunOlder a b = true ↔
  history_before (terminalRunHistoryTime a) (terminalRunHistoryTime b) ∨
  terminalRunHistoryTime a = terminalRunHistoryTime b ∧ earlier a b.
Proof.
  unfold terminalRunOlder, TEqual, IsZero, Before, earlier, history_before.
  set (ta := terminalRunHistoryTime a). set (tb := terminalRunHistoryTime b).
  destruct (Z.eqb_spec ta tb) as [->|E]; simpl.
  - destruct (Z.eqb_spec (om_creation (run_meta a)) (om_creation (run_meta b))); simpl;
      rewrite ?Z.ltb_lt; naive_solver lia.
  - destruct (Z.eqb_spec ta 0) as [Ea|Ea], (Z.eqb_spec tb 0) as [Eb|Eb];
      rewrite ?Z.ltb_lt; naive_solver lia.
Qed.

Lemma not_younger_spec a b : not_younger a b ↔ as_old_as a b.
Proof.
  unfold as_old_as. rewrite <- (ended_at_history a), <- (ended_at_history b).
  unfold not_younger. rewrite <- not_true_iff_false, terminalRunOlder_spec.
  unfold history_before, earlier. rewrite <- not_true_iff_false. split; [|naive_solver lia].
  intros Hn. destruct (decide (terminalRunHistoryTime a = terminalRunHistoryTime b)); [right|left].
  - split; [done|]. destruct (Z.lt_trichotomy (om_creation (run_meta a)) (om_creation (run_meta b)))
      as [?|[?|?]]; [by left|right|]; naive_solver lia.
  - split; [done|]. destruct (decide (terminalRunHistoryTime a = 0)); [by left|right].
    split; [naive_solver|]. destruct (Z.le_gt_cases (terminalRunHistoryTime b) (terminalRunHistoryTime a));
      naive_solver lia.
Qed.

#[export] Instance not_younger_trans : Transitive not_younger.
Proof.
  intros a b c. rewrite !not_younger_spec. unfold as_old_as, history_before. intros Hab Hbc.
  destruct Hab as [Hab|[Eab Hab]], Hbc as [Hbc|[Ebc Hbc]]; try (left; naive_solver lia).
  right. split; [congruence|]. destruct Hab as [?|[? Hab]], Hbc as [?|[? Hbc]]; try (left; lia).
  right. split; [lia|]. by eapply ltb_false_trans.
Qed.

#[export] Instance not_younger_total : Total not_younger.
Proof.
  intros a b. destruct (terminalRunOlder b a) eqn:E; [right|left; done].
  apply terminalRunOlder_spec in E. apply not_younger_spec. unfold as_old_as. rewrite <- (ended_at_history a), <- (ended_at_history b). destruct E as [E|[E [Ht|[Ht Hlt]]]].
  - by left.
  - right. split; [done|by left].
  - right. split; [done|]. right. split; [done|]. apply not_true_iff_false. intros Hlt'.
    pose proof (ltb_trans _ _ _ Hlt Hlt') as Hi. by rewrite ltb_irrefl in Hi.
Qed.

(** The runs in the order of their pruning. *)
Lemma oldest_first_sorted runs : oldest_first runs ≡ₚ runs ∧ StronglySorted as_old_as (oldest_first runs).
Proof.
  split; [apply merge_sort_Permutation|].
  assert (StronglySorted not_younger (oldest_first runs)) as Hs by apply (StronglySorted_merge_sort _).
  induction Hs as [|a l _ IH Ha]; constructor; [done|].
  eapply Forall_impl; [exact Ha|]. intros b. apply not_younger_spec.
Qed.

Section prune.
Context `{UnicodeTables}.

Lemma delete_runs_exec runs tr :
  exec (delete_runs runs) tr None → ev_op (E := Kube) <$> tr = DeleteRun <$> runs.
Proof.
  revert tr. induction runs as [|run runs IH]; intros tr Hx; simpl in Hx; apply exec_inv in Hx.
  - by destruct Hx as [-> _].
  - destruct Hx as (err & tr' & -> & Hx). simpl in Hx. destruct (IgnoreNotFound err) as [e|] eqn:E.
    + destruct err; [|done]. by apply exec_inv in Hx as [_ ?].
    + simpl. f_equal. by apply IH.
Qed.

(** Pruning that reports no error has deleted all but [limit] of the runs it
    was given, or none when there are no more than that: the first ones of the runs in
    the order of their end, one after the other. *)
Theorem pruneTerminalRuns_spec runs limit tr :
  0 ≤ limit → exec (pruneTerminalRuns runs limit) tr None →
  ∃ deleted kept, ev_op (E := Kube) <$> tr = DeleteRun <$> deleted ∧ deleted ++ kept ≡ₚ runs ∧
    Z.of_nat (length kept) = Z.min limit (Z.of_nat (length runs)) ∧
    (deleted ≠ [] → StronglySorted as_old_as (deleted ++ kept)).
Proof.
  intros Hl Hx. unfold pruneTerminalRuns in Hx.
  destruct (Z.leb_spec (Z.of_nat (length runs)) limit) as [Hle|Hgt].
  - apply exec_inv in Hx as [-> _]. exists [], runs. split_and!; [done|done|lia|done].
  - apply delete_runs_exec in Hx. eexists _, (drop _ (oldest_first runs)). split; [exact Hx|].
    destruct (oldest_first_sorted runs) as [Hp Hy]. rewrite take_drop. split_and!; [done| |done].
    rewrite length_drop, (Permutation_length Hp). lia.
Qed.

End prune.

(** ** The writes of a reconciliation *)

Section writes.
Context `{UnicodeTables} `{ControllerRuntime} `{CronLaws}.
Context (schedule : ZFSReplicationSchedule).

Let ns := om_namespace (sched_meta schedule).
Let spec := sched_spec schedule.

(** A schedule that may run: accepted, and not suspended. *)
Definition may_run (parsed : CronSchedule) (policy : ConcurrencyPolicy) : Prop :=
  parseCronSchedule (Schedule spec) = Ok parsed ∧ is_ok (validateRunSpec (RunTemplate spec)) = true ∧
  validateConcurrencyPolicy (ss_ConcurrencyPolicy spec) = Ok policy ∧
  is_ok (validateScheduleHistoryLimits schedule) = true ∧ boolDefault (Suspend spec) false = false.

(** The latest activation that had come at the time read, after the recorded one. *)
Definition due_at (h : list kevent) (parsed : CronSchedule) (due : time) : Prop :=
  ∃ now, seen h Now now ∧ activation parsed (last_time schedule now) due ∧
    last_time schedule now < due ≤ now ∧
    ∀ t, activation parsed (last_time schedule now) t → t ≤ now → t ≤ due.

Definition no_active_run (h : list kevent) : Prop :=
  ∃ runs, seen h (ListRuns ns (schedule_labels schedule)) (Ok runs) ∧
    ∀ run, run ∈ runs → Phase_Terminal (rs_Phase (run_status run)) = true.

(** How many runs of an outcome the schedule keeps. *)
Definition keeps (phase : Phase) (limit : Z) : Prop :=
  phase = PhaseSucceeded ∧ limit = default 3 (SuccessfulRunsHistoryLimit spec) ∨
  phase = PhaseFailed ∧ limit = default 1 (FailedRunsHistoryLimit spec).

(** A run is the next one to be pruned: since a listing of the runs of the schedule, runs
    of another outcome were deleted, and then, of the runs of its outcome in the order of
    their end, exactly those before it, and as many come after it as are kept at least. *)
Definition next_pruned (h : list kevent) (run : ZFSReplicationRun) : Prop :=
  ∃ h0 items t others before after kept,
    h = (h0 ++ [Event (E := Kube) (ListRuns ns (schedule_labels schedule)) (Ok items)]) ++ t ∧
    ev_op (E := Kube) <$> t = DeleteRun <$> (others ++ before) ∧
    (∀ o, o ∈ others → rs_Phase (run_status o) ≠ rs_Phase (run_status run)) ∧
    before ++ run :: after ++ kept ≡ₚ filter (λ o, rs_Phase (run_status o) = rs_Phase (run_status run)) items ∧
    StronglySorted as_old_as (before ++ run :: after ++ kept) ∧
    keeps (rs_Phase (run_status run)) (Z.of_nat (length kept)).

(** What each write is preceded by. *)
Definition schedule_ok (h : list kevent) (o : kube_op) : Prop :=
  match o with
  | GetRun _ _ _ | GetSchedule _ _ | ListRuns _ _ | Now => True
  | CreateRun run => ∃ parsed policy due h0 e,
      may_run parsed policy ∧ due_at h0 parsed due ∧
      (policy = ConcurrencyPolicyForbid → no_active_run h0) ∧
      h = h0 ++ [Event (E := Kube)
        (GetRun Cache ns (scheduledRunName (om_name (sched_meta schedule)) due)) (Err e)] ∧
      IsNotFound e = true ∧
      own_run schedule (scheduled_run schedule
        (scheduledRunName (om_name (sched_meta schedule)) due) due) = Ok run
  | DeleteRun run => next_pruned h run
  | PatchScheduleStatus base st => base = schedule ∧
      (LastScheduleTime st = LastScheduleTime (sched_status schedule) ∧
       LastRunName st = LastRunName (sched_status schedule) ∨
       ∃ parsed due, due_at h parsed due ∧ LastScheduleTime st = Some due)
  | _ => False
  end.

Let anything {A} : list kevent → A → Prop := λ _ _, True.

Lemma due_at_prefix h h' parsed due : h `prefix_of` h' → due_at h parsed due → due_at h' parsed due.
Proof. intros Hp (now & Hs & Hrest). exists now. split; [by eapply seen_prefix|done]. Qed.

(** The deletions of a history since some point. *)
Definition deletions (h0 : list kevent) (runs : list ZFSReplicationRun) (h : list kevent) : Prop :=
  ∃ t, h = h0 ++ t ∧ ev_op (E := Kube) <$> t = DeleteRun <$> runs.

Lemma delete_runs_safe h0 before todo h :
  deletions h0 before h →
  (∀ d run rest h', todo = d ++ run :: rest → deletions h0 (before ++ d) h' → schedule_ok h' (DeleteRun run)) →
  safe (E := Kube) schedule_ok (λ h' _, ∃ d, d ⊆ todo ∧ deletions h0 (before ++ d) h') h (delete_runs todo).
Proof.
  revert before h. induction todo as [|run todo IH]; intros before h Hb Hd; cbn [delete_runs].
  { exists []. by rewrite app_nil_r. }
  apply (safe_call (E := Kube)); [apply (Hd [] run todo); by rewrite ?app_nil_r|]. intros err.
  assert (deletions h0 (before ++ [run]) (h ++ [Event (E := Kube) (DeleteRun run) err])) as Hb'.
  { destruct Hb as (t & -> & Ht). eexists. split; [by rewrite <- app_assoc|]. by rewrite !fmap_app, Ht. }
  assert ([run] ⊆ run :: todo) as Hin by set_solver.
  destruct (IgnoreNotFound err) as [e|]; [by exists [run]|]. eapply safe_conseq; [apply (IH (before ++ [run]))|].
  - done.
  - intros d run' rest h' -> Hh. apply (Hd (run :: d) run' rest); [done|]. by rewrite <- app_assoc in Hh.
  - intros h' _ _ (d & Hsub & Hh). exists (run :: d). split; [set_solver|]. by rewrite <- app_assoc in Hh.
Qed.

Lemma pruneTerminalRuns_safe phase limit h0 items others h :
  let listed := h0 ++ [Event (E := Kube) (ListRuns ns (schedule_labels schedule)) (Ok items)] in
  deletions listed others h → (∀ o, o ∈ others → rs_Phase (run_status o) ≠ phase) → 0 ≤ limit → keeps phase limit →
  safe (E := Kube) schedule_ok
    (λ h' _, ∃ d, (∀ o, o ∈ d → rs_Phase (run_status o) = phase) ∧ deletions listed (others ++ d) h') h
    (pruneTerminalRuns (filter (λ run, rs_Phase (run_status run) = phase) items) limit).
Proof.
  intros listed Hh Hothers Hl Hk. unfold pruneTerminalRuns. set (runs := filter _ items).
  destruct (Z.leb_spec (Z.of_nat (length runs)) limit) as [Hle|Hgt].
  { exists []. rewrite app_nil_r. by split; [intros ? ?%elem_of_nil|]. }
  set (n := Z.to_nat (Z.of_nat (length runs) - limit)). destruct (oldest_first_sorted runs) as [Hp Hy].
  assert (∀ o, o ∈ take n (oldest_first runs) → rs_Phase (run_status o) = phase) as Hphase.
  { intros o Ho%elem_of_take. destruct Ho as (i & Ho & _). apply list_elem_of_lookup_2 in Ho.
    rewrite Hp in Ho. by apply list_elem_of_filter in Ho as [? _]. }
  eapply safe_conseq; [apply (delete_runs_safe listed others); [exact Hh|]|].
  - intros d run rest h' Htake (t & -> & Ht).
    assert (rs_Phase (run_status run) = phase) as Hrun by (apply Hphase; rewrite Htake; set_solver).
    assert (oldest_first runs = d ++ run :: rest ++ drop n (oldest_first runs)) as Hsplit.
    { rewrite <- (take_drop n (oldest_first runs)) at 1. by rewrite Htake, <- app_assoc. }
    exists h0, items, t, others, d, rest, (drop n (oldest_first runs)). rewrite Hrun, <- Hsplit.
    split_and!; [done..|]. rewrite length_drop, (Permutation_length Hp).
    replace (Z.of_nat (length runs - n)) with limit by lia. done.
  - intros h' _ _ (d & Hd & Hh'). exists d. split; [|done]. intros o Ho. by apply Hphase, Hd.
Qed.

Lemma history_limits :
  is_ok (validateScheduleHistoryLimits schedule) = true →
  0 ≤ scheduleHistoryLimit (SuccessfulRunsHistoryLimit spec) defaultSuccessfulRunsHistoryLimit ∧
  0 ≤ scheduleHistoryLimit (FailedRunsHistoryLimit spec) defaultFailedRunsHistoryLimit.
Proof.
  unfold validateScheduleHistoryLimits, validateHistoryLimit, spec.
  destruct (SuccessfulRunsHistoryLimit _) as [x|], (FailedRunsHistoryLimit _) as [y|]; simpl;
    try destruct (Z.ltb_spec x 0); try destruct (Z.ltb_spec y 0); simpl; try done; lia.
Qed.

Lemma pruneScheduleRunHistory_safe h :
  is_ok (validateScheduleHistoryLimits schedule) = true →
  safe (E := Kube) schedule_ok anything h (pruneScheduleRunHistory schedule).
Proof.
  intros [Hs Hf]%history_limits. apply (safe_call (E := Kube)); [done|]. intros [items|e]; [|done].
  cbv zeta. apply safe_bind.
  eapply safe_conseq; [apply (pruneTerminalRuns_safe PhaseSucceeded _ h items []); [|set_solver|exact Hs|by left]|].
  { exists []. by rewrite app_nil_r. }
  intros h1 e1 _ (d & Hd & Hh). apply safe_bind.
  eapply safe_conseq; [apply (pruneTerminalRuns_safe PhaseFailed _ h items d); [exact Hh| |exact Hf|by right]|done].
  intros o Ho. by rewrite (Hd o Ho).
Qed.

Lemma patch_and_prune_safe result mutate h :
  is_ok (validateScheduleHistoryLimits schedule) = true →
  schedule_ok h (PatchScheduleStatus schedule (mutate (sched_status schedule))) →
  safe (E := Kube) schedule_ok anything h (patchScheduleStatusAndPruneHistory schedule result mutate).
Proof.
  intros Hl Hp. apply (safe_call (E := Kube)); [exact Hp|]. intros [e|]; [done|].
  apply safe_bind. eapply safe_conseq; [by apply pruneScheduleRunHistory_safe|done].
Qed.

Lemma failSchedule_safe {A} msg (x : Result * goerr → A) h :
  safe (E := Kube) schedule_ok anything h (y ← failSchedule schedule msg; Ret (x y)).
Proof.
  apply safe_bind, safe_bind, (safe_call_ret (E := Kube)); [|done]. split; [done|by left].
Qed.

Lemma ensureScheduledRun_safe parsed policy due h :
  may_run parsed policy → due_at h parsed due →
  (policy = ConcurrencyPolicyForbid → no_active_run h) →
  safe (E := Kube) schedule_ok anything h
    (ensureScheduledRun schedule (scheduledRunName (om_name (sched_meta schedule)) due) due).
Proof.
  intros Hm Hd Ha. apply (safe_call (E := Kube)); [done|]. intros [run|e]; [done|].
  destruct (negb (IsNotFound e)) eqn:En; [done|]. apply negb_false_iff in En.
  destruct (own_run _ _) as [run|] eqn:Eo; [|done]. apply (safe_call_ret (E := Kube)); [|done].
  by exists parsed, policy, due, h, e.
Qed.

Lemma hasActiveRun_safe h :
  safe (E := Kube) schedule_ok (λ h' res, res = Ok false → no_active_run h') h (hasActiveRun schedule).
Proof.
  apply (safe_call (E := Kube)); [done|]. intros [runs|e]; [|done]. cbn [safe]. intros [= Hr].
  exists runs. split; [apply seen_last|]. intros run Hin. apply not_false_iff_true. intros Hf.
  assert (existsb (λ run, Phase_Active (rs_Phase (run_status run))) runs = true) as Ht.
  { apply existsb_elem. exists run. split; [done|]. unfold Phase_Active. by rewrite Hf. }
  congruence.
Qed.

Lemma reconcile_due_safe parsed policy now due next h :
  may_run parsed policy → due_at h parsed due →
  safe (E := Kube) schedule_ok anything h (reconcile_due schedule policy now due next).
Proof.
  intros Hm Hd. unfold reconcile_due. cbv zeta. apply safe_bind.
  apply (safe_conseq _ (λ h' res, due_at h' parsed due ∧
    (res = Ok false → policy = ConcurrencyPolicyForbid → no_active_run h'))).
  { destruct (policy ≟ ConcurrencyPolicyForbid) eqn:Ep.
    - eapply safe_conseq; [apply hasActiveRun_safe|]. intros h' res Hp Hr.
      split; [by eapply due_at_prefix|]. auto.
    - apply bool_decide_eq_false in Ep. split; [done|]. done. }
  intros h1 [[]|e] _ [Hd1 Ha]; [| |done].
  - apply patch_and_prune_safe; [apply Hm|]. split; [done|]. right. by exists parsed, due.
  - apply safe_bind. eapply safe_conseq; [eapply ensureScheduledRun_safe; [exact Hm|exact Hd1|by apply Ha]|].
    intros h2 [e|] Hp _; [done|]. apply patch_and_prune_safe; [apply Hm|]. split; [done|].
    right. exists parsed, due. split; [by eapply due_at_prefix|done].
Qed.

Lemma reconcile_schedule_safe h :
  safe (E := Kube) schedule_ok anything h (reconcile_schedule schedule).
Proof.
  unfold reconcile_schedule. fold spec. cbv zeta.
  destruct (parseCronSchedule _) as [parsed|] eqn:Ecron; [|apply failSchedule_safe].
  destruct (validateRunSpec _) eqn:Erun; [|apply failSchedule_safe].
  destruct (validateConcurrencyPolicy _) as [policy|] eqn:Epol; [|apply failSchedule_safe].
  destruct (validateScheduleHistoryLimits _) eqn:Elim; [|apply failSchedule_safe].
  assert (is_ok (validateScheduleHistoryLimits schedule) = true) as Hlim by (by rewrite Elim).
  destruct (boolDefault _ _) eqn:Esus.
  { apply safe_bind. eapply safe_conseq; [apply patch_and_prune_safe; [done|]|done].
    split; [done|by left]. }
  apply (safe_call (E := Kube)); [done|]. intros now.
  destruct (dueAndNext_found parsed (last_time schedule now) now)
    as (due & next & -> & _ & [(-> & _)|(Hz & Hact & Hrange & _ & Hmax)]).
  - cbn [IsZero Z.eqb]. apply safe_bind. eapply safe_conseq; [apply patch_and_prune_safe; [done|]|done].
    split; [done|by left].
  - unfold IsZero. rewrite (proj2 (Z.eqb_neq _ _) Hz).
    apply safe_bind. eapply safe_conseq; [eapply reconcile_due_safe|done].
    + split_and!; [exact Ecron|by rewrite Erun|exact Epol|exact Hlim|exact Esus].
    + exists now. split; [apply seen_last|done].
Qed.

End writes.

(** ** Executions of [Reconcile] *)

Section executions.
Context `{UnicodeTables} `{ControllerRuntime} `{CronLaws}.
Implicit Types (tr : list kevent).

Lemma schedule_call ns name tr res t1 (o : kube_op) (x : kube_ans o) t2 :
  exec (Reconcile ns name) tr res → tr = t1 ++ Event (E := Kube) o x :: t2 →
  (∀ ns' name', o ≠ GetSchedule ns' name') →
  ∃ schedule t1', t1 = Event (E := Kube) (GetSchedule ns name) (Ok schedule) :: t1' ∧
    schedule_ok schedule t1' o.
Proof.
  intros Hx Htr Ho. apply exec_inv in Hx as (answer & tr' & -> & Hx).
  destruct t1 as [|ev t1]; [exfalso; injection Htr as Heq _; by apply (Ho ns name)|].
  injection Htr as <- ->. destruct answer as [schedule|e].
  - exists schedule, t1. split; [done|].
    destruct (safe_sound (schedule_ok schedule) (λ _ _, True) [] _ _ _
      (reconcile_schedule_safe schedule []) Hx) as [_ HG].
    exact (HG t1 _ t2 eq_refl).
  - apply exec_inv in Hx as [Hn _]. by destruct t1.
Qed.

(** C31. A run is created only for a schedule that was read, is valid and not
    suspended, for its latest activation that has come since the recorded one;
    under the Forbid policy only after a listing in which every run of the
    schedule is finished; directly after its name was found free; with the
    schedule's template, as a child of the schedule. *)
Theorem scheduled_run_created_when_due ns name tr res t1 run x t2 :
  exec (Reconcile ns name) tr res →
  tr = t1 ++ Event (E := Kube) (CreateRun run) x :: t2 →
  ∃ schedule parsed policy due h0 e,
    t1 = h0 ++ [Event (E := Kube) (GetRun Cache (om_namespace (sched_meta schedule))
                   (scheduledRunName (om_name (sched_meta schedule)) due)) (Err e)] ∧
    seen h0 (GetSchedule ns name) (Ok schedule) ∧ may_run schedule parsed policy ∧
    due_at schedule h0 parsed due ∧
    (policy = ConcurrencyPolicyForbid → no_active_run schedule h0) ∧ IsNotFound e = true ∧
    om_name (run_meta run) = scheduledRunName (om_name (sched_meta schedule)) due ∧
    run_spec run = RunTemplate (sched_spec schedule) ∧
    ∃ o, GetControllerOf (run_meta run) = Some o ∧ or_uid o = om_uid (sched_meta schedule).
Proof.
  intros Hx Htr. eapply schedule_call in Hx as (schedule & t1' & -> & Hok); [|exact Htr|done].
  destruct Hok as (parsed & policy & due & h0 & e & Hm & (now & Hnow & Hd) & Ha & -> & He & Ho).
  unfold own_run in Ho. apply bind_Ok in Ho as (m & Hset & [= <-]).
  apply SetControllerReference_spec in Hset as (Hname & _ & _ & _ & Hown).
  exists schedule, parsed, policy, due, (Event (E := Kube) (GetSchedule ns name) (Ok schedule) :: h0), e.
  split_and!; try done.
  - by left.
  - exists now. split; [by right|done].
  - intros Hp. destruct (Ha Hp) as (runs & Hs & Hall). exists runs. split; [by right|done].
Qed.

(** C34. Only runs of the schedule's own listing that have succeeded or failed are
    deleted, the oldest first: the runs of an outcome, in the order of their end, their
    creation and their name, are deleted one after the other, and the last ones, as
    many as the history limit of the outcome says, never are. *)
Theorem schedule_prunes_oldest_finished ns name tr res t1 run x t2 :
  exec (Reconcile ns name) tr res →
  tr = t1 ++ Event (E := Kube) (DeleteRun run) x :: t2 →
  ∃ schedule t0 items t others before after kept,
    seen (E := Kube) t0 (GetSchedule ns name) (Ok schedule) ∧
    t1 = t0 ++ [Event (E := Kube) (ListRuns (om_namespace (sched_meta schedule)) (schedule_labels schedule))
                  (Ok items)] ++ t ∧
    ev_op (E := Kube) <$> t = DeleteRun <$> (others ++ before) ∧
    (∀ o, o ∈ others → rs_Phase (run_status o) ≠ rs_Phase (run_status run)) ∧
    before ++ run :: after ++ kept ≡ₚ filter (λ o, rs_Phase (run_status o) = rs_Phase (run_status run)) items ∧
    StronglySorted as_old_as (before ++ run :: after ++ kept) ∧
    keeps schedule (rs_Phase (run_status run)) (Z.of_nat (length kept)).
Proof.
  intros Hx Htr. eapply schedule_call in Hx as (schedule & t1' & -> & Hok); [|exact Htr|done].
  destruct Hok as (h0 & items & t & others & before & after & kept & -> & Hrest).
  exists schedule, (Event (E := Kube) (GetSchedule ns name) (Ok schedule) :: h0), items, t, others, before, after, kept.
  split; [by left|]. split; [by rewrite <- app_assoc|done].
Qed.


Lemma safe_always {A} (Q : list kevent → A → Prop) h (p : kube A) :
  (∀ h a, Q h a) → safe (E := Kube) (λ _ _, True) Q h p.
Proof. intros HQ. revert h. induction p as [a|o k IH]; intros h; [apply HQ|by split]. Qed.

(** A reconciliation of a schedule always ends with a result: the loop over
    its activations terminates. *)
Theorem schedule_reconcile_returns ns name tr res :
  exec (Reconcile ns name) tr res → is_Some res.
Proof.
  intros Hx.
  assert (safe (E := Kube) (λ _ _, True) (λ _ res, is_Some res) [] (Reconcile ns name)) as Hs.
  2: { by apply (safe_sound _ _ _ _ _ _ Hs) in Hx as [? _]. }
  apply (safe_call (E := Kube)); [done|]. intros [schedule|e]; [|by eexists].
  unfold reconcile_schedule. cbv zeta.
  repeat match goal with
  | |- safe _ _ _ (kcall Now ≫= _) => apply (safe_call (E := Kube)); [done|intros now]
  | |- safe _ _ _ (match dueAndNext ?p ?l ?n with _ => _ end) =>
      destruct (dueAndNext_found p l n) as (due & next & -> & _)
  | |- safe _ _ _ (_ ≫= _) => apply safe_bind, safe_always; by eexists
  | |- safe _ _ _ (if ?b then _ else _) => destruct b
  | |- safe _ _ _ (match ?x with _ => _ end) => destruct x
  end.
Qed.

End executions.

(** The next reconciliation of a schedule is asked for after at least a
    second, and, when an activation is to come, not before it and within a second
    of it, unless it is too far for a duration. *)
Theorem requeueAt_spec now next :
  let after := RequeueAfter (requeueAt now next) in
  Second ≤ after ≤ maxDuration ∧
  (next ≠ 0 → next - now ≤ maxDuration → next ≤ now + after ∧ (now ≤ next → now + after ≤ next + Second)).
Proof.
  unfold requeueAt, IsZero. assert (0 < Second ≤ maxDuration ∧ Second ≤ Hour ≤ maxDuration) as Hc by done.
  destruct (Z.eqb_spec next 0) as [Hz|Hz]; [simpl; lia|].
  destruct (Z.ltb_spec (Sub next now) Second) as [Hl|Hl]; simpl; unfold Sub, minDuration, maxDuration in *; lia.
Qed.

(** ** Concrete inputs *)

(** A cron that knows one expression, every minute, and panics on another. *)
Definition every_minute : Cron :=
  {| CronSchedule := unit;
     ParseStandard expr :=
       if expr ≟ "* * * * *" then Returned (Ok tt)
       else if expr ≟ "TZ=" then Panicked "slice bounds out of range"
       else Returned (Err (errorf "expected exactly 5 fields" []));
     Next _ t := if t <? 0 then 0 else Truncate t Minute + Minute |}.

#[local] Existing Instance ascii_tables.
#[local] Existing Instance append_controller.
#[local] Existing Instance every_minute.

Lemma every_minute_laws : CronLaws.
Proof.
  intros [] t. cbn [Next every_minute]. destruct (Z.ltb_spec t 0) as [Ht|Ht]; [by left|right].
  pose proof (Truncate_bounds t Minute ltac:(done)). split; [lia|].
  unfold Truncate. rewrite <- (Z.mod_unique (t - t mod Minute + Minute) Second
    (60 * (t / Minute + 1)) 0); [done|left; done|].
  pose proof (Z.div_mod t Minute ltac:(done)). unfold Minute in *. lia.
Qed.

(** The API server of one schedule and its runs, and a clock. *)
Record schedule_cluster := {
  sc_schedule : ZFSReplicationSchedule;
  sc_runs : list ZFSReplicationRun;
  sc_clock : time }.

Definition set_runs (runs : list ZFSReplicationRun) (s : schedule_cluster) : schedule_cluster :=
  {| sc_schedule := sc_schedule s; sc_runs := runs; sc_clock := sc_clock s |}.

Definition not_found : error := apiError NotFound "not found".

Definition serve_schedule (o : kube_op) (s : schedule_cluster) : kube_ans o * schedule_cluster :=
  match o return kube_ans o * schedule_cluster with
  | GetRun _ _ name =>
      (match List.find (λ run, om_name (run_meta run) ≟ name) (sc_runs s) with
       | Some run => Ok run
       | None => Err not_found
       end, s)
  | GetSchedule _ _ => (Ok (sc_schedule s), s)
  | ListRuns _ _ => (Ok (sc_runs s), s)
  | CreateRun run => (None, set_runs (sc_runs s ++ [run]) s)
  | DeleteRun run =>
      (None, set_runs (filter (λ other, om_name (run_meta other) ≠ om_name (run_meta run)) (sc_runs s)) s)
  | PatchScheduleStatus base st =>
      (None, {| sc_schedule := {| sched_meta := sched_meta base; sched_spec := sched_spec base;
                                  sched_status := st |};
                sc_runs := sc_runs s; sc_clock := sc_clock s |})
  | Now => (sc_clock s, s)
  | GenerateRSAKey => (Err not_found, s)
  | GetTask _ _ _ | GetSecret _ _ | GetJob _ _ | GetPod _ _ | ListTasks _ | ListPods _ _ =>
      (Err not_found, s)
  | _ => (None, s)
  end.

(** A schedule that forbids overlap and keeps one successful run, created at the
    thousandth hour. *)
Definition nightly (policy : ConcurrencyPolicy) : ZFSReplicationSchedule :=
  {| sched_meta := {| om_name := "nightly"; om_namespace := "default"; om_uid := "schedule-uid";
                      om_labels := ∅; om_annotations := ∅; om_creation := 1000 * Hour;
                      om_deletion := None; om_owners := [] |};
     sched_spec := {| Schedule := "* * * * *"; Suspend := None; ss_ConcurrencyPolicy := policy;
                      SuccessfulRunsHistoryLimit := Some 1; FailedRunsHistoryLimit := None;
                      RunTemplate := Syncoid.sample_spec |};
     sched_status := {| LastScheduleTime := None; LastRunName := ""; sst_LastError := "" |} |}.

Definition finished (name : string) (t : time) : ZFSReplicationRun :=
  with_run_status (at_time name t PhaseSucceeded)
    (set_CompletedAt (Some (t + Minute)) (set_Phase PhaseSucceeded empty_run_status)).

Definition schedule_start : schedule_cluster :=
  {| sc_schedule := nightly ""; sc_runs := [finished "new" (3 * Hour); finished "old" Hour];
     sc_clock := 1000 * Hour + 150 * Second |}.

Definition reconcile_nightly : kube (option (Result * goerr)) := Reconcile "default" "nightly".
Definition schedule_trace (s : schedule_cluster) : list kevent :=
  (run_with (E := Kube) serve_schedule reconcile_nightly s).1.1.
Definition schedule_outcome (s : schedule_cluster) : option (Result * goerr) :=
  (run_with (E := Kube) serve_schedule reconcile_nightly s).1.2.
Definition schedule_after (s : schedule_cluster) : schedule_cluster :=
  (run_with (E := Kube) serve_schedule reconcile_nightly s).2.

Lemma schedule_trace_exec s : exec reconcile_nightly (schedule_trace s) (schedule_outcome s).
Proof.
  pose proof (run_with_exec (E := Kube) serve_schedule reconcile_nightly s) as Hx.
  unfold schedule_trace, schedule_outcome.
  by destruct (run_with (E := Kube) serve_schedule reconcile_nightly s) as [[tr a] s'].
Defined.

(** The first reconciliation creates the run of the latest minute and deletes the
    older successful run; the next one, a minute later, skips while that run is
    active. *)
Example schedule_lifecycle :
  om_name ∘ run_meta <$> sc_runs (schedule_after schedule_start) =
    ["new"; "zfsrep-nightly-00010211-1602"] ∧
  LastScheduleTime (sched_status (sc_schedule (schedule_after schedule_start))) =
    Some (1000 * Hour + 2 * Minute) ∧
  schedule_outcome schedule_start = Some (requeue_after (30 * Second), None).
Proof. vm_compute. by split_and!. Qed.

(** The calls of the reconciliation above that carry a run or a status. *)
Definition run_at (n : nat) : ZFSReplicationRun :=
  default (at_time "" 0 "") (ev ← schedule_trace schedule_start !! n;
    match ev_op (E := Kube) ev with CreateRun run | DeleteRun run => Some run | _ => None end).
Definition status_at (n : nat) : ZFSReplicationScheduleStatus :=
  default (sched_status (nightly "")) (ev ← schedule_trace schedule_start !! n;
    match ev_op (E := Kube) ev with PatchScheduleStatus _ st => Some st | _ => None end).

Lemma schedule_trace_split n ev :
  schedule_trace schedule_start !! n = Some ev →
  schedule_trace schedule_start = take n (schedule_trace schedule_start) ++ ev ::
    drop (S n) (schedule_trace schedule_start).
Proof. intros Hn. symmetry. by apply take_drop_middle. Qed.

Lemma dueAndNext_spec_witness : ∃ due next,
  dueAndNext tt (1000 * Hour) (1000 * Hour + 150 * Second) = Some (due, next) ∧ next ≠ 0.
Proof.
  destruct (@dueAndNext_spec every_minute every_minute_laws tt (1000 * Hour) (1000 * Hour + 150 * Second))
    as (due & next & _ & Hd & _).
  exists due, next. split; [exact Hd|]. vm_compute in Hd. injection Hd as <- <-. discriminate.
Defined.

Lemma pruneTerminalRuns_spec_witness : ∃ deleted kept,
  deleted ++ kept ≡ₚ sc_runs schedule_start ∧ length kept = 1%nat.
Proof.
  destruct (pruneTerminalRuns_spec (sc_runs schedule_start) 1
    [Event (E := Kube) (DeleteRun (finished "old" Hour)) None]) as (deleted & kept & _ & Hp & Hl & _).
  - discriminate.
  - vm_compute. repeat constructor.
  - exists deleted, kept. split; [exact Hp|]. change (Z.of_nat (length kept) = 1) in Hl. lia.
Defined.

Lemma scheduled_run_created_when_due_witness : ∃ schedule h0 parsed policy due,
  may_run schedule parsed policy ∧ due_at schedule h0 parsed due ∧
  om_name (run_meta (run_at 4)) = scheduledRunName (om_name (sched_meta schedule)) due.
Proof.
  destruct (@scheduled_run_created_when_due ascii_tables append_controller every_minute every_minute_laws
    "default" "nightly" (schedule_trace schedule_start) (schedule_outcome schedule_start)
    (take 4 (schedule_trace schedule_start)) (run_at 4) None (drop 5 (schedule_trace schedule_start)))
    as (schedule & parsed & policy & due & h0 & e & Htr & Hs & Hm & Hd & Ha & _ & Hn & _).
  - apply schedule_trace_exec.
  - apply schedule_trace_split. vm_compute. reflexivity.
  - exists schedule, h0, parsed, policy, due. split; [exact Hm|]. split; [exact Hd|exact Hn].
Defined.

(** Every schedule that is read in the execution keeps one run that has succeeded. *)
Definition keeps_one (ev : kevent) : bool :=
  match ev with
  | Event (GetSchedule _ _) (Ok schedule) => bool_decide (SuccessfulRunsHistoryLimit (sched_spec schedule) = Some 1)
  | _ => true
  end.

Lemma schedule_prunes_oldest_finished_witness : ∃ before after kept,
  StronglySorted as_old_as (before ++ finished "old" Hour :: after ++ kept) ∧ length kept = 1%nat.
Proof.
  destruct (@schedule_prunes_oldest_finished ascii_tables append_controller every_minute every_minute_laws
    "default" "nightly" (schedule_trace schedule_start) (schedule_outcome schedule_start)
    (take 7 (schedule_trace schedule_start)) (finished "old" Hour) None (drop 8 (schedule_trace schedule_start)))
    as (schedule & t0 & items & t & others & before & after & kept & Hg & Ht & _ & _ & _ & Hs & Hk).
  - apply schedule_trace_exec.
  - apply schedule_trace_split. vm_compute. reflexivity.
  - exists before, after, kept. split; [exact Hs|].
    assert (forallb keeps_one (take 7 (schedule_trace schedule_start)) = true) as Hall by (vm_compute; reflexivity).
    assert (seen (E := Kube) (take 7 (schedule_trace schedule_start)) (GetSchedule "default" "nightly") (Ok schedule))
      as Hin by (rewrite Ht; apply elem_of_app; left; exact Hg).
    apply (forallb_elem _ _ _ Hall), bool_decide_eq_true in Hin.
    destruct Hk as [[_ Hk]|[Hp _]]; [|discriminate Hp]. rewrite Hin in Hk. cbn [default from_option id] in Hk. lia.
Defined.


Lemma schedule_reconcile_returns_witness : is_Some (schedule_outcome schedule_start).
Proof.
  apply (@schedule_reconcile_returns ascii_tables append_controller every_minute every_minute_laws
    "default" "nightly" (schedule_trace schedule_start)).
  apply schedule_trace_exec.
Defined.
