(* ===== verification/GrantJson.v ===== *)
(** * Stored grants (internal/receiverauthorization/grant.go, decodeGrant)

    The JSON a grant is stored as, the strict decoder it is read back with, and
    the round trip between them. *)
From S2P Require Import Prelude GoStrings Utf8 Sha256 GoErrors GoTime Json JsonRoundtrip ReceiverCommand Ssh ReceiverGrant.
From Stdlib Require Import NArith.
Local Open Scope Z_scope.

(** ** Writing *)

(** [src/internal/receiverauthorization/grant.go:53-67 grant] The members of the object of a
    grant, in the order of the fields of the struct under the names of their tags, as text. *)
Definition grant_members (g : grant) (expiresAt : string) : list (string * string) :=
  [("taskUID", json_string (g_TaskUID g));
   ("authorizedPublicKey", json_string (g_AuthorizedPublicKey g));
   ("expiresAt", expiresAt);
   ("targetDataset", json_string (g_TargetDataset g));
   ("receiveUnmounted", json_bool (g_ReceiveUnmounted g));
   ("receiveResumable", json_bool (g_ReceiveResumable g));
   ("allowRollback", json_bool (g_AllowRollback g));
   ("allowDestroy", json_bool (g_AllowDestroy g));
   ("allowMount", json_bool (g_AllowMount g));
   ("allowSyncSnapshotDestroy", json_bool (g_AllowSyncSnapshotDestroy g));
   ("allowTargetSnapshotDestroy", json_bool (g_AllowTargetSnapshotDestroy g));
   ("syncSnapshotIdentifier", json_string (g_SyncSnapshotIdentifier g));
   ("compression", json_string (g_Compression g))].

(** [src/internal/receiverauthorization/grant.go:53-67 grant] [json.Marshal] of a grant, by its
    field tags. *)
Definition json_grant (g : grant) : result string :=
  expiresAt ← json_time (g_ExpiresAt g) (g_ExpiresIn g);
  Ok ("{" +:+ Join ((λ '(name, value), json_field name value) <$> grant_members g expiresAt) "," +:+ "}").

(** [json.Marshal] of a slice of grants, [null] for the nil slice. *)
Definition json_grants (gs : list grant) : result string :=
  match gs with
  | [] => Ok "null"
  | _ => items ← mapM_result json_grant gs; Ok ("[" +:+ Join items "," +:+ "]")
  end.

(** ** Reading *)

(** The types of the fields of a grant. *)
Inductive field_kind := FieldString | FieldBool | FieldTime.

Inductive field_value := VString (s : string) | VBool (b : bool) | VTime (t : time) (zone : location).

(** [src/internal/receiverauthorization/grant.go:53-67 grant] The fields by their JSON names. *)
Definition grant_fields : list (string * field_kind) :=
  [("taskUID", FieldString); ("authorizedPublicKey", FieldString); ("expiresAt", FieldTime);
   ("targetDataset", FieldString); ("receiveUnmounted", FieldBool); ("receiveResumable", FieldBool);
   ("allowRollback", FieldBool); ("allowDestroy", FieldBool); ("allowMount", FieldBool);
   ("allowSyncSnapshotDestroy", FieldBool); ("allowTargetSnapshotDestroy", FieldBool);
   ("syncSnapshotIdentifier", FieldString); ("compression", FieldString)].

Definition invalid_json : error := errorf "invalid JSON" [].

(** The members by name, none twice. *)
Fixpoint collect_fields (ms : list (string * json)) (fields : gmap string json)
  : result (gmap string json) :=
  match ms with
  | [] => Ok fields
  | (raw, v) :: ms' =>
      let name := string_value raw in
      fail_if (bool_decide (is_Some (fields !! name)))
        (errorf "receiver grant field %q is duplicated" [FStr name]);;
      collect_fields ms' (<[name := v]> fields)
  end.

(** [src/internal/receiverauthorization/grant.go:255-299 decodeGrantFields] The tokens of one
    object with nothing after it. *)
Definition decodeGrantFields (data : string) : result (gmap string json) :=
  match parse_document data with
  | None => Err invalid_json
  | Some (JObject ms) => collect_fields ms ∅
  | Some _ => Err (errorf "receiver grant must be a JSON object" [])
  end.

(** The case folding under which a member is matched to a field: ASCII case, the
    Kelvin sign and the long s. *)
Definition fold_rune (r : N) : N :=
  if rune_between "A" "Z" r then (r + 32)%N
  else if (r =? 8490)%N then 107 else if (r =? 383)%N then 115 else r.

Definition fold_name (s : string) : list N := fold_rune <$> runes s.

(** The field of a member: by its exact name, else by its folded name. *)
Definition find_field (name : string) : option (string * field_kind) :=
  match List.find (λ f : string * field_kind, f.1 ≟ name) grant_fields with
  | Some f => Some f
  | None => List.find (λ f : string * field_kind, fold_name f.1 ≟ fold_name name) grant_fields
  end.

(** The value of a member for a field; null leaves the field as it is. *)
Definition decode_value (k : field_kind) (v : json) : result (option field_value) :=
  match k, v with
  | _, JNull => Ok None
  | FieldString, JString raw => Ok (Some (VString (string_value raw)))
  | FieldBool, JBool b => Ok (Some (VBool b))
  | FieldTime, JString raw =>
      match parse_RFC3339 raw with
      | Some (t, zone) => Ok (Some (VTime t zone))
      | None => Err (errorf "parsing time %q" [FStr raw])
      end
  | _, _ => Err (errorf "json: cannot unmarshal value into a field of type receiverauthorization.grant" [])
  end.

(** [decoder.Decode] into a struct with [DisallowUnknownFields]. *)
Fixpoint decode_members (ms : list (string * json)) (fields : gmap string field_value)
  : result (gmap string field_value) :=
  match ms with
  | [] => Ok fields
  | (raw, v) :: ms' =>
      match find_field (string_value raw) with
      | None => Err (errorf "json: unknown field %q" [FStr (string_value raw)])
      | Some (name, k) =>
          x ← decode_value k v;
          decode_members ms' (match x with Some x => <[name := x]> fields | None => fields end)
      end
  end.

Definition get_string (m : gmap string field_value) (name : string) : string :=
  match m !! name with Some (VString s) => s | _ => "" end.
Definition get_bool (m : gmap string field_value) (name : string) : bool :=
  match m !! name with Some (VBool b) => b | _ => false end.

(** The struct that was decoded into, its other fields zero. *)
Definition grant_struct (m : gmap string field_value) : grant :=
  let '(expiresAt, zone) := match m !! "expiresAt" with Some (VTime t z) => (t, z) | _ => (0, None) end in
  {| g_TaskUID := get_string m "taskUID";
     g_AuthorizedPublicKey := get_string m "authorizedPublicKey";
     g_ExpiresAt := expiresAt;
     g_ExpiresIn := zone;
     g_TargetDataset := get_string m "targetDataset";
     g_ReceiveUnmounted := get_bool m "receiveUnmounted";
     g_ReceiveResumable := get_bool m "receiveResumable";
     g_AllowRollback := get_bool m "allowRollback";
     g_AllowDestroy := get_bool m "allowDestroy";
     g_AllowMount := get_bool m "allowMount";
     g_AllowSyncSnapshotDestroy := get_bool m "allowSyncSnapshotDestroy";
     g_AllowTargetSnapshotDestroy := get_bool m "allowTargetSnapshotDestroy";
     g_SyncSnapshotIdentifier := get_string m "syncSnapshotIdentifier";
     g_Compression := get_string m "compression" |}.

(** [src/internal/receiverauthorization/grant.go:221-253 decodeGrant] *)
Definition decodeGrant (data : string) : result grant :=
  fields ← decodeGrantFields data;
  for_each (λ field,
    match fields !! field with
    | None => Err (errorf "required field %q is missing" [FStr field])
    | Some JNull => Err (errorf "required field %q must not be null" [FStr field])
    | Some _ => Ok tt
    end) grant_fields.*1;;
  match parse_document data with
  | Some (JObject ms) => grant_struct <$> decode_members ms ∅
  | _ => Err invalid_json
  end.

(** ** Round trip *)

(** The text reads as the value in front of anything. *)
Definition reads (text : string) (v : json) : Prop :=
  ∀ n d rest, parse (S n) PValue d (text +:+ rest) = Some (v, rest).

Lemma reads_string s : reads (json_string s) (JString (json_escape s)).
Proof.
  intros n d rest. unfold json_string. rewrite <- !str_app_assoc. cbn [parse].
  change (skip_space (dquote +:+ ?t)) with (String quote t). cbv beta iota.
  rewrite !(bool_decide_false (quote = _)) by done. rewrite bool_decide_true by done.
  by rewrite scan_escape.
Qed.

Lemma reads_bool b : reads (json_bool b) (JBool b).
Proof.
  intros n d rest. destruct b; cbn [parse json_bool].
  - change (skip_space ("true" +:+ rest)) with (String "t" ("rue" +:+ rest)). cbv beta iota.
    rewrite !(bool_decide_false ("t"%char = _)), bool_decide_true by done.
    change (String "t" ("rue" +:+ rest)) with ("true" +:+ rest). unfold scan_word.
    by rewrite HasPrefix_app, str_drop_app.
  - change (skip_space ("false" +:+ rest)) with (String "f" ("alse" +:+ rest)). cbv beta iota.
    rewrite !(bool_decide_false ("f"%char = _)), bool_decide_true by done.
    change (String "f" ("alse" +:+ rest)) with ("false" +:+ rest). unfold scan_word.
    by rewrite HasPrefix_app, str_drop_app.
Qed.

Lemma scan_plain_end raw rest :
  all_bytes plain_byte raw = true → scan_string (raw +:+ dquote +:+ rest) = Some (raw, rest).
Proof.
  intros Hp. rewrite scan_plain by done. change (scan_string (dquote +:+ rest)) with (Some ("", rest)).
  cbn [scan_app]. by rewrite str_app_nil_r.
Qed.

Lemma reads_plain raw : all_bytes plain_byte raw = true → reads (dquote +:+ raw +:+ dquote) (JString raw).
Proof.
  intros Hp n d rest. rewrite <- !str_app_assoc. cbn [parse].
  change (skip_space (dquote +:+ ?t)) with (String quote t). cbv beta iota.
  rewrite !(bool_decide_false (quote = _)) by done. rewrite bool_decide_true by done.
  by rewrite scan_plain_end.
Qed.

(** The text of a list of members, up to the closing brace. *)
Definition members_text (ms : list (string * string)) : string :=
  Join ((λ '(name, value), json_field name value) <$> ms) ",".

Lemma parse_members_eq n d s :
  parse (S n) PMembers d s =
    (s1 ← accept quote s; '(key, s2) ← scan_string s1;
     s3 ← accept ":" s2; '(v, s4) ← parse n PValue d s3;
     match accept "," s4 with
     | Some s5 => '(ms, r) ← parse n PMembers d s5; Some ((key, v) :: ms, r)
     | None => r ← accept "}" s4; Some ([(key, v)], r)
     end).
Proof. done. Qed.

Lemma reads_members ms vs n d rest :
  ms ≠ [] → Forall2 (λ m v, m.1 = v.1 ∧ all_bytes plain_byte m.1 = true ∧ reads m.2 v.2) ms vs →
  (length ms < n)%nat →
  parse n PMembers d (members_text ms +:+ "}" +:+ rest) = Some (vs, rest).
Proof.
  intros Hne Hms. revert n. induction Hms as [|[name text] [name' v] ms vs (Hn & Hp & Hr) Hms IH]; intros n Hlen; [done|].
  simpl in Hn, Hp, Hr. subst name'. destruct n as [|n]; [simpl in Hlen; lia|]. destruct n as [|n]; [simpl in Hlen; lia|].
  assert (∀ t, parse (S (S n)) PMembers d (json_field name text +:+ t) =
    match accept "," t with
    | Some s5 => '(ms, r) ← parse (S n) PMembers d s5; Some ((name, v) :: ms, r)
    | None => r ← accept "}" t; Some ([(name, v)], r)
    end) as Hstep.
  { intros t. unfold json_field. rewrite <- !str_app_assoc, parse_members_eq.
    change (accept quote (dquote +:+ ?u)) with (Some u). cbn [mbind option_bind].
    rewrite scan_plain_end by done. cbn [mbind option_bind].
    change (accept ":" (":" +:+ ?u)) with (Some u). cbn [mbind option_bind].
    by rewrite Hr. }
  unfold members_text. rewrite fmap_cons. destruct ms as [|m ms].
  - apply Forall2_nil_inv_l in Hms as ->. cbn [fmap list_fmap Join]. rewrite Hstep.
    change (accept "," ("}" +:+ rest)) with (@None string).
    change (accept "}" ("}" +:+ rest)) with (Some rest). done.
  - rewrite Join_cons by done. rewrite <- !str_app_assoc, Hstep.
    change (accept "," ("," +:+ ?u)) with (Some u).
    cbv beta iota. fold (members_text (m :: ms)). rewrite IH; [done|done|simpl in *; lia].
Qed.

(** An object parses to its members, in front of anything. *)
Definition members_read (ms : list (string * string)) (vs : list (string * json)) : Prop :=
  ms ≠ [] ∧ Forall2 (λ m v, m.1 = v.1 ∧ all_bytes plain_byte m.1 = true ∧ reads m.2 v.2) ms vs.

Lemma parse_braces ms vs n d rest :
  members_read ms vs → (length ms < n)%nat →
  parse (S n) PValue (S d) (("{" +:+ members_text ms +:+ "}") +:+ rest) = Some (JObject vs, rest).
Proof.
  intros [Hne Hms] Hn. rewrite <- !str_app_assoc. cbn [parse].
  change (skip_space ("{" +:+ ?u)) with (String "{" u). cbv beta iota. rewrite bool_decide_true by done.
  assert (accept "}" (members_text ms +:+ "}" +:+ rest) = None) as ->.
  { destruct ms as [|[name text] ms]; [done|]. unfold members_text. rewrite fmap_cons.
    destruct ((λ '(name, value), json_field name value) <$> ms); done. }
  by rewrite reads_members with (vs := vs).
Qed.

Lemma parse_object ms vs :
  members_read ms vs →
  parse_document (("{" +:+ members_text ms +:+ "}") +:+ nl) = Some (JObject vs).
Proof.
  intros Hms. set (s := (_ +:+ nl)). set (n := (2 * String.length s + 2 + length ms)%nat).
  rewrite (parse_document_fuel (S n)) by (unfold n; lia). unfold maxNestingDepth.
  change (10 * 10 * 10 * 10)%nat with (S (Nat.pred (10 * 10 * 10 * 10))). unfold s at 1.
  rewrite parse_braces with (vs := vs); [done|done|unfold n; lia].
Qed.

(** The strings of a grant are valid UTF-8, as those of an API object are, and
    its expiry is in UTC. *)
Definition storable (g : grant) : Prop :=
  ValidString (g_TaskUID g) = true ∧ ValidString (g_AuthorizedPublicKey g) = true ∧
  ValidString (g_TargetDataset g) = true ∧ ValidString (g_SyncSnapshotIdentifier g) = true ∧
  ValidString (g_Compression g) = true ∧ g_ExpiresIn g = None.

(** The members a stored grant parses to. *)
Definition stored_members (g : grant) (raw : string) : list (string * json) :=
  [("taskUID", JString (json_escape (g_TaskUID g)));
   ("authorizedPublicKey", JString (json_escape (g_AuthorizedPublicKey g)));
   ("expiresAt", JString raw);
   ("targetDataset", JString (json_escape (g_TargetDataset g)));
   ("receiveUnmounted", JBool (g_ReceiveUnmounted g));
   ("receiveResumable", JBool (g_ReceiveResumable g));
   ("allowRollback", JBool (g_AllowRollback g));
   ("allowDestroy", JBool (g_AllowDestroy g));
   ("allowMount", JBool (g_AllowMount g));
   ("allowSyncSnapshotDestroy", JBool (g_AllowSyncSnapshotDestroy g));
   ("allowTargetSnapshotDestroy", JBool (g_AllowTargetSnapshotDestroy g));
   ("syncSnapshotIdentifier", JString (json_escape (g_SyncSnapshotIdentifier g)));
   ("compression", JString (json_escape (g_Compression g)))].

Lemma stored_read g raw :
  all_bytes plain_byte raw = true →
  members_read (grant_members g (dquote +:+ raw +:+ dquote)) (stored_members g raw).
Proof.
  intros Hr. split; [done|].
  repeat first [apply Forall2_nil_2 | apply Forall2_cons; split_and!; [done|done| |] |
    apply reads_string | apply reads_bool | by apply reads_plain].
Qed.

(** The text of a storable grant. *)
Lemma json_grant_text g text :
  storable g → json_grant g = Ok text →
  ∃ raw, text = "{" +:+ members_text (grant_members g (dquote +:+ raw +:+ dquote)) +:+ "}" ∧
    parse_RFC3339 raw = Some (g_ExpiresAt g, None) ∧ all_bytes plain_byte raw = true.
Proof.
  intros (_ & _ & _ & _ & _ & Hz) Hj. unfold json_grant in Hj. apply bind_Ok in Hj as (expiresAt & He & Hj).
  rewrite Hz in He. apply json_time_Ok in He as (raw & -> & Hraw & Hplain).
  exists raw. split_and!; [|done..]. by injection Hj.
Qed.

Lemma collect_cons raw v ms fields :
  fields !! string_value raw = None →
  collect_fields ((raw, v) :: ms) fields = collect_fields ms (<[string_value raw := v]> fields).
Proof. intros Hn. cbn [collect_fields]. by rewrite Hn. Qed.

(** The fields of a stored grant are found, under their names. *)
Lemma stored_fields g raw :
  ∃ fields, collect_fields (stored_members g raw) ∅ = Ok fields ∧
    Forall (λ name, ∃ v, fields !! name = Some v ∧ v ≠ JNull) grant_fields.*1.
Proof.
  unfold stored_members.
  generalize (json_escape (g_TaskUID g)) (json_escape (g_AuthorizedPublicKey g))
    (json_escape (g_TargetDataset g)) (json_escape (g_SyncSnapshotIdentifier g)) (json_escape (g_Compression g)).
  intros uid key target identifier compression.
  eexists. split; [do 13 (rewrite collect_cons by (vm_compute; reflexivity)); reflexivity|].
  repeat first [apply Forall_nil_2 | apply Forall_cons; split; [eexists; split; [vm_compute; reflexivity|done]|]].
Qed.

Lemma decode_cons name k v x ms fields :
  find_field (string_value name) = Some (name, k) → decode_value k v = Ok (Some x) →
  decode_members ((name, v) :: ms) fields = decode_members ms (<[name := x]> fields).
Proof. intros Hf Hv. cbn [decode_members]. by rewrite Hf, Hv. Qed.

Lemma decode_stored g raw :
  storable g → parse_RFC3339 raw = Some (g_ExpiresAt g, None) →
  grant_struct <$> decode_members (stored_members g raw) ∅ = Ok g.
Proof.
  intros (H1 & H2 & H3 & H4 & H5 & Hz) Ht. unfold stored_members.
  assert (∀ s, ValidString s = true → decode_value FieldString (JString (json_escape s)) = Ok (Some (VString s)))
    as Hs by (intros s Hv; cbn [decode_value]; by rewrite unquote_escape).
  assert (decode_value FieldTime (JString raw) = Ok (Some (VTime (g_ExpiresAt g) None))) as Hd
    by (cbn [decode_value]; by rewrite Ht).
  do 13 (erewrite decode_cons; [|vm_compute; reflexivity|first [by apply Hs | exact Hd | reflexivity]]).
  destruct g. simpl in Hz. subst. vm_compute. reflexivity.
Qed.

Lemma decodeGrant_reads g text :
  storable g → json_grant g = Ok text → decodeGrant (text +:+ nl) = Ok g.
Proof.
  intros Hg Hj. destruct (json_grant_text g text Hg Hj) as (raw & -> & Hraw & Hplain).
  unfold decodeGrant, decodeGrantFields. rewrite (parse_object _ _ (stored_read g raw Hplain)).
  destruct (stored_fields g raw) as (fields & -> & Hall). rewrite ok_bind, decode_stored by done.
  apply seq_Ok. split; [|done]. apply for_each_Ok. eapply Forall_impl; [exact Hall|].
  intros name (v & -> & Hv). by destruct v.
Qed.

(** The text of a grant is not the beginning of another's. *)
Lemma json_grant_prefix g g' text text' r r' :
  storable g → storable g' → json_grant g = Ok text → json_grant g' = Ok text' →
  text +:+ r = text' +:+ r' → g = g' ∧ r = r'.
Proof.
  intros Hg Hg' Hj Hj' He.
  destruct (json_grant_text g text Hg Hj) as (raw & -> & Hraw & Hplain).
  destruct (json_grant_text g' text' Hg' Hj') as (raw' & -> & Hraw' & Hplain').
  pose proof (parse_braces _ _ 14 0 r (stored_read g raw Hplain)) as H1.
  pose proof (parse_braces _ _ 14 0 r' (stored_read g' raw' Hplain')) as H2.
  rewrite He, H2 in H1 by (simpl; lia). specialize (H1 ltac:(simpl; lia)).
  assert (stored_members g' raw' = stored_members g raw ∧ r' = r) as [Hm ->] by (clear - H1; split; congruence).
  split; [|done]. pose proof (decode_stored g raw Hg Hraw) as D1. pose proof (decode_stored g' raw' Hg' Hraw') as D2.
  rewrite Hm, D1 in D2. by injection D2.
Qed.

(** C26. A grant is read back as it was stored, so the digest that names a snapshot
    and the policy of a command are those of the grant that was compiled; and two
    grants are stored as the same text only if they are equal. *)
Theorem decodeGrant_roundtrip g text :
  storable g → json_grant g = Ok text →
  decodeGrant (text +:+ nl) = Ok g ∧ ∀ g', storable g' → json_grant g' = Ok text → g' = g.
Proof.
  intros Hg Hj. pose proof (decodeGrant_reads g text Hg Hj) as Hd. split; [done|].
  intros g' Hg' Hj'. pose proof (decodeGrant_reads g' text Hg' Hj') as Hd'. congruence.
Qed.

(** ** Strictness *)

Lemma collect_fields_Ok ms fields fields' :
  collect_fields ms fields = Ok fields' →
  NoDup (string_value <$> ms.*1) ∧ (∀ name, name ∈ string_value <$> ms.*1 → fields !! name = None) ∧
  ∀ name v, fields' !! name = Some v →
    fields !! name = Some v ∨ ∃ raw, (raw, v) ∈ ms ∧ string_value raw = name.
Proof.
  revert fields. induction ms as [|[raw v] ms IH]; intros fields Hc; cbn [collect_fields] in Hc.
  { injection Hc as <-. split_and!; [constructor|by intros ? ?%elem_of_nil|auto]. }
  apply guard_Ok in Hc as [Hn%bool_decide_eq_false Hc]. apply eq_None_not_Some in Hn.
  destruct (IH _ Hc) as (Hnd & Hnew & Hval). rewrite !fmap_cons. cbn [fst]. split_and!.
  - constructor; [|done]. intros Hin. specialize (Hnew _ Hin). by rewrite lookup_insert_eq in Hnew.
  - intros name [->|Hin]%elem_of_cons; [done|]. specialize (Hnew _ Hin).
    by apply lookup_insert_None in Hnew as [? _].
  - intros name w Hw. destruct (Hval _ _ Hw) as [Hi|(raw' & Hin & Hr)].
    + apply lookup_insert_Some in Hi as [[<- <-]|[_ Hi]]; [|by left].
      right. exists raw. split; [by left|done].
    + right. exists raw'. split; [by right|done].
Qed.

Lemma find_field_folds name f k :
  find_field name = Some (f, k) → (f, k) ∈ grant_fields ∧ fold_name f = fold_name name.
Proof.
  unfold find_field. destruct (List.find _ grant_fields) as [e|] eqn:E.
  - intros [= ->]. apply find_some in E as [Hin%list_elem_of_In Heq%bool_decide_eq_true].
    simpl in Heq. by subst.
  - intros Hf. apply find_some in Hf as [Hin%list_elem_of_In Heq%bool_decide_eq_true]. done.
Qed.

Lemma decode_members_known ms fields fields' :
  decode_members ms fields = Ok fields' → Forall (λ m, is_Some (find_field (string_value m.1))) ms.
Proof.
  revert fields. induction ms as [|[raw v] ms IH]; intros fields Hd; [constructor|].
  cbn [decode_members] in Hd. destruct (find_field (string_value raw)) as [[name k]|] eqn:E; [|done].
  apply bind_Ok in Hd as (x & _ & Hd). constructor; [simpl; by rewrite E|by eapply IH].
Qed.

(** C27. A stored grant is accepted only as one JSON object in which every field of
    a grant occurs once under its exact name with a value that is not null, no
    member occurs twice, and every other member differs from a field in case
    only; anything else is an error. *)
Theorem decodeGrant_strict data :
  match decodeGrant data with
  | Ok g => ∃ ms, parse_document data = Some (JObject ms) ∧ NoDup (string_value <$> ms.*1) ∧
      (∀ name, name ∈ grant_fields.*1 → ∃ raw v, (raw, v) ∈ ms ∧ string_value raw = name ∧ v ≠ JNull) ∧
      (∀ raw v, (raw, v) ∈ ms → ∃ f, f ∈ grant_fields.*1 ∧ fold_name f = fold_name (string_value raw))
  | Err _ => ∀ g, storable g → Ok data ≠ (λ text, text +:+ nl) <$> json_grant g
  end.
Proof.
  destruct (decodeGrant data) as [g|e] eqn:Hd.
  - unfold decodeGrant, decodeGrantFields in Hd. apply bind_Ok in Hd as (fields & Hf & Hd).
    apply seq_Ok in Hd as [Hreq Hd]. rewrite for_each_Ok, Forall_forall in Hreq.
    destruct (parse_document data) as [[| | | | |ms]|]; try done. exists ms. split; [done|].
    destruct (collect_fields_Ok _ _ _ Hf) as (Hnd & _ & Hval). split_and!; [done| |].
    + intros name Hin. specialize (Hreq _ Hin). cbv beta in Hreq.
      destruct (fields !! name) as [v|] eqn:Ev; [|done].
      destruct (Hval _ _ Ev) as [Hemp|(raw & Hm & Hr)]; [by rewrite lookup_empty in Hemp|].
      exists raw, v. split_and!; [done|done|]. by intros ->.
    + intros raw v Hin. destruct (decode_members ms ∅) as [fields'|] eqn:E; [|done].
      apply decode_members_known in E. rewrite Forall_forall in E.
      destruct (E _ Hin) as [[f k] Hk]. simpl in Hk. apply find_field_folds in Hk as [Hk Heq].
      exists f. split; [|done]. apply list_elem_of_fmap. by exists (f, k).
  - intros g Hg Hj. destruct (json_grant g) as [text|] eqn:E; [|done]. injection Hj as ->.
    rewrite (decodeGrant_reads g text) in Hd by done. done.
Qed.

(** A member that differs from a field in case is decoded into the field, after the
    exact one: here the policy that is read allows what the exact member denies. *)
Definition case_variant : string := "{" +:+ members_text
  [("taskUID", json_string "t1"); ("authorizedPublicKey", json_string "k");
   ("expiresAt", json_string "2030-01-01T00:00:00Z"); ("targetDataset", json_string "backup/x");
   ("receiveUnmounted", "true"); ("receiveResumable", "false"); ("allowRollback", "false");
   ("allowDestroy", "false"); ("allowMount", "false"); ("allowSyncSnapshotDestroy", "false");
   ("allowTargetSnapshotDestroy", "false"); ("syncSnapshotIdentifier", json_string "");
   ("compression", json_string "none"); ("ALLOWDESTROY", "true")] +:+ "}".

Example decodeGrant_case_variant : g_AllowDestroy <$> decodeGrant case_variant = Ok true.
Proof. vm_compute. reflexivity. Qed.

(** ** Concrete inputs *)

Definition stored_grant : grant := candidate_grant sample_candidate "ssh-ed25519 AAAA".

Lemma decodeGrant_roundtrip_witness :
  ∃ text, json_grant stored_grant = Ok text ∧ decodeGrant (text +:+ nl) = Ok stored_grant.
Proof.
  destruct (json_grant stored_grant) as [text|] eqn:E; [|vm_compute in E; discriminate].
  exists text. split; [reflexivity|]. apply decodeGrant_roundtrip; [|exact E].
  vm_compute. repeat split; reflexivity.
Defined.
