(* ===== verification/ReceiverSnapshot.v ===== *)
(** * Receiver authorization snapshots (internal/receiverauthorization/snapshot.go)

    The identity and the manifest of a snapshot, the reference a forced command
    carries back, and the leases a receiver has seen lapse. *)
From S2P Require Import Prelude GoStrings StringOrder Sha256 GoErrors GoTime Api Replication Names Syncoid Ssh ReceiverCommand Utf8 Json JsonRoundtrip ReceiverGrant GrantJson.
From Stdlib Require Import NArith.
Local Open Scope Z_scope.

(** ** Identities *)

(** [src/internal/receiverauthorization/snapshot.go:18-22 snapshotPrefix] *)
Definition snapshotPrefix : string := "snapshot-".
Definition manifestHeaderPrefix : string := "# receiver-authorization-snapshot ".
Definition receiverCommandPath : string := "/usr/local/bin/zfsrep-receiver".

(** [src/internal/receiverauthorization/snapshot.go:212-214 canonicalSnapshot] *)
Definition grant_key (g : grant) : string := grantID (g_TaskUID g).

(** [src/internal/receiverauthorization/snapshot.go:210-221 canonicalSnapshot] *)
Definition canonicalSnapshot (gs : list grant) : result (list grant * string) :=
  let canonical := merge_sort (by_key grant_key) gs in
  data ← wrap_err (json_grants canonical)
    (λ e, errorf "encode receiver authorization snapshot: %w" [FErr e]);
  Ok (canonical, snapshotPrefix +:+ hex_encode (SHA.Sum256 data)).

(** [src/internal/receiverauthorization/snapshot.go:264-274 validSnapshotID] *)
Definition validSnapshotID (id : string) : bool :=
  if negb (String.length id =? 9 + 64)%nat || negb (HasPrefix id snapshotPrefix) then false
  else all_runes (λ r, rune_between "0" "9" r || rune_between "a" "f" r) (str_drop 9 id).

(** ** The manifest *)

(** [src/internal/receiverauthorization/snapshot.go:246-250 openSSHExpiryTime] *)
Definition openSSHExpiryTime (deadline : time) : string :=
  format_compact (Truncate deadline Second - Second).

(** [src/internal/receiverauthorization/snapshot.go:233-233 renderManifest] *)
Definition forced_command (snapshotID id : string) : string :=
  receiverCommandPath +:+ " exec --snapshot-id " +:+ snapshotID +:+ " --grant-id " +:+ id.

(** [src/internal/receiverauthorization/snapshot.go:232-241 renderManifest] The line of one
    grant, without its end. *)
Definition manifest_line (snapshotID : string) (g : grant) : string :=
  "restrict,expiry-time=" +:+ dquote +:+ openSSHExpiryTime (g_ExpiresAt g) +:+ dquote +:+
  ",command=" +:+ dquote +:+
  escapeAuthorizedKeysOption (forced_command snapshotID (grantID (g_TaskUID g))) +:+ dquote +:+ " " +:+
  g_AuthorizedPublicKey g.

(** [src/internal/receiverauthorization/snapshot.go:223-244 renderManifest] *)
Definition renderManifest (gs : list grant) (snapshotID : string) : result string :=
  fail_if (negb (validSnapshotID snapshotID))
    (errorf "invalid receiver authorization snapshot ID %q" [FStr snapshotID]);;
  Ok (manifestHeaderPrefix +:+ snapshotID +:+ nl +:+
      foldr (λ g acc, manifest_line snapshotID g +:+ nl +:+ acc) "" gs).

(** [src/internal/receiverauthorization/snapshot.go:252-262 parseManifestSnapshotID] *)
Definition parseManifestSnapshotID (data : string) : result string :=
  let malformed := errorf "receiver authorization manifest has malformed snapshot header" [] in
  let '(line, _, found) := Cut data (ascii_of_nat 10) in
  if negb found || negb (HasPrefix line manifestHeaderPrefix) then Err malformed
  else
    let id := TrimPrefix line manifestHeaderPrefix in
    if negb (validSnapshotID id) ||
       negb (String.length line =? String.length manifestHeaderPrefix + String.length id)%nat
    then Err malformed
    else Ok id.

(** ** The reference of a forced command *)

(** [src/internal/receiverauthorization/authorization.go:34-37 Reference] *)
Record Reference := { ref_snapshotID : string; ref_grantID : string }.

(** [flag.FlagSet.Parse] for string flags: the values of the flags given so far,
    and the arguments that are left. *)
Fixpoint parse_flags (formal : list string) (args : list string) (values : gmap string string)
  : result (gmap string string * list string) :=
  match args with
  | [] => Ok (values, [])
  | s :: rest =>
      if (String.length s <? 2)%nat || negb (HasPrefix s "-") then Ok (values, args)
      else if s ≟ "--" then Ok (values, rest)
      else
        let name := if HasPrefix s "--" then str_drop 2 s else str_drop 1 s in
        if (name ≟ "") || HasPrefix name "-" || HasPrefix name "=" then
          Err (errorf "bad flag syntax: %s" [FStr s])
        else
          let '(name, value, hasValue) := Cut name "="%char in
          if negb (bool_decide (name ∈ formal)) then
            (if (name ≟ "help") || (name ≟ "h") then Err (errorf "flag: help requested" [])
             else Err (errorf "flag provided but not defined: -%s" [FStr name]))
          else if (hasValue : bool) then parse_flags formal rest (<[name := value]> values)
          else match rest with
            | [] => Err (errorf "flag needs an argument: -%s" [FStr name])
            | value :: rest' => parse_flags formal rest' (<[name := value]> values)
            end
  end.

(** [src/internal/receiverauthorization/authorization.go:43-69 ReferenceFromArgs] *)
Definition ReferenceFromArgs (args : list string) : result Reference :=
  '(values, rest) ← parse_flags ["snapshot-id"; "grant-id"] args ∅;
  let snapshotID := default "" (values !! "snapshot-id") in
  let grantID := default "" (values !! "grant-id") in
  fail_if (negb (length rest =? 0)%nat)
    (errorf "unexpected receiver authorization reference arguments" []);;
  fail_if (snapshotID ≟ "") (errorf "receiver authorization snapshot ID is required" []);;
  fail_if (negb (validSnapshotID snapshotID))
    (errorf "invalid receiver authorization snapshot ID %q" [FStr snapshotID]);;
  fail_if (grantID ≟ "") (errorf "receiver authorization grant ID is required" []);;
  fail_if (negb (validGrantID grantID))
    (errorf "invalid receiver authorization grant ID %q" [FStr grantID]);;
  Ok {| ref_snapshotID := snapshotID; ref_grantID := grantID |}.

(** ** Leases *)

(** [src/internal/receiverauthorization/snapshot.go:129-142 recordAndReturnPreviouslyObservedLapses]
    The lapses observed before, and those after, the view. *)
Definition recordAndReturnPreviouslyObservedLapses (lapsed : gset string) (now : time)
  (candidates : list Candidate) : gset string * gset string :=
  (lapsed,
   foldl (λ lapsed candidate,
     if (c_TaskUID candidate ≠? "") && negb (After (c_ExpiresAt candidate) now)
     then {[ c_TaskUID candidate ]} ∪ lapsed else lapsed) lapsed candidates).

(** [src/internal/receiverauthorization/snapshot.go:144-152 removeLapsedGrants] *)
Definition removeLapsedGrants (gs : list grant) (lapsed : gset string) : list grant :=
  filter (λ g, g_TaskUID g ∉ lapsed) gs.

(** [src/internal/receiverauthorization/snapshot.go:154-162 nextLeaseDeadline] *)
Definition nextLeaseDeadline (gs : list grant) : time :=
  foldl (λ next g,
    if IsZero next || Before (g_ExpiresAt g) next then g_ExpiresAt g else next) 0 gs.

Section replace.
Context `{SSHKeys} `{UnicodeTables}.

(** [src/internal/receiverauthorization/snapshot.go:113-117 Replace] The rejection of a candidate
    whose lease was seen to lapse. *)
Definition reject_lapsed (lapsed : gset string) (c : Candidate) (o : Outcome) : Outcome :=
  if bool_decide (c_TaskUID c ∈ lapsed) then set_rejection "authorization lease has lapsed" o else o.

(** [src/internal/receiverauthorization/snapshot.go:108-119 Replace] The compilation that is
    activated, and the lapses observed. *)
Definition replace_view (range : gmap string (list nat) → list (string * list nat))
  (lapsed : gset string) (now : time) (candidates : list Candidate) : compilation * gset string :=
  let compiled := compileCandidates range now candidates in
  let '(previouslyLapsed, lapsed) := recordAndReturnPreviouslyObservedLapses lapsed now candidates in
  if bool_decide (previouslyLapsed = ∅) then (compiled, lapsed)
  else
    ({| grants := removeLapsedGrants (grants compiled) previouslyLapsed;
        outcomes := zip_with (reject_lapsed previouslyLapsed) candidates (outcomes compiled) |},
     lapsed).

End replace.

(** ** Identities *)

Lemma hex_suffix_valid p sum :
  String.length sum = 32%nat →
  String.length (p +:+ hex_encode sum) = (String.length p + 64)%nat ∧
  HasPrefix (p +:+ hex_encode sum) p = true ∧
  str_drop (String.length p) (p +:+ hex_encode sum) = hex_encode sum ∧
  all_runes is_hex (hex_encode sum) = true.
Proof.
  intros Hl. split_and!.
  - rewrite length_app_str, length_hex_encode, Hl. lia.
  - by apply HasPrefix_app.
  - by apply str_drop_app.
  - apply all_runes_bytes; [apply is_hex_ascii|apply hex_encode_is_hex].
Qed.

Lemma validGrantID_grantID uid : validGrantID (grantID uid) = true.
Proof.
  destruct (hex_suffix_valid "grant-" (SHA.Sum256 uid) (SHA.Sum256_length _)) as (Hl & Hp & Hd & Ha).
  unfold validGrantID, grantID. rewrite Hl, Hp. cbn [String.length Nat.add Nat.eqb negb orb].
  cbn [String.length] in Hd. by rewrite Hd.
Qed.

Lemma validSnapshotID_sum data : validSnapshotID (snapshotPrefix +:+ hex_encode (SHA.Sum256 data)) = true.
Proof.
  destruct (hex_suffix_valid snapshotPrefix (SHA.Sum256 data) (SHA.Sum256_length _)) as (Hl & Hp & Hd & Ha).
  unfold validSnapshotID. rewrite Hl, Hp. cbn [String.length snapshotPrefix Nat.add Nat.eqb negb orb].
  change (String.length snapshotPrefix) with 9%nat in Hd. by rewrite Hd.
Qed.

(** An ASCII byte outside the alphabet of a string does not occur in it. *)
Lemma all_runes_no_byte f s c :
  (byte_val c <? 128)%N = true → f (byte_val c) = false → all_runes f s = true → has_byte c s = false.
Proof.
  intros Hc Hf Hs. apply not_true_iff_false. intros (a & b & ->)%has_byte_split.
  unfold all_runes in Hs. rewrite runes_app_ascii, forallb_app in Hs by done. simpl in Hs.
  by rewrite Hf, andb_false_r in Hs.
Qed.

Lemma valid_id_parts p (n : nat) id :
  (if negb (String.length id =? String.length p + n)%nat || negb (HasPrefix id p) then false
   else all_runes is_hex (str_drop (String.length p) id)) = true →
  ∃ h, id = p +:+ h ∧ all_runes is_hex h = true.
Proof.
  destruct (_ || _) eqn:E; [done|]. apply orb_false_iff in E as [_ Hp]. apply negb_false_iff in Hp.
  apply HasPrefix_spec in Hp as (h & ->). rewrite str_drop_app. by exists h.
Qed.

Lemma validSnapshotID_parts id :
  validSnapshotID id = true → ∃ h, id = snapshotPrefix +:+ h ∧ all_runes is_hex h = true.
Proof. apply (valid_id_parts snapshotPrefix 64). Qed.

Lemma validGrantID_parts id :
  validGrantID id = true → ∃ h, id = "grant-" +:+ h ∧ all_runes is_hex h = true.
Proof. apply (valid_id_parts "grant-" 64). Qed.

Lemma hex_no_byte h c :
  (byte_val c <? 128)%N = true → is_hex (byte_val c) = false → all_runes is_hex h = true →
  has_byte c h = false.
Proof. apply all_runes_no_byte. Qed.

(** ** The manifest *)

Definition newline : ascii := ascii_of_nat 10.

(** The header of a rendered manifest is read back. *)
Lemma manifest_identity_roundtrip gs id manifest :
  renderManifest gs id = Ok manifest → parseManifestSnapshotID manifest = Ok id.
Proof.
  unfold renderManifest. rewrite guard_Ok, negb_false_iff. intros [Hv [= <-]].
  destruct (validSnapshotID_parts id Hv) as (h & Hid & Hh).
  set (rest := foldr _ _ _).
  assert (Cut (manifestHeaderPrefix +:+ id +:+ nl +:+ rest) newline =
          (manifestHeaderPrefix +:+ id, rest, true)) as Hcut.
  { apply Cut_found. split; [by rewrite str_app_assoc|].
    rewrite has_byte_app, Hid, has_byte_app. by rewrite (hex_no_byte h). }
  unfold parseManifestSnapshotID. fold newline. rewrite Hcut.
  rewrite HasPrefix_app, TrimPrefix_app, Hv, length_app_str, Nat.eqb_refl. done.
Qed.

(** ** The reference *)

(** The words of the command that a manifest line forces, after the program. *)
Definition reference_args (snapshotID id : string) : list string :=
  ["--snapshot-id"; snapshotID; "--grant-id"; id].

Lemma replace_aux_absent s c new :
  has_byte c s = false → replace_aux s (str1 c) new 0 = s.
Proof.
  induction s as [|d s IH]; [done|]. cbn [has_byte]. intros [Hd Hs]%orb_false_iff.
  apply bool_decide_eq_false in Hd. cbn [replace_aux].
  assert (HasPrefix (String d s) (str1 c) = false) as ->; [|by rewrite IH].
  apply not_true_iff_false. intros (t & Ht)%HasPrefix_spec. by injection Ht as ->.
Qed.

Lemma escape_plain s :
  has_byte (ascii_of_nat 92) s = false → has_byte (ascii_of_nat 34) s = false →
  escapeAuthorizedKeysOption s = s.
Proof.
  intros Hb Hq.
  unfold escapeAuthorizedKeysOption, ReplaceAll, backslash, dquote. cbv zeta.
  rewrite (replace_aux_absent s (ascii_of_nat 92)) by done. by rewrite replace_aux_absent.
Qed.

Lemma parse_reference_args snapshotID id :
  parse_flags ["snapshot-id"; "grant-id"] (reference_args snapshotID id) ∅ =
  Ok (<["grant-id" := id]> (<["snapshot-id" := snapshotID]> ∅), []).
Proof. reflexivity. Qed.

Lemma valid_id_nonempty (valid : string → bool) id : valid "" = false → valid id = true → id ≠ "".
Proof. intros H0 Hv ->. congruence. Qed.

(** Neither identity contains a byte that is not hexadecimal or of a prefix. *)
Lemma ids_no_byte snapshotID id c :
  validSnapshotID snapshotID = true → validGrantID id = true →
  (byte_val c <? 128)%N = true → is_hex (byte_val c) = false →
  has_byte c snapshotPrefix = false → has_byte c "grant-" = false →
  has_byte c snapshotID = false ∧ has_byte c id = false.
Proof.
  intros Hs Hg Hc Hx Hp1 Hp2.
  destruct (validSnapshotID_parts _ Hs) as (h & -> & Hh), (validGrantID_parts _ Hg) as (k & -> & Hk).
  by rewrite !has_byte_app, Hp1, Hp2, (hex_no_byte h), (hex_no_byte k).
Qed.

Lemma forced_command_plain snapshotID id :
  validSnapshotID snapshotID = true → validGrantID id = true →
  escapeAuthorizedKeysOption (forced_command snapshotID id) = forced_command snapshotID id.
Proof.
  intros Hs Hg. pose proof (ids_no_byte snapshotID id) as Hno.
  destruct (Hno (ascii_of_nat 92)) as [Ha Hb]; [done..|].
  destruct (Hno (ascii_of_nat 34)) as [Hc Hd]; [done..|].
  apply escape_plain; unfold forced_command; rewrite !has_byte_app; [by rewrite Ha, Hb|by rewrite Hc, Hd].
Qed.

Lemma forced_command_words snapshotID id :
  validSnapshotID snapshotID = true → validGrantID id = true →
  Split (forced_command snapshotID id) " "%char =
    receiverCommandPath :: "exec" :: reference_args snapshotID id.
Proof.
  intros Hs Hg. pose proof (ids_no_byte snapshotID id) as Hno.
  change (forced_command snapshotID id) with
    (Join [receiverCommandPath; "exec"; "--snapshot-id"; snapshotID; "--grant-id"; id] (str1 " "%char)).
  apply Split_Join; [done|]. destruct (Hno " "%char) as [H1 H2]; [done..|]. by repeat constructor.
Qed.

Lemma reference_read snapshotID id :
  validSnapshotID snapshotID = true → validGrantID id = true →
  ReferenceFromArgs (reference_args snapshotID id) =
    Ok {| ref_snapshotID := snapshotID; ref_grantID := id |}.
Proof.
  intros Hs Hg. unfold ReferenceFromArgs. rewrite parse_reference_args. rewrite ok_bind. cbv zeta.
  rewrite lookup_insert_ne, lookup_insert_eq, lookup_insert_eq by done. simpl.
  rewrite Hs, Hg, (bool_decide_false (snapshotID = "")), (bool_decide_false (id = "")); [done|..].
  - by apply (valid_id_nonempty validGrantID).
  - by apply (valid_id_nonempty validSnapshotID).
Qed.

(** C29. The forced command of a manifest line is one program with plain words,
    which need no escaping and are read back as the reference of that snapshot
    and grant. *)
Theorem forced_command_roundtrip snapshotID id :
  validSnapshotID snapshotID = true → validGrantID id = true →
  escapeAuthorizedKeysOption (forced_command snapshotID id) = forced_command snapshotID id ∧
  Split (forced_command snapshotID id) " "%char =
    receiverCommandPath :: "exec" :: reference_args snapshotID id ∧
  ReferenceFromArgs (reference_args snapshotID id) =
    Ok {| ref_snapshotID := snapshotID; ref_grantID := id |}.
Proof.
  intros Hs Hg. split_and!; [by apply forced_command_plain|by apply forced_command_words|by apply reference_read].
Qed.

(** ** The lines of a manifest *)

Lemma expiry_bytes t : all_bytes time_byte (openSSHExpiryTime t) = true.
Proof. unfold openSSHExpiryTime, format_compact. rewrite !all_bytes_app, !pad_time. done. Qed.

Lemma forced_command_no_newline id g :
  validSnapshotID id = true → has_byte newline (forced_command id (grantID (g_TaskUID g))) = false.
Proof.
  intros Hv. pose proof (validGrantID_grantID (g_TaskUID g)) as Hg.
  destruct (validSnapshotID_parts _ Hv) as (h & Es & Hh), (validGrantID_parts _ Hg) as (k & Eg & Hk).
  unfold forced_command. rewrite Es, Eg, !has_byte_app, (hex_no_byte h), (hex_no_byte k) by done. done.
Qed.

Lemma manifest_line_one_line id g :
  validSnapshotID id = true → has_byte newline (g_AuthorizedPublicKey g) = false →
  has_byte newline (manifest_line id g) = false.
Proof.
  intros Hv Hk. unfold manifest_line.
  rewrite forced_command_plain by auto using validGrantID_grantID.
  assert (has_byte newline (openSSHExpiryTime (g_ExpiresAt g)) = false) as He.
  { eapply all_bytes_no_byte; [apply expiry_bytes|done]. }
  rewrite !has_byte_app, He, forced_command_no_newline, Hk by done. done.
Qed.

(** ** The identity of a snapshot *)

#[local] Opaque SHA.Sum256.

Lemma mapM_result_Ok {A B} (f : A → result B) l ys :
  mapM_result f l = Ok ys ↔ Forall2 (λ x y, f x = Ok y) l ys.
Proof.
  revert ys. induction l as [|x l IH]; intros ys; cbn [mapM_result].
  { split; [by intros [= <-]|by intros ->%Forall2_nil_inv_l]. }
  rewrite bind_Ok. split.
  - intros (y & Hy & Hys). apply bind_Ok in Hys as (ys' & Hys & [= <-]). constructor; [done|by apply IH].
  - intros Hf. apply Forall2_cons_inv_l in Hf as (y & ys' & Hy & Hys & ->). exists y. split; [done|].
    apply bind_Ok. exists ys'. split; [by apply IH|done].
Qed.

Lemma Join_grants_inj gs gs' ts ts' :
  Forall storable gs → Forall storable gs' →
  Forall2 (λ g t, json_grant g = Ok t) gs ts → Forall2 (λ g t, json_grant g = Ok t) gs' ts' →
  gs ≠ [] → gs' ≠ [] → Join ts "," +:+ "]" = Join ts' "," +:+ "]" → gs = gs'.
Proof.
  intros Hs. revert gs' ts ts'. induction Hs as [|g gs Hg Hgs IH]; intros gs' ts ts' Hs' Ht Ht' Hne Hne' He; [done|].
  destruct Hs' as [|g' gs' Hg' Hgs']; [done|].
  apply Forall2_cons_inv_l in Ht as (t & ts1 & Hj & Ht & ->).
  apply Forall2_cons_inv_l in Ht' as (t' & ts1' & Hj' & Ht' & ->).
  assert (∀ u us, ∃ r, Join (u :: us) "," +:+ "]" = u +:+ r ∧
    (us = [] → r = "]") ∧ (us ≠ [] → r = "," +:+ Join us "," +:+ "]")) as Hform.
  { intros u us. destruct us as [|v us]; [by exists "]"|].
    exists ("," +:+ Join (v :: us) "," +:+ "]"). rewrite Join_cons by done.
    split; [by rewrite <- !str_app_assoc|done]. }
  destruct (Hform t ts1) as (r & Er & Hr0 & Hr1), (Hform t' ts1') as (r' & Er' & Hr0' & Hr1').
  rewrite Er, Er' in He. destruct (json_grant_prefix g g' t t' r r' Hg Hg' Hj Hj' He) as [<- <-]. f_equal.
  destruct ts1 as [|u ts1], ts1' as [|u' ts1'].
  - apply Forall2_nil_inv_r in Ht as ->. by apply Forall2_nil_inv_r in Ht' as ->.
  - rewrite (Hr0 eq_refl) in Hr1'. by specialize (Hr1' ltac:(done)).
  - rewrite (Hr0' eq_refl) in Hr1. by specialize (Hr1 ltac:(done)).
  - specialize (Hr1 ltac:(done)). specialize (Hr1' ltac:(done)). rewrite Hr1 in Hr1'.
    apply str_app_inv_head in Hr1'. eapply IH; try done; intros ->.
    + by apply Forall2_nil_inv_l in Ht.
    + by apply Forall2_nil_inv_l in Ht'.
Qed.

(** The text of a set of grants determines it. *)
Lemma json_grants_inj gs gs' text :
  Forall storable gs → Forall storable gs' → json_grants gs = Ok text → json_grants gs' = Ok text → gs = gs'.
Proof.
  intros Hs Hs'. unfold json_grants.
  destruct (decide (gs = [])) as [->|Hne], (decide (gs' = [])) as [->|Hne']; [done|..].
  - destruct gs' as [|g' gs']; [done|]. intros [= <-] H2. apply bind_Ok in H2 as (ts & _ & [=]).
  - destruct gs as [|g gs]; [done|]. intros H1 [= <-]. apply bind_Ok in H1 as (ts & _ & [=]).
  - destruct gs as [|g gs]; [done|]. destruct gs' as [|g' gs']; [done|].
    intros H1 H2. apply bind_Ok in H1 as (ts & H1 & E1), H2 as (ts' & H2 & E2).
    apply mapM_result_Ok in H1, H2.
    assert ("[" +:+ Join ts "," +:+ "]" = "[" +:+ Join ts' "," +:+ "]") as He by congruence.
    apply str_app_inv_head in He. by eapply Join_grants_inj.
Qed.

Lemma canonicalSnapshot_Ok gs c id :
  canonicalSnapshot gs = Ok (c, id) ↔
  c = merge_sort (by_key grant_key) gs ∧
  ∃ text, json_grants c = Ok text ∧ id = snapshotPrefix +:+ hex_encode (SHA.Sum256 text).
Proof.
  unfold canonicalSnapshot. rewrite bind_Ok. setoid_rewrite wrap_err_Ok.
  assert (∀ (x : list grant) (y : string), (Ok (x, y) : result (list grant * string)) = Ok (c, id) ↔ c = x ∧ id = y)
    as Hpair by (intros x y; split; [by intros [= <- <-]|by intros [-> ->]]).
  setoid_rewrite Hpair. naive_solver.
Qed.

Lemma digest_inj a b :
  snapshotPrefix +:+ hex_encode (SHA.Sum256 a) = snapshotPrefix +:+ hex_encode (SHA.Sum256 b) ↔
  SHA.Sum256 a = SHA.Sum256 b.
Proof. split; [by intros ?%str_app_inv_head%hex_encode_inj|by intros ->]. Qed.

(** C25. The identity of a snapshot stands for its set of grants: any order of the same
    grants gives the same canonical list, the same text and the same identity;
    different sets have different texts; and two identities are the same exactly when
    those two texts have the same digest. *)
Theorem canonicalSnapshot_identity gs gs' c c' id id' :
  Forall storable gs → Forall storable gs' → NoDup (grant_key <$> gs) →
  canonicalSnapshot gs = Ok (c, id) → canonicalSnapshot gs' = Ok (c', id') →
  validSnapshotID id = true ∧
  ∃ text text', json_grants c = Ok text ∧ json_grants c' = Ok text' ∧
    (gs ≡ₚ gs' → c = c' ∧ id = id') ∧ (text = text' ↔ gs ≡ₚ gs') ∧
    (id = id' ↔ SHA.Sum256 text = SHA.Sum256 text').
Proof.
  intros Hs Hs' Hnd Hc Hc'.
  apply canonicalSnapshot_Ok in Hc as (-> & text & Hj & ->), Hc' as (-> & text' & Hj' & ->).
  split; [apply validSnapshotID_sum|]. exists text, text'.
  assert (gs ≡ₚ gs' → merge_sort (by_key grant_key) gs = merge_sort (by_key grant_key) gs') as Hsort
    by (by apply sort_by_key_perm).
  assert (gs ≡ₚ gs' → text = text') as Htext by (intros Hp; rewrite Hsort in Hj by done; congruence).
  split_and!; [done|done|..].
  - intros Hp. split; [by apply Hsort|]. by rewrite Htext.
  - split; [|exact Htext]. intros <-.
    assert (merge_sort (by_key grant_key) gs = merge_sort (by_key grant_key) gs') as He.
    { eapply json_grants_inj; [..|exact Hj|exact Hj']; by rewrite merge_sort_Permutation. }
    by rewrite <- (merge_sort_Permutation (by_key grant_key) gs), He, merge_sort_Permutation.
  - apply digest_inj.
Qed.

(** ** The expiry of a key *)

(** The instant an OpenSSH expiry names: [YYYYMMDDHHMMSSZ]. *)
Definition compact_time (s : string) : option time :=
  '(y, s) ← digits 4 0 s; '(mo, s) ← digits 2 0 s; '(d, s) ← digits 2 0 s;
  '(h, s) ← digits 2 0 s; '(mi, s) ← digits 2 0 s; '(sec, s) ← digits 2 0 s;
  if s ≟ "Z"
  then Some ((days_of_date {| year := y; month := mo; day := d |} * 86400 + h * 3600 + mi * 60 + sec) * Second)
  else None.

Lemma compact_time_format t :
  0 ≤ year (date_of t) ≤ 9999 → t mod Second = 0 → compact_time (format_compact t) = Some t.
Proof.
  intros Hy Hs. destruct (date_roundtrip (t / Day)) as (Hdays & Hm & Hd & Hd31).
  destruct (time_parts t) as (Ht & Hh & Hmi & Hsec). fold (date_of t) in *.
  unfold format_compact. cbv zeta. unfold compact_time.
  destruct (date_of t) as [y m d] eqn:Ed. cbn [year month day] in *.
  rewrite digits_pad4 by lia. cbn [mbind option_bind].
  do 5 (rewrite digits_pad2 by lia; cbn [mbind option_bind]).
  rewrite bool_decide_true by done. f_equal. rewrite Hdays. lia.
Qed.

Lemma openSSHExpiryTime_read deadline :
  0 ≤ year (date_of (Truncate deadline Second - Second)) ≤ 9999 →
  compact_time (openSSHExpiryTime deadline) = Some (Truncate deadline Second - Second).
Proof.
  intros Hy. unfold openSSHExpiryTime. apply compact_time_format; [done|].
  by rewrite Zminus_mod, Truncate_mod, Z_mod_same_full.
Qed.

(** C30. The expiry a manifest gives sshd names a whole second. sshd, which accepts
    the key until the end of that second, never accepts it at or after the
    deadline of the lease, and accepts it until at most a second before. *)
Theorem openSSHExpiryTime_bounds deadline :
  0 ≤ year (date_of (Truncate deadline Second - Second)) ≤ 9999 →
  ∃ expiry, compact_time (openSSHExpiryTime deadline) = Some expiry ∧
    ∀ now, (Truncate now Second ≤ expiry → now < deadline) ∧
           (now + Second ≤ deadline → Truncate now Second ≤ expiry).
Proof.
  intros Hy. exists (Truncate deadline Second - Second). split; [by apply openSSHExpiryTime_read|].
  intros now. pose proof (Truncate_bounds now Second ltac:(done)) as Hn.
  pose proof (Truncate_bounds deadline Second ltac:(done)) as Hd. split; [lia|]. intros Hle.
  pose proof (Truncate_mono (now + Second) deadline Second ltac:(done) Hle) as Hm.
  assert (Truncate (now + Second) Second = Truncate now Second + Second); [|lia].
  unfold Truncate. rewrite <- (Z.mul_1_l Second) at 2. rewrite Z_mod_plus_full. lia.
Qed.

(** ** What sshd reads *)

(** The value of an option after its opening quote: up to the next quote, which a
    backslash makes a part of the value. *)
Fixpoint read_quoted (s : string) : option (string * string) :=
  match s with
  | "" => None
  | String c s =>
      if bool_decide (str1 c = dquote) then Some ("", s)
      else match s with
        | String d s' =>
            if bool_decide (str1 c = backslash) && bool_decide (str1 d = dquote)
            then '(v, r) ← read_quoted s'; Some (String d v, r)
            else '(v, r) ← read_quoted s; Some (String c v, r)
        | "" => None
        end
  end.

(** The name of an option, up to its value, the next option or the key. *)
Fixpoint read_name (s : string) : string * string :=
  match s with
  | "" => ("", "")
  | String c s' =>
      if existsb (Ascii.eqb c) ["="; ","; " "]%char then ("", s)
      else let '(name, r) := read_name s' in (String c name, r)
  end.

(** The options in front of a key in authorized_keys, and the key: options are
    separated by commas, and end with a space outside of quotes. *)
Fixpoint read_options (fuel : nat) (s : string) : option (list (string * option string) * string) :=
  match fuel with
  | O => None
  | S n =>
      let '(name, s) := read_name s in
      '(value, s) ← (if HasPrefix s ("=" +:+ dquote)
                     then '(v, r) ← read_quoted (str_drop 2 s); Some (Some v, r)
                     else Some (None, s));
      if HasPrefix s "," then
        '(options, key) ← read_options n (str_drop 1 s); Some ((name, value) :: options, key)
      else if HasPrefix s " " then Some ([(name, value)], str_drop 1 s)
      else None
  end.

Definition read_line (line : string) : option (list (string * option string) * string) :=
  read_options (String.length line) line.

(** What a line must say of a grant: the key has no permission but to run one command,
    the receiver with the reference of that grant, and is refused once the lease has
    lapsed. *)
Definition restricts (snapshotID : string) (g : grant) (line : string) : Prop :=
  ∃ expiry command args,
    read_line line = Some ([("restrict", None); ("expiry-time", Some expiry); ("command", Some command)],
                           g_AuthorizedPublicKey g) ∧
    (0 ≤ year (date_of (Truncate (g_ExpiresAt g) Second - Second)) ≤ 9999 →
     ∃ t, compact_time expiry = Some t ∧ ∀ now, Truncate now Second ≤ t → now < g_ExpiresAt g) ∧
    Split command " "%char = "/usr/local/bin/zfsrep-receiver" :: "exec" :: args ∧
    ReferenceFromArgs args = Ok {| ref_snapshotID := snapshotID; ref_grantID := grantID (g_TaskUID g) |}.

Lemma read_quoted_plain v r :
  has_byte (ascii_of_nat 34) v = false → has_byte (ascii_of_nat 92) v = false →
  read_quoted (v +:+ dquote +:+ r) = Some (v, r).
Proof.
  induction v as [|c v IH]; [done|]. cbn [has_byte]. intros [Hq Hv]%orb_false_iff [Hb Hv']%orb_false_iff.
  apply bool_decide_eq_false in Hq, Hb. rewrite app_cons. cbn [read_quoted].
  rewrite bool_decide_false by (intros [=]; congruence).
  rewrite (bool_decide_false (str1 c = backslash)) by (intros [=]; congruence). cbn [andb].
  destruct (v +:+ dquote +:+ r) as [|d t] eqn:E; [by destruct v|]. by rewrite IH.
Qed.

(** An option without a value, and one with a value. *)
Lemma read_flag n name r :
  read_name (name +:+ "," +:+ r) = (name, "," +:+ r) →
  read_options (S n) (name +:+ "," +:+ r) =
    ('(options, key) ← read_options n r; Some ((name, None) :: options, key)).
Proof.
  intros Hn. cbn [read_options]. rewrite Hn.
  assert (HasPrefix ("," +:+ r) ("=" +:+ dquote) = false) as -> by (by destruct r).
  cbn [mbind option_bind]. by rewrite HasPrefix_app.
Qed.

Lemma read_valued n name u v r :
  read_name (name +:+ "=" +:+ dquote +:+ u) = (name, "=" +:+ dquote +:+ u) → read_quoted u = Some (v, r) →
  read_options (S n) (name +:+ "=" +:+ dquote +:+ u) =
    (if HasPrefix r "," then
       '(options, key) ← read_options n (str_drop 1 r); Some ((name, Some v) :: options, key)
     else if HasPrefix r " " then Some ([(name, Some v)], str_drop 1 r) else None).
Proof.
  intros Hn Hu. cbn [read_options]. rewrite Hn, (str_app_assoc "=" dquote u), HasPrefix_app.
  change (str_drop 2 (("=" +:+ dquote) +:+ u)) with u. by rewrite Hu.
Qed.

Section lines.
Context `{SSHLaws}.

Lemma canonical_key_one_line raw key :
  canonicalPublicKey raw = Ok key → has_byte newline key = false.
Proof.
  unfold canonicalPublicKey. rewrite guard_Ok. intros [_ Hk].
  apply bind_Ok in Hk as ([[[k comment] options] rest] & _ & Hk).
  rewrite !guard_Ok in Hk. destruct Hk as (_ & _ & [= <-]). apply marshal_one_line.
Qed.

Lemma manifest_split gs id manifest :
  Forall (λ g, ∃ raw, canonicalPublicKey raw = Ok (g_AuthorizedPublicKey g)) gs →
  renderManifest gs id = Ok manifest →
  validSnapshotID id = true ∧
  Split manifest newline = (manifestHeaderPrefix +:+ id) :: (manifest_line id <$> gs) ++ [""].
Proof.
  intros Hkeys. unfold renderManifest. rewrite guard_Ok, negb_false_iff. intros [Hv [= <-]]. split; [done|].
  assert (has_byte newline (manifestHeaderPrefix +:+ id) = false) as Hid.
  { destruct (validSnapshotID_parts id Hv) as (h & -> & Hh).
    by rewrite !has_byte_app, (hex_no_byte h). }
  rewrite str_app_assoc. change (nl +:+ ?t) with (String newline t).
  rewrite Split_app, Split_no_sep by done. simpl. f_equal.
  induction Hkeys as [|g gs [raw Hraw] _ IH]; [done|]. cbn [foldr fmap list_fmap].
  change (nl +:+ ?t) with (String newline t).
  rewrite Split_app, Split_no_sep, IH; [done|]. apply manifest_line_one_line; [done|].
  by eapply canonical_key_one_line.
Qed.

Lemma manifest_line_read id g :
  validSnapshotID id = true →
  read_line (manifest_line id g) =
    Some ([("restrict", None); ("expiry-time", Some (openSSHExpiryTime (g_ExpiresAt g)));
           ("command", Some (forced_command id (grantID (g_TaskUID g))))], g_AuthorizedPublicKey g).
Proof.
  intros Hv. pose proof (validGrantID_grantID (g_TaskUID g)) as Hg. unfold manifest_line.
  rewrite forced_command_plain by done.
  set (expiry := openSSHExpiryTime _). set (command := forced_command _ _).
  set (tail := dquote +:+ " " +:+ g_AuthorizedPublicKey g).
  assert (read_quoted (command +:+ tail) = Some (command, " " +:+ g_AuthorizedPublicKey g)) as Hc.
  { destruct (ids_no_byte id (grantID (g_TaskUID g)) (ascii_of_nat 34)) as [Ha Hb]; [done..|].
    destruct (ids_no_byte id (grantID (g_TaskUID g)) (ascii_of_nat 92)) as [Hc Hd]; [done..|].
    apply read_quoted_plain; unfold command, forced_command; rewrite !has_byte_app;
      [by rewrite Ha, Hb|by rewrite Hc, Hd]. }
  assert (∀ r, read_quoted (expiry +:+ dquote +:+ r) = Some (expiry, r)) as He.
  { intros r. apply read_quoted_plain; (eapply all_bytes_no_byte; [apply expiry_bytes|done]). }
  unfold read_line. set (line := _ +:+ _). assert (∃ n, String.length line = S (S (S n))) as [n ->] by (by eexists).
  change line with ("restrict" +:+ "," +:+ "expiry-time" +:+ "=" +:+ dquote +:+ expiry +:+ dquote +:+
    "," +:+ "command" +:+ "=" +:+ dquote +:+ command +:+ tail).
  rewrite read_flag by done.
  rewrite (read_valued _ "expiry-time" _ expiry (",command=" +:+ dquote +:+ command +:+ tail)) by first [done|apply He].
  change (str_drop 1 (",command=" +:+ dquote +:+ command +:+ tail)) with
    ("command" +:+ "=" +:+ dquote +:+ command +:+ tail).
  rewrite (read_valued _ "command" _ command (" " +:+ g_AuthorizedPublicKey g)) by first [done|apply Hc].
  rewrite (HasPrefix_app " ").
  assert (HasPrefix (",command=" +:+ dquote +:+ command +:+ tail) "," = true) as -> by apply (HasPrefix_app ",").
  assert (HasPrefix (" " +:+ g_AuthorizedPublicKey g) "," = false) as -> by done.
  reflexivity.
Qed.

Lemma manifest_line_restricts id g : validSnapshotID id = true → restricts id g (manifest_line id g).
Proof.
  intros Hv. eexists _, _, _. split_and!; [by apply manifest_line_read|..].
  - intros Hy. eexists. split; [by apply openSSHExpiryTime_read|]. intros now.
    pose proof (Truncate_bounds now Second ltac:(done)).
    pose proof (Truncate_bounds (g_ExpiresAt g) Second ltac:(done)). lia.
  - apply forced_command_words; [done|apply validGrantID_grantID].
  - apply reference_read; [done|apply validGrantID_grantID].
Qed.

(** C28. A manifest names the snapshot it was rendered for, and has its header and
    one line for each grant in order, and no others, whatever the keys of the tasks. As
    sshd reads it, the line of a grant has exactly three options in front of the
    canonical key: it restricts the key, expires before the lease lapses, and forces
    the receiver with the reference of that grant. *)
Theorem manifest_lines gs id manifest :
  Forall (λ g, ∃ raw, canonicalPublicKey raw = Ok (g_AuthorizedPublicKey g)) gs →
  renderManifest gs id = Ok manifest →
  parseManifestSnapshotID manifest = Ok id ∧
  ∃ lines, Split manifest newline = ("# receiver-authorization-snapshot " +:+ id) :: lines ++ [""] ∧
    Forall2 (restricts id) gs lines.
Proof.
  intros Hkeys Hm. split; [by eapply manifest_identity_roundtrip|].
  destruct (manifest_split _ _ _ Hkeys Hm) as [Hv Hsplit]. exists (manifest_line id <$> gs). split; [done|].
  apply Forall2_fmap_r, Forall_Forall2_diag, Forall_forall. intros g _. by apply manifest_line_restricts.
Qed.

End lines.

(** ** Leases *)

Lemma record_lapses lapsed now cs u :
  u ∈ (recordAndReturnPreviouslyObservedLapses lapsed now cs).2 ↔
  u ∈ lapsed ∨ ∃ c, c ∈ cs ∧ c_TaskUID c = u ∧ u ≠ "" ∧ c_ExpiresAt c ≤ now.
Proof.
  unfold recordAndReturnPreviouslyObservedLapses. cbn [snd]. revert lapsed.
  induction cs as [|c cs IH]; intros lapsed; cbn [foldl].
  { split; [by left|]. intros [?|(c & Hc & _)]; [done|by apply elem_of_nil in Hc]. }
  rewrite IH. clear IH.
  assert (u ∈ (if (c_TaskUID c ≠? "") && negb (After (c_ExpiresAt c) now) then {[c_TaskUID c]} ∪ lapsed else lapsed) ↔
    u ∈ lapsed ∨ (c_TaskUID c = u ∧ u ≠ "" ∧ c_ExpiresAt c ≤ now)) as ->.
  { destruct ((c_TaskUID c ≠? "") && negb (After (c_ExpiresAt c) now)) eqn:E.
    - rewrite andb_true_iff, !negb_true_iff, bool_decide_eq_false, After_false in E.
      rewrite elem_of_union, elem_of_singleton. naive_solver.
    - rewrite andb_false_iff, !negb_false_iff, bool_decide_eq_true, After_spec in E. naive_solver lia. }
  setoid_rewrite elem_of_cons. naive_solver.
Qed.

Section leases.
Context `{SSHKeys} `{UnicodeTables}.
Context (range : gmap string (list nat) → list (string * list nat)).
Context (range_perm : ∀ m : gmap string (list nat), range m ≡ₚ map_to_list m).

(** What a view activates: the compilation without the leases seen to lapse. *)
Lemma replace_view_grants lapsed now cs :
  grants (replace_view range lapsed now cs).1 = filter (λ g, g_TaskUID g ∉ lapsed) (grants (compile_spec now cs)).
Proof.
  unfold replace_view. cbn [recordAndReturnPreviouslyObservedLapses].
  rewrite compile_meaning by done. test (lapsed = ∅) as [E|He]; [subst|done].
  cbn [fst]. symmetry. induction (grants (compile_spec now cs)) as [|g gs IH]; [done|].
  rewrite filter_cons_True by set_solver. by rewrite IH.
Qed.

Lemma replace_view_outcome lapsed now cs i c :
  cs !! i = Some c →
  outcomes (replace_view range lapsed now cs).1 !! i =
    Some {| o_TaskUID := c_TaskUID c;
            o_Rejection := if decide (c_TaskUID c ∈ lapsed) then "authorization lease has lapsed"
                           else rejection_of now cs c |}.
Proof.
  intros Hi. unfold replace_view. cbn [recordAndReturnPreviouslyObservedLapses].
  rewrite compile_meaning by done. test (lapsed = ∅) as [E|He]; cbn [fst outcomes compile_spec].
  - subst. rewrite list_lookup_fmap, Hi, decide_False by set_solver. done.
  - rewrite lookup_zip_with, Hi. cbn [mbind option_bind]. rewrite list_lookup_fmap, Hi.
    cbn [fmap option_fmap option_map]. unfold reject_lapsed, set_rejection.
    destruct (decide (c_TaskUID c ∈ lapsed)); [by rewrite bool_decide_true|by rewrite bool_decide_false].
Qed.

Lemma replace_view_lapsed lapsed now cs :
  (replace_view range lapsed now cs).2 = (recordAndReturnPreviouslyObservedLapses lapsed now cs).2.
Proof. unfold replace_view. cbn [recordAndReturnPreviouslyObservedLapses]. by case_bool_decide. Qed.

Lemma spec_grant_source now cs g :
  g ∈ grants (compile_spec now cs) → ∃ c, c ∈ cs ∧ grant_of now cs c = Some g ∧ g_TaskUID g = c_TaskUID c ∧
    now < g_ExpiresAt g ∧ g_ExpiresAt g = c_ExpiresAt c.
Proof.
  unfold compile_spec. cbn [grants]. rewrite list_elem_of_omap. intros (c & Hc & Hg). exists c.
  split; [done|]. split; [done|]. apply grant_of_Some in Hg as (_ & _ & Hj).
  apply judge_Ok in Hj as (key & _ & -> & _ & Hv). destruct Hv as (_ & _ & _ & _ & _ & _ & _ & Hx).
  cbn in *. split_and!; [done|lia|done].
Qed.

(** After a view is published, every candidate that is reported as accepted is
    granted, and every grant that is published is a valid one whose candidate is
    reported as accepted. *)
Theorem replace_view_agrees lapsed now cs i c :
  cs !! i = Some c →
  ∃ o, outcomes (replace_view range lapsed now cs).1 !! i = Some o ∧ o_TaskUID o = c_TaskUID c ∧
    (o_Rejection o = "" ↔ ∃ g, g ∈ grants (replace_view range lapsed now cs).1 ∧ grant_of now cs c = Some g).
Proof.
  intros Hi. rewrite (replace_view_outcome _ _ _ _ _ Hi). eexists. split_and!; [done|done|].
  cbn [o_Rejection]. rewrite replace_view_grants. setoid_rewrite list_elem_of_filter.
  assert (∀ g, grant_of now cs c = Some g → g_TaskUID g = c_TaskUID c ∧ g ∈ grants (compile_spec now cs)) as Hsrc.
  { intros g Hg. split.
    - apply grant_of_Some in Hg as (_ & _ & Hj). by apply judge_Ok in Hj as (key & _ & -> & _).
    - apply list_elem_of_omap. exists c. split; [by eapply list_elem_of_lookup_2|done]. }
  case_decide as Hl.
  - split; [done|]. intros (g & (Hg & _) & Hs). destruct (Hsrc g Hs) as [Hu _]. congruence.
  - rewrite accepted_granted. split.
    + intros [g Hg]. destruct (Hsrc g Hg) as [Hu Hin]. exists g. by rewrite Hu.
    + intros (g & _ & Hg). by exists g.
Qed.

(** The views of a receiver, one after the other. *)
Fixpoint replace_views (lapsed : gset string) (views : list (time * list Candidate)) : list compilation :=
  match views with
  | [] => []
  | (now, cs) :: rest =>
      let '(comp, lapsed') := replace_view range lapsed now cs in comp :: replace_views lapsed' rest
  end.

Lemma lapsed_excluded u views lapsed comp g :
  u ∈ lapsed → comp ∈ replace_views lapsed views → g ∈ grants comp → g_TaskUID g ≠ u.
Proof.
  revert lapsed. induction views as [|[now cs] views IH]; intros lapsed Hu Hc Hg; [by apply elem_of_nil in Hc|].
  cbn [replace_views] in Hc. rewrite (surjective_pairing (replace_view range lapsed now cs)) in Hc.
  apply elem_of_cons in Hc as [->|Hc].
  - rewrite replace_view_grants in Hg. apply list_elem_of_filter in Hg as [Hn _]. intros E. by rewrite E in Hn.
  - eapply IH; [|exact Hc|done]. rewrite replace_view_lapsed. apply record_lapses. by left.
Qed.

(** A lease that has run out is not granted in the view that shows it, even when a
    second candidate of the same UID is still valid. *)
Lemma expired_not_granted lapsed now cs c g :
  c ∈ cs → c_TaskUID c ≠ "" → c_ExpiresAt c ≤ now →
  g ∈ grants (replace_view range lapsed now cs).1 → g_TaskUID g ≠ c_TaskUID c.
Proof.
  intros Hc Hne Hx Hg He. rewrite replace_view_grants in Hg. apply list_elem_of_filter in Hg as [_ Hg].
  apply spec_grant_source in Hg as (c' & Hc' & Hg & Hu & Hlt & Hex).
  apply list_elem_of_lookup in Hc as [i Hi], Hc' as [j Hj].
  assert (c ≠ c') as Hcc by (intros ->; lia).
  apply grant_of_Some in Hg as (_ & Hns & _).
  assert (uid_of c' = uid_of c) as Huid
    by (unfold uid_of; assert (c_TaskUID c' = c_TaskUID c) as E by congruence; by rewrite E).
  assert (is_Some (uid_of c')) as Hs by (rewrite Huid; unfold uid_of; by rewrite decide_False).
  pose proof (not_shared_unique uid_of cs j i c' c Hj Hi Hs Huid Hns) as ->. congruence.
Qed.

(** C24. A lease that was once seen to lapse is never granted again: neither in the
    view that shows it nor in any later one, whatever expiry a task of that UID
    then carries. *)
Theorem lapsed_never_granted_again lapsed now cs later c comp g :
  c ∈ cs → c_TaskUID c ≠ "" → c_ExpiresAt c ≤ now →
  comp ∈ replace_views lapsed ((now, cs) :: later) → g ∈ grants comp → g_TaskUID g ≠ c_TaskUID c.
Proof.
  intros Hc Hne Hx Hin Hg. cbn [replace_views] in Hin.
  rewrite (surjective_pairing (replace_view range lapsed now cs)) in Hin.
  apply elem_of_cons in Hin as [->|Hin]; [by eapply expired_not_granted|].
  eapply lapsed_excluded; [|exact Hin|done]. rewrite replace_view_lapsed. apply record_lapses. right.
  by exists c.
Qed.

End leases.

(** The earliest expiry of a set of grants, the zero time for none. *)
Lemma nextLeaseDeadline_min gs :
  Forall (λ g, 0 < g_ExpiresAt g) gs →
  (gs = [] ∧ nextLeaseDeadline gs = 0) ∨
  ∃ g, g ∈ gs ∧ nextLeaseDeadline gs = g_ExpiresAt g ∧ ∀ g', g' ∈ gs → g_ExpiresAt g ≤ g_ExpiresAt g'.
Proof.
  induction gs as [|g gs IH] using rev_ind; intros Hp; [by left|]. right.
  apply Forall_app in Hp as [Hp Hg]. apply Forall_singleton in Hg. unfold nextLeaseDeadline.
  rewrite foldl_app. fold (nextLeaseDeadline gs). cbn [foldl].
  destruct (IH Hp) as [[-> ->]|(m & Hm & -> & Hmin)].
  - exists g. cbn. split_and!; [by left|done|]. intros g' ->%list_elem_of_singleton. lia.
  - rewrite Forall_forall in Hp. specialize (Hp _ Hm). unfold IsZero, Before.
    rewrite (proj2 (Z.eqb_neq (g_ExpiresAt m) 0)) by lia. cbn [orb].
    destruct (Z.ltb_spec (g_ExpiresAt g) (g_ExpiresAt m)) as [Hlt|Hge].
    + exists g. split_and!; [apply elem_of_app; right; by left|done|].
      intros g' [Hg'| ->%list_elem_of_singleton]%elem_of_app; [|lia]. specialize (Hmin _ Hg'). lia.
    + exists m. split_and!; [apply elem_of_app; by left|done|].
      intros g' [Hg'| ->%list_elem_of_singleton]%elem_of_app; [by apply Hmin|lia].
Qed.

(** ** Concrete inputs *)

#[local] Transparent SHA.Sum256.

Definition second_grant : grant := candidate_grant second_candidate "ssh-ed25519 BBBB".

(** The identity of the snapshot of a list of grants. *)
Definition identity (gs : list grant) : string :=
  match canonicalSnapshot gs with Ok (_, id) => id | Err _ => "" end.

Definition sample_id : string := Eval vm_compute in identity [stored_grant; second_grant].

Lemma forced_command_roundtrip_witness :
  ReferenceFromArgs (reference_args sample_id (grantID "t1")) =
    Ok {| ref_snapshotID := sample_id; ref_grantID := grantID "t1" |}.
Proof.
  destruct (forced_command_roundtrip sample_id (grantID "t1")) as (_ & _ & Hr).
  - vm_compute. reflexivity.
  - apply validGrantID_grantID.
  - exact Hr.
Defined.

Lemma manifest_lines_witness : ∃ manifest line line',
  renderManifest [stored_grant; second_grant] sample_id = Ok manifest ∧
  Split manifest newline = ["# receiver-authorization-snapshot " +:+ sample_id; line; line'; ""] ∧
  restricts sample_id stored_grant line ∧ restricts sample_id second_grant line'.
Proof.
  destruct (renderManifest [stored_grant; second_grant] sample_id) as [manifest|] eqn:E;
    [|vm_compute in E; discriminate].
  destruct (@manifest_lines two_keys two_keys_laws [stored_grant; second_grant] sample_id manifest)
    as (_ & lines & Hl & Hf).
  - constructor; [|constructor; [|constructor]].
    + exists "ssh-ed25519 AAAA". vm_compute. reflexivity.
    + exists "ssh-ed25519 BBBB". vm_compute. reflexivity.
  - exact E.
  - apply Forall2_cons_inv_l in Hf as (line & ls & H1 & Hf & ->).
    apply Forall2_cons_inv_l in Hf as (line' & ls' & H2 & Hf & ->).
    apply Forall2_nil_inv_l in Hf as ->.
    exists manifest, line, line'. split; [reflexivity|]. split; [exact Hl|]. split; [exact H1|exact H2].
Defined.

Lemma storable_samples : Forall storable [stored_grant; second_grant].
Proof. repeat constructor; vm_compute; reflexivity. Qed.

Lemma canonicalSnapshot_identity_witness :
  identity [stored_grant; second_grant] = identity [second_grant; stored_grant].
Proof.
  unfold identity.
  destruct (canonicalSnapshot [stored_grant; second_grant]) as [[c id]|] eqn:E; [|vm_compute in E; discriminate].
  destruct (canonicalSnapshot [second_grant; stored_grant]) as [[c' id']|] eqn:E'; [|vm_compute in E'; discriminate].
  destruct (canonicalSnapshot_identity [stored_grant; second_grant] [second_grant; stored_grant] c c' id id')
    as (_ & text & text' & _ & _ & Hp & _).
  - exact storable_samples.
  - pose proof (Forall_inv storable_samples) as H1. pose proof (Forall_inv (Forall_inv_tail storable_samples)) as H2.
    exact (Forall_cons_2 _ _ _ H2 (Forall_cons_2 _ _ _ H1 (Forall_nil_2 _))).
  - apply (bool_decide_unpack _). vm_compute. exact I.
  - exact E.
  - exact E'.
  - apply Hp. apply perm_swap.
Defined.

Lemma openSSHExpiryTime_bounds_witness : ∃ expiry,
  compact_time (openSSHExpiryTime (30 * Minute + 7)) = Some expiry ∧ Truncate (30 * Minute + 8) Second ≤ expiry → False.
Proof.
  destruct (openSSHExpiryTime_bounds (30 * Minute + 7)) as (expiry & He & Hb).
  - vm_compute. split; discriminate.
  - exists expiry. intros [_ Hle]. destruct (Hb (30 * Minute + 8)) as [Hlt _].
    specialize (Hlt Hle). vm_compute in Hlt. discriminate.
Defined.

(** A task whose lease lapsed and whose task object was given a later expiry. *)
Definition late_candidate (expiresAt : time) : Candidate :=
  {| c_TaskUID := "t2"; c_AuthorizedPublicKey := "ssh-ed25519 BBBB"; c_ExpiresAt := expiresAt;
     c_TargetDataset := "backup/x"; c_ReceiverDatasetPrefixes := []; c_ReceiveUnmounted := true;
     c_ReceiveResumable := false; c_AllowRollback := false; c_AllowDestroy := false;
     c_AllowMount := false; c_AllowSyncSnapshotDestroy := false;
     c_AllowTargetSnapshotDestroy := false; c_SyncSnapshotIdentifier := ""; c_Compression := "" |}.

Example late_renewal :
  let _ := two_keys in let _ := Names.ascii_tables in
  (λ comp, o_Rejection <$> outcomes comp) <$> replace_views map_to_list ∅
    [(10, [late_candidate 30]); (40, [late_candidate 30]); (50, [late_candidate 90])] =
  [[""]; ["authorization lease is expired"]; ["authorization lease has lapsed"]].
Proof. vm_compute. reflexivity. Qed.

Lemma lapsed_never_granted_again_witness :
  let view := default (compile_spec (H := two_keys) (H0 := Names.ascii_tables) 0 [])
    (@replace_views two_keys Names.ascii_tables map_to_list ∅
      [(40, [late_candidate 30]); (50, [late_candidate 90; sample_candidate])] !! 1%nat) in
  length (grants view) = 1%nat ∧ ∀ g, g ∈ grants view → g_TaskUID g ≠ "t2".
Proof.
  intros view. split; [vm_compute; reflexivity|]. intros g Hg.
  apply (@lapsed_never_granted_again two_keys Names.ascii_tables map_to_list (λ m, reflexivity _) ∅ 40
    [late_candidate 30] [(50, [late_candidate 90; sample_candidate])] (late_candidate 30) view).
  - left.
  - discriminate.
  - vm_compute. discriminate.
  - apply (list_elem_of_lookup_2 _ 1). vm_compute. reflexivity.
  - exact Hg.
Defined.
