(* ===== verification/ReceiverController.v ===== *)
(** * The receiver's authorization controller
      (cmd/zfsrep-receiver/authorization_controller.go, main.go)

    The configuration of a receiver, and the reconciliation that publishes the receive
    tasks of its node and reports the outcomes. *)
From S2P Require Import Prelude GoStrings GoErrors GoTime Json Api Replication Names Syncoid Ssh ReceiverCommand ReceiverGrant Effects Kube.
Local Open Scope Z_scope.

(** ** Configuration *)

(** [src/cmd/zfsrep-receiver/main.go:31-40 receiverConfig] *)
Record receiverConfig := {
  cfg_NodeName : string;
  cfg_PodName : string;
  cfg_PodUID : string;
  cfg_PodIP : string;
  cfg_WatchNamespace : string;
  cfg_AuthorizedKeysFile : string;
  cfg_SSHPort : Z;
  cfg_AllowedPrefixes : list string }.

(** [strconv.ParseInt(s, 10, 32)]. *)
Definition ParseInt32 (s : string) : option Z :=
  let '(negative, ds) := match s with
    | String c s' => if bool_decide (c = "-"%char) then (true, s')
                     else if bool_decide (c = "+"%char) then (false, s') else (false, s)
    | EmptyString => (false, "") end in
  if (ds ≟ "") || negb (all_bytes (in_range 48 57) ds) then None
  else
    let z := if negative then - decimal 0 ds else decimal 0 ds in
    if (z <? - 2 ^ 31) || (2 ^ 31 - 1 <? z) then None else Some z.

Section environment.
(** [os.Getenv]. *)
Context (Getenv : string → string).

(** [src/cmd/zfsrep-receiver/main.go:369-374 getenv] *)
Definition getenv (key def : string) : string :=
  let value := Getenv key in if value ≠? "" then value else def.

(** [src/cmd/zfsrep-receiver/main.go:376-386 int32Env] *)
Definition int32Env (key : string) (def : Z) : Z :=
  let value := TrimSpace (Getenv key) in
  if value ≟ "" then def
  else match ParseInt32 value with
       | None => def
       | Some parsed => if parsed <=? 0 then def else parsed
       end.

(** [src/cmd/zfsrep-receiver/main.go:388-397 listCSVEnv] *)
Definition listCSVEnv (key : string) : list string :=
  filter (λ item, item ≠ "") (TrimSpace <$> Split (Getenv key) ","%char).

(** [src/cmd/zfsrep-receiver/main.go:70-81 configFromEnv] *)
Definition configFromEnv : receiverConfig :=
  {| cfg_NodeName := Getenv "NODE_NAME";
     cfg_PodName := Getenv "POD_NAME";
     cfg_PodUID := Getenv "POD_UID";
     cfg_PodIP := Getenv "POD_IP";
     cfg_WatchNamespace := Getenv "WATCH_NAMESPACE";
     cfg_AuthorizedKeysFile := getenv "SSH_AUTHORIZED_KEYS_FILE" "/run/zfs-receiver/authorized_keys";
     cfg_SSHPort := int32Env "SSH_LISTEN_PORT" 2222;
     cfg_AllowedPrefixes := listCSVEnv "ZFS_RECEIVER_ALLOWED_DATASET_PREFIXES" |}.

End environment.

(** A number above those of the ports is taken as it is, and one above 32 bits is not. *)
Example port_out_of_range :
  (λ value : string, int32Env (λ _, value) "SSH_LISTEN_PORT" 2222) <$>
    ["70000"; "2147483648"; "-1"; " 22 "; "22x"; ""] = [70000; 2222; 2222; 22; 2222; 2222].
Proof. vm_compute. reflexivity. Qed.

(** [src/cmd/zfsrep-receiver/main.go:242-262 renderSSHDConfig] *)
Definition renderSSHDConfig (cfg : receiverConfig) : string :=
  foldr (λ line acc, line +:+ nl +:+ acc) ""
    ["Port " +:+ FormatInt (cfg_SSHPort cfg);
     "ListenAddress 0.0.0.0";
     "PermitRootLogin prohibit-password";
     "AllowUsers zfs-recv";
     "PubkeyAuthentication yes";
     "PasswordAuthentication no";
     "KbdInteractiveAuthentication no";
     "UsePAM no";
     "PidFile /run/zfs-receiver/sshd.pid";
     "AuthorizedKeysFile " +:+ cfg_AuthorizedKeysFile cfg;
     "PermitTTY no";
     "X11Forwarding no";
     "AllowAgentForwarding no";
     "AllowTcpForwarding no";
     "PermitTunnel no";
     "PermitUserEnvironment no";
     "LogLevel VERBOSE";
     "Subsystem sftp internal-sftp"].

(** ** The calls of the reconciler *)

(** [src/internal/receiverauthorization/snapshot.go:26-31 Activation] *)
Record Activation := {
  Changed : bool;
  Warning : goerr;
  NextDeadline : time;
  act_outcomes : list Outcome }.

(** An error of the publisher: the answer of [ActiveAuthorityUsable], for an error
    that has that method. *)
Record publication_error := { pub_error : error; pub_usable : option bool }.

(** The client of the API server; [Replace] of the publisher; the wait for the
    startup gate, which may end with the error of the context; the swap of
    [initialPending] from true to false; and the sends on the two channels. *)
Inductive receiver_op :=
  | OnKube (o : kube_op)
  | Replace (candidates : list Candidate)
  | AwaitStartup
  | SwapInitialPending
  | SendInitialResult (e : goerr)
  | SendFatal (e : error).

Definition receiver_ans (o : receiver_op) : Type :=
  match o with
  | OnKube o => kube_ans o
  | Replace _ => Activation + publication_error
  | AwaitStartup => goerr
  | SwapInitialPending => bool
  | SendInitialResult _ | SendFatal _ => unit
  end.

Definition Receiver : sig := {| op := receiver_op; ans := receiver_ans |}.
Abbreviation receiver := (prog Receiver).
Abbreviation revent := (event Receiver).

Definition rcall (o : receiver_op) : receiver (receiver_ans o) := call (E := Receiver) o.

(** [src/cmd/zfsrep-receiver/authorization_controller.go:28-41 receiverAuthorizationReconciler]
    Whether its channels and readers are set, its configuration and host key. *)
Record receiverAuthorizationReconciler := {
  initialized : bool;
  hasFatal : bool;
  rec_cfg : receiverConfig;
  hostKey : string }.

(** ** Tasks *)

(** [src/cmd/zfsrep-receiver/main.go:274-286 listReceiveTaskCandidates] The tasks a receiver
    publishes: those of its node that are not finished. *)
Definition local_task (cfg : receiverConfig) (task : ZFSReceiveTask) : bool :=
  (ts_NodeName (task_spec task) ≟ cfg_NodeName cfg) &&
  negb (ReceiveTaskPhase_Terminal (tst_Phase (task_status task))).

(** [src/cmd/zfsrep-receiver/main.go:264-288 listReceiveTaskCandidates] *)
Definition listReceiveTaskCandidates (cfg : receiverConfig)
  : receiver (result (list Candidate * list ZFSReceiveTask)) :=
  tasks ← rcall (OnKube (ListTasks (cfg_WatchNamespace cfg)));
  match tasks with
  | Err e => Ret (Err e)
  | Ok items =>
      let candidateTasks := List.filter (local_task cfg) items in
      Ret (Ok (receiveTaskCandidate (cfg_AllowedPrefixes cfg) <$> candidateTasks, candidateTasks))
  end.

(** [src/cmd/zfsrep-receiver/main.go:329-341 latestNonTerminalTask] *)
Definition latestNonTerminalTask (task : ZFSReceiveTask) : receiver (result (ZFSReceiveTask * bool)) :=
  latest ← rcall (OnKube (GetTask Fresh (om_namespace (task_meta task)) (om_name (task_meta task))));
  match latest with
  | Err e => Ret (Err e)
  | Ok latest =>
      if om_uid (task_meta latest) ≠? om_uid (task_meta task) then Ret (Ok (latest, false))
      else if ReceiveTaskPhase_Terminal (tst_Phase (task_status latest)) then Ret (Ok (latest, false))
      else Ret (Ok (latest, true))
  end.

(** [src/cmd/zfsrep-receiver/main.go:306-310 patchTaskReady] The status of a ready task. *)
Definition ready_status (cfg : receiverConfig) (key : string) (st : ZFSReceiveTaskStatus) : ZFSReceiveTaskStatus :=
  {| tst_Phase := ReceiveTaskPhaseReady;
     Endpoint := {| Host := cfg_PodIP cfg; Port := cfg_SSHPort cfg |};
     HostKey := key;
     ReceiverPod := {| rp_Name := cfg_PodName cfg; rp_UID := cfg_PodUID cfg |};
     tst_Error := "" |}.

(** [src/cmd/zfsrep-receiver/main.go:296-302 patchTaskReady] The task already says so. *)
Definition already_ready (cfg : receiverConfig) (key : string) (st : ZFSReceiveTaskStatus) : bool :=
  (tst_Phase st ≟ ReceiveTaskPhaseReady) && (Host (Endpoint st) ≟ cfg_PodIP cfg) &&
  (Port (Endpoint st) =? cfg_SSHPort cfg) && (HostKey st ≟ key) &&
  (rp_Name (ReceiverPod st) ≟ cfg_PodName cfg) && (rp_UID (ReceiverPod st) ≟ cfg_PodUID cfg) &&
  (tst_Error st ≟ "").

(** [src/cmd/zfsrep-receiver/main.go:290-312 patchTaskReady] *)
Definition patchTaskReady (task : ZFSReceiveTask) (cfg : receiverConfig) (key : string) : receiver goerr :=
  latest ← latestNonTerminalTask task;
  match latest with
  | Err e => Ret (Some e)
  | Ok (_, false) => Ret None
  | Ok (task, true) =>
      if already_ready cfg key (task_status task) then Ret None
      else rcall (OnKube (PatchTaskStatus true task (ready_status cfg key (task_status task))))
  end.

(** [src/cmd/zfsrep-receiver/main.go:323-325 patchTaskFailed] The status of a failed task. *)
Definition failed_status (msg : string) (st : ZFSReceiveTaskStatus) : ZFSReceiveTaskStatus :=
  {| tst_Phase := ReceiveTaskPhaseFailed; Endpoint := Endpoint st; HostKey := HostKey st;
     ReceiverPod := ReceiverPod st; tst_Error := msg |}.

(** [src/cmd/zfsrep-receiver/main.go:314-327 patchTaskFailed] *)
Definition patchTaskFailed (task : ZFSReceiveTask) (msg : string) : receiver goerr :=
  latest ← latestNonTerminalTask task;
  match latest with
  | Err e => Ret (Some e)
  | Ok (_, false) => Ret None
  | Ok (task, true) =>
      if (tst_Phase (task_status task) ≟ ReceiveTaskPhaseFailed) && (tst_Error (task_status task) ≟ msg)
      then Ret None
      else rcall (OnKube (PatchTaskStatus true task (failed_status msg (task_status task))))
  end.

(** ** Reporting *)

(** [src/cmd/zfsrep-receiver/authorization_controller.go:118-124 reportInitial] *)
Definition reportInitial (e : goerr) : receiver bool :=
  swapped ← rcall SwapInitialPending;
  if (swapped : bool) then _ ← rcall (SendInitialResult e); Ret true else Ret false.

(** [src/cmd/zfsrep-receiver/authorization_controller.go:126-131 reconcileError] *)
Definition reconcileError (e : error) : receiver goerr :=
  reported ← reportInitial (Some e);
  Ret (if (reported : bool) then None else Some e).

(** [src/cmd/zfsrep-receiver/authorization_controller.go:157-165 reportFatal] *)
Definition reportFatal (r : receiverAuthorizationReconciler) (e : error) : receiver unit :=
  if hasFatal r then rcall (SendFatal e) else Ret tt.

(** [src/cmd/zfsrep-receiver/authorization_controller.go:133-145 handlePublicationFailure] *)
Definition handlePublicationFailure (r : receiverAuthorizationReconciler) (e : publication_error) : receiver goerr :=
  if default false (pub_usable e) then
    Ret (Some (errorf "receiver authorization degraded; retaining last complete snapshot: %w"
      [FErr (pub_error e)]))
  else
    let fatalErr := errorf "active receiver authorization is unusable after reconciliation failure: %w"
      [FErr (pub_error e)] in
    reported ← reportInitial (Some fatalErr);
    if (reported : bool) then Ret None else _ ← reportFatal r fatalErr; Ret None.

(** [src/cmd/zfsrep-receiver/authorization_controller.go:147-155 deadlineResult] *)
Definition deadlineResult (now next : time) : Result :=
  if IsZero next then no_requeue
  else if negb (After next now) then {| Requeue := true; RequeueAfter := 0 |}
  else requeue_after (Sub next now).

(** ** Reconciliation *)

(** [fmt.Errorf] with a wrapping of an error that is not nil. *)
Definition wrap_goerr (e : goerr) (f : error → error) : goerr :=
  match e with Some e => Some (f e) | None => None end.

(** [src/cmd/zfsrep-receiver/authorization_controller.go:97-108 Reconcile] The report of one
    outcome on its task. *)
Definition report_outcome (r : receiverAuthorizationReconciler) (o : Outcome) (task : ZFSReceiveTask)
  : receiver goerr :=
  let where_ := [FStr (om_namespace (task_meta task)); FStr (om_name (task_meta task)); FStr (om_uid (task_meta task))] in
  if o_Rejection o ≠? "" then
    e ← patchTaskFailed task (o_Rejection o);
    Ret (wrap_goerr e (λ e, errorf "report rejection for receive task %s/%s UID %s: %w" (where_ ++ [FErr e])))
  else
    e ← patchTaskReady task (rec_cfg r) (hostKey r);
    Ret (wrap_goerr e (λ e, errorf "report Ready for receive task %s/%s UID %s: %w" (where_ ++ [FErr e]))).

(** The reports of all outcomes, with the errors met; [None] when there are more
    outcomes than tasks, where the index is out of range. *)
Fixpoint report_outcomes (r : receiverAuthorizationReconciler) (os : list Outcome) (tasks : list ZFSReceiveTask)
  : receiver (option (list goerr)) :=
  match os, tasks with
  | [], _ => Ret (Some [])
  | _ :: _, [] => Ret None
  | o :: os, task :: tasks =>
      e ← report_outcome r o task;
      errs ← report_outcomes r os tasks;
      Ret (option_map (cons e) errs)
  end.

(** [src/cmd/zfsrep-receiver/authorization_controller.go:93-112 Reconcile] After a publication. *)
Definition reconcile_published (r : receiverAuthorizationReconciler) (activation : Activation)
  (candidateTasks : list ZFSReceiveTask) : receiver (Result * goerr) :=
  now ← rcall (OnKube Now);
  let result := deadlineResult now (NextDeadline activation) in
  _ ← reportInitial None;
  errs ← report_outcomes r (act_outcomes activation) candidateTasks;
  match errs with
  | None => Ret (no_requeue, Some (errorf "panic: runtime error: index out of range [recovered]" []))
  | Some errs =>
      let warning := wrap_goerr (Warning activation) (λ w,
        errorf "clean up retired receiver authorization generations: %w" [FErr w]) in
      Ret (result, errors_Join (errs ++ [warning]))
  end.

(** [src/cmd/zfsrep-receiver/authorization_controller.go:74-113 Reconcile] *)
Definition ReceiverReconcile (r : receiverAuthorizationReconciler) : receiver (Result * goerr) :=
  if negb (initialized r) then
    Ret (no_requeue, Some (errorf "receiver authorization reconciler is not initialized" []))
  else
  stopped ← rcall AwaitStartup;
  match stopped with
  | Some e => Ret (no_requeue, Some e)
  | None =>
      listed ← listReceiveTaskCandidates (rec_cfg r);
      match listed with
      | Err e =>
          e ← reconcileError (errorf "list complete node-local receive task view: %w" [FErr e]);
          Ret (no_requeue, e)
      | Ok (candidates, candidateTasks) =>
          activation ← rcall (Replace candidates);
          match activation with
          | inr e =>
              e ← handlePublicationFailure r e;
              match e with
              | None => Ret (no_requeue, None)
              | Some e => e ← reconcileError e; Ret (no_requeue, e)
              end
          | inl activation => reconcile_published r activation candidateTasks
          end
      end
  end.
