(* ===== verification/ReceiverSafety.v ===== *)
(** * Safety of the authorization controller

    What every report of a receiver is preceded by, for arbitrary answers of the
    API server and of the publisher, and what follows when the publisher is the
    receiver authorization module. *)
From S2P Require Import Prelude GoStrings GoErrors GoTime Json Api Replication Names Syncoid Ssh ReceiverCommand ReceiverGrant GrantJson ReceiverSnapshot Effects Kube ReceiverController.
Local Open Scope Z_scope.

Section safety.
Context (r : receiverAuthorizationReconciler).

Let cfg := rec_cfg r.

(** The candidates of a listing. *)
Definition view (items : list ZFSReceiveTask) : list Candidate :=
  receiveTaskCandidate (cfg_AllowedPrefixes cfg) <$> List.filter (local_task cfg) items.

(** A task of the node was published with that outcome. *)
Definition published (h : list revent) (o : Outcome) (task : ZFSReceiveTask) : Prop :=
  ∃ items act i,
    seen h (OnKube (ListTasks (cfg_WatchNamespace cfg))) (Ok items) ∧ seen h (Replace (view items)) (inl act) ∧
    List.filter (local_task cfg) items !! i = Some task ∧ act_outcomes act !! i = Some o.

(** What each call is preceded by. *)
Definition call_ok (h : list revent) (o : receiver_op) : Prop :=
  match o with
  | OnKube (ListTasks ns) => ns = cfg_WatchNamespace cfg
  | OnKube (GetTask Fresh _ _) | OnKube Now | AwaitStartup | SwapInitialPending => True
  | OnKube (PatchTaskStatus lock base st) =>
      lock = true ∧ ∃ h0 task o,
        h = h0 ++ [Event (E := Receiver) (OnKube (GetTask Fresh (om_namespace (task_meta task))
                     (om_name (task_meta task)))) (Ok base)] ∧
        published h0 o task ∧ om_uid (task_meta base) = om_uid (task_meta task) ∧
        ReceiveTaskPhase_Terminal (tst_Phase (task_status base)) = false ∧
        st = (if decide (o_Rejection o = "") then ready_status cfg (hostKey r) (task_status base)
              else failed_status (o_Rejection o) (task_status base))
  | OnKube _ => False
  | Replace cs => ∃ h0 items,
      h = h0 ++ [Event (E := Receiver) (OnKube (ListTasks (cfg_WatchNamespace cfg))) (Ok items)] ∧ cs = view items
  | SendInitialResult None => ∃ cs act, seen h (Replace cs) (inl act)
  | SendInitialResult (Some e) => ∀ cs act, ¬ seen h (Replace cs) (inl act)
  | SendFatal e => hasFatal r = true ∧ (∀ cs act, ¬ seen h (Replace cs) (inl act)) ∧
      ∃ cs err, seen h (Replace cs) (inr err) ∧ pub_usable err ≠ Some true
  end.

Lemma published_app h k o task : published h o task → published (h ++ k) o task.
Proof.
  intros (items & act & i & Hl & Hr & Ht & Ho). exists items, act, i.
  split_and!; [by apply seen_app|by apply seen_app|done..].
Qed.

Definition no_result {A} : list revent → A → Prop := λ _ _, True.

(** Reading the latest state of a task. *)
Lemma latest_safe h task (Q : list revent → result (ZFSReceiveTask * bool) → Prop) :
  (∀ x, let h' := h ++ [Event (E := Receiver) (OnKube (GetTask Fresh (om_namespace (task_meta task))
            (om_name (task_meta task)))) x] in
        match x with
        | Err e => Q h' (Err e)
        | Ok latest => ∀ b, (b = true → om_uid (task_meta latest) = om_uid (task_meta task) ∧
                       ReceiveTaskPhase_Terminal (tst_Phase (task_status latest)) = false) →
                       Q h' (Ok (latest, b))
        end) →
  safe call_ok Q h (latestNonTerminalTask task).
Proof.
  intros HQ. unfold latestNonTerminalTask. apply safe_call; [done|]. intros x. specialize (HQ x).
  destruct x as [latest|e]; [|exact HQ]. cbv zeta in HQ.
  test (om_uid (task_meta latest) = om_uid (task_meta task)) as [E|E]; cbn [negb]; [|by apply HQ].
  destruct (ReceiveTaskPhase_Terminal _) eqn:Et; by apply HQ.
Qed.

Lemma report_outcome_safe h o task :
  published h o task → safe call_ok no_result h (report_outcome r o task).
Proof.
  intros Hp. unfold report_outcome. cbv zeta.
  test (o_Rejection o = "") as [E|E]; cbn [negb]; apply safe_bind.
  - apply safe_bind. apply latest_safe. intros x. cbv zeta. destruct x as [latest|e]; [|done].
    intros [|] Hb; [|done]. destruct (already_ready _ _ _); [done|]. apply safe_call; [|done].
    split; [done|]. destruct (Hb eq_refl) as [Hu Ht]. exists h, task, o. split_and!; try done.
    by rewrite decide_True.
  - apply safe_bind. apply latest_safe. intros x. cbv zeta. destruct x as [latest|e]; [|done].
    intros [|] Hb; [|done]. case_match; [done|]. apply safe_call; [|done].
    split; [done|]. destruct (Hb eq_refl) as [Hu Ht]. exists h, task, o. split_and!; try done.
    by rewrite decide_False.
Qed.

Lemma report_outcomes_safe h os tasks (Q : list revent → option (list goerr) → Prop) :
  (∀ i o task, os !! i = Some o → tasks !! i = Some task → published h o task) →
  (∀ k x, (x = None ↔ (length tasks < length os)%nat) → Q (h ++ k) x) →
  safe call_ok Q h (report_outcomes r os tasks).
Proof.
  revert h tasks Q. induction os as [|o os IH]; intros h tasks Q Hp HQ; cbn [report_outcomes].
  { rewrite <- (app_nil_r h). apply HQ. simpl. split; [done|lia]. }
  destruct tasks as [|task tasks]; [rewrite <- (app_nil_r h); apply HQ; simpl; split; [lia|done]|].
  apply safe_bind. eapply safe_mono; [|apply report_outcome_safe; by apply (Hp 0%nat)].
  intros tr e _. apply safe_bind. apply IH.
  - intros i o' task' Ho Ht. apply published_app. by apply (Hp (S i)).
  - intros k x Hx. rewrite <- app_assoc. apply HQ. destruct x; simpl in *; naive_solver lia.
Qed.

(** No publication has succeeded yet. *)
Definition unpublished (h : list revent) : Prop := ∀ cs act, ¬ seen h (Replace cs) (inl act).

(** What a reconciliation returns: after a publication, the time of the next
    deadline by the clock read directly after it, unless an outcome has no task;
    without a publication nothing. *)
Definition returns_ok (h : list revent) (res : Result * goerr) : Prop :=
  (unpublished h ∧ res.1 = no_requeue) ∨ ∃ h0 items act now k,
    h = h0 ++ [Event (E := Receiver) (Replace (view items)) (inl act);
               Event (E := Receiver) (OnKube Now) now] ++ k ∧
    ((length (view items) < length (act_outcomes act))%nat ∨ res.1 = deadlineResult now (NextDeadline act)).

(** A successful publication. *)
Definition is_publication (ev : revent) : bool :=
  match ev with Event (Replace _) (inl _) => true | _ => false end.

Lemma unpublished_snoc h ev : unpublished h → is_publication ev = false → unpublished (h ++ [ev]).
Proof.
  intros Hu Hev cs act [Hin|Hin]%elem_of_app; [by apply (Hu cs act)|].
  apply list_elem_of_singleton in Hin. by subst.
Qed.

Lemma reportInitial_safe h e (Q : list revent → bool → Prop) :
  match e with None => ∃ cs act, seen h (Replace cs) (inl act) | Some _ => unpublished h end →
  (∀ k b, (unpublished h → unpublished (h ++ k)) → Q (h ++ k) b) →
  safe call_ok Q h (reportInitial e).
Proof.
  intros He HQ. unfold reportInitial. apply safe_call; [done|]. intros swapped.
  destruct swapped; [|apply HQ; intros Hu; by apply unpublished_snoc].
  apply safe_call.
  - cbn [call_ok]. destruct e as [e|]; [by apply unpublished_snoc|].
    destruct He as (cs & act & Hs). exists cs, act. by apply seen_app.
  - intros []. rewrite <- app_assoc. apply HQ. intros Hu. rewrite app_assoc.
    by do 2 (apply unpublished_snoc; [|done]).
Qed.

Lemma reconcileError_safe h e (Q : list revent → Result * goerr → Prop) :
  unpublished h → (∀ h' e', unpublished h' → Q h' (no_requeue, e')) →
  safe call_ok Q h (e ← reconcileError e; Ret (no_requeue, e)).
Proof.
  intros Hu HQ. apply safe_bind. unfold reconcileError. apply safe_bind.
  apply reportInitial_safe; [done|]. intros k b Hk. destruct b; by apply HQ, Hk.
Qed.

Lemma returns_no_requeue h e : unpublished h → returns_ok h (no_requeue, e).
Proof. by left. Qed.

Lemma unpublished_nil : unpublished [].
Proof. by intros cs act ?%elem_of_nil. Qed.

(** A reconciliation, call by call. *)
Lemma receiver_reconcile_safe : safe call_ok returns_ok [] (ReceiverReconcile r).
Proof.
  unfold ReceiverReconcile. destruct (initialized r); cbn [negb];
    [|apply returns_no_requeue, unpublished_nil].
  apply safe_call; [done|].
  intros [e|]; [apply returns_no_requeue, (unpublished_snoc []); [apply unpublished_nil|done]|].
  apply safe_bind. unfold listReceiveTaskCandidates. apply safe_call; [done|]. cbn [app].
  assert (∀ x y, unpublished [Event (E := Receiver) AwaitStartup x;
    Event (E := Receiver) (OnKube (ListTasks (cfg_WatchNamespace cfg))) y]) as Hu.
  { intros x y. apply (unpublished_snoc [_]); [|done]. by apply (unpublished_snoc []); [apply unpublished_nil|]. }
  intros [items|e]; cbn [safe].
  2: { apply reconcileError_safe; [by apply Hu|]. intros. by apply returns_no_requeue. }
  fold cfg. fold (view items). set (h := [_; _]).
  apply safe_call.
  { exists [Event (E := Receiver) AwaitStartup None], items. done. }
  intros [act|err].
  - unfold reconcile_published. apply safe_call; [done|]. intros now. cbv zeta.
    set (h2 := (h ++ _) ++ _).
    assert (seen h2 (Replace (view items)) (inl act)) as Hpub by (apply seen_app, seen_last).
    apply safe_bind. apply reportInitial_safe; [by exists (view items), act|]. intros k b _.
    apply safe_bind. apply report_outcomes_safe.
    + intros i o task Ho Ht. apply published_app. exists items, act, i. split_and!; [|done..].
      do 2 apply seen_app. right. by left.
    + intros k' x Hx. unfold h2. rewrite <- !app_assoc.
      destruct x as [errs|]; right; exists h, items, act, now, (k ++ k'); (split; [done|]);
        [by right|left]. unfold view. rewrite length_fmap. by apply Hx.
  - set (h1 := h ++ _).
    assert (unpublished h1) as Hu1 by (by apply unpublished_snoc; [apply Hu|]).
    apply safe_bind. unfold handlePublicationFailure.
    destruct (default false (pub_usable err)) eqn:Eu.
    { cbn [safe]. apply reconcileError_safe; [done|]. intros. by apply returns_no_requeue. }
    cbv zeta. apply safe_bind. apply reportInitial_safe; [done|]. intros k b Hk.
    destruct b; [by apply returns_no_requeue, Hk|].
    apply safe_bind. unfold reportFatal. destruct (hasFatal r) eqn:Ef; [|by apply returns_no_requeue, Hk].
    unfold rcall, call. cbn [safe].
    split; [|intros; apply returns_no_requeue; by apply unpublished_snoc; [apply Hk|]].
    split; [done|]. split; [by apply Hk|]. exists (view items), err. split; [apply seen_app, seen_last|].
    by destruct (pub_usable err) as [[]|].
Qed.

(** The meaning of that on executions. *)
Lemma receiver_call tr res t1 o x t2 :
  exec (ReceiverReconcile r) tr res → tr = t1 ++ Event (E := Receiver) o x :: t2 → call_ok t1 o.
Proof.
  intros Hx Htr. destruct (safe_sound call_ok returns_ok [] _ tr res receiver_reconcile_safe Hx) as [_ Hg].
  exact (Hg t1 _ t2 Htr).
Qed.

(** ** Publishing *)

(** A reconciliation publishes exactly the candidates of the unfinished tasks of
    its node in the listing it has just read, and writes nothing to the API server
    but the status of tasks, under the optimistic lock. *)
Theorem receiver_publishes_complete_view tr res t1 o x t2 :
  exec (ReceiverReconcile r) tr res → tr = t1 ++ Event (E := Receiver) o x :: t2 →
  match o with
  | Replace cs => ∃ t0 items,
      t1 = t0 ++ [Event (E := Receiver) (OnKube (ListTasks (cfg_WatchNamespace (rec_cfg r)))) (Ok items)] ∧
      (∀ c, c ∈ cs ↔ ∃ task, task ∈ items ∧ ts_NodeName (task_spec task) = cfg_NodeName (rec_cfg r) ∧
         ReceiveTaskPhase_Terminal (tst_Phase (task_status task)) = false ∧
         c = receiveTaskCandidate (cfg_AllowedPrefixes (rec_cfg r)) task)
  | OnKube (ListTasks ns) => ns = cfg_WatchNamespace (rec_cfg r)
  | OnKube (GetTask reader _ _) => reader = Fresh
  | OnKube (PatchTaskStatus lock _ _) => lock = true
  | OnKube o => o = Now
  | _ => True
  end.
Proof.
  intros Hx Htr. pose proof (receiver_call _ _ _ _ _ _ Hx Htr) as Hok.
  destruct o as [[]|cs| | | |]; cbn [call_ok] in Hok; try done; try (by destruct r0); try (by destruct Hok).
  - destruct Hok as (h0 & items & -> & ->). exists h0, items. split; [done|]. intros c. unfold view.
    rewrite list_elem_of_fmap. split.
    + intros (task & -> & Hin%list_elem_of_In%filter_In). destruct Hin as [Hin%list_elem_of_In Hl].
      unfold local_task in Hl. apply andb_true_iff in Hl as [Hn%bool_decide_eq_true Ht%negb_true_iff].
      by exists task.
    + intros (task & Hin & Hn & Ht & ->). exists task. split; [done|].
      apply list_elem_of_In, filter_In. split; [by apply list_elem_of_In|]. unfold local_task.
      fold cfg. by rewrite bool_decide_true, Ht.
Qed.

(** ** Failures of the publication *)

(** The error a reconciliation makes of a failed publication. *)
Definition degraded (e : error) : error :=
  errorf "receiver authorization degraded; retaining last complete snapshot: %w" [FErr e].
Definition unusable (e : error) : error :=
  errorf "active receiver authorization is unusable after reconciliation failure: %w" [FErr e].

Lemma reportInitial_exec e tr b :
  exec (reportInitial e) tr b →
  tr = Event (E := Receiver) SwapInitialPending b ::
    (if b then [Event (E := Receiver) (SendInitialResult e) tt] else []).
Proof.
  intros Hx. apply exec_inv in Hx as (b' & tr' & -> & Hx). destruct b'; cbn in Hx.
  - apply exec_inv in Hx as ([] & tr'' & -> & Hx). apply exec_inv in Hx as [-> <-]. done.
  - apply exec_inv in Hx as [-> <-]. done.
Qed.

(** What follows a failed publication. *)
Lemma publication_failure_exec err tr res :
  exec (e ← handlePublicationFailure r err;
        match e with None => Ret (no_requeue, None) | Some e => e ← reconcileError e; Ret (no_requeue, e) end) tr res →
  ∃ b : bool, if default false (pub_usable err) then
    tr = Event (E := Receiver) SwapInitialPending b ::
      (if b then [Event (E := Receiver) (SendInitialResult (Some (degraded (pub_error err)))) tt] else []) ∧
    res = (no_requeue, if b then None else Some (degraded (pub_error err)))
  else
    tr = Event (E := Receiver) SwapInitialPending b ::
      (if b then [Event (E := Receiver) (SendInitialResult (Some (unusable (pub_error err)))) tt]
       else if hasFatal r then [Event (E := Receiver) (SendFatal (unusable (pub_error err))) tt] else []) ∧
    res = (no_requeue, None).
Proof.
  intros Hx. apply exec_bind in Hx as (t1 & t2 & e & -> & H1 & H2). unfold handlePublicationFailure in H1.
  destruct (default false (pub_usable err)).
  - apply exec_inv in H1 as [-> <-]. unfold reconcileError in H2.
    apply exec_bind in H2 as (t3 & t4 & e & -> & H3 & H4). apply exec_inv in H4 as [-> <-].
    apply exec_bind in H3 as (t5 & t6 & b & -> & H5 & H6). apply exec_inv in H6 as [-> <-].
    apply reportInitial_exec in H5 as ->. rewrite !app_nil_r. exists b. by destruct b.
  - cbv zeta in H1. apply exec_bind in H1 as (t3 & t4 & b & -> & H3 & H4).
    apply reportInitial_exec in H3 as ->. exists b. cbn [app]. destruct b.
    + apply exec_inv in H4 as [-> <-]. apply exec_inv in H2 as [-> <-]. done.
    + unfold reportFatal in H4. destruct (hasFatal r).
      * apply exec_inv in H4 as ([] & t5 & -> & H4). apply exec_inv in H4 as [-> <-].
        by apply exec_inv in H2 as [-> <-].
      * apply exec_inv in H4 as [-> <-]. by apply exec_inv in H2 as [-> <-].
Qed.

(** A call of the publisher, with its answer. *)
Definition publication (ev : revent) : option (list Candidate * (Activation + publication_error)) :=
  match ev with Event (Replace cs) x => Some (cs, x) | _ => None end.

Definition no_publication : list revent → receiver_op → Prop :=
  λ _ o, match o with Replace _ => False | _ => True end.

Lemma report_outcome_quiet h o task : safe no_publication no_result h (report_outcome r o task).
Proof.
  unfold report_outcome, patchTaskFailed, patchTaskReady, latestNonTerminalTask. cbv zeta.
  case_match; cbn; (split; [done|]); intros [latest|e]; repeat (case_match; cbn); try done;
    (split; [done|]); intros []; done.
Qed.

Lemma report_outcomes_quiet h os tasks : safe no_publication no_result h (report_outcomes r os tasks).
Proof.
  revert h tasks. induction os as [|o os IH]; intros h [|task tasks]; try done. cbn [report_outcomes].
  apply safe_bind. eapply safe_mono; [|apply report_outcome_quiet]. intros tr e _.
  apply safe_bind. eapply safe_mono; [|apply IH]. done.
Qed.

Lemma published_quiet h act tasks : safe no_publication no_result h (reconcile_published r act tasks).
Proof.
  unfold reconcile_published. apply safe_call; [done|]. intros now. cbv zeta. apply safe_bind.
  assert (∀ h', safe no_publication no_result h' (errs ← report_outcomes r (act_outcomes act) tasks;
    match errs with
    | None => Ret (no_requeue, Some (errorf "panic: runtime error: index out of range [recovered]" []))
    | Some errs => Ret (deadlineResult now (NextDeadline act),
        errors_Join (errs ++ [wrap_goerr (Warning act) (λ w,
          errorf "clean up retired receiver authorization generations: %w" [FErr w])]))
    end)) as Hrest.
  { intros h'. apply safe_bind. eapply safe_mono; [|apply report_outcomes_quiet]. by intros tr [errs|] _. }
  unfold reportInitial. apply safe_call; [done|]. intros []; [apply safe_call; [done|]; intros []|]; apply Hrest.
Qed.

Lemma quiet_seen {A} (p : receiver A) tr a cs x :
  safe no_publication no_result [] p → exec p tr a → ¬ seen tr (Replace cs) x.
Proof.
  intros Hs Hx Hin. destruct (safe_sound _ _ _ _ _ _ Hs Hx) as [_ Hg].
  apply list_elem_of_split in Hin as (t1 & t2 & ->). exact (Hg t1 _ t2 eq_refl).
Qed.

(** C20. When a publication fails, no task is reported on and nothing is requeued. A
    retained snapshot makes the failure an error of the reconciliation, retried by
    the controller; an unusable one is fatal to the daemon. While the daemon
    waits for its first snapshot, the failure goes to it instead. *)
Theorem publication_failure tr res cs err :
  exec (ReceiverReconcile r) tr res → seen tr (Replace cs) (inr err) →
  ∃ items initial, seen tr SwapInitialPending initial ∧ cs = view items ∧
    (let e := if default false (pub_usable err) then degraded (pub_error err) else unusable (pub_error err) in
     if initial then
       tr = [Event (E := Receiver) AwaitStartup None;
             Event (E := Receiver) (OnKube (ListTasks (cfg_WatchNamespace (rec_cfg r)))) (Ok items);
             Event (E := Receiver) (Replace cs) (inr err); Event (E := Receiver) SwapInitialPending true;
             Event (E := Receiver) (SendInitialResult (Some e)) tt] ∧ res = (no_requeue, None)
     else
       tr = [Event (E := Receiver) AwaitStartup None;
             Event (E := Receiver) (OnKube (ListTasks (cfg_WatchNamespace (rec_cfg r)))) (Ok items);
             Event (E := Receiver) (Replace cs) (inr err); Event (E := Receiver) SwapInitialPending false] ++
            (if default false (pub_usable err) then [] else if hasFatal r then [Event (E := Receiver) (SendFatal e) tt] else []) ∧
       res = (no_requeue, if default false (pub_usable err) then Some e else None)).
Proof.
  intros Hx Hs. unfold ReceiverReconcile in Hx. destruct (initialized r); cbn [negb] in Hx.
  2: { apply exec_inv in Hx as [-> _]. by apply elem_of_nil in Hs. }
  apply exec_inv in Hx as ([e|] & tr1 & -> & Hx).
  { apply exec_inv in Hx as [-> _]. by apply list_elem_of_singleton in Hs. }
  assert (∀ o y t, (∀ cs', o ≠ Replace cs') → seen (Event (E := Receiver) o y :: t) (Replace cs) (inr err) →
    seen t (Replace cs) (inr err)) as Hskip.
  { intros o y t Ho [Heq|Hin]%elem_of_cons; [|done]. apply (f_equal (ev_op (E := Receiver))) in Heq.
    by destruct (Ho cs). }
  apply Hskip in Hs; [|done].
  unfold listReceiveTaskCandidates in Hx. apply exec_inv in Hx as ([items|e] & tr2 & -> & Hx);
    apply Hskip in Hs; try done; cbn [mbind prog_mbind prog_bind] in Hx.
  2: { exfalso. unfold reconcileError in Hx. apply exec_bind in Hx as (t1 & t2 & e' & -> & H1 & H2).
       apply exec_inv in H2 as [-> _]. apply exec_bind in H1 as (t3 & t4 & b & -> & H3 & H4).
       apply exec_inv in H4 as [-> _]. apply reportInitial_exec in H3 as ->. rewrite !app_nil_r in Hs.
       apply Hskip in Hs; [|done]. destruct b; [apply Hskip in Hs; [|done]|]; by apply elem_of_nil in Hs. }
  apply exec_inv in Hx as (x & tr3 & -> & Hx). fold cfg in Hs. fold (view items) in Hs.
  cbn [mbind prog_mbind prog_bind] in Hx.
  apply elem_of_cons in Hs as [Heq|Hs].
  - apply (f_equal publication) in Heq. injection Heq as -> Hex. subst x.
    apply publication_failure_exec in Hx as (b & Hx). exists items, b.
    assert (seen tr3 SwapInitialPending b) as Hb by (destruct (default false _); destruct Hx as [-> _]; by left).
    split; [by do 3 right|]. split; [done|]. cbv zeta.
    destruct (default false (pub_usable err)), b; destruct Hx as [-> ->]; done.
  - exfalso. assert (∀ a, x ≠ inl a) as Hx'.
    { intros a ->. by apply (quiet_seen _ _ _ cs (inr err) (published_quiet [] a (List.filter (local_task cfg) items)) Hx). }
    destruct x as [a|err']; [by apply (Hx' a)|]. apply publication_failure_exec in Hx as (b & Hx).
    destruct (default false (pub_usable err')), b, (hasFatal r); destruct Hx as [-> _];
      repeat (apply Hskip in Hs; [|done]); by apply elem_of_nil in Hs.
Qed.

(** ** With the authorization module as the publisher *)

Section publisher.
Context `{SSHKeys} `{UnicodeTables}.
Context (range : gmap string (list nat) → list (string * list nat)).
Context (range_perm : ∀ m : gmap string (list nat), range m ≡ₚ map_to_list m).

(** What the module promises of a publication: it has activated a compilation of
    the candidates at the time [now], without the leases it has seen lapse. *)
Definition publishes (cs : list Candidate) (act : Activation) (now : time) (gs : list grant) : Prop :=
  ∃ lapsed, let comp := (replace_view range lapsed now cs).1 in
    gs = grants comp ∧ act_outcomes act = outcomes comp ∧ NextDeadline act = nextLeaseDeadline gs.

(** The answers of such a publisher. *)
Definition honest (tr : list revent) : Prop :=
  ∀ cs act, seen tr (Replace cs) (inl act) → ∃ now gs, publishes cs act now gs.

(** A rejected candidate has no grant, not even through another of its UID. *)
Lemma rejected_not_granted lapsed now cs i c o g :
  cs !! i = Some c → outcomes (replace_view range lapsed now cs).1 !! i = Some o → o_Rejection o ≠ "" →
  g ∈ grants (replace_view range lapsed now cs).1 → g_TaskUID g ≠ c_TaskUID c.
Proof.
  intros Hi Ho Hr Hg He. rewrite (replace_view_outcome range range_perm lapsed now cs i c Hi) in Ho.
  injection Ho as <-. cbn [o_Rejection] in Hr. rewrite (replace_view_grants range range_perm) in Hg.
  apply list_elem_of_filter in Hg as [Hl Hg].
  apply (spec_grant_source now) in Hg as (c' & Hc' & Hg & Hu & _).
  rewrite decide_False in Hr by (by rewrite <- He). destruct Hr. apply accepted_granted.
  apply list_elem_of_lookup in Hc' as [j Hj].
  assert (c_TaskUID c' = c_TaskUID c) as E by congruence.
  assert (uid_of c' = uid_of c) as Huid by (unfold uid_of; by rewrite E).
  pose proof (proj1 (grant_of_Some _ _ _ _) Hg) as (_ & Hns & Hjudge).
  apply judge_Ok in Hjudge as (key & _ & _ & _ & Hv). destruct Hv as [Hne _]. cbn in Hne.
  assert (is_Some (uid_of c')) as Hs by (unfold uid_of; rewrite decide_False by congruence; by eexists).
  pose proof (not_shared_unique uid_of cs j i c' c Hj Hi Hs Huid Hns) as ->.
  assert (c' = c) as -> by congruence. by exists g.
Qed.

(** An accepted candidate has a grant of its UID and dataset, not expired. *)
Lemma accepted_granted_by cs act now gs i c o :
  publishes cs act now gs → cs !! i = Some c → act_outcomes act !! i = Some o → o_Rejection o = "" →
  ∃ g, g ∈ gs ∧ g_TaskUID g = c_TaskUID c ∧ g_TargetDataset g = c_TargetDataset c ∧ now < g_ExpiresAt g.
Proof.
  intros (lapsed & -> & Hos & _) Hc Ho E. rewrite Hos in Ho.
  rewrite (replace_view_outcome range range_perm lapsed now _ i c Hc) in Ho. injection Ho as <-.
  cbn [o_Rejection] in E. case_decide as Hlap; [done|]. apply accepted_granted in E as [g Hg].
  pose proof (proj1 (grant_of_Some _ _ _ _) Hg) as (_ & _ & Hj).
  apply judge_Ok in Hj as (key & _ & -> & _ & Hv). exists (candidate_grant c key).
  rewrite (replace_view_grants range range_perm). split_and!; [|done|done|].
  - apply list_elem_of_filter. split; [done|]. apply list_elem_of_omap. exists c.
    split; [by eapply list_elem_of_lookup_2|done].
  - destruct Hv as (_ & _ & _ & _ & _ & _ & _ & Hx'). lia.
Qed.

(** C19. A task is reported Ready only if the snapshot that was just published grants
    it, unexpired and for its dataset, and Failed only if that snapshot has no grant
    for its UID; both directly after reading the task afresh, with the same UID and
    unfinished, and Ready with the endpoint and the host key of this receiver. *)
Theorem task_reported_as_published tr res t1 lock base st x t2 :
  exec (ReceiverReconcile r) tr res → honest tr →
  tr = t1 ++ Event (E := Receiver) (OnKube (PatchTaskStatus lock base st)) x :: t2 →
  ∃ items act task now gs,
    seen t1 (Replace (view items)) (inl act) ∧ publishes (view items) act now gs ∧
    task ∈ List.filter (local_task (rec_cfg r)) items ∧
    last t1 = Some (Event (E := Receiver) (OnKube (GetTask Fresh (om_namespace (task_meta task))
                                             (om_name (task_meta task)))) (Ok base)) ∧
    om_uid (task_meta base) = om_uid (task_meta task) ∧
    ReceiveTaskPhase_Terminal (tst_Phase (task_status base)) = false ∧
    ((st = ready_status (rec_cfg r) (hostKey r) (task_status base) ∧
      ∃ g, g ∈ gs ∧ g_TaskUID g = om_uid (task_meta base) ∧
           g_TargetDataset g = ts_Dataset (task_spec task) ∧ now < g_ExpiresAt g) ∨
     (tst_Phase st = ReceiveTaskPhaseFailed ∧ tst_Error st ≠ "" ∧
      ∀ g, g ∈ gs → g_TaskUID g ≠ om_uid (task_meta base))).
Proof.
  intros Hx Hh Htr. pose proof (receiver_call _ _ _ _ _ _ Hx Htr) as (-> & h0 & task & o & -> & Hp & Hu & Ht & Hst).
  destruct Hp as (items & act & i & Hl & Hr & Hi & Ho).
  assert (seen tr (Replace (view items)) (inl act)) as Hseen.
  { rewrite Htr, <- app_assoc. by apply seen_app. }
  destruct (Hh _ _ Hseen) as (now & gs & Hpub). exists items, act, task, now, gs.
  split; [by apply seen_app|]. split; [done|]. split; [by eapply list_elem_of_lookup_2|].
  split; [by rewrite last_snoc|]. split; [done|]. split; [done|].
  pose proof Hpub as (lapsed & Hgs & Hos & _). rewrite Hos in Ho.
  set (c := receiveTaskCandidate (cfg_AllowedPrefixes cfg) task).
  assert (view items !! i = Some c) as Hc by (unfold view; by rewrite list_lookup_fmap, Hi).
  assert (c_TaskUID c = om_uid (task_meta base)) as Hcu by (by rewrite Hu).
  destruct (decide (o_Rejection o = "")) as [E|E]; subst st.
  - left. split; [done|].
    destruct (accepted_granted_by _ _ _ _ i c o Hpub Hc) as (g & Hg & Hgu & Hgd & Hx'); [by rewrite Hos|done|].
    exists g. by rewrite Hgu, Hcu.
  - right. split_and!; [done|done|]. intros g Hg. rewrite <- Hcu. rewrite Hgs in Hg. by eapply rejected_not_granted.
Qed.

(** The wait until the first lapse. *)
Lemma deadlineResult_first now0 now gs :
  0 ≤ now0 → now0 ≤ now → Forall (λ g, now0 < g_ExpiresAt g ≤ now0 + maximumLeaseHorizon) gs →
  let res := deadlineResult now (nextLeaseDeadline gs) in
  (gs = [] ∧ res = no_requeue) ∨
  (∃ g, g ∈ gs ∧ g_ExpiresAt g ≤ now ∧ Requeue res = true) ∨
  (Requeue res = false ∧ 0 < RequeueAfter res ≤ maximumLeaseHorizon ∧
   (∀ g, g ∈ gs → now + RequeueAfter res ≤ g_ExpiresAt g) ∧
   ∃ g, g ∈ gs ∧ now + RequeueAfter res = g_ExpiresAt g).
Proof.
  intros Hpos Hle Hv. cbv zeta.
  destruct (nextLeaseDeadline_min gs) as [[-> ->]|(g & Hg & -> & Hmin)]; [|by left|].
  { eapply Forall_impl; [exact Hv|]. simpl. lia. }
  right. rewrite Forall_forall in Hv. specialize (Hv _ Hg) as Hvg. unfold deadlineResult, IsZero.
  rewrite (proj2 (Z.eqb_neq _ _)) by lia. destruct (After (g_ExpiresAt g) now) eqn:E; cbn [negb].
  - right. apply After_spec in E. cbn [requeue_after Requeue RequeueAfter].
    assert (Sub (g_ExpiresAt g) now = g_ExpiresAt g - now) as ->.
    { apply Sub_exact. unfold minDuration, maxDuration, maximumLeaseHorizon, Minute, Second in *. lia. }
    split_and!; [done|lia..| |].
    + intros g' Hg'. specialize (Hmin _ Hg'). lia.
    + exists g. split; [done|lia].
  - left. apply After_false in E. by exists g.
Qed.

(** The grants of a publication lapse after it, within the horizon of a lease. *)
Lemma publishes_leases cs act now gs :
  publishes cs act now gs → Forall (λ g, now < g_ExpiresAt g ≤ now + maximumLeaseHorizon) gs.
Proof.
  intros (lapsed & -> & _). apply Forall_forall. intros g Hg. rewrite (replace_view_grants range range_perm) in Hg.
  apply list_elem_of_filter in Hg as [_ Hg]. unfold compile_spec in Hg. cbn [grants] in Hg.
  apply list_elem_of_omap in Hg as (c & _ & Hg). apply grant_of_Some in Hg as (_ & _ & Hj).
  apply judge_Ok in Hj as (key & _ & -> & _ & Hv). by destruct Hv as (_ & _ & _ & _ & _ & _ & _ & Hx').
Qed.

(** It has one outcome for each candidate. *)
Lemma publishes_outcomes cs act now gs : publishes cs act now gs → length (act_outcomes act) = length cs.
Proof.
  intros (lapsed & _ & -> & _). unfold replace_view. cbn [recordAndReturnPreviouslyObservedLapses].
  rewrite (compile_meaning range) by done.
  test (lapsed = ∅) as [E|He]; cbn [fst outcomes compile_spec]; rewrite ?length_zip_with, length_fmap; lia.
Qed.

(** C23. After a publication the receiver comes back, by the clock read directly after
    it, at the instant the first of the granted leases lapses, or at once if that has
    passed; only when no lease is granted, or nothing was published, it waits for a
    change of the tasks. *)
Theorem receiver_requeue_bounds tr res :
  exec (ReceiverReconcile r) tr res → honest tr →
  ((∀ cs act, ¬ seen tr (Replace cs) (inl act)) ∧ res.1 = no_requeue) ∨
  ∃ t0 cs act now0 gs now t1,
    tr = t0 ++ [Event (E := Receiver) (Replace cs) (inl act); Event (E := Receiver) (OnKube Now) now] ++ t1 ∧
    publishes cs act now0 gs ∧
    (0 ≤ now0 → now0 ≤ now →
     (gs = [] ∧ res.1 = no_requeue) ∨
     (∃ g, g ∈ gs ∧ g_ExpiresAt g ≤ now ∧ Requeue res.1 = true) ∨
     (gs ≠ [] ∧ Requeue res.1 = false ∧ 0 < RequeueAfter res.1 ≤ maximumLeaseHorizon ∧
      (∀ g, g ∈ gs → now + RequeueAfter res.1 ≤ g_ExpiresAt g) ∧
      ∃ g, g ∈ gs ∧ now + RequeueAfter res.1 = g_ExpiresAt g)).
Proof.
  intros Hx Hh.
  destruct (safe_sound call_ok returns_ok [] _ tr res receiver_reconcile_safe Hx) as [[Hq|Hq] _]; [by left|right].
  destruct Hq as (t0 & items & act & now & t1 & Htr & Hres). cbn [app] in Htr.
  destruct (Hh (view items) act) as (now0 & gs & Hpub).
  { rewrite Htr. apply elem_of_app. right. by left. }
  exists t0, (view items), act, now0, gs, now, t1. split_and!; [done..|]. intros Hpos Hle.
  destruct Hres as [Hlen|Hres]; [by rewrite (publishes_outcomes _ _ _ _ Hpub) in Hlen; lia|]. rewrite Hres.
  pose proof (publishes_leases _ _ _ _ Hpub) as Hl. destruct Hpub as (lapsed & -> & _ & ->).
  destruct (deadlineResult_first now0 now _ Hpos Hle Hl) as [?|[?|Hlast]]; [by left|by right; left|right; right].
  split; [|done]. intros Hnil. destruct Hlast as (_ & _ & _ & g & Hg & _). rewrite Hnil in Hg. by apply elem_of_nil in Hg.
Qed.

End publisher.

End safety.

(** ** Concrete inputs *)

(** A receiver of the node of the sample task, whose initial snapshot is awaited. *)
Definition sample_receiver : receiverAuthorizationReconciler :=
  {| initialized := true; hasFatal := true;
     rec_cfg := {| cfg_NodeName := "node-b"; cfg_PodName := "receiver-0"; cfg_PodUID := "pod-uid";
                   cfg_PodIP := "10.0.0.7"; cfg_WatchNamespace := "";
                   cfg_AuthorizedKeysFile := "/run/zfs-receiver/authorized_keys"; cfg_SSHPort := 2222;
                   cfg_AllowedPrefixes := ["backup"] |};
     hostKey := "ssh-ed25519 HOST" |}.

Definition named_task (name : string) (task : ZFSReceiveTask) : ZFSReceiveTask :=
  {| task_meta := {| om_name := name; om_namespace := "default"; om_uid := om_uid (task_meta task);
       om_labels := ∅; om_annotations := ∅; om_creation := 0; om_deletion := None; om_owners := [] |};
     task_spec := task_spec task; task_status := task_status task |}.

Definition granted_task : ZFSReceiveTask := named_task "good"
  (with_uid (sample_task (sample_run "nightly" "u1") (receiverPolicy sample_contract)) "t1").

(** A second task with an expired lease. *)
Definition lapsed_task : ZFSReceiveTask :=
  {| task_meta := task_meta (named_task "late" (with_uid granted_task "t2"));
     task_spec := {| ts_NodeName := "node-b"; ts_Dataset := "backup/late";
                     ts_SSH := {| AuthorizedPublicKey := "ssh-ed25519 BBBB"; ExpiresAt := -1 |};
                     ts_Policy := ts_Policy (task_spec granted_task) |};
     task_status := empty_task_status |}.

(** Its environment: the tasks, whether the initial snapshot is awaited, and
    whether publications fail. *)
Record receiver_world := { w_tasks : list ZFSReceiveTask; w_pending : bool; w_failure : option publication_error }.

Definition find_task (name : string) (w : receiver_world) : result ZFSReceiveTask :=
  match List.find (λ t, om_name (task_meta t) ≟ name) (w_tasks w) with
  | Some t => Ok t
  | None => Err (apiError NotFound "not found")
  end.

Definition publish_view (cs : list Candidate) : Activation :=
  let comp := (@replace_view two_keys Names.ascii_tables map_to_list ∅ 0 cs).1 in
  {| Changed := true; Warning := None; NextDeadline := nextLeaseDeadline (grants comp);
     act_outcomes := outcomes comp |}.

Definition serve_receiver (o : receiver_op) (w : receiver_world) : receiver_ans o * receiver_world :=
  match o return receiver_ans o * receiver_world with
  | OnKube o => (match o return kube_ans o with
      | ListTasks _ => Ok (w_tasks w)
      | GetTask _ _ name => find_task name w
      | Now => Minute
      | GetRun _ _ _ | GetSecret _ _ | GetJob _ _ | GetPod _ _ | GetSchedule _ _ | ListRuns _ _
      | ListPods _ _ | GenerateRSAKey => Err (errorf "not served" [])
      | _ => None
      end, w)
  | Replace cs => (match w_failure w with Some e => inr e | None => inl (publish_view cs) end, w)
  | AwaitStartup => (None, w)
  | SwapInitialPending => (w_pending w, {| w_tasks := w_tasks w; w_pending := false; w_failure := w_failure w |})
  | SendInitialResult _ | SendFatal _ => (tt, w)
  end.

Definition receiver_run (w : receiver_world) : list revent * (Result * goerr) * receiver_world :=
  run_with (E := Receiver) serve_receiver (ReceiverReconcile sample_receiver) w.

Lemma receiver_exec w : exec (ReceiverReconcile sample_receiver) (receiver_run w).1.1 (receiver_run w).1.2.
Proof.
  pose proof (run_with_exec (E := Receiver) serve_receiver (ReceiverReconcile sample_receiver) w) as Hx.
  unfold receiver_run. by destruct (run_with _ _ w) as [[tr a] w'].
Qed.

Definition serving : receiver_world := {| w_tasks := [granted_task; lapsed_task]; w_pending := true; w_failure := None |}.
Definition failing : receiver_world :=
  {| w_tasks := [granted_task]; w_pending := false;
     w_failure := Some {| pub_error := errorf "disk full" []; pub_usable := Some true |} |}.

(** What it reports, and when it comes back. *)
Example receiver_serves :
  omap (λ ev : revent, match ev with
    | Event (OnKube (PatchTaskStatus _ base st)) _ => Some (om_name (task_meta base), tst_Phase st, tst_Error st)
    | _ => None end) (receiver_run serving).1.1 =
    [("good", "Ready", ""); ("late", "Failed", "authorization lease is expired")] ∧
  (receiver_run serving).1.2.1 = requeue_after (29 * Minute).
Proof. vm_compute. by split. Qed.

#[local] Instance Outcome_eq_dec : EqDecision Outcome.
Proof. solve_decision. Defined.

(** Every publication of such a trace is answered as the module does. *)
Definition honest_event (ev : revent) : bool :=
  match publication ev with
  | Some (cs, inl act) => bool_decide (act_outcomes act = act_outcomes (publish_view cs)) &&
                          (NextDeadline act =? NextDeadline (publish_view cs))
  | _ => true
  end.

Lemma honest_trace tr : forallb honest_event tr = true → @honest two_keys Names.ascii_tables map_to_list tr.
Proof.
  intros Hall cs act Hin. pose proof (forallb_elem _ _ _ Hall Hin) as He. unfold honest_event in He.
  cbn [publication] in He. apply andb_true_iff in He as [Ho%bool_decide_eq_true Hd%Z.eqb_eq].
  exists 0, (grants (@replace_view two_keys Names.ascii_tables map_to_list ∅ 0 cs).1), ∅. done.
Qed.

(** The trace of the serving receiver around its first report. *)
Definition ready_at : nat := 7.
Definition first_report : ZFSReceiveTask * ZFSReceiveTaskStatus :=
  match (receiver_run serving).1.1 !! ready_at with
  | Some (Event (OnKube (PatchTaskStatus _ base st)) _) => (base, st)
  | _ => (lapsed_task, empty_task_status)
  end.

Lemma serving_honest : @honest two_keys Names.ascii_tables map_to_list (receiver_run serving).1.1.
Proof. apply honest_trace. vm_compute. reflexivity. Qed.

Lemma task_reported_as_published_witness :
  tst_Phase first_report.2 = ReceiveTaskPhaseReady ∧ ∃ items act now gs,
    @publishes two_keys Names.ascii_tables map_to_list (view sample_receiver items) act now gs.
Proof.
  split; [vm_compute; reflexivity|].
  destruct (@task_reported_as_published sample_receiver two_keys Names.ascii_tables map_to_list (λ m, reflexivity _)
    (receiver_run serving).1.1 (receiver_run serving).1.2 (take ready_at (receiver_run serving).1.1)
    true first_report.1 first_report.2 None (drop (S ready_at) (receiver_run serving).1.1))
    as (items & act & task & now & gs & _ & Hp & _).
  - apply receiver_exec.
  - exact serving_honest.
  - symmetry. apply take_drop_middle. vm_compute. reflexivity.
  - exists items, act, now, gs. exact Hp.
Defined.

Lemma receiver_requeue_bounds_witness : ∃ cs act now0 gs now,
  @publishes two_keys Names.ascii_tables map_to_list cs act now0 gs ∧
  (0 ≤ now0 → now0 ≤ now → ∃ g, g ∈ gs ∧ g_ExpiresAt g = now + 29 * Minute).
Proof.
  destruct (@receiver_requeue_bounds sample_receiver two_keys Names.ascii_tables map_to_list (λ m, reflexivity _)
    (receiver_run serving).1.1 (receiver_run serving).1.2 (receiver_exec serving) serving_honest)
    as [[_ Hq]|(_ & cs & act & now0 & gs & now & _ & _ & Hp & Hb)].
  - exfalso. vm_compute in Hq. discriminate.
  - exists cs, act, now0, gs, now. split; [exact Hp|]. intros H0 H1.
    destruct (Hb H0 H1) as [[_ Hq]|[(_ & _ & _ & Hq)|(_ & _ & _ & _ & g & Hg & He)]].
    + exfalso. vm_compute in Hq. discriminate.
    + exfalso. vm_compute in Hq. discriminate.
    + exists g. split; [exact Hg|]. rewrite <- He. f_equal.
Defined.

Lemma receiver_publishes_complete_view_witness : ∃ items : list ZFSReceiveTask,
  ∀ c, c ∈ view sample_receiver [granted_task; lapsed_task] ↔ ∃ task, task ∈ items ∧
    ts_NodeName (task_spec task) = "node-b" ∧ ReceiveTaskPhase_Terminal (tst_Phase (task_status task)) = false ∧
    c = receiveTaskCandidate ["backup"] task.
Proof.
  destruct (receiver_publishes_complete_view sample_receiver (receiver_run serving).1.1 (receiver_run serving).1.2
    (take 2 (receiver_run serving).1.1) (Replace (view sample_receiver [granted_task; lapsed_task]))
    (inl (publish_view (view sample_receiver [granted_task; lapsed_task])))
    (drop 3 (receiver_run serving).1.1)) as (t0 & items & _ & Hc).
  - apply receiver_exec.
  - symmetry. apply (take_drop_middle (receiver_run serving).1.1 2). vm_compute. reflexivity.
  - exists items. exact Hc.
Defined.

Lemma publication_failure_witness :
  (receiver_run failing).1.2 = (no_requeue, Some (degraded (errorf "disk full" []))).
Proof.
  destruct (publication_failure sample_receiver (receiver_run failing).1.1 (receiver_run failing).1.2
    (view sample_receiver [granted_task]) {| pub_error := errorf "disk full" []; pub_usable := Some true |})
    as (items & initial & Hi & _ & Hx).
  - apply receiver_exec.
  - apply (list_elem_of_lookup_2 _ 2). vm_compute. reflexivity.
  - destruct initial; [|exact (proj2 Hx)]. exfalso. vm_compute in Hi.
    repeat (apply elem_of_cons in Hi as [Hi|Hi];
      [apply (f_equal (λ ev : revent, match ev with Event SwapInitialPending b => b | _ => false end)) in Hi;
       discriminate Hi|]).
    by apply elem_of_nil in Hi.
Defined.
