(* ===== verification/FileSystem.v ===== *)
(** * The file system (os, path/filepath)

    Lexical paths, and the file operations of the receiver authorization module
    with the answers they may get. *)
From S2P Require Import Prelude GoStrings GoErrors GoTime Effects.
Local Open Scope Z_scope.

(** ** Paths *)

Definition slash : ascii := "/"%char.

(** The components of a path after cleaning, for a rooted or a relative path. *)
Fixpoint clean_components (rooted : bool) (comps stack : list string) : list string :=
  match comps with
  | [] => reverse stack
  | c :: rest =>
      if (c ≟ "") || (c ≟ ".") then clean_components rooted rest stack
      else if c ≟ ".." then
        match stack with
        | top :: below => if top ≠? ".." then clean_components rooted rest below
                          else clean_components rooted rest (".." :: stack)
        | [] => clean_components rooted rest (if rooted then [] else [".."])
        end
      else clean_components rooted rest (c :: stack)
  end.

Definition IsAbs (path : string) : bool := HasPrefix path "/".

(** [filepath.Clean]. *)
Definition Clean (path : string) : string :=
  let rooted := IsAbs path in
  let cleaned := Join (clean_components rooted (Split path slash) []) "/" in
  if rooted then "/" +:+ cleaned else if cleaned ≟ "" then "." else cleaned.

(** [filepath.Join]. *)
Definition JoinPath (elems : list string) : string :=
  match filter (λ e, e ≠ "") elems with
  | [] => ""
  | es => Clean (Join es "/")
  end.

(** The bytes after the last separator, and those up to and including it. *)
Definition after_last (path : string) : string := List.last (Split path slash) "".
Definition up_to_last (path : string) : string :=
  str_take (String.length path - String.length (after_last path)) path.

(** [filepath.Dir]. *)
Definition Dir (path : string) : string := Clean (up_to_last path).

(** [filepath.Base]. *)
Definition Base (path : string) : string :=
  if path ≟ "" then "."
  else
    let base := after_last (TrimRightByte path slash) in
    if base ≟ "" then "/" else base.

Example paths :
  Clean "/run/zfs-receiver//./a/../authorized_keys" = "/run/zfs-receiver/authorized_keys" ∧
  Dir "/run/zfs-receiver/authorized_keys" = "/run/zfs-receiver" ∧ Dir "/run" = "/" ∧ Dir "a" = "." ∧
  Base "/run/" = "run" ∧ Base "/" = "/" ∧ JoinPath ["/run"; ""; "grants"] = "/run/grants" ∧ Clean "" = ".".
Proof. vm_compute. by split_and!. Qed.

(** A name of one component. *)
Definition plain_name (x : string) : bool :=
  negb (has_byte slash x) && (x ≠? "") && (x ≠? ".") && (x ≠? "..").

Lemma plain_name_spec x : plain_name x = true ↔ has_byte slash x = false ∧ x ≠ "" ∧ x ≠ "." ∧ x ≠ "..".
Proof. unfold plain_name. rewrite !andb_true_iff, !negb_true_iff, !bool_decide_eq_false. naive_solver. Qed.

Lemma clean_components_snoc rooted cs stack x :
  plain_name x = true →
  clean_components rooted (cs ++ [x]) stack = clean_components rooted cs stack ++ [x].
Proof.
  intros (_ & H1 & H2 & H3)%plain_name_spec. revert stack. induction cs as [|c cs IH]; intros stack.
  - cbn [clean_components app]. rewrite !bool_decide_false by done. cbn [orb]. by rewrite reverse_cons.
  - cbn [clean_components app]. by repeat case_match.
Qed.

Lemma Join_snoc l x sep : l ≠ [] → Join (l ++ [x]) sep = Join l sep +:+ sep +:+ x.
Proof.
  intros Hl. induction l as [|p l IH]; [done|]. destruct l as [|q l]; [done|].
  change ((p :: q :: l) ++ [x]) with (p :: ((q :: l) ++ [x])).
  rewrite (Join_cons p ((q :: l) ++ [x])), IH, (Join_cons p (q :: l)) by done. by rewrite <- !str_app_assoc.
Qed.

(** A path that [filepath.Clean] leaves as it is, below the root. *)
Definition clean_dir (dir : string) : Prop := IsAbs dir = true ∧ Clean dir = dir ∧ dir ≠ "/".

Lemma JoinPath_child dir x : clean_dir dir → plain_name x = true → JoinPath [dir; x] = dir +:+ "/" +:+ x.
Proof.
  intros (Ha & Hc & Hr) Hx. pose proof (proj1 (plain_name_spec x) Hx) as (Hs & Hne & _ & _).
  assert (dir ≠ "") as Hd by (intros ->; done).
  unfold JoinPath. rewrite !filter_cons_True, filter_nil by done.
  change (Join [dir; x] "/") with (dir +:+ "/" +:+ x). unfold Clean in Hc |- *.
  change ("/" +:+ x) with (String slash x). rewrite Ha in Hc.
  assert (IsAbs (dir +:+ String slash x) = true) as ->.
  { apply HasPrefix_spec in Ha as (t & Et). apply HasPrefix_spec. exists (t +:+ String slash x).
    rewrite Et. by rewrite <- str_app_assoc. }
  rewrite Split_app, (Split_no_sep x) by done. rewrite clean_components_snoc by done.
  set (cs := clean_components _ _ _) in *. destruct cs as [|c cs]; [by rewrite <- Hc in Hr|].
  rewrite Join_snoc by done. rewrite <- Hc. by rewrite <- !str_app_assoc.
Qed.

Lemma JoinPath_child_inj dir x y :
  clean_dir dir → plain_name x = true → plain_name y = true → JoinPath [dir; x] = JoinPath [dir; y] → x = y.
Proof.
  intros Hd Hx Hy. rewrite !JoinPath_child by done. intros E. by apply str_app_inv_head, str_app_inv_head in E.
Qed.

(** ** Operations *)

Inductive file_type := Regular | Directory | Symlink | OtherType.
#[export] Instance file_type_eq_dec : EqDecision file_type.
Proof. solve_decision. Defined.

(** [os.FileInfo]: the type, the permission bits, and the owner where the system
    reports one. *)
Record FileInfo := { fi_type : file_type; fi_perm : Z; fi_uid : option Z }.

Definition IsDir (info : FileInfo) : bool := fi_type info ≟ Directory.
Definition is_symlink (info : FileInfo) : bool := fi_type info ≟ Symlink.

(** Writable by group or others. *)
Definition loose (info : FileInfo) : bool := negb (Z.land (fi_perm info) 18 =? 0).

Record DirEntry := { de_name : string; de_dir : bool }.

(** The calls. A created temporary file is known by its name; the calls on an open
    file carry that name. *)
Inductive fs_op :=
  | Lstat (path : string)
  | ReadFile (path : string)
  | ReadDir (path : string)
  | WriteFile (path data : string) (perm : Z)
  | MkdirAll (path : string) (perm : Z)
  | Mkdir (path : string) (perm : Z)
  | MkdirTemp (dir pattern : string)
  | CreateTemp (dir pattern : string)
  | OpenNew (path : string) (perm : Z)
  | FileChmod (name : string) (perm : Z)
  | FileWrite (name data : string)
  | FileClose (name : string)
  | Chmod (path : string) (perm : Z)
  | Rename (old new : string)
  | Remove (path : string)
  | RemoveAll (path : string)
  | Clock.

Definition fs_ans (o : fs_op) : Type :=
  match o with
  | Lstat _ => result FileInfo
  | ReadFile _ => result string
  | ReadDir _ => result (list DirEntry)
  | MkdirTemp _ _ | CreateTemp _ _ => result string
  | Clock => time
  | _ => goerr
  end.

Definition FS : sig := {| op := fs_op; ans := fs_ans |}.
Abbreviation fs := (prog FS).
Abbreviation fevent := (event FS).

Definition fcall (o : fs_op) : fs (fs_ans o) := call (E := FS) o.

(** [errors.Is(err, os.ErrNotExist)] on an error as a call returned it. *)
Definition IsNotExist (e : error) : bool :=
  match e with osError ErrNotExist _ => true | _ => false end.

(** [fmt.Errorf] around the error of a call. *)
Definition wrap_fs (p : fs goerr) (f : error → error) : fs goerr :=
  e ← p; Ret (option_map f e).

(** A call with a result, its error wrapped. *)
Definition wrap_result {A} (p : fs (result A)) (f : error → error) : fs (result A) :=
  r ← p; Ret (wrap_err r f).

(** [if cond { return err }]. *)
Definition refuse_if (cond : bool) (e : error) : fs goerr := Ret (if cond then Some e else None).

(** [for _, x := range l { if err := f(x); err != nil { return err } }]. *)
Fixpoint each {A} (f : A → fs goerr) (l : list A) : fs goerr :=
  match l with
  | [] => Ret None
  | x :: l' => f x ;;? each f l'
  end.

(** A sequence of checks followed by a value. *)
Definition checked {A} (p : fs goerr) (k : fs (result A)) : fs (result A) :=
  e ← p; match e with Some e => Ret (Err e) | None => k end.

(** The operations that change nothing. *)
Definition reads (o : fs_op) : Prop :=
  match o with Lstat _ | ReadFile _ | ReadDir _ | Clock => True | _ => False end.

(** ** Executions without an error *)

Lemma exec_fcall (o : fs_op) tr (x : fs_ans o) : exec (fcall o) tr x → tr = [Event (E := FS) o x].
Proof. apply (exec_call_inv (E := FS)). Qed.

Lemma exec_fop {A} (o : fs_op) (f : fs_ans o → fs A) tr b :
  exec (fcall o ≫= f) tr b → ∃ x t, tr = Event (E := FS) o x :: t ∧ exec (f x) t b.
Proof. apply (exec_op (E := FS)). Qed.

(** The first call of an execution, with its answer. *)
Tactic Notation "exec_call" hyp(H) "as" simple_intropattern(p) :=
  match type of H with
  | exec (fcall ?o) _ _ => apply (exec_fcall o) in H as p
  | exec (mbind _ (fcall ?o)) _ _ => apply (exec_fop o) in H as p
  end.

Lemma safe_fcall {A} (G : list fevent → fs_op → Prop) (Q : list fevent → A → Prop) h (o : fs_op) (f : fs_ans o → fs A) :
  G h o → (∀ x, safe (E := FS) G Q (h ++ [Event (E := FS) o x]) (f x)) → safe (E := FS) G Q h (fcall o ≫= f).
Proof. by split. Qed.

(** The first call of a program, whatever its answer. *)
Ltac safe_call := match goal with
  | |- safe _ _ _ (mbind _ (fcall ?o)) => apply (safe_fcall _ _ _ o)
  end.

Lemma exec_wrap_fs p f tr : exec (wrap_fs p f) tr None ↔ exec p tr None.
Proof.
  split.
  - intros Hx. apply exec_bind in Hx as (t1 & t2 & [e|] & -> & Hp & Hr); apply exec_Ret in Hr as [-> Hr]; simplify_eq/=.
    by rewrite app_nil_r.
  - intros Hp. rewrite <- (app_nil_r tr). by apply (exec_bind_intro p _ tr [] None None Hp), exec_Ret.
Qed.

Lemma exec_wrap_result {A} (p : fs (result A)) f tr a : exec (wrap_result p f) tr (Ok a) ↔ exec p tr (Ok a).
Proof.
  split.
  - intros Hx. apply exec_bind in Hx as (t1 & t2 & [b|e] & -> & Hp & Hr); apply exec_Ret in Hr as [-> [=]].
    subst b. by rewrite app_nil_r.
  - intros Hp. rewrite <- (app_nil_r tr). by apply (exec_bind_intro p _ tr [] (Ok a) (Ok a) Hp), exec_Ret.
Qed.

Lemma exec_refuse_if c e tr : exec (refuse_if c e) tr None ↔ tr = [] ∧ c = false.
Proof. unfold refuse_if. rewrite exec_Ret. destruct c; naive_solver. Qed.

Lemma exec_checked {A} p (k : fs (result A)) tr a :
  exec (checked p k) tr (Ok a) ↔ ∃ t1 t2, tr = t1 ++ t2 ∧ exec p t1 None ∧ exec k t2 (Ok a).
Proof.
  split.
  - intros Hx. apply exec_bind in Hx as (t1 & t2 & [e|] & -> & Hp & Hk); [by apply exec_Ret in Hk as [_ ?]|].
    by exists t1, t2.
  - intros (t1 & t2 & -> & Hp & Hk). by apply (exec_bind_intro p _ t1 t2 None).
Qed.

(** What a loop without an error leaves of each of its elements. *)
Lemma exec_each {A} (f : A → fs goerr) (R : list fevent → A → Prop) l tr :
  (∀ t x, exec (f x) t None → R t x) → (∀ t u v x, R u x → R (t ++ u ++ v) x) →
  exec (each f l) tr None → Forall (R tr) l.
Proof.
  intros Hf Hmono. revert tr. induction l as [|x l IH]; intros tr; cbn [each]; [constructor|].
  rewrite exec_then_err. intros (t1 & t2 & -> & Hx & Hl). constructor.
  - apply (Hmono [] t1 t2), Hf, Hx.
  - eapply Forall_impl; [by apply IH|]. intros y Hy. specialize (Hmono t1 t2 [] y Hy). by rewrite app_nil_r in Hmono.
Qed.

Lemma only_each {A} P (f : A → fs goerr) l : (∀ x, only P (f x)) → only P (each f l).
Proof. intros Hf. induction l as [|x l IH]; [done|]. apply only_bind; [apply Hf|]. by intros [e|]. Qed.

Lemma only_checked {A} P p (k : fs (result A)) : only P p → only P k → only P (checked p k).
Proof. intros Hp Hk. apply only_bind; [done|]. by intros [e|]. Qed.

Lemma only_then_err P (p q : fs goerr) : only P p → only P q → only P (p ;;? q).
Proof. intros Hp Hq. apply only_bind; [done|]. by intros [e|]. Qed.

Lemma only_bind_result {A B} P (p : fs (result A)) (f : A → fs (result B)) :
  only P p → (∀ a, only P (f a)) → only P (bind_result p f).
Proof. intros Hp Hf. apply only_bind; [done|]. intros [a|e]; [apply Hf|done]. Qed.

Lemma only_call (P : fs_op → Prop) o : P o → only (E := FS) P (fcall o).
Proof. by split. Qed.

Lemma only_op {A} (P : fs_op → Prop) o (f : fs_ans o → fs A) : P o → (∀ x, only (E := FS) P (f x)) → only (E := FS) P (fcall o ≫= f).
Proof. by split. Qed.

Lemma only_wrap_fs P p f : only P p → only P (wrap_fs p f).
Proof. intros Hp. by apply only_bind. Qed.

Lemma only_wrap_result {A} P (p : fs (result A)) f : only P p → only P (wrap_result p f).
Proof. intros Hp. by apply only_bind. Qed.

Create HintDb only.

(** Every operation of a program over the file system satisfies a predicate. *)
Ltac prove_only := repeat match goal with
  | |- ∀ _, _ => intros
  | |- only _ (Ret _) => exact I
  | |- only _ (match ?x with _ => _ end) => destruct x
  | |- only _ (refuse_if _ _) => exact I
  | |- only _ (fcall _) => apply only_call; first [exact I|idtac]
  | |- only _ (mbind _ (fcall _)) => apply only_op; [first [exact I|idtac]|]
  | |- only _ (each _ _) => apply only_each
  | |- only _ (checked _ _) => apply only_checked
  | |- only _ (then_err _ _) => apply only_then_err
  | |- only _ (bind_result _ _) => apply only_bind_result
  | |- only _ (wrap_fs _ _) => apply only_wrap_fs
  | |- only _ (wrap_result _ _) => apply only_wrap_result
  | |- only _ (mbind _ _) => apply only_bind
  | |- only _ _ => solve [auto with only nocore]
  end.
