(* ===== verification/ReceiverModule.v ===== *)
(** * The receiver authorization module on the file system
      (internal/receiverauthorization/snapshot.go, authorization.go)

    Publication of a snapshot of grants, and admission of a forced command against
    the active snapshot, as programs over file operations. *)
From S2P Require Import Prelude GoStrings StringOrder Sha256 GoErrors GoTime Json Api Replication Names Syncoid Ssh ReceiverCommand ReceiverGrant GrantJson ReceiverSnapshot Effects Kube ReceiverController FileSystem.
Local Open Scope Z_scope.

(** ** Path checks *)

(** [src/internal/receiverauthorization/snapshot.go:545-548 trustedTopLevelSystemSymlink] *)
Definition trustedTopLevelSystemSymlink (path : string) (info : FileInfo) : bool :=
  match fi_uid info with Some uid => (uid =? 0) && (Dir path ≟ "/") | None => false end.

(** [src/internal/receiverauthorization/snapshot.go:524-541 rejectSymlinkPathComponents] The paths
    the loop visits: the path and the directories above it, up to the root. *)
Fixpoint path_chain (fuel : nat) (current : string) : list string :=
  match fuel with
  | O => []
  | S n =>
      if (current ≟ "/") || (current ≟ ".") then []
      else
        let parent := Dir current in
        current :: (if parent ≟ current then [] else path_chain n parent)
  end.

(** [src/internal/receiverauthorization/snapshot.go:523-543 rejectSymlinkPathComponents] *)
Definition rejectSymlinkPathComponents (path : string) : fs goerr :=
  let current := Clean path in
  each (λ current,
    info ← fcall (Lstat current);
    Ret (match info with
         | Ok info =>
             if is_symlink info && negb (trustedTopLevelSystemSymlink current info)
             then Some (errorf "receiver authorization path component %q must not be a symlink" [FStr current])
             else None
         | Err e =>
             if IsNotExist e then None
             else Some (errorf "stat receiver authorization path component %q: %w" [FStr current; FErr e])
         end)) (path_chain (S (String.length current)) current).

(** [src/internal/receiverauthorization/snapshot.go:507-521 requireSafeGenerationDirectory] *)
Definition requireSafeGenerationDirectory (paths : list string) : fs goerr :=
  each (λ path,
    rejectSymlinkPathComponents path ;;?
    (info ← fcall (Lstat path);
     Ret (match info with
          | Err e => Some (errorf "stat receiver authorization generation path: %w" [FErr e])
          | Ok info =>
              if is_symlink info || negb (IsDir info) || loose info
              then Some (errorf "receiver authorization generation path is unsafe" [])
              else None
          end))) paths.

(** [src/internal/receiverauthorization/snapshot.go:432-437 validateManifestPath] *)
Definition validateManifestPath (path : string) : goerr :=
  if negb (IsAbs path) || (Base path ≟ ".") || (Base path ≟ "/")
  then Some (errorf "receiver authorization manifest path is unsafe" []) else None.

(** [src/internal/receiverauthorization/snapshot.go:439-463 ensurePrivateDir] *)
Definition ensurePrivateDir (path : string) : fs goerr :=
  rejectSymlinkPathComponents path ;;?
  fcall (MkdirAll path 448) ;;?
  rejectSymlinkPathComponents path ;;?
  (info ← fcall (Lstat path);
   match info with
   | Err e => Ret (Some e)
   | Ok info =>
       if is_symlink info then Ret (Some (errorf "path must not be a symlink" []))
       else if negb (IsDir info) then Ret (Some (errorf "path is not a directory" []))
       else wrap_fs (fcall (Chmod path 448)) (λ e, errorf "set private directory mode: %w" [FErr e])
   end).

(** [src/internal/receiverauthorization/snapshot.go:424-430 ensureManifestParent] *)
Definition ensureManifestParent (manifestPath : string) : fs goerr :=
  wrap_fs (ensurePrivateDir (Dir manifestPath))
    (λ e, errorf "prepare receiver authorization runtime directory: %w" [FErr e]).

(** ** Files *)

(** [src/internal/receiverauthorization/snapshot.go:465-476 writeNewFile] *)
Definition writeNewFile (path data : string) (mode : Z) : fs goerr :=
  fcall (OpenNew path 384) ;;?
  (writeErr ← fcall (FileWrite path data);
   closeErr ← fcall (FileClose path);
   match errors_Join [writeErr; closeErr] with
   | Some e => Ret (Some e)
   | None => fcall (Chmod path mode)
   end).

(** [src/internal/receiverauthorization/snapshot.go:490-505 readSafeRegularFile] *)
Definition readSafeRegularFile (path name : string) : fs (result string) :=
  info ←? fcall (Lstat path);
  if is_symlink info then Ret (Err (errorf "%s must not be a symlink" [FStr name]))
  else if fi_type info ≠? Regular then Ret (Err (errorf "%s must be a regular file" [FStr name]))
  else if loose info then Ret (Err (errorf "%s must not be group or world writable" [FStr name]))
  else fcall (ReadFile path).

(** [src/internal/receiverauthorization/snapshot.go:478-488 readActiveManifest] *)
Definition readActiveManifest (path : string) : fs (result (string * string)) :=
  data ←? readSafeRegularFile path "receiver authorization manifest";
  Ret (id ← parseManifestSnapshotID data; Ok (id, data)).

(** The closure of the walk: directories become accessible. *)
Definition walk_chmod (current : string) (info : FileInfo) : fs goerr :=
  if IsDir info && negb (is_symlink info) then fcall (Chmod current 448) else Ret None.

(** [filepath.Walk] with that closure: depth first in the order of the names. A
    path deeper than the system's limit on path names is refused by it. *)
Fixpoint walk (depth : nat) (path : string) (info : FileInfo) : fs goerr :=
  match depth with
  | O => Ret (Some (osError OtherOS "file name too long"))
  | S d =>
      if negb (IsDir info) then walk_chmod path info
      else
        names ← fcall (ReadDir path);
        match names with
        | Err e => Ret (Some e)
        | Ok entries =>
            walk_chmod path info ;;?
            each (λ entry,
              let filename := JoinPath [path; de_name entry] in
              i ← fcall (Lstat filename);
              match i with
              | Err e => Ret (Some e)
              | Ok i => walk d filename i
              end) entries
        end
  end.

(** The limit of the system on the length of a path. *)
Definition path_max : nat := 16 * 16 * 16.

(** [src/internal/receiverauthorization/snapshot.go:599-612 removeGeneration] *)
Definition removeGeneration (path : string) : fs goerr :=
  (info ← fcall (Lstat path);
   match info with Err e => Ret (Some e) | Ok info => walk path_max path info end) ;;?
  fcall (RemoveAll path).

(** [src/internal/receiverauthorization/snapshot.go:614-626 removePathWithoutFollowing] *)
Definition removePathWithoutFollowing (path : string) : fs goerr :=
  info ← fcall (Lstat path);
  match info with
  | Err e => Ret (if IsNotExist e then None else Some e)
  | Ok info =>
      if IsDir info && negb (is_symlink info) then removeGeneration path else fcall (Remove path)
  end.

(** [src/internal/receiverauthorization/snapshot.go:565-597 readGenerationGrants] One entry. *)
Definition read_grant (grantDir : string) (entry : DirEntry) : fs (result grant) :=
  let name := de_name entry in
  if de_dir entry || negb (HasSuffix name ".json") then
    Ret (Err (errorf "receiver authorization generation contains unexpected grant entry %q" [FStr name]))
  else
    let id := TrimSuffix name ".json" in
    if negb (validGrantID id) then
      Ret (Err (errorf "receiver authorization generation contains invalid grant entry %q" [FStr name]))
    else
      data ←? readSafeRegularFile (JoinPath [grantDir; name]) "receiver grant";
      Ret (g ← wrap_err (decodeGrant data) (λ e, errorf "parse receiver grant: %w" [FErr e]);
           fail_if (grantID (g_TaskUID g) ≠? id)
             (errorf "receiver grant identity does not match filename" []);;
           Ok g).

Fixpoint read_grants (grantDir : string) (entries : list DirEntry) : fs (result (list grant)) :=
  match entries with
  | [] => Ret (Ok [])
  | entry :: rest =>
      g ←? read_grant grantDir entry;
      gs ←? read_grants grantDir rest;
      Ret (Ok (g :: gs))
  end.

(** [src/internal/receiverauthorization/snapshot.go:565-597 readGenerationGrants] *)
Definition readGenerationGrants (grantDir : string) : fs (result (list grant)) :=
  checked (requireSafeGenerationDirectory [grantDir])
    (entries ←? wrap_result (fcall (ReadDir grantDir)) (λ e, errorf "list receiver grants: %w" [FErr e]);
     read_grants grantDir entries).

(** [src/internal/receiverauthorization/snapshot.go:550-563 verifySnapshotGrantSet] *)
Definition verifySnapshotGrantSet (grantDir expectedSnapshotID : string) : fs goerr :=
  gs ← readGenerationGrants grantDir;
  match gs with
  | Err e => Ret (Some e)
  | Ok gs =>
      match canonicalSnapshot gs with
      | Err e => Ret (Some e)
      | Ok (_, actualSnapshotID) =>
          refuse_if (actualSnapshotID ≠? expectedSnapshotID)
            (errorf "receiver authorization grant set does not match snapshot" [])
      end
  end.

(** ** The module *)

(** [src/internal/receiverauthorization/authorization.go:22-27 Module] The clock is an
    operation, the lapsed leases are passed as a state, and the hooks are nil. *)
Record module := { manifestPath : string }.

(** [src/internal/receiverauthorization/authorization.go:73-79 New] *)
Definition New (path : string) : module := {| manifestPath := Clean path |}.

(** [src/internal/receiverauthorization/snapshot.go:412-414 runtimeRoot] *)
Definition runtimeRoot (m : module) : string := JoinPath [Dir (manifestPath m); "receiver-authorization"].

(** [src/internal/receiverauthorization/snapshot.go:416-418 generationsRoot] *)
Definition generationsRoot (m : module) : string := JoinPath [runtimeRoot m; "generations"].

(** [src/internal/receiverauthorization/snapshot.go:420-422 generationPath] *)
Definition generationPath (m : module) (snapshotID : string) : string :=
  JoinPath [generationsRoot m; snapshotID].

(** [src/internal/receiverauthorization/authorization.go:218-223 grantPathForID] *)
Definition grantPathForID (dir id : string) : result string :=
  if negb (validGrantID id) then Err (errorf "invalid receiver authorization grant ID %q" [FStr id])
  else Ok (JoinPath [dir; id +:+ ".json"]).

(** The files of a generation. *)
Definition generation_manifest (path : string) : string := JoinPath [path; "authorized_keys"].
Definition generation_grants (path : string) : string := JoinPath [path; "grants"].

(** [src/internal/receiverauthorization/snapshot.go:46-60 Reset] *)
Definition Reset (m : module) : fs goerr :=
  Ret (validateManifestPath (manifestPath m)) ;;?
  ensureManifestParent (manifestPath m) ;;?
  wrap_fs (removePathWithoutFollowing (manifestPath m))
    (λ e, errorf "remove active receiver authorization manifest: %w" [FErr e]) ;;?
  wrap_fs (removePathWithoutFollowing (runtimeRoot m))
    (λ e, errorf "discard receiver authorization generations: %w" [FErr e]).

(** ** Generations *)

(** [src/internal/receiverauthorization/snapshot.go:349-356 validateGeneration] The comparison of
    two lists of grants by [!=]. Times are the same only with the same zone: UTC, or the
    local zone, as which an offset of zero is read when that is UTC; any other zone that
    is read from a file is a value of its own. *)
Definition same_grants (stored gs : list grant) : bool :=
  (stored ≟ gs) &&
  forallb (λ g, match g_ExpiresIn g with Some offset => offset =? 0 | None => true end) stored.

Lemma same_grants_eq stored gs : same_grants stored gs = true → stored = gs.
Proof. unfold same_grants. rewrite andb_true_iff, bool_decide_eq_true. by intros [-> _]. Qed.

(** [src/internal/receiverauthorization/snapshot.go:320-357 validateGeneration] *)
Definition validateGeneration (path : string) (gs : list grant) (snapshotID expectedManifest : string)
  : fs goerr :=
  info ← fcall (Lstat path);
  match info with
  | Err e => Ret (Some e)
  | Ok info =>
      if is_symlink info || negb (IsDir info) || loose info
      then Ret (Some (errorf "receiver authorization generation is unsafe" []))
      else
      manifestData ← readSafeRegularFile (generation_manifest path) "receiver authorization generation manifest";
      match manifestData with
      | Err e => Ret (Some e)
      | Ok manifestData =>
          if match parseManifestSnapshotID manifestData with Ok id => id ≠? snapshotID | Err _ => true end
          then Ret (Some (errorf "receiver authorization generation manifest identity mismatch" []))
          else if manifestData ≠? expectedManifest
          then Ret (Some (errorf "receiver authorization generation manifest content mismatch" []))
          else
          storedGrants ← readGenerationGrants (generation_grants path);
          match storedGrants with
          | Err e => Ret (Some e)
          | Ok storedGrants =>
              match canonicalSnapshot storedGrants with
              | Err e => Ret (Some e)
              | Ok (canonicalStored, storedSnapshotID) =>
                  refuse_if ((storedSnapshotID ≠? snapshotID) || negb (same_grants canonicalStored gs))
                    (errorf "receiver authorization generation grant set mismatch" [])
              end
          end
      end
  end.

(** [src/internal/receiverauthorization/snapshot.go:295-304 materializeGeneration] The file of one
    grant. *)
Definition write_grant (grantsPath : string) (g : grant) : fs goerr :=
  match json_grant g with
  | Err e => Ret (Some (errorf "marshal receiver grant: %w" [FErr e]))
  | Ok data =>
      wrap_fs (writeNewFile (JoinPath [grantsPath; grantID (g_TaskUID g) +:+ ".json"]) (data +:+ nl) 256)
        (λ e, errorf "write receiver grant: %w" [FErr e])
  end.

(** [src/internal/receiverauthorization/snapshot.go:291-317 materializeGeneration] In the staging
    directory. *)
Definition stage_generation (stagingPath finalPath : string) (gs : list grant) (manifest : string) : fs goerr :=
  let grantsPath := generation_grants stagingPath in
  wrap_fs (fcall (Mkdir grantsPath 448))
    (λ e, errorf "create receiver authorization grant directory: %w" [FErr e]) ;;?
  each (write_grant grantsPath) gs ;;?
  wrap_fs (writeNewFile (generation_manifest stagingPath) manifest 256)
    (λ e, errorf "write receiver authorization generation manifest: %w" [FErr e]) ;;?
  wrap_fs (fcall (Chmod grantsPath 448))
    (λ e, errorf "seal receiver authorization grant directory: %w" [FErr e]) ;;?
  wrap_fs (fcall (Chmod stagingPath 448))
    (λ e, errorf "seal receiver authorization generation: %w" [FErr e]) ;;?
  wrap_fs (fcall (Rename stagingPath finalPath))
    (λ e, errorf "publish receiver authorization generation: %w" [FErr e]).

(** [src/internal/receiverauthorization/snapshot.go:276-318 materializeGeneration] *)
Definition materializeGeneration (m : module) (gs : list grant) (snapshotID manifest : string) : fs goerr :=
  let finalPath := generationPath m snapshotID in
  info ← fcall (Lstat finalPath);
  match info with
  | Ok _ => validateGeneration finalPath gs snapshotID manifest
  | Err e =>
      if negb (IsNotExist e) then
        Ret (Some (errorf "stat receiver authorization generation: %w" [FErr e]))
      else
      stagingPath ← fcall (MkdirTemp (generationsRoot m) ".staging-");
      match stagingPath with
      | Err e => Ret (Some (errorf "create receiver authorization staging generation: %w" [FErr e]))
      | Ok stagingPath =>
          returnErr ← stage_generation stagingPath finalPath gs manifest;
          removeErr ← fcall (RemoveAll stagingPath);
          Ret (errors_Join [returnErr; removeErr])
      end
  end.

(** [src/internal/receiverauthorization/snapshot.go:370-387 commitManifest] With the temporary
    file. *)
Definition commit_file (m : module) (temporaryPath data : string) : fs goerr :=
  chmodErr ← fcall (FileChmod temporaryPath 384);
  match chmodErr with
  | Some e =>
      closeErr ← fcall (FileClose temporaryPath);
      Ret (errors_Join [Some (errorf "set receiver authorization manifest mode: %w" [FErr e]); closeErr])
  | None =>
  writeErr ← fcall (FileWrite temporaryPath data);
  match writeErr with
  | Some e =>
      closeErr ← fcall (FileClose temporaryPath);
      Ret (errors_Join [Some (errorf "write receiver authorization manifest: %w" [FErr e]); closeErr])
  | None =>
      wrap_fs (fcall (FileClose temporaryPath))
        (λ e, errorf "close receiver authorization manifest: %w" [FErr e]) ;;?
      wrap_fs (fcall (Rename temporaryPath (manifestPath m)))
        (λ e, errorf "commit receiver authorization manifest: %w" [FErr e])
  end end.

(** [src/internal/receiverauthorization/snapshot.go:359-388 commitManifest] *)
Definition commitManifest (m : module) (data : string) : fs goerr :=
  file ← fcall (CreateTemp (Dir (manifestPath m)) ".authorized_keys-");
  match file with
  | Err e => Ret (Some (errorf "create receiver authorization manifest: %w" [FErr e]))
  | Ok temporaryPath =>
      returnErr ← commit_file m temporaryPath data;
      removeErr ← fcall (Remove temporaryPath);
      Ret (match removeErr with
           | Some e => if IsNotExist e then returnErr else errors_Join [returnErr; Some e]
           | None => returnErr
           end)
  end.

(** [src/internal/receiverauthorization/snapshot.go:396-408 cleanupRetiredGenerations] *)
Fixpoint remove_retired (m : module) (activeID : string) (entries : list DirEntry) : fs (list goerr) :=
  match entries with
  | [] => Ret []
  | entry :: rest =>
      if de_name entry ≟ activeID then remove_retired m activeID rest
      else
        e ← wrap_fs (removeGeneration (JoinPath [generationsRoot m; de_name entry]))
              (λ e, errorf "remove retired receiver authorization generation %q: %w" [FStr (de_name entry); FErr e]);
        errs ← remove_retired m activeID rest;
        Ret (e :: errs)
  end.

(** [src/internal/receiverauthorization/snapshot.go:390-410 cleanupRetiredGenerations] *)
Definition cleanupRetiredGenerations (m : module) (activeID : string) : fs goerr :=
  entries ← fcall (ReadDir (generationsRoot m));
  match entries with
  | Err e => Ret (Some (errorf "list retired receiver authorization generations: %w" [FErr e]))
  | Ok entries => errs ← remove_retired m activeID entries; Ret (errors_Join errs)
  end.

(** ** Publication *)

(** [src/internal/receiverauthorization/snapshot.go:182-207 activate] Once the snapshot has its
    identity: whether it changed the manifest, and the warning. *)
Definition activate_snapshot (m : module) (gs : list grant) (snapshotID manifest : string)
  : fs (result (bool * goerr)) :=
  active ← readActiveManifest (manifestPath m);
  let publish :=
    checked (materializeGeneration m gs snapshotID manifest)
      (checked (commitManifest m manifest)
        (warning ← cleanupRetiredGenerations m snapshotID; Ret (Ok (true, warning)))) in
  match active with
  | Ok (activeID, activeManifest) =>
      if activeID ≟ snapshotID then
        if activeManifest ≠? manifest then
          Ret (Err (errorf "active receiver authorization manifest content mismatch" []))
        else
          checked (wrap_fs (validateGeneration (generationPath m snapshotID) gs snapshotID manifest)
                    (λ e, errorf "validate active receiver authorization generation: %w" [FErr e]))
            (warning ← cleanupRetiredGenerations m snapshotID; Ret (Ok (false, warning)))
      else publish
  | Err e => if IsNotExist e then publish else Ret (Err e)
  end.

(** [src/internal/receiverauthorization/snapshot.go:164-208 activate] *)
Definition activate (m : module) (gs : list grant) : fs (result (bool * goerr)) :=
  checked (Ret (validateManifestPath (manifestPath m)))
  (checked (ensureManifestParent (manifestPath m))
  (checked (ensurePrivateDir (runtimeRoot m))
  (checked (ensurePrivateDir (generationsRoot m))
  (match canonicalSnapshot gs with
   | Err e => Ret (Err e)
   | Ok (gs, snapshotID) =>
       match renderManifest gs snapshotID with
       | Err e => Ret (Err e)
       | Ok manifest => activate_snapshot m gs snapshotID manifest
       end
   end)))).

(** [src/internal/receiverauthorization/snapshot.go:62-92 activeUsable] *)
Definition activeUsable (m : module) : fs goerr :=
  active ← readActiveManifest (manifestPath m);
  match active with
  | Err e => Ret (Some e)
  | Ok (snapshotID, _) =>
      gs ← readGenerationGrants (generation_grants (generationPath m snapshotID));
      match gs with
      | Err e => Ret (Some e)
      | Ok gs =>
          match canonicalSnapshot gs with
          | Err e => Ret (Some e)
          | Ok (canonicalGrants, canonicalID) =>
              if canonicalID ≠? snapshotID then
                Ret (Some (errorf "active receiver authorization grant set does not match snapshot" []))
              else match renderManifest canonicalGrants snapshotID with
              | Err e => Ret (Some e)
              | Ok expectedManifest =>
                  activeManifest ← readSafeRegularFile (manifestPath m) "receiver authorization manifest";
                  match activeManifest with
                  | Err e => Ret (Some e)
                  | Ok activeManifest =>
                      if activeManifest ≠? expectedManifest then
                        Ret (Some (errorf "active receiver authorization manifest content mismatch" []))
                      else validateGeneration (generationPath m snapshotID) canonicalGrants snapshotID expectedManifest
                  end
              end
          end
      end
  end.

Section publication.
Context `{SSHKeys} `{UnicodeTables}.
Context (range : gmap string (list nat) → list (string * list nat)).

(** [src/internal/receiverauthorization/snapshot.go:108-127 Replace] With the lapses observed
    before and after. *)
Definition ReplaceSnapshot (m : module) (lapsed : gset string) (candidates : list Candidate)
  : fs ((Activation + publication_error) * gset string) :=
  now ← fcall Clock;
  let '(compiled, lapsed) := replace_view range lapsed now candidates in
  activation ← activate m (grants compiled);
  match activation with
  | Err e =>
      usable ← activeUsable m;
      Ret (inr {| pub_error := e; pub_usable := Some (bool_decide (usable = None)) |}, lapsed)
  | Ok (changed, warning) =>
      Ret (inl {| Changed := changed; Warning := warning;
                  NextDeadline := nextLeaseDeadline (grants compiled);
                  act_outcomes := outcomes compiled |}, lapsed)
  end.

End publication.

(** ** Admission *)

(** [src/internal/receiverauthorization/authorization.go:121-141 requireActiveSnapshot] *)
Definition requireActiveSnapshot (m : module) (expected : string) : fs goerr :=
  active ← readActiveManifest (manifestPath m);
  match active with
  | Err e => Ret (Some (errorf "read active receiver authorization snapshot: %w" [FErr e]))
  | Ok (active, manifest) =>
      if active ≠? expected then
        Ret (Some (errorf "receiver authorization snapshot is not active" []))
      else
      let path := generationPath m active in
      requireSafeGenerationDirectory [Dir (manifestPath m); runtimeRoot m; generationsRoot m; path] ;;?
      (generationManifest ← readSafeRegularFile (generation_manifest path)
                              "receiver authorization generation manifest";
       match generationManifest with
       | Err e => Ret (Some e)
       | Ok generationManifest =>
           refuse_if (manifest ≠? generationManifest)
             (errorf "active receiver authorization manifest content mismatch" [])
       end)
  end.

Section admission.
Context `{SSHKeys} `{UnicodeTables}.

(** [src/internal/receiverauthorization/authorization.go:237-277 readGrantPolicy] *)
Definition readGrantPolicy (path expectedGrantID : string) (now : time) : fs (result commandPolicy) :=
  info ← fcall (Lstat path);
  match info with
  | Err e => Ret (Err (errorf "stat receiver grant: %w" [FErr e]))
  | Ok info =>
      if is_symlink info then Ret (Err (errorf "receiver grant must not be a symlink" []))
      else if fi_type info ≠? Regular then Ret (Err (errorf "receiver grant must be a regular file" []))
      else if loose info then Ret (Err (errorf "receiver grant must not be group or world writable" []))
      else
      data ←? wrap_result (fcall (ReadFile path)) (λ e, errorf "read receiver grant: %w" [FErr e]);
      Ret (g ← wrap_err (decodeGrant data) (λ e, errorf "parse receiver grant: %w" [FErr e]);
           fail_if (grantID (g_TaskUID g) ≠? expectedGrantID)
             (errorf "receiver grant identity does not match reference" []);;
           wrap_err (validateGrant now g) (λ e, errorf "validate receiver grant: %w" [FErr e]);;
           Ok (grant_policy g))
  end.

(** [src/internal/receiverauthorization/authorization.go:81-119 Admit] *)
Definition Admit (m : module) (reference : Reference) (originalCommand : string)
  : fs (result receiverCommandPlan) :=
  let grantDir := generation_grants (generationPath m (ref_snapshotID reference)) in
  checked (Ret (validateManifestPath (manifestPath m)))
  (checked (requireActiveSnapshot m (ref_snapshotID reference))
  (checked (requireSafeGenerationDirectory
              [Dir (manifestPath m); runtimeRoot m; generationsRoot m;
               generationPath m (ref_snapshotID reference); grantDir])
  (checked (verifySnapshotGrantSet grantDir (ref_snapshotID reference))
  (match grantPathForID grantDir (ref_grantID reference) with
   | Err e => Ret (Err e)
   | Ok grantPath =>
       now ← fcall Clock;
       policy ←? readGrantPolicy grantPath (ref_grantID reference) now;
       if TrimSpace originalCommand ≟ "" then Ret (Err (errorf "missing SSH_ORIGINAL_COMMAND" []))
       else match authorizeReceiverCommand originalCommand policy with
       | Err e => Ret (Err (errorf "receiver command denied: %w" [FErr e]))
       | Ok command =>
           checked (requireActiveSnapshot m (ref_snapshotID reference)) (Ret (Ok command))
       end
   end)))).

End admission.
