(* ===== verification/MemoryFS.v ===== *)
(** * A file system in memory

    One concrete environment of the file operations: the objects by their clean
    absolute paths, with the permissions of a single owner. It shows that the
    programs over these operations do their work, and supplies executions. *)
From S2P Require Import Prelude GoStrings StringOrder GoErrors GoTime Effects FileSystem ReceiverModule.
Local Open Scope Z_scope.

Inductive node :=
  | File (perm : Z) (data : string)
  | Folder (perm : Z)
  | Link.

Record memory := { nodes : gmap string node; instant : time }.

Definition missing : error := osError ErrNotExist "no such file or directory".
Definition exists_already : error := osError OtherOS "file exists".
Definition not_a_file : error := osError OtherOS "is a directory".

Definition info_of (n : node) : FileInfo :=
  match n with
  | File perm _ => {| fi_type := Regular; fi_perm := perm; fi_uid := Some 0 |}
  | Folder perm => {| fi_type := Directory; fi_perm := perm; fi_uid := Some 0 |}
  | Link => {| fi_type := Symlink; fi_perm := 511; fi_uid := Some 0 |}
  end.

Definition look (p : string) (s : memory) : option node :=
  if p ≟ "/" then Some (Folder 493) else nodes s !! p.

Definition below (p k : string) : bool := HasPrefix k (p +:+ "/").

Definition with_nodes (f : gmap string node → gmap string node) (s : memory) : memory :=
  {| nodes := f (nodes s); instant := instant s |}.

Definition set_perm (perm : Z) (n : node) : node :=
  match n with File _ d => File perm d | Folder _ => Folder perm | Link => Link end.

Definition append_data (data : string) (n : node) : node :=
  match n with File perm d => File perm (d +:+ data) | _ => n end.

(** The entries of a directory, by name. *)
Definition entries_of (p : string) (s : memory) : list DirEntry :=
  merge_sort (by_key de_name)
    (omap (λ kn : string * node, if Dir kn.1 ≟ p
       then Some {| de_name := Base kn.1; de_dir := match kn.2 with Folder _ => true | _ => false end |}
       else None) (map_to_list (nodes s))).

(** A tree under its new name. *)
Definition move (old new : string) (m : gmap string node) : gmap string node :=
  foldr (λ (kn : string * node) acc,
    if kn.1 ≟ old then <[new := kn.2]> (delete old acc)
    else if below old kn.1 then <[new +:+ str_drop (String.length old) kn.1 := kn.2]> (delete kn.1 acc)
    else acc) m (map_to_list m).

Definition changed {A} (p : string) (s : memory) (f : gmap string node → gmap string node) (err : error → A) (ok : A)
  : A * memory :=
  match look p s with None => (err missing, s) | Some _ => (ok, with_nodes f s) end.

Definition created {A} (p : string) (n : node) (s : memory) (err : error → A) (ok : A) : A * memory :=
  match look p s with
  | Some _ => (err exists_already, s)
  | None => match look (Dir p) s with
            | Some (Folder _) => (ok, with_nodes <[p := n]> s)
            | _ => (err missing, s)
            end
  end.

Definition serve_fs (o : fs_op) (s : memory) : fs_ans o * memory :=
  match o return fs_ans o * memory with
  | Lstat p => (match look p s with Some n => Ok (info_of n) | None => Err missing end, s)
  | ReadFile p => (match look p s with
                   | Some (File _ d) => Ok d | Some _ => Err not_a_file | None => Err missing end, s)
  | ReadDir p => (match look p s with
                  | Some (Folder _) => Ok (entries_of p s)
                  | Some _ => Err (osError OtherOS "not a directory") | None => Err missing end, s)
  | MkdirAll p perm => (None, with_nodes (λ m, foldr (λ q acc,
      match acc !! q with Some _ => acc | None => <[q := Folder perm]> acc end) m
      (path_chain (S (String.length p)) p)) s)
  | Mkdir p perm => created p (Folder perm) s Some None
  | MkdirTemp dir pattern => let p := JoinPath [dir; pattern +:+ "1"] in created p (Folder 448) s Err (Ok p)
  | CreateTemp dir pattern => let p := JoinPath [dir; pattern +:+ "1"] in created p (File 384 "") s Err (Ok p)
  | OpenNew p perm => created p (File perm "") s Some None
  | FileChmod p perm | Chmod p perm => changed p s (alter (set_perm perm) p) Some None
  | FileWrite p data => changed p s (alter (append_data data) p) Some None
  | FileClose _ => (None, s)
  | Rename old new => changed old s (move old new) Some None
  | WriteFile p data perm => (None, with_nodes (alter (λ _, File perm data) p ∘
      (λ m, match m !! p with Some _ => m | None => <[p := File perm data]> m end)) s)
  | Remove p => changed p s (delete p) Some None
  | RemoveAll p => (None, with_nodes (filter (λ kn, kn.1 ≠ p ∧ below p kn.1 = false)) s)
  | Clock => (instant s, s)
  end.

(** Run a program on it. *)
Definition run_fs {A} (p : fs A) (s : memory) : list fevent * A * memory := run_with (E := FS) serve_fs p s.

Lemma run_fs_exec {A} (p : fs A) s : exec p (run_fs p s).1.1 (run_fs p s).1.2.
Proof.
  pose proof (run_with_exec (E := FS) serve_fs p s) as Hx. unfold run_fs.
  by destruct (run_with _ p s) as [[tr a] s'].
Qed.

(** The same at a later time. *)
Definition at_instant (t : time) (s : memory) : memory := {| nodes := nodes s; instant := t |}.

Definition empty_memory : memory := {| nodes := ∅; instant := 0 |}.

Example directories_and_files :
  let '(_, r, s) := run_fs (fcall (MkdirAll "/run/a" 448) ;;? writeNewFile "/run/a/f" "text" 256 ;;?
                            fcall (Rename "/run/a" "/run/b")) empty_memory in
  r = None ∧ (run_fs (readSafeRegularFile "/run/b/f" "file") s).1.2 = Ok "text" ∧
  (run_fs (fcall (ReadDir "/run")) s).1.2 = Ok [{| de_name := "b"; de_dir := true |}] ∧
  (run_fs (fcall (Lstat "/run/a/f")) s).1.2 = Err missing.
Proof. vm_compute. by split_and!. Qed.
