(* ===== verification/ReceiverAdmission.v ===== *)
(** * Admission of a forced command

    What an admitted command rests on, for arbitrary answers of the file system, and
    what is admitted on a file system that holds a published generation. *)
From S2P Require Import Prelude GoStrings StringOrder Sha256 GoErrors GoTime Utf8 Json JsonRoundtrip Api Replication Names Syncoid Ssh ReceiverCommand ReceiverGrant GrantJson ReceiverSnapshot Effects Kube ReceiverController FileSystem ReceiverModule MemoryFS.
Local Open Scope Z_scope.

(** ** Reading *)

(** A file and a directory that only their owner writes. *)
Definition safe_file (info : FileInfo) : Prop := fi_type info = Regular ∧ loose info = false.
Definition safe_dir (info : FileInfo) : Prop := fi_type info = Directory ∧ loose info = false.

(** What was read, from a safe file, and which directories were found safe. *)
Definition read_safely (tr : list fevent) (path data : string) : Prop :=
  seen (E := FS) tr (ReadFile path) (Ok data) ∧
  ∃ info, seen (E := FS) tr (Lstat path) (Ok info) ∧ safe_file info.

Definition found_safe (tr : list fevent) (path : string) : Prop :=
  ∃ info, seen (E := FS) tr (Lstat path) (Ok info) ∧ safe_dir info.

Lemma seen_within {E} (t u v : list (event E)) o x : seen u o x → seen (t ++ u ++ v) o x.
Proof. unfold seen. rewrite !elem_of_app. naive_solver. Qed.

Lemma read_safely_within t u v path data : read_safely u path data → read_safely (t ++ u ++ v) path data.
Proof. intros (Hr & info & Hl & Hs). split; [by apply seen_within|]. exists info. split; [by apply seen_within|done]. Qed.

Lemma found_safe_within t u v path : found_safe u path → found_safe (t ++ u ++ v) path.
Proof. intros (info & Hl & Hs). exists info. split; [by apply seen_within|done]. Qed.

Lemma dir_checks info :
  is_symlink info || negb (IsDir info) || loose info = false → safe_dir info.
Proof.
  unfold IsDir. rewrite !orb_false_iff, negb_false_iff, bool_decide_eq_true. intros [[_ Hd] Hl]. done.
Qed.

Lemma rejectSymlink_only path : only (E := FS) reads (rejectSymlinkPathComponents path).
Proof. unfold rejectSymlinkPathComponents. prove_only. Qed.
#[export] Hint Resolve rejectSymlink_only : only.

Lemma requireSafe_only paths : only (E := FS) reads (requireSafeGenerationDirectory paths).
Proof. unfold requireSafeGenerationDirectory. prove_only. Qed.
#[export] Hint Resolve requireSafe_only : only.

Lemma readSafe_only path name : only (E := FS) reads (readSafeRegularFile path name).
Proof. unfold readSafeRegularFile. prove_only. Qed.
#[export] Hint Resolve readSafe_only : only.

Lemma read_grants_only dir entries : only (E := FS) reads (read_grants dir entries).
Proof. induction entries; cbn [read_grants]; [done|]. unfold read_grant. prove_only. Qed.
#[export] Hint Resolve read_grants_only : only.

Lemma readGenerationGrants_only dir : only (E := FS) reads (readGenerationGrants dir).
Proof. unfold readGenerationGrants. prove_only. Qed.
#[export] Hint Resolve readGenerationGrants_only : only.

Lemma requireActive_only m id : only (E := FS) reads (requireActiveSnapshot m id).
Proof. unfold requireActiveSnapshot, readActiveManifest. prove_only. Qed.
#[export] Hint Resolve requireActive_only : only.

Lemma readSafe_exec path name tr data :
  exec (readSafeRegularFile path name) tr (Ok data) → read_safely tr path data.
Proof.
  unfold readSafeRegularFile. rewrite exec_bind_result. intros (t1 & t2 & info & -> & H1 & H2).
  exec_call H1 as ->.
  destruct (is_symlink info); [by apply exec_Ret in H2 as [_ ?]|].
  destruct (fi_type info ≟ Regular) eqn:Ht; cbn [negb] in H2; [|by apply exec_Ret in H2 as [_ ?]].
  apply bool_decide_eq_true in Ht.
  destruct (loose info) eqn:El; [by apply exec_Ret in H2 as [_ ?]|].
  exec_call H2 as ->. split; [by right; left|]. exists info. split; [by left|done].
Qed.

Lemma requireSafe_exec paths tr :
  exec (requireSafeGenerationDirectory paths) tr None → Forall (found_safe tr) paths.
Proof.
  apply exec_each; [|intros; by apply found_safe_within].
  intros t path. rewrite exec_then_err. intros (t1 & t2 & -> & _ & Hx).
  exec_call Hx as (x & t3 & -> & Hx). apply exec_Ret in Hx as [-> Hx].
  destruct x as [info|]; [|done]. destruct (_ || _) eqn:E; [done|]. apply dir_checks in E.
  exists info. split; [|done]. apply elem_of_app. right. by left.
Qed.

(** The file of a grant. *)
Definition grant_name (g : grant) : string := grantID (g_TaskUID g) +:+ ".json".
Definition grant_file (dir : string) (g : grant) : string := JoinPath [dir; grant_name g].

(** A grant read from its file, and a directory read back as those grants. *)
Definition read_as (tr : list fevent) (dir : string) (g : grant) : Prop :=
  ∃ data, read_safely tr (grant_file dir g) data ∧ decodeGrant data = Ok g.

Definition read_back (tr : list fevent) (dir : string) (gs : list grant) : Prop :=
  (∃ entries, seen (E := FS) tr (ReadDir dir) (Ok entries) ∧ de_name <$> entries = grant_name <$> gs) ∧
  Forall (read_as tr dir) gs.

Lemma read_as_within t u v dir g : read_as u dir g → read_as (t ++ u ++ v) dir g.
Proof. intros (data & Hr & Hd). exists data. split; [by apply read_safely_within|done]. Qed.

Lemma read_back_within t u v dir gs : read_back u dir gs → read_back (t ++ u ++ v) dir gs.
Proof.
  intros [(es & Hs & He) Hg]. split.
  - exists es. split; [by apply seen_within|done].
  - eapply Forall_impl; [exact Hg|]. intros g. apply read_as_within.
Qed.

Lemma read_grant_exec dir entry tr g :
  exec (read_grant dir entry) tr (Ok g) → de_name entry = grant_name g ∧ read_as tr dir g.
Proof.
  unfold read_grant. destruct (_ || _) eqn:E; [by intros [_ ?]%exec_Ret|].
  apply orb_false_iff in E as [_ Hs%negb_false_iff]. apply HasSuffix_spec in Hs as (id & ->).
  rewrite TrimSuffix_app. destruct (negb (validGrantID id)); [by intros [_ ?]%exec_Ret|].
  rewrite exec_bind_result. intros (t1 & t2 & data & -> & Hr%readSafe_exec & [-> Hg]%exec_Ret).
  apply bind_Ok in Hg as (g' & Hd%wrap_err_Ok & [Hid%negb_false_iff%bool_decide_eq_true [= <-]]%guard_Ok).
  unfold grant_name. rewrite Hid. split; [done|]. exists data. rewrite app_nil_r.
  split; [|done]. unfold grant_file, grant_name. by rewrite Hid.
Qed.

Lemma read_grants_exec dir entries tr gs :
  exec (read_grants dir entries) tr (Ok gs) →
  de_name <$> entries = grant_name <$> gs ∧ Forall (read_as tr dir) gs.
Proof.
  revert tr gs. induction entries as [|entry rest IH]; intros tr gs; cbn [read_grants].
  { by intros [-> [= <-]]%exec_Ret. }
  rewrite exec_bind_result. intros (t1 & t2 & g & -> & [Hn Hg]%read_grant_exec & Hx).
  apply exec_bind_result in Hx as (t3 & t4 & gs' & -> & [Hns Hgs]%IH & [-> [= <-]]%exec_Ret).
  cbn [fmap list_fmap]. rewrite Hn, Hns. split; [done|]. constructor.
  - apply (read_as_within [] t1), Hg.
  - rewrite app_nil_r. eapply Forall_impl; [exact Hgs|]. intros g' Hg'.
    rewrite <- (app_nil_r t3). by apply read_as_within.
Qed.

Lemma readGenerationGrants_exec dir tr gs :
  exec (readGenerationGrants dir) tr (Ok gs) → read_back tr dir gs.
Proof.
  unfold readGenerationGrants. rewrite exec_checked. intros (t1 & t2 & -> & _ & Hx).
  apply exec_bind_result in Hx as (t3 & t4 & entries & -> & Hd%exec_wrap_result & [Hn Hg]%read_grants_exec).
  exec_call Hd as ->. split.
  - exists entries. split; [|done]. apply elem_of_app. right. by left.
  - eapply Forall_impl; [exact Hg|]. intros g Hr.
    apply (read_as_within (t1 ++ [Event (E := FS) (ReadDir dir) (Ok entries)]) t4 []) in Hr.
    by rewrite app_nil_r, <- app_assoc in Hr.
Qed.

Lemma verifySnapshotGrantSet_exec dir id tr :
  exec (verifySnapshotGrantSet dir id) tr None →
  ∃ gs cgs, read_back tr dir gs ∧ canonicalSnapshot gs = Ok (cgs, id).
Proof.
  intros Hx. apply exec_bind in Hx as (t1 & t2 & [gs|e] & -> & Hr & Hx); [|by apply exec_Ret in Hx as [_ ?]].
  destruct (canonicalSnapshot gs) as [[cgs id']|] eqn:Hc; [|by apply exec_Ret in Hx as [_ ?]].
  apply exec_refuse_if in Hx as [-> <-%negb_false_iff%bool_decide_eq_true].
  exists gs, cgs. rewrite app_nil_r. split; [by apply readGenerationGrants_exec|done].
Qed.

(** ** The active snapshot *)

(** The active manifest and that of its generation were read, alike, and the
    directories above them found safe. *)
Definition active_read (tr : list fevent) (m : module) (id manifest : string) : Prop :=
  read_safely tr (manifestPath m) manifest ∧ parseManifestSnapshotID manifest = Ok id ∧
  read_safely tr (generation_manifest (generationPath m id)) manifest ∧
  Forall (found_safe tr) [Dir (manifestPath m); runtimeRoot m; generationsRoot m; generationPath m id].

Lemma active_read_within t u v m id manifest : active_read u m id manifest → active_read (t ++ u ++ v) m id manifest.
Proof.
  intros (H1 & H2 & H3 & H4). split_and!; [by apply read_safely_within|done|by apply read_safely_within|].
  eapply Forall_impl; [exact H4|]. intros p. apply found_safe_within.
Qed.

Lemma readActiveManifest_exec path tr id manifest :
  exec (readActiveManifest path) tr (Ok (id, manifest)) →
  read_safely tr path manifest ∧ parseManifestSnapshotID manifest = Ok id.
Proof.
  unfold readActiveManifest. rewrite exec_bind_result.
  intros (t1 & t2 & data & -> & Hr%readSafe_exec & [-> Hp]%exec_Ret).
  apply bind_Ok in Hp as (id' & Hp & [= -> ->]). by rewrite app_nil_r.
Qed.

Lemma requireActive_exec m id tr :
  exec (requireActiveSnapshot m id) tr None → ∃ manifest, active_read tr m id manifest.
Proof.
  intros Hx. apply exec_bind in Hx as (t1 & t2 & [[id' manifest]|e] & -> & Hr & Hx);
    [|by apply exec_Ret in Hx as [_ ?]].
  apply readActiveManifest_exec in Hr as [Hr Hp].
  destruct (id' ≠? id) eqn:E; [by apply exec_Ret in Hx as [_ ?]|].
  apply negb_false_iff, bool_decide_eq_true in E as ->.
  cbv zeta in Hx. apply exec_then_err in Hx as (t3 & t4 & -> & Hd%requireSafe_exec & Hx).
  apply exec_bind in Hx as (t5 & t6 & [gm|e] & -> & Hg & Hx); [|by apply exec_Ret in Hx as [_ ?]].
  apply exec_refuse_if in Hx as [-> <-%negb_false_iff%bool_decide_eq_true]. apply readSafe_exec in Hg.
  exists manifest. rewrite app_nil_r. split_and!; [by apply (read_safely_within [] t1)|done|..].
  - apply (read_safely_within (t1 ++ t3) t5 []) in Hg. by rewrite app_nil_r, <- app_assoc in Hg.
  - eapply Forall_impl; [exact Hd|]. intros p. apply found_safe_within.
Qed.

(** ** Admission *)

Section admission.
Context `{SSHKeys} `{UnicodeTables}.

Lemma readGrantPolicy_exec path id now tr policy :
  exec (readGrantPolicy path id now) tr (Ok policy) →
  ∃ data g, read_safely tr path data ∧ decodeGrant data = Ok g ∧ grantID (g_TaskUID g) = id ∧
            validateGrant now g = Ok tt ∧ policy = grant_policy g.
Proof.
  intros Hx. unfold readGrantPolicy in Hx. exec_call Hx as (info & t1 & -> & Hx).
  destruct info as [info|]; [|by apply exec_Ret in Hx as [_ ?]].
  destruct (is_symlink info); [by apply exec_Ret in Hx as [_ ?]|].
  destruct (fi_type info ≠? Regular) eqn:Ht; [by apply exec_Ret in Hx as [_ ?]|].
  apply negb_false_iff, bool_decide_eq_true in Ht.
  destruct (loose info) eqn:El; [by apply exec_Ret in Hx as [_ ?]|].
  apply exec_bind_result in Hx as (t2 & t3 & data & -> & Hr%exec_wrap_result & [-> Hg]%exec_Ret).
  exec_call Hr as ->. apply bind_Ok in Hg as (g & Hd%wrap_err_Ok & Hg).
  rewrite guard_Ok in Hg. destruct Hg as [Hid%negb_false_iff%bool_decide_eq_true Hg].
  rewrite seq_Ok, wrap_err_Ok in Hg. destruct Hg as [Hv [= <-]].
  exists data, g. split_and!; [|done..]. split; [by right; left|]. exists info. split; [by left|done].
Qed.

Lemma Admit_only m ref command : only (E := FS) reads (Admit m ref command).
Proof. unfold Admit, verifySnapshotGrantSet, readGrantPolicy. prove_only. Qed.

(** The steps of an admission, in their order. *)
Lemma Admit_exec m ref command tr plan :
  exec (Admit m ref command) tr (Ok plan) →
  ∃ t1 t2 now policy path,
    tr = t1 ++ t2 ∧
    (∃ t3 t4 t5, t1 = t3 ++ t4 ++ Event (E := FS) Clock now :: t5 ∧
       exec (requireActiveSnapshot m (ref_snapshotID ref)) t3 None ∧
       (∃ t6 t7, t4 = t6 ++ t7 ∧ exec (verifySnapshotGrantSet
          (generation_grants (generationPath m (ref_snapshotID ref))) (ref_snapshotID ref)) t7 None) ∧
       exec (readGrantPolicy path (ref_grantID ref) now) t5 (Ok policy)) ∧
    grantPathForID (generation_grants (generationPath m (ref_snapshotID ref))) (ref_grantID ref) = Ok path ∧
    authorizeReceiverCommand command policy = Ok plan ∧
    exec (requireActiveSnapshot m (ref_snapshotID ref)) t2 None.
Proof.
  unfold Admit. rewrite exec_checked. intros (t0 & ta & -> & [-> _]%exec_Ret & Hx).
  apply exec_checked in Hx as (t3 & tb & -> & Hact & Hx).
  apply exec_checked in Hx as (t6 & tc & -> & _ & Hx).
  apply exec_checked in Hx as (t7 & td & -> & Hver & Hx).
  destruct (grantPathForID _ _) as [path|] eqn:Hpath; [|by apply exec_Ret in Hx as [_ ?]].
  exec_call Hx as (now & te & -> & Hx).
  apply exec_bind_result in Hx as (t5 & tf & policy & -> & Hpol & Hx).
  destruct (TrimSpace command ≟ ""); [by apply exec_Ret in Hx as [_ ?]|].
  destruct (authorizeReceiverCommand command policy) as [plan'|] eqn:Ha; [|by apply exec_Ret in Hx as [_ ?]].
  apply exec_checked in Hx as (t2 & tg & -> & Hre & [-> [= ->]]%exec_Ret).
  exists (t3 ++ (t6 ++ t7) ++ Event (E := FS) Clock now :: t5), t2, now, policy, path.
  rewrite app_nil_r. split; [by rewrite <- !app_assoc|]. split; [|done].
  exists t3, (t6 ++ t7), t5. split_and!; [done|done| |done]. by exists t6, t7.
Qed.

(** What was read in one part was read in the whole. *)
Lemma listed_alike tr dir gs g data :
  read_back tr dir gs → grant_name g ∈ grant_name <$> gs →
  seen (E := FS) tr (ReadFile (grant_file dir g)) (Ok data) → decodeGrant data = Ok g →
  (∀ d d', seen (E := FS) tr (ReadFile (grant_file dir g)) (Ok d) →
           seen (E := FS) tr (ReadFile (grant_file dir g)) (Ok d') → d = d') →
  g ∈ gs.
Proof.
  intros [_ Hgs] (g' & Hn & Hg')%list_elem_of_fmap Hs Hd Hfun.
  rewrite Forall_forall in Hgs. destruct (Hgs _ Hg') as (data' & [Hs' _] & Hd').
  assert (grant_file dir g' = grant_file dir g) as E by (unfold grant_file; by rewrite Hn).
  rewrite E in Hs'. assert (data' = data) as -> by eauto. assert (g' = g) as -> by congruence. done.
Qed.

Lemma grantPathForID_Ok dir id path :
  grantPathForID dir id = Ok path → validGrantID id = true ∧ path = JoinPath [dir; id +:+ ".json"].
Proof. unfold grantPathForID. destruct (validGrantID id); cbn [negb]; split; congruence. Qed.

(** C6. An admission changes nothing on the file system, and admits a command only
    under a grant that was read, unexpired, from the generation of the snapshot the
    reference names: that snapshot is active both before and after, its grants give
    its identity, and the plan is what the grant's policy authorizes. The grant is one
    of those unless its file was not listed or changed in between. *)
Theorem admit_sound m ref command tr plan (dir := generation_grants (generationPath m (ref_snapshotID ref))) :
  exec (Admit m ref command) tr (Ok plan) →
  Forall (λ ev, reads (ev_op (E := FS) ev)) tr ∧
  ∃ t1 t2 manifest manifest' gs cgs now g,
    tr = t1 ++ t2 ∧ active_read t1 m (ref_snapshotID ref) manifest ∧
    active_read t2 m (ref_snapshotID ref) manifest' ∧
    read_back t1 dir gs ∧ canonicalSnapshot gs = Ok (cgs, ref_snapshotID ref) ∧
    seen (E := FS) t1 Clock now ∧ read_as t1 dir g ∧ grantID (g_TaskUID g) = ref_grantID ref ∧
    now < g_ExpiresAt g ∧ grant_valid now g ∧
    authorizeReceiverCommand command (grant_policy g) = Ok plan ∧
    (grant_name g ∈ grant_name <$> gs →
     (∀ d d', seen (E := FS) t1 (ReadFile (grant_file dir g)) (Ok d) →
              seen (E := FS) t1 (ReadFile (grant_file dir g)) (Ok d') → d = d') → g ∈ gs).
Proof.
  intros Hx. split; [exact (only_exec _ _ _ _ (Admit_only m ref command) Hx)|].
  apply Admit_exec in Hx as (t1 & t2 & now & policy & path & -> & Hx & Hpath & Ha & Hre).
  destruct Hx as (t3 & t4 & t5 & -> & Hact & (t6 & t7 & -> & Hver) & Hpol).
  apply requireActive_exec in Hact as [manifest Hact]. apply requireActive_exec in Hre as [manifest' Hre].
  apply verifySnapshotGrantSet_exec in Hver as (gs & cgs & Hback & Hc).
  apply readGrantPolicy_exec in Hpol as (data & g & Hr & Hd & Hid & Hv & ->).
  apply grantPathForID_Ok in Hpath as [_ Hpath]. fold dir in Hpath, Hback.
  assert (path = grant_file dir g) as -> by (unfold grant_file, grant_name; by rewrite Hid).
  apply validateGrant_Ok in Hv.
  assert (active_read (t3 ++ (t6 ++ t7) ++ Event (E := FS) Clock now :: t5) m (ref_snapshotID ref) manifest)
    as Hact' by (by apply (active_read_within [] t3)).
  assert (read_back (t3 ++ (t6 ++ t7) ++ Event (E := FS) Clock now :: t5) dir gs) as Hback'.
  { pose proof (read_back_within (t3 ++ t6) t7 (Event (E := FS) Clock now :: t5) _ _ Hback) as Hb.
    rewrite <- !app_assoc in Hb. by rewrite <- !app_assoc. }
  assert (read_safely (t3 ++ (t6 ++ t7) ++ Event (E := FS) Clock now :: t5) (grant_file dir g) data) as Hr'.
  { pose proof (read_safely_within (t3 ++ (t6 ++ t7) ++ [Event (E := FS) Clock now]) t5 [] _ _ Hr) as Hb.
    rewrite app_nil_r, <- !app_assoc in Hb. by rewrite <- !app_assoc. }
  eexists _, t2, manifest, manifest', gs, cgs, now, g.
  split; [reflexivity|]. split_and!; try done.
  - apply elem_of_app. right. apply elem_of_app. right. by left.
  - by exists data.
  - destruct Hv as (_ & _ & _ & _ & _ & _ & _ & Hx). lia.
  - intros Hin Hfun. by apply (listed_alike _ dir gs g data Hback' Hin (proj1 Hr') Hd).
Qed.

End admission.

(** ** On a file system that does not change *)

Section unchanging.
Context (answers : ∀ o : fs_op, fs_ans o).

(** The result of a program on it. *)
Definition on {A} (p : fs A) : A := evaluate (E := FS) answers p.

Definition readable (path data : string) : Prop :=
  answers (ReadFile path) = Ok data ∧ ∃ info, answers (Lstat path) = Ok info ∧ safe_file info.

Definition private (path : string) : Prop :=
  on (rejectSymlinkPathComponents path) = None ∧ ∃ info, answers (Lstat path) = Ok info ∧ safe_dir info.

(** The directory holds exactly these grants, each in its file. *)
Definition listed (dir : string) (gs : list grant) : Prop :=
  private dir ∧ ∃ entries, answers (ReadDir dir) = Ok entries ∧
  Forall2 (λ e g, de_dir e = false ∧ de_name e = grant_name g ∧
                  ∃ data, readable (grant_file dir g) data ∧ decodeGrant data = Ok g) entries gs.

Lemma on_bind {A B} (p : fs A) (f : A → fs B) : on (p ≫= f) = on (f (on p)).
Proof. apply evaluate_bind. Qed.

Lemma on_then_err p q : on (p ;;? q) = None ↔ on p = None ∧ on q = None.
Proof. unfold then_err. rewrite on_bind. destruct (on p); cbn; naive_solver. Qed.

Lemma on_bind_result {A B} (p : fs (result A)) (f : A → fs (result B)) b :
  on (bind_result p f) = Ok b ↔ ∃ a, on p = Ok a ∧ on (f a) = Ok b.
Proof. unfold bind_result. rewrite on_bind. destruct (on p); cbn; naive_solver. Qed.

Lemma on_checked {A} p (k : fs (result A)) a : on (checked p k) = Ok a ↔ on p = None ∧ on k = Ok a.
Proof. unfold checked. rewrite on_bind. destruct (on p); cbn; naive_solver. Qed.

Lemma on_each {A} (f : A → fs goerr) l : on (each f l) = None ↔ Forall (λ x, on (f x) = None) l.
Proof.
  induction l as [|x l IH]; cbn [each]; [by split|]. by rewrite on_then_err, IH, Forall_cons.
Qed.

Lemma on_refuse_if c e : on (refuse_if c e) = None ↔ c = false.
Proof. unfold refuse_if. cbn. destruct c; naive_solver. Qed.

Lemma safe_dir_iff info : is_symlink info || negb (IsDir info) || loose info = false ↔ safe_dir info.
Proof.
  split; [apply dir_checks|]. intros [Hd Hl]. unfold is_symlink, IsDir. by rewrite Hd, Hl.
Qed.

Lemma on_readSafe path name data : on (readSafeRegularFile path name) = Ok data ↔ readable path data.
Proof.
  unfold readSafeRegularFile, readable. rewrite on_bind_result. unfold safe_file. cbn. split.
  - intros (info & Hl & Hx). unfold is_symlink in Hx.
    destruct (fi_type info) eqn:Ht; cbn in Hx; try discriminate.
    destruct (loose info) eqn:El; [discriminate|]. split; [exact Hx|by exists info].
  - intros (Hr & info & Hl & Ht & El). exists info. split; [done|]. unfold is_symlink. by rewrite Ht, El.
Qed.

Lemma on_requireSafe paths : on (requireSafeGenerationDirectory paths) = None ↔ Forall private paths.
Proof.
  unfold requireSafeGenerationDirectory. rewrite on_each. apply Forall_iff. intros path.
  rewrite on_then_err. unfold private. unfold on at 2. cbn.
  destruct (answers (Lstat path)) as [info|]; [|naive_solver].
  destruct (is_symlink info || _ || _) eqn:E; [|apply safe_dir_iff in E; naive_solver].
  split; [naive_solver|]. intros (_ & info' & [= <-] & Hs). apply safe_dir_iff in Hs. congruence.
Qed.

Lemma on_read_grant dir e g :
  on (read_grant dir e) = Ok g ↔
  de_dir e = false ∧ de_name e = grant_name g ∧ ∃ data, readable (grant_file dir g) data ∧ decodeGrant data = Ok g.
Proof.
  unfold read_grant, grant_file, grant_name. split.
  - destruct (_ || _) eqn:E; [done|]. apply orb_false_iff in E as [Hd Hs%negb_false_iff].
    apply HasSuffix_spec in Hs as (id & ->). rewrite TrimSuffix_app.
    destruct (negb (validGrantID id)); [done|]. rewrite on_bind_result.
    intros (data & Hr%on_readSafe & Hg). cbn in Hg. apply bind_Ok in Hg as (g' & Hdec%wrap_err_Ok & Hg).
    rewrite guard_Ok in Hg. destruct Hg as [Hid%negb_false_iff%bool_decide_eq_true [= <-]].
    rewrite Hid. split_and!; [done..|]. by exists data.
  - intros (Hd & -> & data & Hr & Hdec). rewrite Hd, HasSuffix_app, TrimSuffix_app, validGrantID_grantID. cbn [negb orb].
    rewrite on_bind_result. exists data. split; [by apply on_readSafe|]. cbn.
    apply bind_Ok. exists g. split; [by apply wrap_err_Ok|]. by rewrite guard_Ok, bool_decide_true.
Qed.

Lemma on_read_grants dir entries gs :
  on (read_grants dir entries) = Ok gs ↔
  Forall2 (λ e g, de_dir e = false ∧ de_name e = grant_name g ∧
                  ∃ data, readable (grant_file dir g) data ∧ decodeGrant data = Ok g) entries gs.
Proof.
  revert gs. induction entries as [|e entries IH]; intros gs; cbn [read_grants].
  - split; [intros [= <-]; constructor|by intros ->%Forall2_nil_inv_l].
  - rewrite on_bind_result. split.
    + intros (g & Hg%on_read_grant & Hx). apply on_bind_result in Hx as (gs' & Hgs%IH & [= <-]). by constructor.
    + intros (g & gs' & Hg & Hgs & ->)%Forall2_cons_inv_l. exists g. split; [by apply on_read_grant|].
      apply on_bind_result. exists gs'. by split; [apply IH|].
Qed.

Lemma on_readGenerationGrants dir gs : on (readGenerationGrants dir) = Ok gs ↔ listed dir gs.
Proof.
  unfold readGenerationGrants, listed. rewrite on_checked, on_requireSafe, Forall_singleton, on_bind_result.
  unfold wrap_result. cbn. setoid_rewrite wrap_err_Ok. by setoid_rewrite on_read_grants.
Qed.

Lemma on_verify dir id :
  on (verifySnapshotGrantSet dir id) = None ↔
  ∃ gs cgs, listed dir gs ∧ canonicalSnapshot gs = Ok (cgs, id).
Proof.
  unfold verifySnapshotGrantSet. rewrite on_bind. split.
  - destruct (on (readGenerationGrants dir)) as [gs|] eqn:Hg; [|done]. apply on_readGenerationGrants in Hg.
    destruct (canonicalSnapshot gs) as [[cgs id']|] eqn:Hc; [|done].
    rewrite on_refuse_if, negb_false_iff, bool_decide_eq_true. intros <-. by exists gs, cgs.
  - intros (gs & cgs & Hg%on_readGenerationGrants & Hc). rewrite Hg, Hc, on_refuse_if. by rewrite bool_decide_true.
Qed.

Lemma on_readActiveManifest path id manifest :
  on (readActiveManifest path) = Ok (id, manifest) ↔
  readable path manifest ∧ parseManifestSnapshotID manifest = Ok id.
Proof.
  unfold readActiveManifest. rewrite on_bind_result. setoid_rewrite on_readSafe. split.
  - intros (data & Hr & Hp). cbn in Hp. apply bind_Ok in Hp as (id' & Hp & [= -> ->]). done.
  - intros [Hr Hp]. exists manifest. split; [done|]. cbn. by rewrite Hp.
Qed.

(** The snapshot is the active one: its manifest and that of its generation are the
    same, under directories of the owner. *)
Definition active (m : module) (id manifest : string) : Prop :=
  readable (manifestPath m) manifest ∧ parseManifestSnapshotID manifest = Ok id ∧
  Forall private [Dir (manifestPath m); runtimeRoot m; generationsRoot m; generationPath m id] ∧
  readable (generation_manifest (generationPath m id)) manifest.

Lemma on_requireActive m id :
  on (requireActiveSnapshot m id) = None ↔ ∃ manifest, active m id manifest.
Proof.
  unfold requireActiveSnapshot, active. rewrite on_bind. split.
  - destruct (on (readActiveManifest _)) as [[id' manifest]|] eqn:Hr; [|done].
    apply on_readActiveManifest in Hr as [Hr Hp].
    destruct (id' ≠? id) eqn:E; [done|]. apply negb_false_iff, bool_decide_eq_true in E as ->.
    rewrite on_then_err, on_requireSafe, on_bind. intros [Hd Hx].
    destruct (on (readSafeRegularFile _ _)) as [gm|] eqn:Hg; [|done]. apply on_readSafe in Hg.
    apply on_refuse_if, negb_false_iff, bool_decide_eq_true in Hx as ->. by exists gm.
  - intros (manifest & Hr & Hp & Hd & Hg). rewrite (proj2 (on_readActiveManifest _ _ _)) by done.
    rewrite bool_decide_true by done. cbn [negb]. rewrite on_then_err, on_requireSafe, on_bind. split; [done|].
    rewrite (proj2 (on_readSafe _ _ _) Hg). by rewrite on_refuse_if, bool_decide_true.
Qed.

End unchanging.

Section decision.
Context `{SSHKeys} `{UnicodeTables}.
Context (answers : ∀ o : fs_op, fs_ans o).

Lemma on_readGrantPolicy path id now policy :
  on answers (readGrantPolicy path id now) = Ok policy ↔
  ∃ data g, readable answers path data ∧ decodeGrant data = Ok g ∧ grantID (g_TaskUID g) = id ∧
            validateGrant now g = Ok tt ∧ policy = grant_policy g.
Proof.
  unfold readGrantPolicy, readable. rewrite on_bind. change (on answers (fcall (Lstat path))) with (answers (Lstat path)).
  destruct (answers (Lstat path)) as [info|e].
  2: { split; [done|]. by intros (? & ? & [_ (? & ? & _)] & _). }
  split.
  - unfold is_symlink. destruct (fi_type info) eqn:Ht; try done.
    change (Regular ≟ Symlink) with false. change (Regular ≠? Regular) with false. cbv iota.
    destruct (loose info) eqn:El; [done|]. rewrite on_bind_result. intros (data & Hr & Hg).
    cbn in Hr, Hg. apply wrap_err_Ok in Hr. apply bind_Ok in Hg as (g & Hd%wrap_err_Ok & Hg).
    rewrite guard_Ok, seq_Ok, wrap_err_Ok in Hg.
    destruct Hg as [Hid%negb_false_iff%bool_decide_eq_true [Hv [= <-]]].
    exists data, g. split_and!; try done. by exists info.
  - intros (data & g & [Hr (i & [= <-] & Ht & El)] & Hd & Hid & Hv & ->).
    unfold is_symlink. rewrite Ht, El. change (Regular ≟ Symlink) with false. change (Regular ≠? Regular) with false.
    cbv iota. rewrite on_bind_result. exists data.
    split; [cbn; by apply wrap_err_Ok|]. cbn. apply bind_Ok. exists g. split; [by apply wrap_err_Ok|].
    rewrite guard_Ok, seq_Ok, wrap_err_Ok. rewrite bool_decide_true by done. done.
Qed.

(** The published snapshot as the receiver enforces it: active, its grants listed
    and giving its identity. *)
Definition enforced (m : module) (id : string) (gs : list grant) : Prop :=
  validateManifestPath (manifestPath m) = None ∧ (∃ manifest, active answers m id manifest) ∧
  listed answers (generation_grants (generationPath m id)) gs ∧ ∃ cgs, canonicalSnapshot gs = Ok (cgs, id).

(** A directory lists the grant files that can be found in it. *)
Definition lists_its_files (dir : string) : Prop :=
  ∀ id, validGrantID id = true → is_ok (answers (Lstat (JoinPath [dir; id +:+ ".json"]))) = true →
  ∃ entries, answers (ReadDir dir) = Ok entries ∧ id +:+ ".json" ∈ de_name <$> entries.

Lemma on_Admit m ref command plan (dir := generation_grants (generationPath m (ref_snapshotID ref))) :
  on answers (Admit m ref command) = Ok plan ↔
  validateManifestPath (manifestPath m) = None ∧ (∃ manifest, active answers m (ref_snapshotID ref) manifest) ∧
  private answers dir ∧ (∃ gs cgs, listed answers dir gs ∧ canonicalSnapshot gs = Ok (cgs, ref_snapshotID ref)) ∧
  ∃ path policy, grantPathForID dir (ref_grantID ref) = Ok path ∧
    on answers (readGrantPolicy path (ref_grantID ref) (answers Clock)) = Ok policy ∧
    TrimSpace command ≠ "" ∧ authorizeReceiverCommand command policy = Ok plan.
Proof.
  unfold Admit. rewrite !on_checked, on_requireActive, on_requireSafe, on_verify. unfold on at 1. cbn [evaluate].
  fold dir. split.
  - intros (Hp & Hact & Hd & Hv & Hx). split_and!; [done|done|by repeat (apply Forall_cons in Hd as [? Hd])|done|].
    destruct (grantPathForID _ _) as [path|]; [|done]. exists path.
    rewrite on_bind, on_bind_result in Hx. destruct Hx as (policy & Hpol & Hx). exists policy.
    destruct (TrimSpace command ≟ "") eqn:E; [done|]. apply bool_decide_eq_false in E.
    destruct (authorizeReceiverCommand command policy) as [plan'|]; [|done].
    apply on_checked in Hx as [_ [= ->]]. done.
  - intros (Hp & Hact & Hd & Hv & path & policy & -> & Hpol & Hne & Ha). split_and!; [done|done| |done|].
    + destruct Hact as (manifest & _ & _ & Hds & _). rewrite !Forall_cons in Hds |- *. naive_solver.
    + rewrite on_bind, on_bind_result. exists policy. split; [done|].
      rewrite bool_decide_false, Ha by done. apply on_checked. by split; [apply on_requireActive|].
Qed.

(** C5. On a file system that does not change during the admission, exactly the
    commands are admitted, with exactly the plans, that the policy of an unexpired
    grant of the active snapshot authorizes, when the reference names the snapshot
    and the grant. *)
Theorem admit_decides m ref command plan :
  lists_its_files (generation_grants (generationPath m (ref_snapshotID ref))) →
  on answers (Admit m ref command) = Ok plan ↔
  ∃ gs g, enforced m (ref_snapshotID ref) gs ∧ g ∈ gs ∧ grantID (g_TaskUID g) = ref_grantID ref ∧
    grant_valid (answers Clock) g ∧ TrimSpace command ≠ "" ∧
    authorizeReceiverCommand command (grant_policy g) = Ok plan.
Proof.
  intros Hfiles. rewrite on_Admit. unfold enforced. set (dir := generation_grants _) in *. split.
  - intros (Hp & Hact & _ & (gs & cgs & Hg & Hc) & path & policy & [Hvid Hpath]%grantPathForID_Ok & Hpol & Hne & Ha).
    apply on_readGrantPolicy in Hpol as (data & g & [Hr (info & Hi & Hs)] & Hd & Hid & Hv%validateGrant_Ok & ->).
    exists gs, g. split_and!; try done; [by exists cgs|]. subst path.
    destruct (Hfiles (ref_grantID ref)) as (entries & He & Hin); [done|by rewrite Hi|].
    destruct Hg as (_ & entries' & He' & Hall). assert (entries' = entries) as -> by congruence.
    apply list_elem_of_fmap in Hin as (e & Hn & [i Hi']%list_elem_of_lookup).
    destruct (Forall2_lookup_l _ _ _ _ _ Hall Hi') as (g' & Hg' & _ & Hn' & data' & [Hr' _] & Hd').
    rewrite Hn' in Hn. assert (grant_file dir g' = JoinPath [dir; ref_grantID ref +:+ ".json"]) as Hf
      by (unfold grant_file; by rewrite Hn).
    rewrite Hf in Hr'. assert (data' = data) as -> by congruence. assert (g' = g) as -> by congruence.
    by eapply list_elem_of_lookup_2.
  - intros (gs & g & (Hp & Hact & Hg & cgs & Hc) & Hin & Hid & Hv & Hne & Ha).
    pose proof Hg as (Hd & entries & _ & Hall). split_and!; [done..|by exists gs, cgs|].
    apply list_elem_of_lookup in Hin as [i Hi].
    destruct (Forall2_lookup_r _ _ _ _ _ Hall Hi) as (e & _ & _ & _ & data & Hr & Hdec).
    exists (grant_file dir g), (grant_policy g). split_and!; try done.
    + unfold grantPathForID, grant_file, grant_name. rewrite <- Hid, validGrantID_grantID. reflexivity.
    + apply on_readGrantPolicy. exists data, g. split_and!; try done. by apply validateGrant_Ok.
Qed.

End decision.

(** ** A concrete publication *)

(** The module of the daemon, and the memory after the publication of the sample
    tasks into an empty file system. *)
Definition sample_module : module := New "/run/zfs-receiver//authorized_keys".

Definition published_memory : memory :=
  Eval vm_compute in
    (run_fs (@ReplaceSnapshot two_keys Names.ascii_tables map_to_list sample_module ∅ sample_view) empty_memory).2.

Definition sample_reference : Reference :=
  Eval vm_compute in
    {| ref_snapshotID := match canonicalSnapshot [stored_grant] with Ok (_, id) => id | Err _ => "" end;
       ref_grantID := grantID "t1" |}.

Definition sample_command : string := "zfs get -H -p used backup/data".

Definition sample_plan : receiverCommandPlan :=
  Eval vm_compute in
    match authorizeReceiverCommand sample_command (grant_policy stored_grant) with Ok plan => plan | Err _ => PlanPS end.

Definition sample_admission : list fevent * result receiverCommandPlan * memory :=
  run_fs (@Admit two_keys sample_module sample_reference sample_command) published_memory.

(** What was published is admitted until its expiry, and not under another name. *)
Example published_then_admitted :
  sample_admission.1.2 = Ok sample_plan ∧
  (run_fs (@Admit two_keys sample_module sample_reference sample_command)
     (at_instant (30 * Minute) published_memory)).1.2 =
    Err (errorf "validate receiver grant: %w" [FErr (errorf "authorization lease is expired" [])]) ∧
  is_ok (run_fs (@Admit two_keys sample_module
    {| ref_snapshotID := ref_snapshotID sample_reference; ref_grantID := grantID "t2" |} sample_command)
    published_memory).1.2 = false ∧
  (run_fs (@Admit two_keys sample_module sample_reference "zfs destroy backup/data") published_memory).1.2 =
    Err (errorf "receiver command denied: %w" [FErr (errorf "unsupported zfs destroy command" [])]).
Proof. vm_compute. by split_and!. Qed.

Lemma admit_sound_witness :
  sample_admission.1.2 = Ok sample_plan ∧ ∃ g, grantID (g_TaskUID g) = ref_grantID sample_reference ∧
    authorizeReceiverCommand sample_command (grant_policy g) = Ok sample_plan.
Proof.
  assert (sample_admission.1.2 = Ok sample_plan) as Hok by (vm_compute; reflexivity). split; [exact Hok|].
  destruct (@admit_sound two_keys sample_module sample_reference sample_command sample_admission.1.1 sample_plan)
    as (_ & _ & _ & _ & _ & _ & _ & _ & g & _ & _ & _ & _ & _ & _ & _ & Hid & _ & _ & Ha & _).
  - rewrite <- Hok. exact (run_fs_exec (@Admit two_keys sample_module sample_reference sample_command) published_memory).
  - exists g. split; [exact Hid|exact Ha].
Defined.

(** The files of its generation, as its directory lists them. *)
Definition sample_dir : string :=
  Eval vm_compute in generation_grants (generationPath sample_module (ref_snapshotID sample_reference)).

Definition sample_answers (o : fs_op) : fs_ans o := (serve_fs o published_memory).1.

Lemma validGrantID_plain id : validGrantID id = true → plain_name (id +:+ ".json") = true.
Proof.
  intros Hv. destruct (validGrantID_parts id Hv) as (h & -> & Hh).
  apply plain_name_spec. rewrite !has_byte_app, (hex_no_byte h) by done. done.
Qed.

Lemma sample_listing : lists_its_files sample_answers sample_dir.
Proof.
  intros id Hid Hl. assert (clean_dir sample_dir) as Hd by (split_and!; [vm_compute; reflexivity..|done]).
  rewrite JoinPath_child in Hl by auto using validGrantID_plain. revert Hl.
  unfold sample_answers, serve_fs, look. cbn [fst]. case_bool_decide as Hr; [done|].
  destruct (nodes published_memory !! _) as [n|] eqn:E; [intros _|done].
  exists (entries_of sample_dir published_memory). split; [vm_compute; reflexivity|].
  apply elem_of_map_to_list in E. clear Hr.
  assert (forallb (λ kn : string * node, negb (HasPrefix kn.1 (sample_dir +:+ "/")) ||
    bool_decide (str_drop (S (String.length sample_dir)) kn.1 ∈ de_name <$> entries_of sample_dir published_memory))
    (map_to_list (nodes published_memory)) = true) as Hall by (vm_compute; reflexivity).
  apply (forallb_elem _ _ _ Hall) in E. cbn [fst] in E.
  change (sample_dir +:+ "/" +:+ id +:+ ".json") with ((sample_dir +:+ "/") +:+ id +:+ ".json") in E.
  rewrite HasPrefix_app in E. cbn [negb orb] in E. apply bool_decide_eq_true in E.
  by rewrite (str_drop_app (sample_dir +:+ "/")) in E.
Qed.

Lemma admit_decides_witness : ∃ gs g,
  @enforced sample_answers sample_module (ref_snapshotID sample_reference) gs ∧ g ∈ gs ∧
  @grant_valid two_keys 0 g.
Proof.
  destruct (proj1 (@admit_decides two_keys sample_answers sample_module sample_reference sample_command sample_plan
    sample_listing)) as (gs & g & He & Hg & _ & Hv & _).
  - vm_compute. reflexivity.
  - exists gs, g. split; [exact He|]. split; [exact Hg|exact Hv].
Defined.
