(* ===== verification/ReceiverPublication.v ===== *)
(** * Publication of a snapshot

    The order of the file operations of a publication for arbitrary answers of the
    file system, what its result means, and the receiver daemon with the module as
    its publisher. *)
From S2P Require Import Prelude GoStrings StringOrder Sha256 GoErrors GoTime Utf8 Json JsonRoundtrip Api Replication Names Syncoid Ssh ReceiverCommand ReceiverGrant GrantJson ReceiverSnapshot Effects Kube ReceiverController ReceiverSafety FileSystem ReceiverModule MemoryFS ReceiverAdmission.
Local Open Scope Z_scope.

Section order.
Context (m : module) (gs : list grant) (id manifest : string).

(** A staging directory holds the whole generation: every call that wrote it
    succeeded. *)
Definition staged (h : list fevent) (staging : string) : Prop :=
  Forall (λ g, ∃ data, json_grant g = Ok data ∧
    seen (E := FS) h (FileWrite (grant_file (generation_grants staging) g) (data +:+ nl)) None) gs ∧
  seen (E := FS) h (FileWrite (generation_manifest staging) manifest) None.

(** The generation is in its place: moved there complete, or read back. *)
Definition in_place (h : list fevent) : Prop :=
  (∃ staging, staged h staging ∧ seen (E := FS) h (Rename staging (generationPath m id)) None) ∨
  (read_safely h (generation_manifest (generationPath m id)) manifest ∧ ∃ stored,
     read_back h (generation_grants (generationPath m id)) stored ∧ canonicalSnapshot stored = Ok (gs, id)).

(** The manifest names the generation: replaced, or found so. *)
Definition committed (h : list fevent) : Prop :=
  (∃ temporary, seen (E := FS) h (Rename temporary (manifestPath m)) None) ∨ read_safely h (manifestPath m) manifest.

(** What the calls that take authority away or give it are preceded by. *)
Definition publication_call (h : list fevent) (o : fs_op) : Prop :=
  match o with
  | Rename old new =>
      (new = generationPath m id ∧ seen (E := FS) h (MkdirTemp (generationsRoot m) ".staging-") (Ok old) ∧ staged h old) ∨
      (new = manifestPath m ∧ seen (E := FS) h (CreateTemp (Dir (manifestPath m)) ".authorized_keys-") (Ok old) ∧
       in_place h ∧ seen (E := FS) h (FileWrite old manifest) None ∧ seen (E := FS) h (FileClose old) None)
  | RemoveAll p =>
      seen (E := FS) h (MkdirTemp (generationsRoot m) ".staging-") (Ok p) ∨
      (in_place h ∧ committed h ∧ ∃ name, name ≠ id ∧ p = JoinPath [generationsRoot m; name])
  | Remove p => seen (E := FS) h (CreateTemp (Dir (manifestPath m)) ".authorized_keys-") (Ok p)
  | _ => True
  end.

(** The calls without such a condition. *)
Definition harmless (o : fs_op) : Prop :=
  match o with Rename _ _ | Remove _ | RemoveAll _ => False | _ => True end.

Lemma harmless_call h o : harmless o → publication_call h o.
Proof. by destruct o. Qed.

Lemma reads_harmless o : reads o → harmless o.
Proof. by destruct o. Qed.

Lemma only_reads_harmless {A} (p : fs A) : only (E := FS) reads p → only (E := FS) harmless p.
Proof.
  induction p as [a|o k IH]; [done|]. intros [Ho Hk]. split; [by apply reads_harmless|]. intros x. by apply IH.
Qed.

Lemma safe_harmless {A} (Q : list fevent → A → Prop) h (p : fs A) :
  only (E := FS) harmless p → (∀ tr a, exec p tr a → Q (h ++ tr) a) → safe publication_call Q h p.
Proof. intros Hp HQ. apply (safe_only (E := FS) harmless); [done|apply harmless_call|done]. Qed.

Lemma staged_within t u v staging : staged u staging → staged (t ++ u ++ v) staging.
Proof.
  intros [Hg Hm]. split; [|by apply seen_within]. eapply Forall_impl; [exact Hg|].
  intros g (data & Hd & Hs). exists data. split; [done|by apply seen_within].
Qed.

Lemma in_place_within t u v : in_place u → in_place (t ++ u ++ v).
Proof.
  intros [(staging & Hs & Hr)|(Hr & stored & Hb & Hc)]; [left|right].
  - exists staging. split; [by apply staged_within|by apply seen_within].
  - split; [by apply read_safely_within|]. exists stored. split; [by apply read_back_within|done].
Qed.

Lemma committed_within t u v : committed u → committed (t ++ u ++ v).
Proof.
  intros [(temporary & Hr)|Hr]; [left|right].
  - exists temporary. by apply seen_within.
  - by apply read_safely_within.
Qed.

(** What holds of a part holds of every later history. *)
Lemma later (P : list fevent → Prop) h k : (∀ t u v, P u → P (t ++ u ++ v)) → P h → P (h ++ k).
Proof. intros HP Hh. by apply (HP [] h k). Qed.

Lemma latest (P : list fevent → Prop) h k : (∀ t u v, P u → P (t ++ u ++ v)) → P k → P (h ++ k).
Proof. intros HP Hk. rewrite <- (app_nil_r k). by apply HP. Qed.

(** ** The parts of a publication *)

Lemma validateGeneration_only path : only (E := FS) reads (validateGeneration path gs id manifest).
Proof. unfold validateGeneration. prove_only. Qed.

Lemma validateGeneration_exec tr :
  exec (validateGeneration (generationPath m id) gs id manifest) tr None → in_place tr.
Proof.
  intros Hx. unfold validateGeneration in Hx. exec_call Hx as ([info|] & t1 & -> & Hx); [|by apply exec_Ret in Hx as [_ ?]].
  destruct (is_symlink info || _ || _); [by apply exec_Ret in Hx as [_ ?]|].
  apply exec_bind in Hx as (t2 & t3 & [data|e] & -> & Hr & Hx); [|by apply exec_Ret in Hx as [_ ?]].
  apply readSafe_exec in Hr.
  destruct (match parseManifestSnapshotID data with Ok _ => _ | Err _ => _ end); [by apply exec_Ret in Hx as [_ ?]|].
  destruct (data ≠? manifest) eqn:E; [by apply exec_Ret in Hx as [_ ?]|].
  apply negb_false_iff, bool_decide_eq_true in E as ->.
  apply exec_bind in Hx as (t4 & t5 & [stored|e] & -> & Hg & Hx); [|by apply exec_Ret in Hx as [_ ?]].
  apply readGenerationGrants_exec in Hg.
  destruct (canonicalSnapshot stored) as [[cs cid]|] eqn:Hc; [|by apply exec_Ret in Hx as [_ ?]].
  apply exec_refuse_if in Hx as [-> [Hid%negb_false_iff%bool_decide_eq_true Hcs%negb_false_iff%same_grants_eq]%orb_false_iff].
  subst cs cid. right. split; [|exists stored; split; [|done]].
  - by apply (read_safely_within [_] t2 (t4 ++ [])).
  - by apply (read_back_within (_ :: t2) t4 []).
Qed.

(** A harmless step in front of the rest, which errors leave. *)
Lemma safe_step (Q : list fevent → goerr → Prop) h p q :
  only (E := FS) harmless p → (∀ h' e, Q h' (Some e)) →
  (∀ tr, exec p tr None → safe publication_call Q (h ++ tr) q) → safe publication_call Q h (p ;;? q).
Proof. intros Hp He Hq. apply safe_then_err, safe_harmless; [done|]. intros tr [e|] Hx; [apply He|by apply Hq]. Qed.

Lemma safe_checked_step {A} (Q : list fevent → result A → Prop) (R : list fevent → goerr → Prop) h p k :
  safe publication_call R h p → (∀ h' e, Q h' (Err e)) →
  (∀ tr, R (h ++ tr) None → safe publication_call Q (h ++ tr) k) → safe publication_call Q h (checked p k).
Proof.
  intros Hp He Hk. apply safe_bind. eapply safe_mono; [|exact Hp]. intros tr [e|] HR; [apply He|by apply Hk].
Qed.

Lemma writeNewFile_only path data mode : only (E := FS) harmless (writeNewFile path data mode).
Proof. unfold writeNewFile. prove_only. Qed.
#[local] Hint Resolve writeNewFile_only : only.

Lemma writeNewFile_exec path data mode tr :
  exec (writeNewFile path data mode) tr None → seen (E := FS) tr (FileWrite path data) None.
Proof.
  unfold writeNewFile. rewrite exec_then_err. intros (t1 & t2 & -> & _ & Hx).
  exec_call Hx as (w & t3 & -> & Hx). exec_call Hx as (c & t4 & -> & Hx).
  assert (w = None) as ->.
  { destruct w as [e|]; [|done]. unfold errors_Join in Hx. destruct c; by apply exec_Ret in Hx as [_ ?]. }
  apply elem_of_app. right. by left.
Qed.

Lemma write_grant_only dir g : only (E := FS) harmless (write_grant dir g).
Proof. unfold write_grant. prove_only. Qed.
#[local] Hint Resolve write_grant_only : only.

Definition grant_written (dir : string) (tr : list fevent) (g : grant) : Prop :=
  ∃ data, json_grant g = Ok data ∧ seen (E := FS) tr (FileWrite (grant_file dir g) (data +:+ nl)) None.

Lemma grants_written dir tr : exec (each (write_grant dir) gs) tr None → Forall (grant_written dir tr) gs.
Proof.
  apply exec_each.
  - intros t g Hx. unfold write_grant in Hx. destruct (json_grant g) as [data|] eqn:Hj; [|by apply exec_Ret in Hx as [_ ?]].
    apply exec_wrap_fs, writeNewFile_exec in Hx. by exists data.
  - intros t u v g (data & Hj & Hs). exists data. split; [done|by apply seen_within].
Qed.

(** The move of a complete staging directory, and nothing before it. *)
Lemma stage_generation_safe h staging :
  seen (E := FS) h (MkdirTemp (generationsRoot m) ".staging-") (Ok staging) →
  safe publication_call (λ h' r, r = None → in_place h') h
    (stage_generation staging (generationPath m id) gs manifest).
Proof.
  intros Hst. unfold stage_generation. cbv zeta.
  apply safe_step; [prove_only|done|]. intros t1 _.
  apply safe_step; [prove_only|done|]. intros t2 Hg%grants_written.
  apply safe_step; [prove_only|done|]. intros t3 Hm%exec_wrap_fs%writeNewFile_exec.
  apply safe_step; [prove_only|done|]. intros t4 _.
  apply safe_step; [prove_only|done|]. intros t5 _.
  assert (staged (((((h ++ t1) ++ t2) ++ t3) ++ t4) ++ t5) staging) as Hs.
  { do 2 (apply (later (λ h, staged h staging)); [intros; by apply staged_within|]). split; [|apply elem_of_app; by right].
    eapply Forall_impl; [exact Hg|]. intros g (data & Hj & Hw). exists data. split; [done|].
    apply seen_app, elem_of_app. by right. }
  apply safe_bind. split.
  - left. split_and!; [done| |done]. by do 5 apply seen_app.
  - intros [e|]; intros Hn; [by cbn in Hn|]. left. exists staging.
    split; [|apply seen_last].
    apply (later (λ h, staged h staging)); [intros; by apply staged_within|done].
Qed.

Lemma materializeGeneration_safe h :
  safe publication_call (λ h' r, r = None → in_place h') h (materializeGeneration m gs id manifest).
Proof.
  unfold materializeGeneration. cbv zeta. safe_call; [exact I|]. intros [info|e].
  { apply safe_harmless; [apply only_reads_harmless, validateGeneration_only|].
    intros tr r Hx ->. apply validateGeneration_exec in Hx. by apply latest; [apply in_place_within|]. }
  destruct (negb (IsNotExist e)); [done|].
  safe_call; [exact I|]. intros [staging|e']; [|done]. apply safe_bind.
  eapply safe_mono; [|apply stage_generation_safe, seen_last]. intros tr r Hr.
  split; [left; apply seen_app, seen_last|]. intros rm Hn.
  apply later; [apply in_place_within|]. apply Hr. by destruct r, rm.
Qed.

(** The replacement of the manifest, once the generation is in its place. *)
Lemma commit_file_safe h temporary :
  in_place h → seen (E := FS) h (CreateTemp (Dir (manifestPath m)) ".authorized_keys-") (Ok temporary) →
  safe publication_call (λ h' r, r = None → committed h') h (commit_file m temporary manifest).
Proof.
  intros Hp Ht. unfold commit_file. safe_call; [exact I|]. intros [e|].
  { safe_call; [exact I|]. by intros [c|]. }
  safe_call; [exact I|]. intros [e|].
  { safe_call; [exact I|]. by intros [c|]. }
  split; [exact I|]. intros [c|]; [done|]. split.
  - right. split_and!; [done|by do 3 apply seen_app| |by apply seen_app, seen_last|apply seen_last].
    do 3 (apply later; [apply in_place_within|]). done.
  - intros [e|]; intros Hn; [done|]. left. exists temporary. apply seen_last.
Qed.

Lemma commitManifest_safe h :
  in_place h → safe publication_call (λ h' r, r = None → in_place h' ∧ committed h') h (commitManifest m manifest).
Proof.
  intros Hp. unfold commitManifest. safe_call; [exact I|]. intros [temporary|e]; [|done].
  set (h1 := h ++ _). assert (in_place h1) as Hp1 by (by apply later; [apply in_place_within|]).
  assert (seen (E := FS) h1 (CreateTemp (Dir (manifestPath m)) ".authorized_keys-") (Ok temporary)) as Ht
    by apply seen_last.
  apply safe_bind. eapply safe_mono; [|by apply commit_file_safe]. intros tr r Hr. split; [by apply seen_app|].
  intros rm Hn. assert (r = None) as -> by (destruct rm as [e|]; [destruct (IsNotExist e)|]; by destruct r).
  split; [do 2 (apply later; [apply in_place_within|]); done|].
  apply later; [apply committed_within|]. by apply Hr.
Qed.

(** Only other generations are removed, and only then. *)
Lemma removeGeneration_safe h name :
  in_place h → committed h → name ≠ id →
  safe publication_call (λ _ _, True) h (removeGeneration (JoinPath [generationsRoot m; name])).
Proof.
  intros Hp Hc Hn. unfold removeGeneration. apply safe_step; [|done|].
  - apply only_op; [exact I|]. intros [info|e]; [|exact I]. generalize path_max.
    intros depth. generalize (JoinPath [generationsRoot m; name]). revert info.
    induction depth as [|d IH]; intros info path; [exact I|]. cbn [walk]. unfold walk_chmod. prove_only.
  - intros tr _. split; [|done]. right. split_and!; [by apply later; [apply in_place_within|]|
      by apply later; [apply committed_within|]|by exists name].
Qed.

Lemma remove_retired_safe entries h :
  in_place h → committed h → safe publication_call (λ _ _, True) h (remove_retired m id entries).
Proof.
  revert h. induction entries as [|entry rest IH]; intros h Hp Hc; [done|]. cbn [remove_retired].
  destruct (de_name entry ≟ id) eqn:E; [by apply IH|]. apply bool_decide_eq_false in E.
  apply safe_bind. apply (safe_mono _ (λ _ _, True)).
  - intros tr a _. apply safe_bind. eapply (safe_mono _ (λ _ _, True)); [done|].
    apply IH; [by apply later; [apply in_place_within|]|by apply later; [apply committed_within|]].
  - apply safe_bind. eapply (safe_mono _ (λ _ _, True)); [done|]. by apply removeGeneration_safe.
Qed.

Lemma cleanup_safe h :
  in_place h → committed h → safe publication_call (λ _ _, True) h (cleanupRetiredGenerations m id).
Proof.
  intros Hp Hc. unfold cleanupRetiredGenerations. safe_call; [exact I|]. intros [entries|e]; [|done].
  apply safe_bind. apply (safe_mono _ (λ _ _, True)); [done|].
  apply remove_retired_safe; [by apply later; [apply in_place_within|]|by apply later; [apply committed_within|]].
Qed.

(** What a publication without an error leaves. *)
Definition active_now (h : list fevent) : Prop := in_place h ∧ committed h.

Lemma active_now_within t u v : active_now u → active_now (t ++ u ++ v).
Proof. intros [Hp Hc]. by split; [apply in_place_within|apply committed_within]. Qed.

Lemma cleanup_result {A} (f : goerr → result A) h :
  active_now h →
  safe publication_call (λ h' r, is_ok r = true → active_now h') h
    (warning ← cleanupRetiredGenerations m id; Ret (f warning)).
Proof.
  intros Ha. apply safe_bind. eapply safe_mono; [|by apply cleanup_safe; apply Ha]. intros tr w _ _.
  by apply later; [apply active_now_within|].
Qed.

(** The whole publication of this snapshot. *)
Lemma activate_snapshot_safe h :
  safe publication_call (λ h' r, is_ok r = true → active_now h') h (activate_snapshot m gs id manifest).
Proof.
  unfold activate_snapshot. apply safe_bind, safe_harmless.
  { apply only_reads_harmless. unfold readActiveManifest. prove_only. }
  intros tr r Hx. cbv zeta. set (Q := λ h' r, is_ok r = true → active_now h').
  assert (∀ k, safe publication_call Q k
    (checked (materializeGeneration m gs id manifest)
      (checked (commitManifest m manifest)
        (warning ← cleanupRetiredGenerations m id; Ret (Ok (true, warning)))))) as Hpublish.
  { intros k. eapply safe_checked_step; [apply materializeGeneration_safe|done|]. intros t1 Hp. specialize (Hp eq_refl).
    eapply safe_checked_step; [by apply commitManifest_safe|done|]. intros t2 Hc. by apply cleanup_result, Hc. }
  destruct r as [[activeID activeManifest]|e]; [|by destruct (IsNotExist e)].
  destruct (activeID ≟ id); [|apply Hpublish].
  destruct (activeManifest ≠? manifest) eqn:E; [done|]. apply negb_false_iff, bool_decide_eq_true in E as ->.
  apply readActiveManifest_exec in Hx as [Hr _].
  apply (safe_checked_step _ (λ h' r, r = None → active_now h')); [|done|].
  - apply safe_bind, safe_harmless; [apply only_reads_harmless, validateGeneration_only|].
    intros t1 [e|] Hv; [done|]. intros _. apply validateGeneration_exec in Hv. split.
    + by apply latest; [apply in_place_within|].
    + right. rewrite <- app_assoc. by apply read_safely_within.
  - intros t1 Ha. by apply cleanup_result, Ha.
Qed.

End order.

(** ** Publication *)

Lemma ensurePrivateDir_only path : only (E := FS) harmless (ensurePrivateDir path).
Proof. unfold ensurePrivateDir. prove_only; apply only_reads_harmless, rejectSymlink_only. Qed.
#[local] Hint Resolve ensurePrivateDir_only : only.

Lemma activeUsable_only m : only (E := FS) reads (activeUsable m).
Proof. unfold activeUsable, readActiveManifest, validateGeneration. prove_only. Qed.

(** The snapshot of some grants. *)
Definition snapshot_of (gs cgs : list grant) (id manifest : string) : Prop :=
  canonicalSnapshot gs = Ok (cgs, id) ∧ renderManifest cgs id = Ok manifest.

Definition activation_call (m : module) (gs : list grant) (h : list fevent) (o : fs_op) : Prop :=
  harmless o ∨ ∃ cgs id manifest, snapshot_of gs cgs id manifest ∧ publication_call m cgs id manifest h o.

Lemma activate_safe m gs h :
  safe (activation_call m gs) (λ h' r, is_ok r = true →
    ∃ cgs id manifest, snapshot_of gs cgs id manifest ∧ active_now m cgs id manifest h') h (activate m gs).
Proof.
  assert (∀ (Q : list fevent → result (bool * goerr) → Prop) h p k, only (E := FS) harmless p → (∀ h' e, Q h' (Err e)) →
    (∀ h', safe (activation_call m gs) Q h' k) → safe (activation_call m gs) Q h (checked p k)) as Hstep.
  { intros Q h0 p k Hp He Hk. apply safe_bind. apply (safe_only (E := FS) harmless); [done|by left|].
    intros tr [e|] _; [apply He|apply Hk]. }
  unfold activate, ensureManifestParent.
  do 4 (apply Hstep; [prove_only|done|]; intros ?).
  destruct (canonicalSnapshot gs) as [[cgs id]|] eqn:Hc; [|done].
  destruct (renderManifest cgs id) as [manifest|] eqn:Hr; [|done].
  eapply safe_guard; [|eapply safe_mono; [|apply (activate_snapshot_safe m cgs id manifest)]].
  - intros h1 o Ho. right. by exists cgs, id, manifest.
  - intros tr r Ha Hok. exists cgs, id, manifest. split; [done|by apply Ha].
Qed.

Lemma activeUsable_exec m tr :
  exec (activeUsable m) tr None →
  ∃ gs cgs id manifest, snapshot_of gs cgs id manifest ∧ read_safely tr (manifestPath m) manifest ∧
    read_back tr (generation_grants (generationPath m id)) gs ∧ in_place m cgs id manifest tr.
Proof.
  intros Hx. apply exec_bind in Hx as (t1 & t2 & [[id m0]|e] & -> & _ & Hx); [|by apply exec_Ret in Hx as [_ ?]].
  apply exec_bind in Hx as (t3 & t4 & [gs|e] & -> & Hg & Hx); [|by apply exec_Ret in Hx as [_ ?]].
  apply readGenerationGrants_exec in Hg.
  destruct (canonicalSnapshot gs) as [[cgs cid]|] eqn:Hc; [|by apply exec_Ret in Hx as [_ ?]].
  destruct (cid ≠? id) eqn:E; [by apply exec_Ret in Hx as [_ ?]|]. apply negb_false_iff, bool_decide_eq_true in E as ->.
  destruct (renderManifest cgs id) as [manifest|] eqn:Hr; [|by apply exec_Ret in Hx as [_ ?]].
  apply exec_bind in Hx as (t5 & t6 & [data|e] & -> & Hd & Hx); [|by apply exec_Ret in Hx as [_ ?]].
  apply readSafe_exec in Hd.
  destruct (data ≠? manifest) eqn:E; [by apply exec_Ret in Hx as [_ ?]|]. apply negb_false_iff, bool_decide_eq_true in E as ->.
  apply validateGeneration_exec in Hx. exists gs, cgs, id, manifest. split; [done|]. split_and!.
  - rewrite app_assoc. by apply read_safely_within.
  - by apply read_back_within.
  - rewrite !app_assoc. by apply latest; [apply in_place_within|].
Qed.

Section publication.
Context `{SSHKeys} `{UnicodeTables}.
Context (range : gmap string (list nat) → list (string * list nat)).

(** The grants of a publication at the time [now]. *)
Definition published_grants (lapsed : gset string) (now : time) (cs : list Candidate) : list grant :=
  grants (replace_view range lapsed now cs).1.

(** What an execution of [Replace] may do, and what its result says. *)
Lemma Replace_exec m lapsed cs tr res lapsed' :
  exec (ReplaceSnapshot range m lapsed cs) tr (res, lapsed') →
  ∃ now, seen (E := FS) tr Clock now ∧ lapsed' = (replace_view range lapsed now cs).2 ∧
    (∀ t1 ev t2, tr = t1 ++ ev :: t2 → activation_call m (published_grants lapsed now cs) t1 (ev_op (E := FS) ev)) ∧
    match res with
    | inl act => publishes range cs act now (published_grants lapsed now cs) ∧
        ∃ cgs id manifest, snapshot_of (published_grants lapsed now cs) cgs id manifest ∧
                           active_now m cgs id manifest tr
    | inr err => ∃ t1 t2 usable, tr = t1 ++ t2 ∧ exec (activeUsable m) t2 usable ∧
        pub_usable err = Some (bool_decide (usable = None))
    end.
Proof.
  intros Hx. unfold ReplaceSnapshot in Hx. exec_call Hx as (now & tr1 & -> & Hx). exists now.
  assert (∃ comp, replace_view range lapsed now cs = comp) as [[comp lapsed1] Hcomp] by eauto.
  unfold published_grants. rewrite Hcomp in Hx |- *. cbn [fst snd].
  set (h0 := [Event (E := FS) Clock now]).
  apply exec_bind in Hx as (t1 & t2 & r & -> & Ha & Hx).
  destruct (safe_sound _ _ h0 _ _ _ (activate_safe m (grants comp) h0) Ha) as [Hr Hcalls].
  split; [by left|].
  destruct r as [[changed warning]|e].
  - apply exec_Ret in Hx as [-> [= <- <-]]. rewrite app_nil_r. split; [done|]. split.
    + intros [|ev0 u] ev v Heq; [injection Heq as <- _; by left|]. injection Heq as <- ->.
      by apply (Hcalls u ev v).
    + split; [|by apply Hr]. exists lapsed. rewrite Hcomp. done.
  - apply exec_bind in Hx as (t3 & t4 & usable & -> & Hu & [-> [= <- <-]]%exec_Ret). rewrite app_nil_r.
    split; [done|]. split.
    + intros [|ev0 u] ev v Heq; [injection Heq as <- _; by left|]. injection Heq as <- Heq.
      pose proof (only_exec _ _ _ _ (activeUsable_only m) Hu) as Hreads. rewrite Forall_forall in Hreads.
      apply app_eq_inv in Heq as [(k & -> & Hk)|(k & -> & ->)].
      * destruct k as [|ev' k]; [|injection Hk as <- ->; by apply (Hcalls u ev k)].
        left. apply reads_harmless, Hreads. cbn in Hk. rewrite <- Hk. by left.
      * left. apply reads_harmless, Hreads. apply elem_of_app. right. by left.
    + exists (h0 ++ t1), t3, usable. by rewrite <- app_assoc.
Qed.

(** C7. A publication moves a generation into place only when every file of it has
    been written, names it in the manifest only when it is in its place with the
    grants of its identity, and removes only its own temporary files and, once the
    manifest names it, the other generations; a success means that it is so named. *)
Theorem publication_order m lapsed cs tr res lapsed' :
  exec (ReplaceSnapshot range m lapsed cs) tr (res, lapsed') →
  ∃ now, seen (E := FS) tr Clock now ∧
    (∀ t1 ev t2, tr = t1 ++ ev :: t2 → activation_call m (published_grants lapsed now cs) t1 (ev_op (E := FS) ev)) ∧
    ∀ act, res = inl act → publishes range cs act now (published_grants lapsed now cs) ∧
      ∃ cgs id manifest, snapshot_of (published_grants lapsed now cs) cgs id manifest ∧
        in_place m cgs id manifest tr ∧ committed m manifest tr.
Proof.
  intros Hx. destruct (Replace_exec m lapsed cs tr res lapsed' Hx) as (now & Hnow & _ & Hcalls & Hres).
  exists now. split; [done|]. split; [done|]. by intros act ->.
Qed.

(** C21. A failed publication says that the active snapshot is still usable only
    after reading it whole: the manifest is the one rendered from the grants in its
    generation, whose identity it names, and the generation has the same manifest. *)
Theorem failed_publication_usable m lapsed cs tr err lapsed' :
  exec (ReplaceSnapshot range m lapsed cs) tr (inr err, lapsed') → pub_usable err = Some true →
  ∃ gs cgs id manifest, snapshot_of gs cgs id manifest ∧ read_safely tr (manifestPath m) manifest ∧
    read_back tr (generation_grants (generationPath m id)) gs ∧ in_place m cgs id manifest tr.
Proof.
  intros Hx Hu. destruct (Replace_exec m lapsed cs tr _ lapsed' Hx) as (now & _ & _ & _ & t1 & t2 & usable & -> & Ht & He).
  rewrite Hu in He. injection He as He. symmetry in He. apply bool_decide_eq_true in He as ->.
  apply activeUsable_exec in Ht as (gs & cgs & id & manifest & Hs & Hr & Hb & Hp).
  exists gs, cgs, id, manifest. split; [done|]. split_and!.
  - by apply (latest (λ h, read_safely h (manifestPath m) manifest)); [intros; by apply read_safely_within|].
  - by apply (latest (λ h, read_back h _ gs)); [intros; by apply read_back_within|].
  - by apply latest; [apply in_place_within|].
Qed.

End publication.

(** ** Concrete publications *)

Definition sample_publication : list fevent * ((Activation + publication_error) * gset string) * memory :=
  run_fs (@ReplaceSnapshot two_keys Names.ascii_tables map_to_list sample_module ∅ sample_view) empty_memory.

(** A file system without room for another manifest. *)
Definition serve_full (o : fs_op) (s : memory) : fs_ans o * memory :=
  match o return fs_ans o * memory with
  | CreateTemp _ _ => (Err (osError OtherOS "no space left on device"), s)
  | o => serve_fs o s
  end.

Definition full_publication : list fevent * ((Activation + publication_error) * gset string) * memory :=
  run_with (E := FS) serve_full
    (@ReplaceSnapshot two_keys Names.ascii_tables map_to_list sample_module ∅ [sample_candidate; second_candidate])
    published_memory.

(** The publication fails, and the one before it is still admitted. *)
Example full_keeps_active :
  match full_publication.1.2.1 with inr err => pub_usable err | inl _ => None end = Some true ∧
  (run_fs (@Admit two_keys sample_module sample_reference sample_command) full_publication.2).1.2 = Ok sample_plan.
Proof. vm_compute. by split. Qed.

Lemma full_exec : exec
  (@ReplaceSnapshot two_keys Names.ascii_tables map_to_list sample_module ∅ [sample_candidate; second_candidate])
  full_publication.1.1 full_publication.1.2.
Proof.
  pose proof (run_with_exec (E := FS) serve_full
    (@ReplaceSnapshot two_keys Names.ascii_tables map_to_list sample_module ∅ [sample_candidate; second_candidate])
    published_memory) as Hx.
  unfold full_publication. by destruct (run_with _ _ published_memory) as [[tr a] s'].
Qed.

Lemma publication_order_witness :
  ∃ act now, sample_publication.1.2.1 = inl act ∧
  @publishes two_keys Names.ascii_tables map_to_list sample_view act now
    (@published_grants two_keys Names.ascii_tables map_to_list ∅ now sample_view).
Proof.
  destruct sample_publication.1.2 as [r lapsed'] eqn:E.
  destruct (@publication_order two_keys Names.ascii_tables map_to_list sample_module ∅ sample_view
    sample_publication.1.1 r lapsed') as (now & _ & _ & Hact).
  - rewrite <- E. exact (run_fs_exec (@ReplaceSnapshot two_keys Names.ascii_tables map_to_list sample_module ∅ sample_view)
      empty_memory).
  - destruct r as [act|err]; [|exfalso; apply (f_equal (λ r : (Activation + publication_error) * gset string,
      match r.1 with inl _ => true | inr _ => false end)) in E; vm_compute in E; discriminate E].
    exists act, now. split; [reflexivity|]. exact (proj1 (Hact act eq_refl)).
Defined.

Lemma failed_publication_usable_witness :
  ∃ gs cgs id manifest, snapshot_of gs cgs id manifest ∧
    read_safely full_publication.1.1 (manifestPath sample_module) manifest.
Proof.
  destruct full_publication.1.2 as [r lapsed'] eqn:E.
  destruct r as [act|err].
  - exfalso. apply (f_equal (λ r : (Activation + publication_error) * gset string,
      match r.1 with inl _ => true | inr _ => false end)) in E. vm_compute in E. discriminate E.
  - destruct (@failed_publication_usable two_keys Names.ascii_tables map_to_list sample_module ∅
      [sample_candidate; second_candidate] full_publication.1.1 err lapsed')
      as (gs & cgs & id & manifest & Hs & Hr & _).
    + rewrite <- E. exact full_exec.
    + apply (f_equal (λ r : (Activation + publication_error) * gset string,
        match r.1 with inl _ => None | inr err => pub_usable err end)) in E. vm_compute in E. symmetry. exact E.
    + exists gs, cgs, id, manifest. split; [exact Hs|exact Hr].
Defined.
