(* ===== verification/ReceiverSystem.v ===== *)
(** * The receiver as a whole

    The authorization controller with the authorization module as its publisher, one
    program over the API server and the file system, and the start of the daemon
    around it. *)
From S2P Require Import Prelude GoStrings StringOrder Sha256 GoErrors GoTime Utf8 Json JsonRoundtrip Api Replication Names Syncoid Ssh ReceiverCommand ReceiverGrant GrantJson ReceiverSnapshot Effects Kube ReceiverController ReceiverSafety FileSystem ReceiverModule MemoryFS ReceiverAdmission ReceiverPublication.
Local Open Scope Z_scope.

(** ** Both environments *)

Definition Both : sig := sum_sig Receiver FS.

Definition on_api (o : receiver_op) (x : receiver_ans o) : event Both := left_event (Event (E := Receiver) o x).
Definition on_fs (ev : fevent) : event Both := right_event ev.

Section system.
Context `{SSHKeys} `{UnicodeTables}.
Context (range : gmap string (list nat) → list (string * list nat)).
Context (range_perm : ∀ m : gmap string (list nat), range m ≡ₚ map_to_list m).
Context (r : receiverAuthorizationReconciler) (m : module).

(** The calls that are not the publisher's. *)
Definition pass (o : receiver_op) (lapsed : gset string) : prog Both (receiver_ans o * gset string) :=
  Call (E := Both) (inl o) (λ x : receiver_ans o, Ret (x, lapsed)).

(** [src/cmd/zfsrep-receiver/main.go:138-149 run] The reconciler gets the module as its publisher:
    [Replace] is the module's, with the leases it has seen lapse as its state. *)
Definition publisher (o : receiver_op) (lapsed : gset string) : prog Both (receiver_ans o * gset string) :=
  match o return prog Both (receiver_ans o * gset string) with
  | Replace cs => in_right (ReplaceSnapshot range m lapsed cs)
  | o => pass o lapsed
  end.

(** A reconciliation of the receiver. *)
Definition receive (lapsed : gset string) : prog Both ((Result * goerr) * gset string) :=
  interp (E := Receiver) publisher (ReceiverReconcile r) lapsed.

(** A call to the API server is the whole of its handler. *)
Lemma publisher_api o lapsed w1 o' y w2 x lapsed' :
  exec (publisher o lapsed) (w1 ++ on_api o' y :: w2) (x, lapsed') → w1 = [] ∧ o = o'.
Proof.
  intros Hx. assert ((∃ cs, o = Replace cs) ∨ publisher o lapsed = pass o lapsed)
    as [[cs ->]|E] by (destruct o; eauto).
  - apply in_right_exec in Hx as (t & Ht & _). exfalso.
    assert (on_api o' y ∈ right_event (E := Receiver) (F := FS) <$> t) as (ev & Hev & _)%list_elem_of_fmap.
    { rewrite <- Ht. apply elem_of_app. right. by left. }
    by apply (f_equal ev_op) in Hev.
  - rewrite E in Hx. apply exec_inv in Hx as (z & t & Heq & Hx). apply exec_Ret in Hx as [-> _].
    destruct w1 as [|ev w1]; [|by destruct w1]. split; [done|].
    apply (f_equal (λ l, ev_op <$> head l)) in Heq. by injection Heq.
Qed.

(** Every publication of a reconciliation is an execution of the module. *)
Lemma receive_exec lapsed tr res lapsed' :
  exec (receive lapsed) tr (res, lapsed') →
  ∃ tr', exec (ReceiverReconcile r) tr' res ∧ honest range tr' ∧ expands (E := Receiver) publisher tr' lapsed tr lapsed'.
Proof.
  intros Hx. apply interp_exec in Hx as (tr' & Hx & He). exists tr'. split_and!; [done| |done].
  intros cs act Hs. destruct (expands_seen _ _ _ _ _ _ _ He Hs) as (f1 & f2 & t & l1 & l2 & _ & Hr).
  apply in_right_exec in Hr as (t' & _ & Hr).
  destruct (Replace_exec range m l1 cs t' _ l2 Hr) as (now & _ & _ & _ & Hpub & _). by eexists now, _.
Qed.

Lemma manifest_has_line gs id manifest g :
  renderManifest gs id = Ok manifest → g ∈ gs → ∃ a b, manifest = a +:+ manifest_line id g +:+ nl +:+ b.
Proof.
  unfold renderManifest. rewrite guard_Ok. intros [_ [= <-]] Hg.
  assert (∃ a b, foldr (λ g acc, manifest_line id g +:+ nl +:+ acc) "" gs = a +:+ manifest_line id g +:+ nl +:+ b)
    as (a & b & ->); [|exists (manifestHeaderPrefix +:+ id +:+ nl +:+ a), b; by rewrite <- !str_app_assoc].
  induction gs as [|g' gs IH]; [by apply elem_of_nil in Hg|]. cbn [foldr].
  apply elem_of_cons in Hg as [<-|Hg].
  - by exists "", (foldr (λ g acc, manifest_line id g +:+ nl +:+ acc) "" gs).
  - destruct (IH Hg) as (a & b & ->). exists (manifest_line id g' +:+ nl +:+ a), b. by rewrite <- !str_app_assoc.
Qed.

Lemma snapshot_members gs cgs id manifest g : snapshot_of gs cgs id manifest → g ∈ gs → g ∈ cgs.
Proof.
  intros [(-> & _)%canonicalSnapshot_Ok _] Hg. by rewrite merge_sort_Permutation.
Qed.


End system.

(** ** A concrete receiver *)

Definition serve_both (o : op Both) (s : receiver_world * memory) : ans Both o * (receiver_world * memory) :=
  match o return ans Both o * (receiver_world * memory) with
  | inl o => let '(x, w) := serve_receiver o s.1 in (x, (w, s.2))
  | inr o => let '(x, f) := serve_fs o s.2 in (x, (s.1, f))
  end.

Definition sample_receive : prog Both ((Result * goerr) * gset string) :=
  @receive two_keys Names.ascii_tables map_to_list sample_receiver sample_module ∅.

Definition system_run : list (event Both) * ((Result * goerr) * gset string) * (receiver_world * memory) :=
  run_with (E := Both) serve_both sample_receive (serving, empty_memory).

Lemma system_exec : exec sample_receive system_run.1.1 system_run.1.2.
Proof.
  pose proof (run_with_exec (E := Both) serve_both sample_receive (serving, empty_memory)) as Hx.
  unfold system_run. by destruct (run_with _ _ _) as [[tr a] s'].
Qed.

Definition is_patch (ev : event Both) : option (ZFSReceiveTask * ZFSReceiveTaskStatus) :=
  match ev with Event (inl (OnKube (PatchTaskStatus _ base st))) _ => Some (base, st) | _ => None end.

(** Both tasks are reported, and the command of the granted one is then admitted. *)
Example system_serves :
  (λ p : ZFSReceiveTask * ZFSReceiveTaskStatus, (om_name (task_meta p.1), tst_Phase p.2)) <$> omap is_patch system_run.1.1 =
    [("good", "Ready"); ("late", "Failed")] ∧
  system_run.1.2 = ((requeue_after (29 * Minute), None), {["t2"]}) ∧
  (run_fs (@Admit two_keys sample_module sample_reference sample_command) system_run.2.2).1.2 = Ok sample_plan.
Proof. vm_compute. by split_and!. Qed.

(** The position of the report of the granted task. *)
Definition report_at : nat :=
  Eval vm_compute in match list_find (λ ev, is_Some (is_patch ev)) system_run.1.1 with Some (i, _) => i | None => O end.
Definition reported : ZFSReceiveTask * ZFSReceiveTaskStatus :=
  Eval vm_compute in default (granted_task, empty_task_status) (system_run.1.1 !! report_at ≫= is_patch).

