(* ===== verification/CommandExec.v ===== *)
(** * Execution of an admitted plan
      (internal/receiverauthorization/command_exec.go)

    The processes of a plan as calls: resolution of the executables, the wiring of a
    pipeline, its start, and the results in the order the processes finish. *)
From S2P Require Import Prelude GoStrings GoErrors Effects ReceiverCommand FileSystem.
Local Open Scope Z_scope.

(** ** Calls *)

(** Where a process reads and writes: the streams of the client, nothing, or the pipe
    behind the process of that position. *)
Inductive input := ClientIn | PipeOf (i : nat).
Inductive output := ClientOut | ClientErr | Discard | IntoPipe (i : nat).

Record command := {
  cmd_Path : string;
  cmd_Args : list string;
  cmd_Env : list string;
  cmd_Stdin : input;
  cmd_Stdout : output;
  cmd_Stderr : output }.

(** The result of [cmd.Wait]: an exit status that is not zero, or another error. *)
Inductive waited := Success | ExitStatus (code : Z) | WaitFailed (e : error).

Inductive process_op :=
  | Stat (path : string)
  | MakePipe
  | Start (c : command)
  | WaitFor (c : command)
  | NextResult
  | Cancel
  | Print (text : string).

Definition process_ans (o : process_op) : Type :=
  match o with
  | Stat _ => result FileInfo
  | MakePipe | Start _ | Print _ => goerr
  | WaitFor _ | NextResult => waited
  | Cancel => unit
  end.

Definition Processes : sig := {| op := process_op; ans := process_ans |}.
Abbreviation processes := (prog Processes).
Abbreviation pevent := (event Processes).

Definition pcall (o : process_op) : processes (process_ans o) := call (E := Processes) o.

(** ** Executables *)

(** Some execute bit is set. *)
Definition executable (info : FileInfo) : bool := negb (IsDir info) && negb (Z.land (fi_perm info) 73 =? 0).

(** [src/internal/receiverauthorization/command_exec.go:159-164 defaultResolveAllowedCommand] *)
Fixpoint first_executable (paths : list string) : processes (option string) :=
  match paths with
  | [] => Ret None
  | path :: rest =>
      info ← pcall (Stat path);
      match info with
      | Ok info => if executable info then Ret (Some path) else first_executable rest
      | Err _ => first_executable rest
      end
  end.

(** [src/internal/receiverauthorization/command_exec.go:158-166 defaultResolveAllowedCommand] *)
Definition resolveAllowedCommand (name : string) : processes (result string) :=
  found ← first_executable (allowedCommandPaths name);
  Ret (match found with
       | Some path => Ok path
       | None => Err (errorf "allowed command %q was not found" [FStr name])
       end).

(** ** Pipelines *)

(** [src/internal/receiverauthorization/command_exec.go:136-138 receiverChildEnvironment] *)
Definition receiverChildEnvironment : list string := ["LC_ALL=C"; "LANG=C"].

(** [src/internal/receiverauthorization/command_exec.go:73-95 executeReceiverPipeline] The command
    of a step, with its output. *)
Definition step_command (step : receiverCommandStep) (path : string) (previous : input) (stdout : output) : command :=
  {| cmd_Path := path; cmd_Args := Args step; cmd_Env := receiverChildEnvironment;
     cmd_Stdin := previous; cmd_Stdout := stdout;
     cmd_Stderr := if StderrToStdout step then stdout else if StderrNull step then Discard else ClientErr |}.

(** [src/internal/receiverauthorization/command_exec.go:68-97 executeReceiverPipeline] From the
    step at position [i] on. *)
Fixpoint build_commands (steps : list receiverCommandStep) (i : nat) (previous : input)
  : processes (result (list command)) :=
  match steps with
  | [] => Ret (Ok [])
  | step :: rest =>
      path ←? resolveAllowedCommand (Name step);
      match rest with
      | [] => Ret (Ok [step_command step path previous (if StdoutNull step then Discard else ClientOut)])
      | _ :: _ =>
          pipe ← pcall MakePipe;
          match pipe with
          | Some e => Ret (Err (errorf "create command pipe: %w" [FErr e]))
          | None =>
              cmds ←? build_commands rest (S i) (PipeOf i);
              Ret (Ok (step_command step path previous (IntoPipe i) :: cmds))
          end
      end
  end.

(** [src/internal/receiverauthorization/command_exec.go:140-146 waitReceiverCommands] *)
Fixpoint waitReceiverCommands (cmds : list command) : processes unit :=
  match cmds with
  | [] => Ret tt
  | c :: rest => _ ← pcall (WaitFor c); waitReceiverCommands rest
  end.

(** [src/internal/receiverauthorization/command_exec.go:98-106 executeReceiverPipeline] *)
Fixpoint start_commands (cmds started : list command) : processes goerr :=
  match cmds with
  | [] => Ret None
  | c :: rest =>
      e ← pcall (Start c);
      match e with
      | Some e =>
          _ ← pcall Cancel;
          _ ← waitReceiverCommands started;
          Ret (Some (errorf "start %s: %w" [FStr (cmd_Path c); FErr e]))
      | None => start_commands rest (started ++ [c])
      end
  end.

(** [src/internal/receiverauthorization/command_exec.go:148-154 commandExitError] *)
Definition commandExitError (w : waited) : goerr :=
  match w with
  | Success => None
  | ExitStatus code => Some (exitError code "")
  | WaitFailed e => Some e
  end.

(** [src/internal/receiverauthorization/command_exec.go:107-122 executeReceiverPipeline] The results
    of [n] processes, whichever finishes next; the first failure cancels the others. *)
Fixpoint collect_results (n : nat) (firstErr : goerr) : processes goerr :=
  match n with
  | O => Ret firstErr
  | S n =>
      w ← pcall NextResult;
      match commandExitError w, firstErr with
      | Some e, None => _ ← pcall Cancel; collect_results n (Some e)
      | _, _ => collect_results n firstErr
      end
  end.

(** [src/internal/receiverauthorization/command_exec.go:60-123 executeReceiverPipeline] The deferred
    cancellation comes last. *)
Definition executeReceiverPipeline (steps : list receiverCommandStep) : processes goerr :=
  e ← (cmds ← build_commands steps 0 ClientIn;
       match cmds with
       | Err e => Ret (Some e)
       | Ok cmds => start_commands cmds [] ;;? collect_results (length cmds) None
       end);
  _ ← pcall Cancel;
  Ret e.

(** [src/internal/receiverauthorization/command_exec.go:14-58 executeReceiverCommandPlan] *)
Fixpoint executeReceiverCommandPlan (plan : receiverCommandPlan) : processes goerr :=
  match plan with
  | PlanExit => Ret None
  | PlanEcho echoArgs => pcall (Print (Join echoArgs " "))
  | PlanLookup lookupCommand =>
      path ← resolveAllowedCommand lookupCommand;
      match path with
      | Err _ => Ret (Some (exitError 1 ""))
      | Ok path => pcall (Print (path +:+ nl))
      end
  | PlanPS => Ret None
  | PlanPipeline pipeline => executeReceiverPipeline pipeline
  | PlanBatch batch =>
      (fix go (items : list receiverCommandPlan) : processes goerr :=
         match items with
         | [] => Ret None
         | item :: rest => executeReceiverCommandPlan item ;;? go rest
         end) batch
  end.

(** ** What is started *)

(** A command that runs a step with an executable of the table. *)
Definition runs_step (h : list pevent) (c : command) (st : receiverCommandStep) : Prop :=
  cmd_Args c = Args st ∧ cmd_Env c = receiverChildEnvironment ∧ cmd_Path c ∈ allowedCommandPaths (Name st) ∧
  ∃ info, seen (E := Processes) h (Stat (cmd_Path c)) (Ok info) ∧ executable info = true.

(** What the calls of a plan are preceded by. *)
Definition process_call (steps : list receiverCommandStep) (h : list pevent) (o : process_op) : Prop :=
  match o with
  | Start c => ∃ st, st ∈ steps ∧ runs_step h c st
  | _ => True
  end.

Definition not_start (o : process_op) : Prop := match o with Start _ => False | _ => True end.

Lemma not_start_call steps h o : not_start o → process_call steps h o.
Proof. by destruct o. Qed.

Lemma runs_step_app h k c st : runs_step h c st → runs_step (h ++ k) c st.
Proof.
  intros (Ha & He & Hp & info & Hs & Hx). split_and!; try done. exists info. split; [by apply seen_app|done].
Qed.

Lemma first_executable_exec paths tr path :
  exec (first_executable paths) tr (Some path) →
  path ∈ paths ∧ ∃ info, seen (E := Processes) tr (Stat path) (Ok info) ∧ executable info = true.
Proof.
  revert tr. induction paths as [|p paths IH]; intros tr Hx; cbn [first_executable] in Hx.
  { by apply exec_Ret in Hx as [_ ?]. }
  apply (exec_op (E := Processes) (Stat p)) in Hx as (x & t & -> & Hx).
  assert (∀ t, exec (first_executable paths) t (Some path) →
    path ∈ p :: paths ∧ ∃ info, seen (E := Processes) (Event (E := Processes) (Stat p) x :: t) (Stat path) (Ok info) ∧ executable info = true)
    as Hrest.
  { intros t' Ht. apply IH in Ht as (Hin & info & Hs & He). split; [by right|]. exists info. split; [by right|done]. }
  destruct x as [info|]; [|by apply Hrest]. destruct (executable info) eqn:E; [|by apply Hrest].
  apply exec_Ret in Hx as [-> [= <-]]. split; [by left|]. exists info. split; [by left|done].
Qed.

Lemma first_executable_only paths : only (E := Processes) not_start (first_executable paths).
Proof.
  induction paths as [|p paths IH]; [done|]. split; [done|]. intros [info|e]; cbn; [|done].
  by destruct (executable info).
Qed.

Lemma build_commands_only steps i previous : only (E := Processes) not_start (build_commands steps i previous).
Proof.
  revert i previous. induction steps as [|step rest IH]; intros i previous; [done|]. cbn [build_commands].
  apply only_bind; [apply only_bind; [apply first_executable_only|done]|]. intros [path|e]; [|done].
  destruct rest; [done|]. split; [done|]. intros [e|]; [done|]. apply only_bind; [apply IH|]. by intros [].
Qed.

Lemma only_processes {A} steps (Q : list pevent → A → Prop) h (p : processes A) :
  only (E := Processes) not_start p → (∀ tr a, exec p tr a → Q (h ++ tr) a) →
  safe (E := Processes) (process_call steps) Q h p.
Proof. intros Hp HQ. apply (safe_only (E := Processes) not_start); [done|apply not_start_call|done]. Qed.

Lemma resolve_exec name tr path :
  exec (resolveAllowedCommand name) tr (Ok path) →
  path ∈ allowedCommandPaths name ∧
  ∃ info, seen (E := Processes) tr (Stat path) (Ok info) ∧ executable info = true.
Proof.
  intros Hx. apply exec_bind in Hx as (t1 & t2 & [p|] & -> & Hf & [-> Heq]%exec_Ret); [|done].
  injection Heq as ->. rewrite app_nil_r. by apply first_executable_exec.
Qed.

(** Each process reads what the one before it writes, from the client's input to its
    output. *)
Fixpoint wired (i : nat) (previous : input) (cmds : list command) : Prop :=
  match cmds with
  | [] => True
  | c :: rest =>
      cmd_Stdin c = previous ∧
      match rest with
      | [] => cmd_Stdout c = ClientOut ∨ cmd_Stdout c = Discard
      | _ :: _ => cmd_Stdout c = IntoPipe i
      end ∧ wired (S i) (PipeOf i) rest
  end.

Lemma runs_step_within t u v c st : runs_step u c st → runs_step (t ++ u ++ v) c st.
Proof.
  intros (Ha & He & Hp & info & Hs & Hx). split_and!; try done. exists info. split; [|done].
  unfold seen in *. rewrite !elem_of_app. naive_solver.
Qed.

Lemma build_commands_exec steps i previous tr cmds :
  exec (build_commands steps i previous) tr (Ok cmds) →
  Forall2 (runs_step tr) cmds steps ∧ wired i previous cmds.
Proof.
  revert i previous tr cmds. induction steps as [|step rest IH]; intros i previous tr cmds Hx; cbn [build_commands] in Hx.
  { by apply exec_Ret in Hx as [_ [= <-]]. }
  apply exec_bind_result in Hx as (t1 & t2 & path & -> & [Hp (info & Hs & He)]%resolve_exec & Hx).
  assert (∀ k previous stdout, runs_step (t1 ++ k) (step_command step path previous stdout) step) as Hstep.
  { intros k pr o. split_and!; try done. exists info. split; [by apply seen_app|done]. }
  destruct rest as [|step' rest].
  - apply exec_Ret in Hx as [-> [= <-]]. split; [constructor; [apply Hstep|constructor]|].
    cbn. destruct (StdoutNull step); auto.
  - apply (exec_op (E := Processes) MakePipe) in Hx as (pipe & t3 & -> & Hx).
    destruct pipe as [e|]; [by apply exec_Ret in Hx as [_ ?]|].
    apply exec_bind_result in Hx as (t4 & t5 & cmds' & -> & [Hall Hw]%IH & [-> [= <-]]%exec_Ret). split.
    + constructor; [apply Hstep|]. eapply Forall2_impl; [exact Hall|]. intros c st Hc.
      rewrite (cons_middle _ t1 (t4 ++ [])), app_assoc. by apply runs_step_within.
    + inversion Hall; subst. done.
Qed.

Lemma start_commands_safe steps cmds started h :
  Forall (λ c, ∃ st, st ∈ steps ∧ runs_step h c st) cmds →
  safe (E := Processes) (process_call steps) (λ _ _, True) h (start_commands cmds started).
Proof.
  revert h started. induction cmds as [|c cmds IH]; intros h started Hall; [done|]. cbn [start_commands].
  apply Forall_cons in Hall as [Hc Hall]. split; [done|]. intros [e|].
  - split; [done|]. intros []. apply only_processes; [|done].
    apply only_bind; [|done]. clear. induction started; [done|]. by split.
  - apply IH. eapply Forall_impl; [exact Hall|]. intros c' (st & Hst & Hr). exists st. split; [done|by apply runs_step_app].
Qed.

Lemma collect_only n firstErr : only (E := Processes) not_start (collect_results n firstErr).
Proof.
  revert firstErr. induction n as [|n IH]; intros firstErr; [done|]. split; [done|]. intros w. cbn.
  destruct (commandExitError w), firstErr; try apply IH. split; [done|]. intros []. apply IH.
Qed.

Lemma pipeline_safe steps h :
  safe (E := Processes) (process_call steps) (λ _ _, True) h (executeReceiverPipeline steps).
Proof.
  unfold executeReceiverPipeline. apply safe_bind. eapply (safe_mono _ (λ _ _, True)); [by intros|].
  apply safe_bind, only_processes; [apply build_commands_only|].
  intros tr [cmds|e] Hx; [|done]. apply build_commands_exec in Hx as [Hall _].
  apply safe_then_err. eapply safe_mono; [|apply start_commands_safe].
  - intros t [e|] _; [done|]. apply only_processes; [apply collect_only|done].
  - apply Forall_forall. intros c [i Hi]%list_elem_of_lookup.
    destruct (Forall2_lookup_l _ _ _ _ _ Hall Hi) as (st & Hst & Hr). exists st.
    split; [by eapply list_elem_of_lookup_2|]. rewrite <- (app_nil_r tr). by apply runs_step_within.
Qed.

(** Plans by their nested batches. *)
Fixpoint plan_depth_ind (P : receiverCommandPlan → Prop)
  (Hexit : P PlanExit) (Hecho : ∀ l, P (PlanEcho l)) (Hlookup : ∀ n, P (PlanLookup n)) (Hps : P PlanPS)
  (Hpipe : ∀ steps, P (PlanPipeline steps)) (Hbatch : ∀ plans, Forall P plans → P (PlanBatch plans))
  (plan : receiverCommandPlan) {struct plan} : P plan :=
  let rec := plan_depth_ind P Hexit Hecho Hlookup Hps Hpipe Hbatch in
  match plan with
  | PlanExit => Hexit
  | PlanEcho l => Hecho l
  | PlanLookup n => Hlookup n
  | PlanPS => Hps
  | PlanPipeline steps => Hpipe steps
  | PlanBatch plans => Hbatch plans
      ((fix go (l : list receiverCommandPlan) : Forall P l :=
          match l with [] => Forall_nil_2 _ | x :: l' => Forall_cons_2 _ _ _ (rec x) (go l') end) plans)
  end.

Lemma process_call_mono steps steps' h o :
  (∀ st, st ∈ steps → st ∈ steps') → process_call steps h o → process_call steps' h o.
Proof. intros Hsub. destruct o; cbn; naive_solver. Qed.

Lemma plan_safe plan h :
  safe (E := Processes) (process_call (plan_processes plan)) (λ _ _, True) h (executeReceiverCommandPlan plan).
Proof.
  revert h. induction plan as [|l|n| |steps|plans IH] using plan_depth_ind; intros h; try done.
  - apply only_processes; [|done]. apply only_bind; [apply only_bind; [apply first_executable_only|done]|].
    by intros [].
  - apply pipeline_safe.
  - revert h. cbn [executeReceiverCommandPlan plan_processes].
    induction IH as [|x plans Hx _ IHl]; intros h; [done|]. apply safe_then_err.
    eapply safe_mono; [|eapply safe_guard; [|apply Hx]].
    + intros tr [e|] _; [done|]. eapply safe_guard; [|apply IHl].
      intros h' o. apply process_call_mono. intros st Hst. apply elem_of_app. by right.
    + intros h' o. apply process_call_mono. intros st Hst. apply elem_of_app. by left.
Qed.

(** Executing a plan starts a process only for a step of the plan: with the
    arguments of that step, a fixed environment, and the path of an executable file
    from the table for its program. *)
Theorem execution_starts_only_steps plan tr e t1 c x t2 :
  exec (executeReceiverCommandPlan plan) tr e → tr = t1 ++ Event (E := Processes) (Start c) x :: t2 →
  ∃ st, st ∈ plan_processes plan ∧ runs_step t1 c st.
Proof.
  intros Hx Htr. destruct (safe_sound _ _ [] _ _ _ (plan_safe plan []) Hx) as [_ Hcalls].
  exact (Hcalls t1 _ t2 Htr).
Qed.

(** ** The end of a pipeline *)

(** The answers of the calls that start a process, and the results received. *)
Definition start_answer (ev : pevent) : option goerr :=
  match ev with Event o x => match o return process_ans o → option goerr with Start _ => Some | _ => λ _, None end x end.
Definition result_answer (ev : pevent) : option waited :=
  match ev with Event o x => match o return process_ans o → option waited with NextResult => Some | _ => λ _, None end x end.
Definition is_wait (ev : pevent) : option command :=
  match ev_op ev with WaitFor c => Some c | _ => None end.

Definition starts (tr : list pevent) : list goerr := omap start_answer tr.
Definition finished (tr : list pevent) : list waited := omap result_answer tr.
Definition waits (tr : list pevent) : list command := omap is_wait tr.

(** No process is started, waited for or heard of. *)
Definition quiet (o : process_op) : Prop :=
  match o with Stat _ | MakePipe | Cancel | Print _ => True | _ => False end.

Lemma quiet_trace {A} (p : processes A) tr a :
  only (E := Processes) quiet p → exec p tr a → starts tr = [] ∧ finished tr = [] ∧ waits tr = [].
Proof.
  intros Hp Hx. apply (only_exec _ _ _ _ Hp) in Hx as Hall. clear Hp Hx.
  induction Hall as [|[o x] tr Ho _ IH]; [done|]. by destruct o.
Qed.

Lemma first_executable_quiet paths : only (E := Processes) quiet (first_executable paths).
Proof.
  induction paths as [|p paths IH]; [done|]. split; [done|]. intros [info|e]; cbn; [|done].
  by destruct (executable info).
Qed.

Lemma build_commands_quiet steps i previous : only (E := Processes) quiet (build_commands steps i previous).
Proof.
  revert i previous. induction steps as [|step rest IH]; intros i previous; [done|]. cbn [build_commands].
  apply only_bind; [apply only_bind; [apply first_executable_quiet|done]|]. intros [path|e]; [|done].
  destruct rest; [done|]. split; [done|]. intros [e|]; [done|]. apply only_bind; [apply IH|]. by intros [].
Qed.

Lemma waits_exec started tr u :
  exec (waitReceiverCommands started) tr u → starts tr = [] ∧ finished tr = [] ∧ waits tr = started.
Proof.
  revert tr. induction started as [|c started IH]; intros tr Hx; cbn [waitReceiverCommands] in Hx.
  { by apply exec_Ret in Hx as [-> _]. }
  apply (exec_op (E := Processes) (WaitFor c)) in Hx as (w & t & -> & Hx).
  destruct (IH t Hx) as (Hs & Hf & Hw). unfold starts, finished, waits in *. cbn. by rewrite Hs, Hf, Hw.
Qed.

Lemma start_commands_exec cmds started tr e :
  exec (start_commands cmds started) tr e →
  finished tr = [] ∧
  ((e = None ∧ starts tr = replicate (length cmds) None ∧ waits tr = []) ∨
   ∃ k err c, cmds !! k = Some c ∧ starts tr = replicate k None ++ [Some err] ∧
     waits tr = started ++ take k cmds ∧ e = Some (errorf "start %s: %w" [FStr (cmd_Path c); FErr err])).
Proof.
  revert started tr. induction cmds as [|c cmds IH]; intros started tr Hx; cbn [start_commands] in Hx.
  { apply exec_Ret in Hx as [-> <-]. split; [done|by left]. }
  apply (exec_op (E := Processes) (Start c)) in Hx as (x & t & -> & Hx). destruct x as [err|].
  - apply (exec_op (E := Processes) Cancel) in Hx as ([] & t2 & -> & Hx).
    apply exec_bind in Hx as (t3 & t4 & [] & -> & Hw & [-> <-]%exec_Ret).
    apply waits_exec in Hw as (Hs & Hf & Hw). unfold starts, finished, waits in *. cbn. rewrite app_nil_r, Hs, Hf, Hw.
    split; [done|]. right. exists O, err, c. by rewrite app_nil_r.
  - apply IH in Hx as (Hf & Hx). unfold starts, finished, waits in *. cbn. split; [done|].
    destruct Hx as [(-> & -> & ->)|(k & err & c' & Hk & -> & -> & ->)]; [by left|]. right.
    exists (S k), err, c'. rewrite <- app_assoc. done.
Qed.

Lemma collect_exec n firstErr tr e :
  exec (collect_results n firstErr) tr e →
  starts tr = [] ∧ waits tr = [] ∧ length (finished tr) = n ∧
  e = match firstErr with Some e' => Some e' | None => head (omap commandExitError (finished tr)) end.
Proof.
  revert firstErr tr. induction n as [|n IH]; intros firstErr tr Hx; cbn [collect_results] in Hx.
  { apply exec_Ret in Hx as [-> <-]. by destruct firstErr. }
  apply (exec_op (E := Processes) NextResult) in Hx as (w & t & -> & Hx).
  unfold starts, finished, waits in *. cbn.
  destruct (commandExitError w) as [err|] eqn:Ew; [destruct firstErr as [e'|]|].
  - apply IH in Hx as (-> & -> & <- & ->). done.
  - apply (exec_op (E := Processes) Cancel) in Hx as ([] & t2 & -> & Hx). apply IH in Hx as (Hs & Hw & Hl & ->). cbn.
    by rewrite Hs, Hw, Hl.
  - apply IH in Hx as (-> & -> & <- & ->). done.
Qed.


(** ** A concrete host *)

(** Every program is under [/usr/bin] or [/usr/sbin]; the processes end with the given
    results. *)
Definition serve_host (o : process_op) (results : list waited) : process_ans o * list waited :=
  match o return process_ans o * list waited with
  | Stat path => (if HasPrefix path "/usr/bin/" || HasPrefix path "/usr/sbin/"
                  then Ok {| fi_type := Regular; fi_perm := 493; fi_uid := Some 0 |}
                  else Err (osError ErrNotExist "no such file or directory"), results)
  | MakePipe | Start _ | Print _ => (None, results)
  | WaitFor _ => (Success, results)
  | NextResult => match results with w :: rest => (w, rest) | [] => (Success, []) end
  | Cancel => (tt, results)
  end.

Definition sample_steps : list receiverCommandStep :=
  [{| Name := "mbuffer"; Args := ["-q"; "-s"; "128k"; "-m"; "16M"]; StdoutNull := false; StderrNull := false;
      StderrToStdout := false |};
   {| Name := "zfs"; Args := ["receive"; "-s"; "backup/data"]; StdoutNull := false; StderrNull := false;
      StderrToStdout := true |}].

Definition sample_execution (results : list waited) : list pevent * goerr * list waited :=
  run_with (E := Processes) serve_host (executeReceiverCommandPlan (PlanPipeline sample_steps)) results.

Lemma sample_execution_exec results :
  exec (executeReceiverCommandPlan (PlanPipeline sample_steps)) (sample_execution results).1.1 (sample_execution results).1.2.
Proof.
  pose proof (run_with_exec (E := Processes) serve_host (executeReceiverCommandPlan (PlanPipeline sample_steps)) results) as Hx.
  unfold sample_execution. by destruct (run_with _ _ results) as [[tr a] s'].
Qed.

Definition receive_command : command :=
  {| cmd_Path := "/usr/sbin/zfs"; cmd_Args := ["receive"; "-s"; "backup/data"]; cmd_Env := ["LC_ALL=C"; "LANG=C"];
     cmd_Stdin := PipeOf 0; cmd_Stdout := ClientOut; cmd_Stderr := ClientOut |}.

Example first_failure_wins :
  (sample_execution [ExitStatus 2; ExitStatus 1]).1.2 = Some (exitError 2 "") ∧
  (sample_execution [Success; Success]).1.2 = None ∧
  (ev_op <$> ((sample_execution []).1.1 !! 4%nat)) = Some (Start receive_command : op Processes).
Proof. vm_compute. by split_and!. Qed.

Lemma execution_starts_only_steps_witness :
  ∃ st, st ∈ sample_steps ∧ runs_step (take 4 (sample_execution []).1.1) receive_command st.
Proof.
  apply (execution_starts_only_steps (PlanPipeline sample_steps) (sample_execution []).1.1 (sample_execution []).1.2
    (take 4 (sample_execution []).1.1) receive_command None (drop 5 (sample_execution []).1.1)).
  - apply sample_execution_exec.
  - symmetry. apply (take_drop_middle (sample_execution []).1.1 4). vm_compute. reflexivity.
Defined.

