(* ===== verification/ReceiverDaemon.v ===== *)
(** * The receiver's two entry points (cmd/zfsrep-receiver/main.go, forced_command.go)

    The forced command of an SSH session, from its arguments to the end of its
    processes, and the start of the daemon around sshd. *)
From S2P Require Import Prelude GoStrings StringOrder Sha256 GoErrors GoTime Json Api Replication Names Syncoid Ssh ReceiverCommand ReceiverGrant GrantJson ReceiverSnapshot Effects Kube ReceiverController ReceiverSafety FileSystem ReceiverModule MemoryFS ReceiverAdmission CommandExec.
Local Open Scope Z_scope.

(** ** The forced command *)

(** The file system and the processes. *)
Definition Session : sig := sum_sig FS Processes.

Section session.
Context `{SSHKeys} `{UnicodeTables}.
Context (Getenv : string → string).

(** [src/cmd/zfsrep-receiver/forced_command.go:36-42 runForcedCommand] *)
Definition runForcedCommand (m : module) (reference : Reference) (originalCommand : string) : prog Session goerr :=
  plan ← in_left (Admit m reference originalCommand);
  match plan with
  | Err e => Ret (Some e)
  | Ok plan => in_right (executeReceiverCommandPlan plan)
  end.

(** [src/cmd/zfsrep-receiver/forced_command.go:20-34 runForcedCommandFromArgs] *)
Definition runForcedCommandFromArgs (args : list string) : prog Session goerr :=
  match ReferenceFromArgs args with
  | Err e => Ret (Some e)
  | Ok reference =>
      runForcedCommand (New (cfg_AuthorizedKeysFile (configFromEnv Getenv))) reference (Getenv "SSH_ORIGINAL_COMMAND")
  end.

(** [errors.As] for an error with an exit code: the first one in the chain. *)
Fixpoint find_exit (e : error) : option (Z * string) :=
  match e with
  | exitError code message => Some (code, message)
  | errorf _ args => (fix go (l : list fmt_arg) : option (Z * string) := match l with
      | [] => None
      | FErr e :: l => match find_exit e with Some x => Some x | None => go l end
      | _ :: l => go l
      end) args
  | joined errs => (fix go (l : list error) : option (Z * string) := match l with
      | [] => None
      | e :: l => match find_exit e with Some x => Some x | None => go l end
      end) errs
  | _ => None
  end.

(** [src/cmd/zfsrep-receiver/main.go:47-61 main] The exit code and the standard error. *)
Definition forced_command_exit (e : goerr) : Z * string :=
  match e with
  | None => (0, "")
  | Some e =>
      match find_exit e with
      | Some (code, message) => (code, if message ≠? "" then message +:+ nl else "")
      | None => (126, Error e +:+ nl)
      end
  end.

(** C4. A forced command starts a process only after it was admitted: for a step of
    the plan that the policy of an unexpired grant authorizes, which was read from the
    generation of the active snapshot the reference names and has its identity. So the
    process is one of the fixed programs, with what the policy permits. *)
Theorem forced_command_runs_admitted m ref command tr e t1 c x t2 :
  exec (runForcedCommand m ref command) tr e →
  tr = t1 ++ right_event (Event (E := Processes) (Start c) x) :: t2 →
  ∃ ta tb manifest now g plan st,
    t1 = (left_event <$> ta) ++ (right_event <$> tb) ∧
    active_read ta m (ref_snapshotID ref) manifest ∧ seen (E := FS) ta Clock now ∧
    read_as ta (generation_grants (generationPath m (ref_snapshotID ref))) g ∧
    grantID (g_TaskUID g) = ref_grantID ref ∧ grant_valid now g ∧
    authorizeReceiverCommand command (grant_policy g) = Ok plan ∧
    st ∈ plan_processes plan ∧ runs_step tb c st ∧ ∀ a, a ∈ step_accesses st → access_ok (grant_policy g) a.
Proof.
  intros Hx ->. apply exec_bind in Hx as (u & v & plan & Heq & Ha & Hx). symmetry in Heq.
  apply in_left_exec in Ha as (ta & -> & Ha).
  destruct plan as [plan|err].
  2: { apply exec_Ret in Hx as [-> _]. destruct (split_right ta [] _ _ _ Heq) as (k1 & k2 & Hk & _). by destruct k1. }
  apply in_right_exec in Hx as (tb & -> & Hx).
  destruct (split_right ta tb _ _ _ Heq) as (k1 & k2 & -> & ->).
  apply Admit_exec in Ha as (u1 & u2 & now & policy & path & -> & Hu & Hpath%grantPathForID_Ok & Hauth & Hre).
  destruct Hu as (u3 & u4 & u5 & -> & Hact & _ & Hpol). destruct Hpath as [_ ->].
  apply requireActive_exec in Hact as [manifest Hact].
  apply readGrantPolicy_exec in Hpol as (data & g & Hr & Hd & Hid & Hv%validateGrant_Ok & ->).
  destruct (safe_sound _ _ [] _ _ _ (plan_safe plan []) Hx) as [_ Hcalls].
  destruct (Hcalls k1 _ k2 eq_refl) as (st & Hst & Hrun).
  destruct (plan_member _ _ _ _ Hauth Hst) as (cmd & pl & Hone & Hpl).
  exists ((u3 ++ u4 ++ Event (E := FS) Clock now :: u5) ++ u2), k1, manifest, now, g, plan, st.
  split; [done|]. split_and!; try done.
  - rewrite <- app_assoc. by apply (active_read_within [] u3).
  - apply seen_app, elem_of_app. right. apply elem_of_app. right. by left.
  - exists data. split; [|done]. unfold grant_file, grant_name. rewrite Hid.
    rewrite (app_assoc u3 u4), (cons_middle _ (u3 ++ u4) u5), (app_assoc (u3 ++ u4)), <- (app_assoc _ u5 u2).
    by apply read_safely_within.
  - by apply (authorized_one_safe _ cmd pl).
Qed.

End session.

(** ** The daemon *)

(** How the daemon ends: its context, a fatal error of the reconciler, or the end of
    the manager or of sshd, and whether that error is the cancellation. *)
Inductive ending :=
  | ContextDone
  | Fatal (e : error)
  | ManagerDone (e : goerr) (canceled : bool)
  | SshdDone (e : goerr) (canceled : bool).

(** The host keys; the parts of the Kubernetes client; the manager and its cache; the
    initial reconciliation: its pending flag, its trigger, the gate and its result;
    and sshd. *)
Inductive host_op :=
  | GenerateHostKeys
  | AddToScheme (group : string)
  | GetConfig
  | NewManager (namespace : option string)
  | SetupWithManager (r : receiverAuthorizationReconciler)
  | StartManager
  | WaitForCacheSync
  | StorePending
  | SendTrigger
  | OpenGate
  | AwaitInitialResult
  | StartProcess (path : string) (args : list string)
  | Select.

Definition host_ans (o : host_op) : Type :=
  match o with
  | GenerateHostKeys => string * goerr
  | AddToScheme _ | GetConfig | NewManager _ | SetupWithManager _ | SendTrigger | AwaitInitialResult
  | StartProcess _ _ => goerr
  | StartManager | StorePending | OpenGate => unit
  | WaitForCacheSync => bool
  | Select => ending
  end.

Definition Host : sig := {| op := host_op; ans := host_ans |}.
Definition Daemon : sig := sum_sig FS Host.
Abbreviation daemon := (prog Daemon).
Abbreviation devent := (event Daemon).

Definition files {A} (p : fs A) : daemon A := in_left p.
Definition host (o : host_op) : daemon (host_ans o) := in_right (call (E := Host) o).

(** An error of a call, wrapped. *)
Definition wrapped (p : daemon goerr) (f : error → error) : daemon goerr := e ← p; Ret (option_map f e).

(** [src/cmd/zfsrep-receiver/main.go:343-350 ensureSSHHostKeys] *)
Definition ensureSSHHostKeys : daemon goerr :=
  r ← host GenerateHostKeys;
  Ret (option_map (λ e, errorf "generate ssh host keys: %w: %s" [FErr e; FStr (TrimSpace r.1)]) r.2).

(** [src/cmd/zfsrep-receiver/main.go:353-365 readSSHHostKey] *)
Fixpoint first_key (paths : list string) : fs (option string) :=
  match paths with
  | [] => Ret None
  | path :: rest =>
      data ← fcall (ReadFile path);
      match data with
      | Ok data => let key := TrimSpace data in if key ≠? "" then Ret (Some key) else first_key rest
      | Err _ => first_key rest
      end
  end.

(** [src/cmd/zfsrep-receiver/main.go:352-367 readSSHHostKey] *)
Definition readSSHHostKey : fs (result string) :=
  key ← first_key ["/etc/ssh/ssh_host_ed25519_key.pub"; "/etc/ssh/ssh_host_ecdsa_key.pub";
                   "/etc/ssh/ssh_host_rsa_key.pub"];
  Ret (match key with Some key => Ok key | None => Err (errorf "no ssh host public key found" []) end).

(** [src/cmd/zfsrep-receiver/authorization_controller.go:55-72 StartInitial] For a reconciler with
    its channels. *)
Definition StartInitial : daemon goerr :=
  _ ← host StorePending;
  host SendTrigger ;;?
  (_ ← host OpenGate;
   host AwaitInitialResult).

(** [src/cmd/zfsrep-receiver/main.go:222-222 startSSHD] *)
Definition sshd_config (cfg : receiverConfig) : string :=
  JoinPath [Dir (cfg_AuthorizedKeysFile cfg); "sshd_config"].

(** [src/cmd/zfsrep-receiver/main.go:221-240 startSSHD] *)
Definition startSSHD (cfg : receiverConfig) : daemon goerr :=
  wrapped (files (fcall (WriteFile (sshd_config cfg) (renderSSHDConfig cfg) 384)))
    (λ e, errorf "write sshd config: %w" [FErr e]) ;;?
  wrapped (host (StartProcess "/usr/sbin/sshd" ["-D"; "-e"; "-f"; sshd_config cfg]))
    (λ e, errorf "start sshd: %w" [FErr e]).

(** [src/cmd/zfsrep-receiver/main.go:191-219 startSynchronizedAuthorizedSSHD] *)
Definition startSynchronizedAuthorizedSSHD (cfg : receiverConfig) : daemon goerr :=
  synchronized ← host WaitForCacheSync;
  if negb synchronized then Ret (Some (errorf "synchronize receiver authorization cache" []))
  else
    wrapped StartInitial (λ e, errorf "activate initial receiver authorization snapshot: %w" [FErr e]) ;;?
    startSSHD cfg.

(** [src/cmd/zfsrep-receiver/main.go:169-186 run] *)
Definition await_end : daemon goerr :=
  ended ← host Select;
  Ret (match ended with
       | ContextDone => None
       | Fatal e => Some e
       | ManagerDone e canceled =>
           if canceled then None
           else option_map (λ e, errorf "receiver authorization manager exited: %w" [FErr e]) e
       | SshdDone e canceled =>
           if canceled then None else option_map (λ e, errorf "sshd exited: %w" [FErr e]) e
       end).

(** [src/cmd/zfsrep-receiver/main.go:111-187 run] With the host key. *)
Definition serve (cfg : receiverConfig) (key : string) : daemon goerr :=
  host (AddToScheme "client-go") ;;?
  host (AddToScheme "zfs/v1alpha1") ;;?
  host (AddToScheme "core/v1") ;;?
  wrapped (host GetConfig) (λ e, errorf "get Kubernetes configuration: %w" [FErr e]) ;;?
  wrapped (host (NewManager (if cfg_WatchNamespace cfg ≠? "" then Some (cfg_WatchNamespace cfg) else None)))
    (λ e, errorf "create receiver authorization manager: %w" [FErr e]) ;;?
  wrapped (host (SetupWithManager {| initialized := true; hasFatal := true; rec_cfg := cfg; hostKey := key |}))
    (λ e, errorf "set up receiver authorization controller: %w" [FErr e]) ;;?
  (_ ← host StartManager;
   startSynchronizedAuthorizedSSHD cfg ;;?
   await_end).

(** [src/cmd/zfsrep-receiver/main.go:83-187 run] *)
Definition run (cfg : receiverConfig) : daemon goerr :=
  if cfg_NodeName cfg ≟ "" then Ret (Some (errorf "NODE_NAME must not be empty" []))
  else if cfg_PodIP cfg ≟ "" then Ret (Some (errorf "POD_IP must not be empty" []))
  else
  wrapped (files (fcall (MkdirAll (Dir (cfg_AuthorizedKeysFile cfg)) 448)))
    (λ e, errorf "create authorized_keys directory: %w" [FErr e]) ;;?
  wrapped (files (fcall (Chmod (Dir (cfg_AuthorizedKeysFile cfg)) 448)))
    (λ e, errorf "set authorized_keys directory mode: %w" [FErr e]) ;;?
  wrapped (files (fcall (MkdirAll "/run/sshd" 493)))
    (λ e, errorf "create sshd runtime directory: %w" [FErr e]) ;;?
  wrapped (files (Reset (New (cfg_AuthorizedKeysFile cfg))))
    (λ e, errorf "reset receiver authorization: %w" [FErr e]) ;;?
  ensureSSHHostKeys ;;?
  (key ← files readSSHHostKey;
   match key with
   | Err e => Ret (Some e)
   | Ok key => serve cfg key
   end).

(** ** The order of the start *)

(** A path was found missing or removed. *)
Definition gone (h : list fevent) (path : string) : Prop :=
  (∃ e, seen (E := FS) h (Lstat path) (Err e) ∧ IsNotExist e = true) ∨
  seen (E := FS) h (Remove path) None ∨ seen (E := FS) h (RemoveAll path) None.

Lemma gone_within t u v path : gone u path → gone (t ++ u ++ v) path.
Proof.
  intros [(e & Hs & He)|[Hs|Hs]]; [left; exists e; split; [by apply seen_within|done]|right; left|right; right];
    by apply seen_within.
Qed.

Lemma removePath_exec path tr : exec (removePathWithoutFollowing path) tr None → gone tr path.
Proof.
  intros Hx. unfold removePathWithoutFollowing in Hx. exec_call Hx as (x & t & -> & Hx). destruct x as [info|e].
  - destruct (IsDir info && negb (is_symlink info)); [|exec_call Hx as ->; right; left; right; by left].
    unfold removeGeneration in Hx. apply exec_then_err in Hx as (t1 & t2 & -> & _ & Hx). exec_call Hx as ->.
    right. right. right. apply elem_of_app. right. by left.
  - apply exec_Ret in Hx as [-> Hx]. destruct (IsNotExist e) eqn:E; [|done]. left. exists e. split; [by left|done].
Qed.

Lemma Reset_exec m tr : exec (Reset m) tr None → gone tr (manifestPath m) ∧ gone tr (runtimeRoot m).
Proof.
  unfold Reset. rewrite exec_then_err. intros (t1 & t2 & -> & _ & Hx).
  apply exec_then_err in Hx as (t3 & t4 & -> & _ & Hx).
  apply exec_then_err in Hx as (t5 & t6 & -> & H1%exec_wrap_fs%removePath_exec & H2%exec_wrap_fs%removePath_exec).
  rewrite !app_assoc. split.
  - rewrite <- (app_assoc _ t5 t6). by apply gone_within.
  - rewrite <- (app_nil_r t6). by apply gone_within.
Qed.

Section order.
Context (cfg : receiverConfig).

Definition was_reset (h : list devent) : Prop :=
  ∃ f1 t f2, h = f1 ++ (left_event <$> t) ++ f2 ∧ exec (Reset (New (cfg_AuthorizedKeysFile cfg))) t None.

Definition host_seen (h : list devent) (o : host_op) (x : host_ans o) : Prop := seen (E := Daemon) h (inr o) x.

(** What the calls that let clients in are preceded by. *)
Definition daemon_call (h : list devent) (o : op Daemon) : Prop :=
  match o with
  | inr StartManager => was_reset h
  | inr OpenGate => was_reset h ∧ host_seen h StartManager tt ∧ host_seen h WaitForCacheSync true ∧
      host_seen h SendTrigger None
  | inr (StartProcess path args) =>
      path = "/usr/sbin/sshd" ∧ args = ["-D"; "-e"; "-f"; sshd_config cfg] ∧ was_reset h ∧
      host_seen h WaitForCacheSync true ∧ host_seen h AwaitInitialResult None ∧
      seen (E := Daemon) h (inl (WriteFile (sshd_config cfg) (renderSSHDConfig cfg) 384)) None
  | _ => True
  end.

Lemma was_reset_app h k : was_reset h → was_reset (h ++ k).
Proof. intros (f1 & t & f2 & -> & Ht). exists f1, t, (f2 ++ k). by rewrite <- !app_assoc. Qed.

Lemma safe_files {A} (Q : list devent → A → Prop) h (p : fs A) :
  (∀ tr a, exec p tr a → Q (h ++ (left_event <$> tr)) a) → safe (E := Daemon) daemon_call Q h (files p).
Proof.
  revert h. induction p as [a|o k IH]; intros h HQ; cbn.
  - specialize (HQ [] a (exec_ret a)). by rewrite app_nil_r in HQ.
  - split; [done|]. intros x. apply IH. intros tr a Hx.
    specialize (HQ (Event (E := FS) o x :: tr) a). rewrite <- app_assoc. apply HQ. by constructor.
Qed.

Lemma safe_host (Q : list devent → goerr → Prop) h o (p : host_ans o → daemon goerr) :
  daemon_call h (inr o) → (∀ x, safe (E := Daemon) daemon_call Q (h ++ [right_event (Event (E := Host) o x)]) (p x)) →
  safe (E := Daemon) daemon_call Q h (host o ≫= p).
Proof. by split. Qed.

Lemma safe_wrapped (Q : list devent → goerr → Prop) h p f :
  safe (E := Daemon) daemon_call (λ h' r, Q h' (option_map f r)) h p → safe (E := Daemon) daemon_call Q h (wrapped p f).
Proof. intros Hp. apply safe_bind. exact Hp. Qed.

Definition any_result : list devent → goerr → Prop := λ _ _, True.

(** A step without a condition. *)
Lemma safe_skip h p q :
  safe (E := Daemon) daemon_call any_result h p →
  (∀ k, safe (E := Daemon) daemon_call any_result (h ++ k) q) → safe (E := Daemon) daemon_call any_result h (p ;;? q).
Proof. intros Hp Hq. apply safe_then_err. eapply safe_mono; [|exact Hp]. intros tr [e|] _; [done|apply Hq]. Qed.

Lemma startSSHD_safe h :
  was_reset h → host_seen h WaitForCacheSync true → host_seen h AwaitInitialResult None →
  safe (E := Daemon) daemon_call any_result h (startSSHD cfg).
Proof.
  intros Hr Hs Hi. unfold startSSHD. apply safe_then_err, safe_wrapped, safe_files.
  intros tr [e|] Hx; [done|]. exec_call Hx as ->. apply safe_wrapped. split; [|done].
  split_and!; [done|done|by apply was_reset_app|by apply seen_app|by apply seen_app|].
  apply (seen_last (E := Daemon)).
Qed.

Lemma start_safe h :
  was_reset h → host_seen h StartManager tt →
  safe (E := Daemon) daemon_call any_result h (startSynchronizedAuthorizedSSHD cfg).
Proof.
  intros Hr Hm. unfold startSynchronizedAuthorizedSSHD. apply safe_host; [done|]. intros [|]; [|done].
  apply safe_then_err, safe_wrapped. unfold StartInitial. apply safe_host; [done|]. intros [].
  apply safe_then_err. split; [done|]. intros [e|]; [done|].
  set (h3 := (_ ++ _) ++ _).
  assert (was_reset h3) as Hr3 by (by do 3 apply was_reset_app).
  assert (host_seen h3 WaitForCacheSync true) as Hs by (apply seen_app, seen_app, (seen_last (E := Daemon))).
  apply safe_host.
  { split_and!; [done|by do 3 apply seen_app|done|apply (seen_last (E := Daemon))]. }
  intros []. split; [done|]. intros [e|]; [done|]. cbn [option_map].
  apply startSSHD_safe; [by do 2 apply was_reset_app|by do 2 apply seen_app|apply (seen_last (E := Daemon))].
Qed.

Lemma serve_safe h key : was_reset h → safe (E := Daemon) daemon_call any_result h (serve cfg key).
Proof.
  intros Hr. unfold serve.
  apply safe_skip; [by split|]; intros k1. apply safe_skip; [by split|]; intros k2.
  apply safe_skip; [by split|]; intros k3. apply safe_skip; [by apply safe_wrapped|]; intros k4.
  apply safe_skip; [by apply safe_wrapped|]; intros k5. apply safe_skip; [by apply safe_wrapped|]; intros k6.
  assert (was_reset ((((((h ++ k1) ++ k2) ++ k3) ++ k4) ++ k5) ++ k6)) as Hr' by (by do 6 apply was_reset_app).
  apply safe_host; [done|]. intros []. apply safe_skip.
  - apply start_safe; [by apply was_reset_app|apply (seen_last (E := Daemon))].
  - intros k. by apply safe_host.
Qed.

Lemma run_safe : safe (E := Daemon) daemon_call any_result [] (run cfg).
Proof.
  unfold run. destruct (cfg_NodeName cfg ≟ ""); [done|]. destruct (cfg_PodIP cfg ≟ ""); [done|].
  do 3 (apply safe_skip; [by apply safe_wrapped, safe_files|]; intros ?).
  apply safe_then_err, safe_wrapped, safe_files. intros tr [e|] Hx; [done|].
  assert (was_reset ((((([] ++ k) ++ k0) ++ k1)) ++ (left_event <$> tr))) as Hr.
  { exists (((([] ++ k) ++ k0) ++ k1)), tr, []. split; [by rewrite app_nil_r|done]. }
  apply safe_skip; [by apply safe_bind|]. intros k2.
  apply safe_bind, safe_files. intros tr' [key|e] _; [|done].
  by apply serve_safe; do 2 apply was_reset_app.
Qed.

(** C9. The daemon starts sshd only with the configuration it has just written, and
    only after it has removed every authority of an earlier process, the cache is
    synchronized, and the initial snapshot has been published; and it lets the
    reconciler publish only after that removal. *)
Theorem daemon_starts_in_order tr e t1 o x t2 :
  exec (run cfg) tr e → tr = t1 ++ right_event (Event (E := Host) o x) :: t2 →
  match o with
  | StartManager | OpenGate | StartProcess _ _ =>
      (∃ f1 t f2, t1 = f1 ++ (left_event <$> t) ++ f2 ∧
         gone t (Clean (cfg_AuthorizedKeysFile cfg)) ∧ gone t (runtimeRoot (New (cfg_AuthorizedKeysFile cfg)))) ∧
      match o with
      | OpenGate => host_seen t1 StartManager tt ∧ host_seen t1 WaitForCacheSync true
      | StartProcess path args =>
          path = "/usr/sbin/sshd" ∧ args = ["-D"; "-e"; "-f"; sshd_config cfg] ∧
          host_seen t1 WaitForCacheSync true ∧ host_seen t1 AwaitInitialResult None ∧
          seen (E := Daemon) t1 (inl (WriteFile (sshd_config cfg) (renderSSHDConfig cfg) 384)) None
      | _ => True
      end
  | _ => True
  end.
Proof.
  intros Hx Htr. destruct (safe_sound (E := Daemon) _ _ [] _ _ _ run_safe Hx) as [_ Hcalls].
  specialize (Hcalls t1 _ t2 Htr). cbn [app right_event ev_op] in Hcalls.
  assert (was_reset t1 → ∃ f1 t f2, t1 = f1 ++ (left_event <$> t) ++ f2 ∧
    gone t (Clean (cfg_AuthorizedKeysFile cfg)) ∧ gone t (runtimeRoot (New (cfg_AuthorizedKeysFile cfg)))) as Hgone.
  { intros (f1 & t & f2 & -> & Ht%Reset_exec). by exists f1, t, f2. }
  destruct o; cbn [daemon_call] in Hcalls; naive_solver.
Qed.

End order.

(** ** A concrete host *)

(** The files of a host with a key, and the rest of the daemon's environment going
    well until it is told to end. *)
Definition fresh_host : memory :=
  {| nodes := <["/etc/ssh/ssh_host_ed25519_key.pub" := File 420 ("ssh-ed25519 HOST" +:+ nl)]>
                published_memory.(nodes); instant := 0 |}.

Definition serve_daemon (o : op Daemon) (s : memory) : ans Daemon o * memory :=
  match o return ans Daemon o * memory with
  | inl o => serve_fs o s
  | inr o => (match o return host_ans o with
      | GenerateHostKeys => ("", None)
      | WaitForCacheSync => true
      | StartManager | StorePending | OpenGate => tt
      | Select => ContextDone
      | _ => None
      end, s)
  end.

Definition daemon_run : list devent * goerr * memory :=
  run_with (E := Daemon) serve_daemon (run (rec_cfg sample_receiver)) fresh_host.

Lemma daemon_exec : exec (run (rec_cfg sample_receiver)) daemon_run.1.1 daemon_run.1.2.
Proof.
  pose proof (run_with_exec (E := Daemon) serve_daemon (run (rec_cfg sample_receiver)) fresh_host) as Hx.
  unfold daemon_run. by destruct (run_with _ _ fresh_host) as [[tr a] s'].
Qed.

Definition host_call (ev : devent) : option host_op := match ev_op ev with inr o => Some o | inl _ => None end.

(** A restart withdraws what an earlier process published before anything else. *)
Example daemon_restarts :
  daemon_run.1.2 = None ∧
  omap host_call daemon_run.1.1 =
    [GenerateHostKeys; AddToScheme "client-go"; AddToScheme "zfs/v1alpha1"; AddToScheme "core/v1"; GetConfig;
     NewManager None;
     SetupWithManager {| initialized := true; hasFatal := true; rec_cfg := rec_cfg sample_receiver;
                         hostKey := "ssh-ed25519 HOST" |};
     StartManager; WaitForCacheSync; StorePending; SendTrigger; OpenGate; AwaitInitialResult;
     StartProcess "/usr/sbin/sshd" ["-D"; "-e"; "-f"; "/run/zfs-receiver/sshd_config"]; Select] ∧
  is_ok (run_fs (@Admit two_keys sample_module sample_reference sample_command) daemon_run.2).1.2 = false.
Proof. vm_compute. by split_and!. Qed.

Definition manager_at : nat :=
  Eval vm_compute in
    match list_find (λ ev, match host_call ev with Some StartManager => true | _ => false end = true) daemon_run.1.1
    with Some (i, _) => i | None => O end.

Lemma daemon_starts_in_order_witness : ∃ t, gone t "/run/zfs-receiver/authorized_keys".
Proof.
  destruct (daemon_starts_in_order (rec_cfg sample_receiver) daemon_run.1.1 daemon_run.1.2
    (take manager_at daemon_run.1.1) StartManager tt (drop (S manager_at) daemon_run.1.1))
    as ((f1 & t & f2 & _ & Hg & _) & _).
  - exact daemon_exec.
  - symmetry. apply take_drop_middle. vm_compute. reflexivity.
  - exists t. exact Hg.
Defined.

(** A session of the sample client on the published memory. *)
Definition serve_session (o : op Session) (s : memory * list waited) : ans Session o * (memory * list waited) :=
  match o return ans Session o * (memory * list waited) with
  | inl o => let '(x, f) := serve_fs o s.1 in (x, (f, s.2))
  | inr o => let '(x, w) := serve_host o s.2 in (x, (s.1, w))
  end.

Definition session (command : string) (results : list waited) : list (event Session) * goerr * (memory * list waited) :=
  run_with (E := Session) serve_session (@runForcedCommand two_keys sample_module sample_reference command)
    (published_memory, results).

Lemma session_exec command results :
  exec (@runForcedCommand two_keys sample_module sample_reference command) (session command results).1.1
    (session command results).1.2.
Proof.
  pose proof (run_with_exec (E := Session) serve_session
    (@runForcedCommand two_keys sample_module sample_reference command) (published_memory, results)) as Hx.
  unfold session. by destruct (run_with _ _ (published_memory, results)) as [[tr a] s'].
Qed.

Definition started (ev : event Session) : option command :=
  match ev_op ev with inr (Start c) => Some c | _ => None end.

Definition get_command : command :=
  {| cmd_Path := "/usr/sbin/zfs"; cmd_Args := ["get"; "-H"; "-p"; "used"; "backup/data"];
     cmd_Env := receiverChildEnvironment; cmd_Stdin := ClientIn; cmd_Stdout := ClientOut; cmd_Stderr := ClientErr |}.

(** The exit code is that of the process; a refused command starts none, and exits
    with 126. *)
Example sessions :
  omap started (session sample_command [ExitStatus 3]).1.1 = [get_command] ∧
  @forced_command_exit Names.ascii_tables (session sample_command [ExitStatus 3]).1.2 = (3, "") ∧
  @forced_command_exit Names.ascii_tables (session sample_command []).1.2 = (0, "") ∧
  omap started (session "zfs destroy -r backup" []).1.1 = [] ∧
  @forced_command_exit Names.ascii_tables (session "zfs destroy -r backup" []).1.2 =
    (126, "receiver command denied: unsupported zfs destroy command" +:+ nl).
Proof. vm_compute. by split_and!. Qed.

Definition start_at : nat :=
  Eval vm_compute in
    match list_find (λ ev, is_Some (started ev)) (session sample_command []).1.1 with Some (i, _) => i | None => O end.

Lemma forced_command_runs_admitted_witness :
  ∃ g plan, authorizeReceiverCommand sample_command (grant_policy g) = Ok plan ∧ @grant_valid two_keys 0 g.
Proof.
  destruct (@forced_command_runs_admitted two_keys sample_module sample_reference sample_command
    (session sample_command []).1.1 (session sample_command []).1.2 (take start_at (session sample_command []).1.1)
    get_command None (drop (S start_at) (session sample_command []).1.1))
    as (ta & tb & manifest & now & g & plan & st & Ht & _ & Hnow & _ & _ & Hv & Ha & _).
  - apply session_exec.
  - symmetry. apply take_drop_middle. vm_compute. reflexivity.
  - exists g, plan. split; [exact Ha|].
    assert (∀ x, seen (E := Session) (take start_at (session sample_command []).1.1) (inl Clock) x → x = 0) as Hclock.
    { intros x Hin. assert (forallb (λ ev : event Session, match ev with
        | Event o x => match o return ans Session o → bool with inl Clock => λ x, bool_decide (x = 0) | _ => λ _, true end x
        end) (take start_at (session sample_command []).1.1) = true) as Hall by (vm_compute; reflexivity).
      apply (forallb_elem _ _ _ Hall) in Hin. by apply bool_decide_eq_true in Hin. }
    assert (now = 0) as <-; [|exact Hv]. apply Hclock. rewrite Ht. apply elem_of_app. left.
    apply list_elem_of_fmap. exists (Event (E := FS) Clock now). split; [reflexivity|exact Hnow].
Defined.
