(* ===== verification/SyncoidRuntime.v ===== *)
(** * The sender process
      (cmd/zfsrep-sender/main.go, internal/syncoidruntime)

    One run of Syncoid, its exit code, and the failure message that is left for the
    controller. *)
From S2P Require Import Prelude GoStrings GoErrors Utf8 Names Effects.
Local Open Scope Z_scope.

(** ** Calls *)

(** [command.Run]: its error, and the exit code of the process state when there is
    one; a line on the standard error; and a file. *)
Inductive sender_op :=
  | RunCommand (name : string) (arguments : list string)
  | PrintError (text : string)
  | Publish (path message : string) (perm : Z).

Definition sender_ans (o : sender_op) : Type :=
  match o with
  | RunCommand _ _ => goerr * option Z
  | PrintError _ | Publish _ _ _ => goerr
  end.

Definition Sender : sig := {| op := sender_op; ans := sender_ans |}.
Abbreviation sender := (prog Sender).
Abbreviation sevent := (event Sender).

Definition scall (o : sender_op) : sender (sender_ans o) := call (E := Sender) o.

(** ** Outcomes *)

(** [src/internal/syncoidruntime/process.go:13-17 processResult] *)
Record processResult := { started : bool; pr_exitCode : Z; pr_err : goerr }.

(** [src/internal/syncoidruntime/runtime.go:18-21 Outcome] *)
Record Outcome := { exitCode : Z; failureMessage : string }.

(** [src/internal/syncoidruntime/runtime.go:11-15 fallbackExitCode] *)
Definition syncoidExecutable : string := "syncoid".
Definition maxFailureMessageBytes : nat := 16 * 16 * 16.
Definition fallbackExitCode : Z := 1.

(** [src/internal/syncoidruntime/runtime.go:98-100 normalizeFailureMessage] The loop, with a bound on
    its iterations. *)
Fixpoint trim_invalid (fuel : nat) (message : string) : string :=
  if ValidString message then message
  else match fuel with
       | O => message
       | S n => trim_invalid n (str_take (String.length message - 1) message)
       end.

(** [src/internal/syncoidruntime/runtime.go:91-102 normalizeFailureMessage] *)
Definition normalizeFailureMessage (message : string) : string :=
  let message := ToValidUTF8 message (EncodeRune 65533) in
  let message := Join (Fields message) " " in
  if (String.length message <=? maxFailureMessageBytes)%nat then message
  else trim_invalid maxFailureMessageBytes (str_take maxFailureMessageBytes message).

(** [src/internal/syncoidruntime/runtime.go:80-89 failedOutcome] *)
Definition failedOutcome (code : Z) (message : string) : Outcome :=
  let message := normalizeFailureMessage message in
  {| exitCode := if code <=? 0 then fallbackExitCode else code;
     failureMessage := if message ≟ "" then "syncoid failed" else message |}.

Section sender.
Context `{UnicodeTables}.

(** [src/internal/syncoidruntime/process.go:21-40 execProcess] *)
Definition execProcess (name : string) (arguments : list string) : sender processResult :=
  r ← scall (RunCommand name arguments);
  Ret (match r.2 with
       | None => {| started := false; pr_exitCode := -1; pr_err := r.1 |}
       | Some code => {| started := true; pr_exitCode := code; pr_err := r.1 |}
       end).

(** [src/internal/syncoidruntime/runtime.go:59-70 run] *)
Definition start_message (r : processResult) : string :=
  if negb (started r) then
    match pr_err r with
    | Some e => "start syncoid: " +:+ Error e
    | None => "start syncoid: process did not start"
    end
  else
    match pr_err r with
    | Some e => "syncoid failed: " +:+ Error e
    | None => "syncoid failed without a usable exit status"
    end.

(** [src/internal/syncoidruntime/runtime.go:34-78 Run] *)
Definition Run (arguments : list string) : sender Outcome :=
  r ← execProcess syncoidExecutable arguments;
  if started r && (pr_exitCode r =? 0) && (pr_err r ≟ None) then
    Ret {| exitCode := 0; failureMessage := "" |}
  else if started r && (0 <? pr_exitCode r) then
    Ret (failedOutcome (pr_exitCode r)
           (syncoidExecutable +:+ " exited with status " +:+ FormatInt (pr_exitCode r)))
  else
    let outcome := failedOutcome fallbackExitCode (start_message r) in
    _ ← scall (PrintError (failureMessage outcome +:+ nl));
    Ret outcome.

(** [src/cmd/zfsrep-sender/main.go:13-13 terminationMessagePath] *)
Definition terminationMessagePath : string := "/dev/termination-log".

(** [src/cmd/zfsrep-sender/main.go:46-66 run] The exit code of the process. *)
Definition sender_main (arguments : list string) : sender Z :=
  outcome ← Run arguments;
  if exitCode outcome =? 0 then Ret 0
  else
    e ← scall (Publish terminationMessagePath (failureMessage outcome) 384);
    match e with
    | Some e => _ ← scall (PrintError ("publish Sender Failure Message: " +:+ Quote (Error e) +:+ nl));
                Ret (exitCode outcome)
    | None => Ret (exitCode outcome)
    end.

End sender.

(** ** Failure messages *)

Lemma str_take_take n k s : (k ≤ n)%nat → str_take k (str_take n s) = str_take k s.
Proof.
  revert n s. induction k as [|k IH]; intros n s Hn; [done|]. destruct n as [|n]; [lia|].
  destruct s as [|c s]; [done|]. cbn. by rewrite IH by lia.
Qed.

Lemma has_byte_take c n s : has_byte c s = false → has_byte c (str_take n s) = false.
Proof.
  intros Hs. rewrite <- (str_take_drop n s), has_byte_app in Hs. by apply orb_false_iff in Hs as [-> _].
Qed.

(** The loop ends at the longest valid prefix. *)
Lemma trim_invalid_spec fuel n s :
  (n ≤ fuel)%nat → (n ≤ String.length s)%nat →
  ∃ k, (k ≤ n)%nat ∧ trim_invalid fuel (str_take n s) = str_take k s ∧ ValidString (str_take k s) = true ∧
       ∀ j, (j ≤ n)%nat → ValidString (str_take j s) = true → (j ≤ k)%nat.
Proof.
  revert n. induction fuel as [|fuel IH]; intros n Hf Hn; cbn [trim_invalid].
  { assert (n = 0%nat) as -> by lia. exists 0%nat. split_and!; [done| |done|by intros].
    by destruct (ValidString (str_take 0 s)). }
  destruct (ValidString (str_take n s)) eqn:E; [by exists n|].
  rewrite length_str_take. replace (Nat.min n (String.length s) - 1)%nat with (n - 1)%nat by lia.
  rewrite str_take_take by lia. destruct (IH (n - 1)%nat) as (k & Hk & -> & Hv & Hmax); [lia..|].
  exists k. split_and!; [lia|done..|]. intros j Hj Hvj. apply Hmax; [|done].
  assert (j ≠ n) by congruence. lia.
Qed.

(** The message before it is cut. *)
Definition one_line (message : string) : string :=
  Join (Fields (ToValidUTF8 message (EncodeRune 65533))) " ".

Lemma one_line_valid message : ValidString (one_line message) = true.
Proof. apply valid_Join; [|done]. by apply valid_Fields, valid_ToValidUTF8. Qed.

Lemma one_line_no_byte c message :
  (byte_val c < 128)%N → IsSpace (byte_val c) = true → c ≠ " "%char → has_byte c (one_line message) = false.
Proof.
  intros Hc Hs Hne. unfold one_line. pose proof (Fields_no_byte c (ToValidUTF8 message (EncodeRune 65533)) Hc Hs) as Hall.
  induction Hall as [|p parts Hp Hparts IH]; [done|]. destruct parts as [|q parts]; [done|].
  rewrite Join_cons, !has_byte_app, Hp, IH by done. cbn. rewrite !orb_false_r.
  apply bool_decide_eq_false. congruence.
Qed.

(** The message is a valid prefix, the longest below the limit. *)
Lemma normalize_prefix message :
  ∃ k, normalizeFailureMessage message = str_take k (one_line message) ∧ (k ≤ maxFailureMessageBytes)%nat ∧
    ValidString (str_take k (one_line message)) = true ∧
    ((String.length (one_line message) ≤ maxFailureMessageBytes)%nat → k = String.length (one_line message)) ∧
    ((maxFailureMessageBytes < String.length (one_line message))%nat → (maxFailureMessageBytes ≤ k + 3)%nat).
Proof.
  unfold normalizeFailureMessage. fold (one_line message). pose proof (one_line_valid message) as Hv.
  set (full := one_line message) in *. clearbody full. generalize maxFailureMessageBytes. intros limit.
  destruct (Nat.leb_spec (String.length full) limit) as [Hle|Hgt].
  - exists (String.length full). rewrite str_take_all by done. split_and!; [done|done|done|done|lia].
  - destruct (trim_invalid_spec limit limit full) as (k & Hk & -> & Hvk & Hmax); [lia..|].
    destruct (valid_prefix full limit Hv) as (j & Hj & Hvj); [lia|].
    pose proof (Hmax j ltac:(lia) Hvj) as Hjk. exists k. split_and!; [done|lia|done|lia|lia].
Qed.

(** C40. A failure message is valid UTF-8 on one line, of at most 4096 bytes; it is the
    whole message in that form when that fits, and otherwise its beginning, cut at most
    three bytes short of the limit. *)
Theorem failure_message_bounds message :
  let full := one_line message in
  let result := normalizeFailureMessage message in
  ValidString result = true ∧ (String.length result ≤ 4096)%nat ∧
  (∀ c, (byte_val c < 128)%N → IsSpace (byte_val c) = true → c ≠ " "%char → has_byte c result = false) ∧
  ((String.length full ≤ 4096)%nat → result = full) ∧
  ((4096 < String.length full)%nat → HasPrefix full result = true ∧ (4093 ≤ String.length result)%nat).
Proof.
  intros full result. unfold result. destruct (normalize_prefix message) as (k & -> & Hk & Hv & Hle & Hgt).
  fold full in Hv, Hle, Hgt |- *. change 4096%nat with maxFailureMessageBytes.
  change 4093%nat with (maxFailureMessageBytes - 3)%nat. rewrite length_str_take. split_and!.
  - done.
  - lia.
  - intros. by apply has_byte_take, one_line_no_byte.
  - intros Hl. rewrite (Hle Hl). by apply str_take_all.
  - intros Hl. specialize (Hgt Hl). split; [|lia]. apply HasPrefix_spec. exists (str_drop k full). by rewrite str_take_drop.
Qed.

(** ** The run *)

(** The exit code for the result of the process. *)
Definition code_of (r : goerr * option Z) : Z :=
  match r.2 with
  | Some code => if 0 <? code then code else if bool_decide (code = 0) && bool_decide (r.1 = None) then 0 else fallbackExitCode
  | None => fallbackExitCode
  end.

(** What the controller can show: a line that is not empty. *)
Definition showable (message : string) : Prop :=
  message ≠ "" ∧ ValidString message = true ∧ (String.length message ≤ 4096)%nat.

Lemma failedOutcome_spec code message :
  exitCode (failedOutcome code message) = (if code <=? 0 then fallbackExitCode else code) ∧
  showable (failureMessage (failedOutcome code message)).
Proof.
  split; [done|]. unfold failedOutcome. cbn [failureMessage].
  destruct (normalize_prefix message) as (k & -> & Hk & Hv & _ & _). set (m := str_take _ _) in *.
  destruct (m ≟ "") eqn:E; [split_and!; [done|done|cbn; lia]|]. apply bool_decide_eq_false in E. split_and!; [done|done|].
  unfold m. rewrite length_str_take. change 4096%nat with maxFailureMessageBytes. lia.
Qed.

Section sender_run.
Context `{UnicodeTables}.

Lemma Run_exec arguments tr outcome :
  exec (Run arguments) tr outcome →
  ∃ r t, tr = Event (E := Sender) (RunCommand syncoidExecutable arguments) r :: t ∧
    exitCode outcome = code_of r ∧ (code_of r ≠ 0 → showable (failureMessage outcome)) ∧
    ∀ ev, ev ∈ t → ∃ text, ev_op (E := Sender) ev = PrintError text.
Proof.
  intros Hx. apply exec_bind in Hx as (t1 & t2 & pr & -> & Hp & Hx).
  apply (exec_op (E := Sender) (RunCommand syncoidExecutable arguments)) in Hp as (r & t3 & -> & [-> <-]%exec_Ret).
  exists r, t2. split; [done|]. destruct r as [e [code|]]; cbn [started pr_exitCode pr_err fst snd andb] in *.
  - destruct ((code =? 0) && (e ≟ None)) eqn:E0.
    { apply andb_true_iff in E0 as [->%Z.eqb_eq ->%bool_decide_eq_true]. apply exec_Ret in Hx as [-> <-].
      split_and!; [done|done|]. by intros ev ?%elem_of_nil. }
    destruct (0 <? code) eqn:E1.
    { apply exec_Ret in Hx as [-> <-]. destruct (failedOutcome_spec code
        (syncoidExecutable +:+ " exited with status " +:+ FormatInt code)) as [-> Hs].
      unfold code_of. cbn [snd]. rewrite E1. apply Z.ltb_lt in E1. rewrite (proj2 (Z.leb_gt _ _)) by lia.
      split_and!; [done|done|]. by intros ev ?%elem_of_nil. }
    destruct (failedOutcome_spec fallbackExitCode (start_message {| started := true; pr_exitCode := code; pr_err := e |}))
      as [Hc Hs].
    apply (exec_op (E := Sender) (PrintError _)) in Hx as (x & t & -> & [-> <-]%exec_Ret).
    unfold code_of. cbn [fst snd]. rewrite E1. assert (bool_decide (code = 0) && bool_decide (e = None) = false) as ->.
    { destruct (decide (code = 0)) as [->|?]; [done|]. by rewrite bool_decide_false. }
    split_and!; [done|done|]. intros ev ->%list_elem_of_singleton. by eexists.
  - destruct (failedOutcome_spec fallbackExitCode (start_message {| started := false; pr_exitCode := -1; pr_err := e |}))
      as [Hc Hs].
    apply (exec_op (E := Sender) (PrintError _)) in Hx as (x & t & -> & [-> <-]%exec_Ret).
    split_and!; [done|done|]. intros ev ->%list_elem_of_singleton. by eexists.
Qed.

(** C39. The sender runs Syncoid once with the arguments it was given. It exits with
    zero exactly when Syncoid started, exited with zero and reported no error, and
    otherwise with Syncoid's positive exit status, or one; and then, only then and
    once, it leaves a message for the controller that is not empty, valid and within
    the limit. *)
Theorem sender_exit arguments tr code :
  exec (sender_main arguments) tr code →
  ∃ r t, tr = Event (E := Sender) (RunCommand syncoidExecutable arguments) r :: t ∧ code = code_of r ∧
    (code = 0 ↔ r = (None, Some 0)) ∧
    (∀ ev, ev ∈ t → ∀ name args, ev_op (E := Sender) ev ≠ RunCommand name args) ∧
    (code = 0 → ∀ ev, ev ∈ t → ∃ text, ev_op (E := Sender) ev = PrintError text) ∧
    (code ≠ 0 → ∃ t1 message e t2, showable message ∧
       t = t1 ++ Event (E := Sender) (Publish terminationMessagePath message 384) e :: t2 ∧
       ∀ ev, ev ∈ t1 ++ t2 → ∃ text, ev_op (E := Sender) ev = PrintError text).
Proof.
  intros Hx. apply exec_bind in Hx as (t1 & t2 & outcome & -> & Hr & Hx).
  apply Run_exec in Hr as (r & t & -> & Hc & Hshow & Hev). exists r, (t ++ t2). split; [done|].
  assert (∀ r, code_of r = 0 ↔ r = (None, Some 0)) as Hzero.
  { intros [e [c|]]; unfold code_of; cbn [fst snd]; [|done].
    destruct (Z.ltb_spec 0 c); [split; [lia|intros [= -> ->]; lia]|].
    destruct (decide (c = 0)) as [->|?]; [destruct e; naive_solver|]. rewrite bool_decide_false by done.
    split; [done|naive_solver]. }
  destruct (exitCode outcome =? 0) eqn:E.
  - apply exec_Ret in Hx as [-> <-]. apply Z.eqb_eq in E. rewrite E in Hc. rewrite app_nil_r.
    split_and!; [done|by rewrite <- (Hzero r), <- Hc| |done|done].
    intros ev Hin name args Hop. destruct (Hev ev Hin) as [text Ht]. congruence.
  - apply Z.eqb_neq in E. rewrite Hc in E.
    apply (exec_op (E := Sender) (Publish _ _ _)) in Hx as (e & t3 & -> & Hx).
    assert (code = exitCode outcome ∧ ∀ ev, ev ∈ t3 → ∃ text, ev_op (E := Sender) ev = PrintError text) as [-> H3].
    { destruct e as [e|]; [|apply exec_Ret in Hx as [-> ->]; split; [done|by intros ev ?%elem_of_nil]].
      apply (exec_op (E := Sender) (PrintError _)) in Hx as (x & t4 & -> & [-> ->]%exec_Ret).
      split; [done|]. intros ev ->%list_elem_of_singleton. by eexists. }
    rewrite Hc. split_and!; [done|apply Hzero| |done|].
    + intros ev [Hin|[->|Hin]%elem_of_cons]%elem_of_app name args Hop; [|done|];
        [destruct (Hev ev Hin) as [text Ht]|destruct (H3 ev Hin) as [text Ht]]; congruence.
    + intros _. exists t, (failureMessage outcome), e, t3. split; [by apply Hshow|]. split; [done|].
      intros ev [Hin|Hin]%elem_of_app; [by apply Hev|by apply H3].
Qed.

End sender_run.

(** ** Concrete runs *)

Definition serve_sender (result : goerr * option Z) (o : sender_op) (_ : unit) : sender_ans o * unit :=
  match o return sender_ans o * unit with
  | RunCommand _ _ => (result, tt)
  | PrintError _ | Publish _ _ _ => (None, tt)
  end.

Definition sender_run (result : goerr * option Z) : list sevent * Z * unit :=
  run_with (E := Sender) (serve_sender result) (@sender_main Names.ascii_tables ["pool/a"; "host:pool/b"]) tt.

(** A status, a signal, and a program that is not there. *)
Example sender_runs :
  (sender_run (None, Some 0)).1.2 = 0 ∧ (sender_run (Some (errorf "exit status 2" []), Some 2)).1.2 = 2 ∧
  (sender_run (Some (errorf "signal: killed" []), Some (-1))).1.2 = 1 ∧
  ev_op (E := Sender) <$> (sender_run (Some (errorf "exec: not found" []), None)).1.1 =
    [RunCommand "syncoid" ["pool/a"; "host:pool/b"];
     PrintError ("start syncoid: exec: not found" +:+ nl);
     Publish "/dev/termination-log" "start syncoid: exec: not found" 384].
Proof. vm_compute. by split_and!. Qed.

Lemma sender_exit_witness : ∃ r, (sender_run (Some (errorf "exit status 2" []), Some 2)).1.2 = code_of r.
Proof.
  destruct (@sender_exit Names.ascii_tables ["pool/a"; "host:pool/b"]
    (sender_run (Some (errorf "exit status 2" []), Some 2)).1.1
    (sender_run (Some (errorf "exit status 2" []), Some 2)).1.2) as (r & t & _ & Hc & _).
  - pose proof (run_with_exec (E := Sender) (serve_sender (Some (errorf "exit status 2" []), Some 2))
      (@sender_main Names.ascii_tables ["pool/a"; "host:pool/b"]) tt) as Hx.
    unfold sender_run. destruct (run_with _ _ tt) as [[tr a] s']. exact Hx.
  - exists r. exact Hc.
Defined.
