(* ===== verification/Manager.v ===== *)
(** * The controller manager (cmd/manager/main.go, internal/release/image.go)

    Its configuration, and the order in which it is put together. *)
From S2P Require Import Prelude GoStrings GoErrors Api ReceiverSnapshot Effects Kube RunController.
Local Open Scope Z_scope.

(** [src/internal/release/image.go:8-14 RequiredImage] *)
Definition RequiredImage (lookup : string → string) : result string :=
  let image := lookup "RELEASE_IMAGE" in
  if TrimSpace image ≟ "" then
    Err (errorf "release image environment variable RELEASE_IMAGE must not be empty" [])
  else Ok image.

(** [src/cmd/manager/main.go:98-109 managerOptions] The namespaces of the cache, all when there is
    none. *)
Record Options := {
  HealthProbeBindAddress : string;
  MetricsBindAddress : string;
  DefaultNamespaces : option string }.

(** [src/cmd/manager/main.go:97-110 managerOptions] *)
Definition managerOptions (metricsAddr probeAddr watchNamespace : string) : Options :=
  let watchNamespace := TrimSpace watchNamespace in
  {| HealthProbeBindAddress := probeAddr;
     MetricsBindAddress := metricsAddr;
     DefaultNamespaces := if watchNamespace ≠? "" then Some watchNamespace else None |}.

(** The calls of the client libraries, and the run of the manager to its end. *)
Inductive manager_op :=
  | LoadConfig
  | MakeManager (opts : Options)
  | SetupRuns (r : RunReconciler)
  | SetupSchedules
  | AddCheck (name : string)
  | RunToEnd
  | PrintLine (e : error).

Definition Manager : sig := {| op := manager_op; ans := λ _, goerr |}.

Definition mcall (o : manager_op) : prog Manager goerr := call (E := Manager) o.

Definition mwrap (p : prog Manager goerr) (format : string) : prog Manager goerr :=
  e ← p; Ret (option_map (λ e, errorf format [FErr e]) e).

Section manager.
Context (Getenv : string → string).
(** The flags the libraries of the manager register beside its own. *)
Context (library_flags : list string).

(** [src/cmd/manager/main.go:41-45 runManager] The values of the flags. *)
Definition manager_flags (args : list string) : result (string * string * string) :=
  '(values, _) ← parse_flags
    (["metrics-bind-address"; "health-probe-bind-address"; "watch-namespace"] ++ library_flags) args ∅;
  Ok (default "0" (values !! "metrics-bind-address"), default ":8081" (values !! "health-probe-bind-address"),
      default (Getenv "WATCH_NAMESPACE") (values !! "watch-namespace")).

(** [src/cmd/manager/main.go:46-95 runManager] *)
Definition runManager (metricsAddr probeAddr watchNamespace : string) : prog Manager goerr :=
  match RequiredImage Getenv with
  | Err e => Ret (Some e)
  | Ok releaseImage =>
      mwrap (mcall LoadConfig) "get Kubernetes configuration: %w" ;;?
      mwrap (mcall (MakeManager (managerOptions metricsAddr probeAddr watchNamespace))) "create manager: %w" ;;?
      mwrap (mcall (SetupRuns {| hasAPIReader := true; ReleaseImage := releaseImage;
                               ReceiverNamespace := Getenv "POD_NAMESPACE" |})) "set up replication run controller: %w" ;;?
      mwrap (mcall SetupSchedules) "set up replication schedule controller: %w" ;;?
      mwrap (mcall (AddCheck "healthz")) "add manager health check: %w" ;;?
      mwrap (mcall (AddCheck "readyz")) "add manager readiness check: %w" ;;?
      mwrap (mcall RunToEnd) "run manager: %w"
  end.

(** [src/cmd/manager/main.go:26-38 managerMain] The exit code of the process; [flag.Parse] ends
    it with code 2 on an error, and with 0 when help is asked for. *)
Definition managerMain (args : list string) : prog Manager Z :=
  match manager_flags args with
  | Err (errorf format _) => Ret (if format ≟ "flag: help requested" then 0 else 2)
  | Err _ => Ret 2
  | Ok (metricsAddr, probeAddr, watchNamespace) =>
      e ← runManager metricsAddr probeAddr watchNamespace;
      match e with
      | None => Ret 0
      | Some e => _ ← mcall (PrintLine e); Ret 1
      end
  end.

End manager.

(** The run controller gets a release image that is not blank. *)
Definition manager_call (o : manager_op) : Prop :=
  match o with SetupRuns r => hasAPIReader r = true ∧ TrimSpace (ReleaseImage r) ≠ "" | _ => True end.

Lemma managerMain_image Getenv library args :
  only (E := Manager) manager_call (managerMain Getenv library args).
Proof.
  assert (∀ (p q : prog Manager goerr), only (E := Manager) manager_call p → only (E := Manager) manager_call q →
    only (E := Manager) manager_call (p ;;? q)) as Hthen by (intros p q Hp Hq; apply only_bind; [done|by intros [e|]]).
  assert (∀ o format, manager_call o → only (E := Manager) manager_call (mwrap (mcall o) format)) as Hop by (by intros o f Ho).
  unfold managerMain. destruct (manager_flags Getenv library args) as [[[metricsAddr probeAddr] ns]|[]]; try done.
  apply only_bind; [|by intros [e|]]. unfold runManager, RequiredImage.
  destruct (TrimSpace (Getenv "RELEASE_IMAGE") ≟ "") eqn:E; [done|]. apply bool_decide_eq_false in E.
  repeat (apply Hthen; [by apply Hop|]). by apply Hop.
Qed.

(** The controllers are set up only with a release image. *)
Example no_image_no_controllers :
  evaluate (E := Manager) (λ _, None) (managerMain (λ _, " ") [] []) = 1 ∧
  evaluate (E := Manager) (λ _, None) (managerMain (λ k, if k ≟ "RELEASE_IMAGE" then "repo/image:1" else "") ["kubeconfig"] ["--kubeconfig"; "f"]) = 0 ∧
  evaluate (E := Manager) (λ _, None) (managerMain (λ _, "") [] ["--unknown"]) = 2 ∧
  manager_flags (λ _, "ns") [] ["-metrics-bind-address=:9090"] = Ok (":9090", ":8081", "ns").
Proof. vm_compute. by split_and!. Qed.
